(* ===== verification/_CoqProject ===== *)
-Q . S2P
Prelude.v
Bytes.v
Externals.v
StorageKey.v
NetAddr.v
GigantoClient.v
Events.v
Filters.v
Storage.v
StorageSpec.v
Demo.v
Pagination.v
PaginationSpec.v
Channels.v
Ingest.v
IngestSpec.v
Sources.v
Publish.v
PublishSpec.v
Statistics.v
StatisticsSpec.v
Nodes.v
ExportJson.v
Export.v
ExportSpec.v
Merge.v
MergeSpec.v
MergeWalk.v
SocketAddr.v
Config.v
ConfigSpec.v
Peer.v
PeerSpec.v
PeerRun.v
PeerRaces.v
PeerDial.v
PeerDemo.v
Cluster.v
ClusterSpec.v
ClusterLists.v
ClusterDemo.v
Migration.v
MigrationSpec.v
Resolvers.v
ResolversSpec.v
Lifecycle.v
LifecycleSpec.v
LifecycleDemo.v
Transport.v
Startup.v
SettingsFile.v
Web.v
System.v
SystemSpec.v
Live.v
LiveSpec.v
Plane.v
PlaneSpec.v
EndToEnd.v
