(* ===== verification/Prelude.v ===== *)
(** * Giganto: a verification library for the raw-event storage system

    Giganto receives raw events from agents over QUIC, keeps them in RocksDB
    under keys made of the source and the time stamp, forwards them live to
    subscribers, answers requests for them from other nodes, and serves GraphQL
    queries and exports over them.  This library models the Rust code of the
    repository as Rocq functions and proves what makes each part correct.

    ** The parts of the program and the files of the library

    - [Bytes], [Externals], [GigantoClient], [NetAddr]: byte strings and machine
      integers; the interfaces of the libraries the code calls (RocksDB, chrono,
      bincode, base64) as classes of operations with their documented laws, each
      with an instance that satisfies the laws; the event types of giganto-client
      the repository reads; [IpAddr] of the standard library with its parser and
      its text.  Strings are their UTF-8 bytes.
    - [StorageKey] (storage.rs: [StorageKey], [StorageKeyBuilder]; graphql.rs:
      [get_timestamp_from_key]): keys are [source NUL (mid NUL)? timestamp] with
      the time stamp as eight big-endian bytes of an [i64].  The byte order of
      RocksDB is the time order of one source, for time stamps after the epoch.
    - [Events], [Filters] (ingest/implement.rs [EventFilter]; graphql.rs and the
      filters of graphql/*.rs): what a filter sees of an event, and the
      [KeyExtractor] and [RawEventFilter] of the eight filters.
    - [Storage], [StorageSpec] (storage.rs): column families, typed stores, the
      boundary, statistics and filtered iterators as step functions ([Iterator],
      [Peekable]), one tick of [retain_periodically].
    - [Pagination], [PaginationSpec] (graphql.rs): [get_connection],
      [load_connection], [collect_records], [get_filtered_iter] and the search by
      time stamps.
    - [Nodes], [Merge], [MergeSpec], [MergeWalk] (graphql/network.rs, sysmon.rs,
      export/netflow.rs): the GraphQL node types and their conversions;
      [network_raw_events] and [network_connection], the merge of the sixteen
      network stores.
    - [Statistics], [StatisticsSpec] (graphql/statistics.rs): the iterators per
      core, the merge and the totals, rates as IEEE doubles ([SpecFloat]).
    - [ExportJson], [Export], [ExportSpec] (graphql/export.rs,
      export/netflow.rs): the checks and the dispatch of an export, the JSON
      records and the file a task writes.
    - [Channels] (publish.rs [send_direct_stream], publish/implement.rs,
      ingest.rs [NetworkKey]): the map of subscriptions shared by the ingest and
      publish services, its keys and the frames sent.
    - [Ingest], [IngestSpec] (ingest.rs [handle_request], [handle_data]): the
      dispatch by event kind, the key and bytes an event is stored under, and the
      two concurrent tasks of [handle_data], the receiver and the interval
      acknowledger, as step functions over the state they share.
    - [Sources] (ingest.rs [handle_connection], [check_sources_conn]): the
      registry of live sources.
    - [System], [SystemSpec] (ingest.rs, storage.rs): the data plane as one
      system: any number of ingest streams, the registry, the subscriptions and
      the retention task, one access to the database a step, on one database.
    - [EndToEnd]: what is ingested is what a query finds, for one stream and for
      every run of the system.
    - [Publish], [PublishSpec] (publish.rs): range and raw-data requests, the
      tables of event kinds, the relay of capture requests, subscriptions and the
      forwarding of live events.
    - [Live], [LiveSpec] (publish.rs [send_stream], ingest.rs [handle_data]): a
      subscription step by step beside the stream of its source.
    - [Plane], [PlaneSpec] (publish.rs [send_stream], ingest.rs, storage.rs): the
      system with every subscription at its own position in [send_stream]; a run
      of it is one of [System].
    - [SocketAddr], [Config], [ConfigSpec] (settings.rs, graphql/status.rs):
      socket addresses with their text, the address options of the settings, and
      the queries that read and change the configuration file.
    - [SettingsFile] (settings.rs): the settings as the defaults, the file over
      them and the deserializers of the fields, against the config crate as an
      interface.
    - [Peer], [PeerSpec], [PeerRun], [PeerRaces], [PeerDial], [PeerDemo]
      (peer.rs): the messages of the peer service, its tables, what a connection
      does to them when it runs alone, the same tasks as steps that interleave,
      runs in which they disturb each other, and the dialers that make and renew
      the connections.
    - [Cluster], [ClusterSpec], [ClusterLists], [ClusterDemo] (peer.rs): any
      number of such nodes with the connections between them.  A step is one access
      of one task of one node, so that both ends of a connection check, read their
      lists, exchange them, learn, share and register in steps of their own beside
      all other tasks; a dialer that has returned never dials again.
    - [Transport] (server.rs and the openings of the connections in ingest.rs,
      publish.rs and peer.rs): the configurations of TLS, whom they let in, and
      the names in the certificates.
    - [Web] (web.rs, graphql/status.rs): the routes as filters, and the queries of
      the status.
    - [Migration], [MigrationSpec] (storage/migration.rs): the VERSION file, the
      table of migrations and their loop.
    - [Resolvers], [ResolversSpec] (graphql/network.rs, sysmon.rs, log.rs,
      packet.rs, timeseries.rs, security.rs, source.rs): the resolvers over one
      store, the searches by time stamp, the packet dump.
    - [Lifecycle], [LifecycleSpec], [LifecycleDemo] (main.rs, web.rs and the
      loops of ingest.rs, publish.rs, peer.rs, storage.rs): the daemon with the
      tasks of its generations and the notification they share.
    - [Startup] (main.rs, storage.rs): the command line, the options of the
      database, and [main] up to the start of the services.
    - [Demo]: a database in memory with which the hypotheses of the theorems are
      met and the definitions evaluated.

    [Startup] reads the settings of [SettingsFile], opens the database, lets
    [Migration] bring it up to date and starts the services of [Lifecycle]; a
    change made through [Config] makes it restart them.  [Transport] gives the
    services the name of who connects, under which [Sources] registers it and
    [Ingest] stores its events.  [Peer] writes the configuration file with
    the functions of [Config].
    The data parts meet in three places.  [Ingest] writes through [Storage] under the
    keys of [StorageKey] and sends through [Channels]; [Publish] puts receivers
    into the same [Channels] and reads [Storage]; [Pagination], [Merge],
    [Statistics] and [Export] read [Storage] over the key ranges of [StorageKey]
    with the filters of [Filters].  Client theorems about the database are proved
    against the class [RocksDBSpec] (a view of each column family as a finite
    map, its scans in byte order), never against the instance in memory.

    ** How code is modelled

    Fallible functions return [result]; functions that also change a database, a
    wire or a file are in the state and error monad [M].  A panic is an error.
    [i64] and [u64] arithmetic wraps where the code computes with it.  Tasks that
    run concurrently are programs with a position, and a run is any interleaving
    of their steps.  A loop over an iterator is its [drain]; merges of several
    iterators have a fuel of one more than the items left, and the theorems about
    them show that it is never used up (each round takes an item or drops an
    iterator: [MergeSpec.merge_loop_spec], [StatisticsSpec.gen_loop_terminates],
    [ExportSpec.merge_values_order]).  The fuel of [PaginationSpec.walk], a client
    that follows cursors, is one more than the number of results.  The loop of the
    migrations has three rounds ([Migration.MIGRATION_FUEL]), one more than there
    are migrations, and [MigrationSpec.migration_terminates] shows that it
    returns.  The interleavings of [PeerRun] take the locks as the code does, one
    access a step; sending the lists to the connected peers is one step, and so is
    writing the file.  [Lifecycle] has no clock: a sleep is a step that may be
    taken at any moment, and the steps that need nothing from outside are shown
    to end.

    ** What is proved

    - Keys: distinct events have distinct keys; the key range of a time filter is
      exactly the half-open window of one source ([StorageKey]).
    - Storage: a boundary iterator yields exactly the entries between its bounds;
      in the column families keyed by source and time, retention deletes an event
      iff its source is registered and it is older than the limit, but not older
      than the first 61 seconds after the epoch; of the others it touches the logs
      only.
    - Queries: a search finds exactly the stored events of the window that pass
      the filter, pages follow each other without loss or repetition; a page of
      the merged network query is a prefix of the one time-ordered merge of all
      stores, and its pages follow each other too when no two events share a key;
      statistics have one entry per time stamp with the totals of all cores; an
      export has one line per event, or on a full disk the bytes of them that fit.
    - Ingestion: the receiver refines a loop over the events; in every
      interleaving only stored events are acknowledged, storing happens in the
      order received and the shared counter stays bounded.
    - The data plane: whatever the streams, connections, subscribers and retention
      ticks do in whatever order, an acknowledged event is found by a search until
      a retention limit has passed it, and nothing is found that was not sent; the
      retention task run step by step does what its loop does.
    - Subscriptions: a crusher gets every stored event of its source and then every
      new one; a hog gets from each of any number of ingest streams exactly what
      the stream forwards while its keys are registered, a copy for each key that
      fits (so twice what comes from a source it names beside [all]); a
      subscription whose keys an older one of the same name has taken away gets
      nothing more.
    - Access: a source is registered only for a client whose certificate chain
      leads to a root of the configuration and whose certificate names it.
    - Publishing: a live event reaches exactly the matching subscriptions; a range
      response is exact; in every interleaving with the ingestion of its source a
      crusher gets every stored event its filter accepts and then every new one,
      in order and none left out.
    - Configuration: what was set is what is read, with a reload scheduled; an
      error changes no file, but for a full disk; what was set is what the daemon
      loads afterwards, the list of peers included; without the three options that
      have no default it does not start.
    - Peers: a received list adds exactly the peers at other addresses and queues
      each once; two nodes that connect undisturbed know each other afterwards; in every
      interleaving no peer is lost before it is dialed and each entry of the
      table of connections is served; every known peer is dialed, and again after
      a loss unless it closed the connection itself.  In every run of a cluster a
      node knows only nodes that exist, a registered connection leads to the node
      of its name, which is known, and a list that is shared reaches everybody it
      is shared with.
    - Migration: releases 0.10 to 0.12 are brought to the current format, also
      when a migration was interrupted; the services start on compatible data
      only.
    - Life cycle: a reload that every task hears of restarts the services, in
      whatever order the tasks stop.
    - Behaviour one may not expect is stated as theorems too: a reload the ingest
      service does not hear of hangs the daemon; a task that misses it is never
      told to stop; a late close removes the entry of a reconnected source; a
      closed subscriber stops an ingestion; cursors skip equal keys of other
      stores; iterators of one source leak into the statistics of the next; the
      statistics export loses records or panics; an update of the sources that is
      overtaken leaves the older list behind; two nodes that dial a third at once
      may never learn of each other; a learnt peer can be lost from
      the saved configuration; a retention period that reaches back before the
      epoch deletes all events keyed by source and time but those of the first
      61 seconds; an event stored while a subscription starts can be
      sent twice; an address that is none can be set, and the
      daemon does not start with it; only the first certificate of a root file
      counts.

    ** What is not modelled

    The endpoints of QUIC: a connection is made, refused or lost at any moment.
    rustls, x509_parser, toml_edit, the config crate, semver, roxy, async_graphql
    and the encodings of bincode and serde_json are interfaces, and so is the text
    of an event; the combinators of warp are written as the functions they denote.
    The tracing subscriber and the signal handler are parameters of [main];
    logging and the counters of the benchmark feature are left out.  The timers
    of the periodic tasks fire at any moment. *)

From Stdlib Require Import ZArith Lia.
From stdpp Require Export base numbers option list gmap sets strings sorting.
#[global] Open Scope Z_scope.

Declare Scope giganto_scope.
Delimit Scope giganto_scope with giganto.
#[global] Open Scope giganto_scope.

(** ** Results

    Rust's [Result<T, anyhow::Error>]; the error is the message. *)
Inductive result (A : Type) : Type :=
| Ok (a : A)
| Err (e : string).
Arguments Ok {A} a.
Arguments Err {A} e.

#[export] Instance result_eq_dec `{EqDecision A} : EqDecision (result A).
Proof. solve_decision. Defined.

#[export] Instance Ok_inj A : Inj (=) (=) (@Ok A).
Proof. by intros x y [= ->]. Qed.

#[export] Instance result_ret : MRet result := @Ok.
#[export] Instance result_bind : MBind result := λ A B f r,
  match r with Ok a => f a | Err e => Err e end.
#[export] Instance result_fmap : FMap result := λ A B f r,
  match r with Ok a => Ok (f a) | Err e => Err e end.

(** [r.ok()] *)
Definition result_ok {A} (r : result A) : option A :=
  match r with Ok a => Some a | Err _ => None end.

(** [opt.context(msg)], [opt.ok_or_else(..)] *)
Definition context {A} (msg : string) (o : option A) : result A :=
  match o with Some a => Ok a | None => Err msg end.

(** [res.map_err(|_| msg)]: only the message of the error changes. *)
Definition map_err {A} (msg : string) (r : result A) : result A :=
  match r with Ok a => Ok a | Err _ => Err msg end.

Definition is_ok {A} (r : result A) : bool :=
  match r with Ok _ => true | Err _ => false end.

(** The successful items of a list of results, in order. *)
Definition oks {A} (l : list (result A)) : list A := omap result_ok l.

(** ** State and errors

    Operations on a shared mutable resource of type [S] that may fail. *)
Definition M (S A : Type) : Type := S → result A * S.

Definition m_ret {S A} (a : A) : M S A := λ s, (Ok a, s).
Definition m_lift {S A} (r : result A) : M S A := λ s, (r, s).
Definition m_bind {S A B} (m : M S A) (k : A → M S B) : M S B := λ s,
  match m s with
  | (Ok a, s') => k a s'
  | (Err e, s') => (Err e, s')
  end.
(** [if op.is_err() { error!(..) }]: the error is logged and dropped. *)
Definition m_ignore {S} (m : M S unit) : M S unit := λ s, (Ok tt, (m s).2).

Notation "x <-- m ;; k" := (m_bind m (λ x, k))
  (at level 100, m at next level, right associativity) : giganto_scope.
Notation "m ;;; k" := (m_bind m (λ _, k))
  (at level 100, right associativity) : giganto_scope.

(** A loop [for x in l { body(x)?; }]. *)
Fixpoint m_iter {S A} (body : A → M S unit) (l : list A) : M S unit :=
  match l with
  | [] => m_ret tt
  | x :: l' => body x ;;; m_iter body l'
  end.

(** Reads the resource. *)
Definition m_gets {S A} (f : S → result A) : M S A := λ s, (f s, s).

(** A loop invariant over the elements already treated. *)
Lemma m_iter_inv {S A} (body : A → M S unit) (Inv : list A → S → Prop) l s :
  (∀ done x rest s, l = done ++ x :: rest → Inv done s →
    ∃ s', body x s = (Ok tt, s') ∧ Inv (done ++ [x]) s') →
  Inv [] s → ∃ s', m_iter body l s = (Ok tt, s') ∧ Inv l s'.
Proof.
  intros Hstep.
  assert (∀ rest done s, l = done ++ rest → Inv done s →
    ∃ s', m_iter body rest s = (Ok tt, s') ∧ Inv l s') as Hgen.
  { induction rest as [|x rest IH]; intros done s0 Hl Hinv.
    - rewrite app_nil_r in Hl. subst. by exists s0.
    - destruct (Hstep done x rest s0 Hl Hinv) as (s1 & Hb & Hinv1).
      destruct (IH (done ++ [x]) s1) as (s2 & Hit & Hinv2);
        [by rewrite <- app_assoc|done|].
      exists s2. split; [|done]. cbn. unfold m_bind. by rewrite Hb. }
  intros Hinv. by apply (Hgen l []).
Qed.

(** ** Automation *)
Create HintDb giganto discriminated.

Ltac inv_result :=
  repeat match goal with
  | H : Ok _ = Ok _ |- _ => injection H as H
  | H : Ok _ = Err _ |- _ => discriminate H
  | H : Err _ = Ok _ |- _ => discriminate H
  | H : _ ≫= _ = Ok _ |- _ => unfold mbind, result_bind in H
  | H : match ?r with Ok _ => _ | Err _ => _ end = Ok _ |- _ =>
      destruct r eqn:?; [|discriminate H]
  end; subst.

(** Splits conjunctions and existentials in the hypotheses. *)
Ltac destr :=
  repeat match goal with
  | H : _ ∧ _ |- _ => destruct H
  | H : ∃ _, _ |- _ => destruct H
  | H : (_, _) = (_, _) |- _ => injection H as ??; subst
  end.

(** Discharges a closed side condition by evaluating it. *)
Ltac concrete :=
  solve [ reflexivity
        | exact I
        | refine (bool_decide_unpack _ _); vm_compute; exact I
        | vm_compute; repeat split; (reflexivity || discriminate)
        | intros; vm_compute in *; (reflexivity || discriminate || lia) ].

(** ** Generic lemmas *)
Section lists.
Context {A B : Type}.
Implicit Types l : list A.

Lemma oks_app (l1 l2 : list (result A)) : oks (l1 ++ l2) = oks l1 ++ oks l2.
Proof. apply omap_app. Qed.

Lemma oks_fmap_Ok l : oks (Ok <$> l) = l.
Proof. induction l as [|x l IH]; [done|]. cbn. f_equal. apply IH. Qed.

Lemma filter_true (P : A → Prop) `{∀ x, Decision (P x)} l :
  Forall P l → filter P l = l.
Proof.
  induction 1 as [|x l Hx _ IH]; [done|].
  rewrite filter_cons_True; [by rewrite IH|done].
Qed.

Lemma filter_nil_iff (P : A → Prop) `{∀ x, Decision (P x)} l :
  filter P l = [] ↔ Forall (λ x, ¬ P x) l.
Proof.
  induction l as [|x l IH]; [done|]. rewrite filter_cons, Forall_cons.
  destruct (decide (P x)) as [Hp|Hp]; naive_solver.
Qed.

Lemma take_ge_all l (n : nat) : (length l ≤ n)%nat → take n l = l.
Proof. apply take_ge. Qed.

(** The part of a list sorted for [R] cut by a predicate closed upwards. *)
Lemma sorted_filter (R : relation A) (P : A → Prop) `{∀ x, Decision (P x)} l :
  StronglySorted R l → StronglySorted R (filter P l).
Proof.
  induction 1 as [|x l Hl IH Hx]; [constructor|].
  rewrite filter_cons. case_decide; [|done]. constructor; [done|].
  apply Forall_forall. intros y Hy. rewrite list_elem_of_filter in Hy.
  eapply Forall_forall in Hx; naive_solver.
Qed.
End lists.

(** Weakening the relation of a sorted list, for its elements only. *)
Lemma StronglySorted_impl_elem {A} (R R' : relation A) l :
  (∀ x y, x ∈ l → y ∈ l → R x y → R' x y) → StronglySorted R l → StronglySorted R' l.
Proof.
  intros HR Hs. induction Hs as [|x l Hl IH Hx]; [constructor|]. constructor.
  - apply IH. intros y z Hy Hz. apply HR; by right.
  - rewrite Forall_forall in *. intros y Hy. apply HR; [left|by right|by apply Hx].
Qed.

(** *** Text *)

(** The line end [writeln!] appends *)
Definition newline : string := String (Ascii.ascii_of_nat 10) "".

Lemma string_length_app (s t : string) : String.length (s +:+ t) = (String.length s + String.length t)%nat.
Proof. induction s as [|c s IH]; [done|]. exact (f_equal S IH). Qed.

(** The first [n] characters *)
Lemma substring_app_l (n : nat) (s t : string) :
  (n ≤ String.length s)%nat → String.substring 0 n (s +:+ t) = String.substring 0 n s.
Proof.
  revert n. induction s as [|c s IH]; intros [|n] Hn; [by destruct t|cbn in Hn; lia|done|].
  exact (f_equal (String c) (IH n ltac:(cbn in Hn; lia))).
Qed.
Lemma substring_app_r (n : nat) (s t : string) :
  String.substring 0 (String.length s + n) (s +:+ t) = (s +:+ String.substring 0 n t)%string.
Proof. induction s as [|c s IH]; [done|]. exact (f_equal (String c) IH). Qed.

(** *** Replacing an element of a list *)
Section insert.
Context {A : Type}.
Implicit Types (l : list A) (x y z : A).

Lemma elem_of_insert_inv l (i : nat) x y : x ∈ <[i := y]> l → x = y ∨ x ∈ l.
Proof.
  intros (j & Hj)%list_elem_of_lookup. destruct (decide (i = j)) as [->|Hij].
  - assert (j < length l)%nat as Hlt.
    { rewrite <- (length_insert l j y). by eapply lookup_lt_Some. }
    rewrite list_lookup_insert_eq in Hj by done. left. congruence.
  - rewrite list_lookup_insert_ne in Hj by done. right. by eapply list_elem_of_lookup_2.
Qed.

Lemma insert_elem_kept l (i : nat) x z y :
  l !! i = Some x → z ∈ l → z ≠ x → z ∈ <[i := y]> l.
Proof.
  intros Hi (j & Hj)%list_elem_of_lookup Hne. apply list_elem_of_lookup. exists j.
  rewrite list_lookup_insert_ne; [done|]. intros ->. congruence.
Qed.

Lemma insert_elem_new l (i : nat) x y : l !! i = Some x → y ∈ <[i := y]> l.
Proof.
  intros Hi. apply list_elem_of_lookup. exists i. apply list_lookup_insert_eq.
  by eapply lookup_lt_Some.
Qed.

(** An element stays, or it was the one that is replaced. *)
Lemma elem_of_insert_cases l (i : nat) x y z :
  l !! i = Some x → z ∈ l → z = x ∨ z ∈ <[i := y]> l.
Proof.
  intros Hi (j & Hj)%list_elem_of_lookup. destruct (decide (i = j)) as [->|Hij]; [left; congruence|].
  right. apply list_elem_of_lookup. exists j. by rewrite list_lookup_insert_ne.
Qed.
End insert.

#[export] Hint Rewrite @oks_app @oks_fmap_Ok : giganto.
