(* ===== verification/Bytes.v ===== *)
(** * Byte strings: Rust's [[u8]] ordering and the integer codecs of [std]

    [Ord] on slices is lexicographic ([bytes_cmp]); [to_be_bytes],
    [from_be_bytes], [to_le_bytes] and [from_le_bytes] of the machine integers
    are written over [be_bytes], the big-endian digits of an integer.  The
    lemmas are the ones the storage keys rest on: the codecs round trip, equal
    length byte strings are ordered as the integers they spell, and a
    lexicographic interval between two extensions of a prefix contains only
    extensions of that prefix. *)

From Stdlib Require Import ZArith Lia.
From Stdlib Require Strings.Byte.
From S2P Require Import Prelude.

Notation byte := Byte.byte.
Notation bytes := (list Byte.byte).

#[export] Instance byte_eq_dec : EqDecision byte.
Proof.
  intros a b. destruct (Byte.eqb a b) eqn:E.
  - left. by apply Byte.byte_dec_bl.
  - right. by apply Byte.eqb_false.
Defined.
#[export] Program Instance byte_countable : Countable byte :=
  inj_countable Byte.to_N Byte.of_N _.
Next Obligation. apply Byte.of_to_N. Qed.

(** ** Machine integers *)
Definition i64_min : Z := - 2 ^ 63.
Definition i64_max : Z := 2 ^ 63 - 1.
Definition is_i64 (z : Z) : Prop := i64_min ≤ z ≤ i64_max.
(** Two's complement reading of a 64-bit pattern. *)
Definition wrap_i64 (z : Z) : Z := (z + 2 ^ 63) mod 2 ^ 64 - 2 ^ 63.

#[export] Instance is_i64_dec z : Decision (is_i64 z).
Proof. unfold is_i64. apply _. Defined.

Lemma wrap_i64_id z : is_i64 z → wrap_i64 z = z.
Proof.
  unfold is_i64, wrap_i64, i64_min, i64_max. intros ?.
  rewrite Z.mod_small; lia.
Qed.

Lemma wrap_i64_mod z : wrap_i64 (z mod 2 ^ 64) = wrap_i64 z.
Proof. unfold wrap_i64. by rewrite Zplus_mod_idemp_l. Qed.

Lemma wrap_i64_range z : is_i64 (wrap_i64 z).
Proof.
  unfold is_i64, wrap_i64, i64_min, i64_max.
  pose proof (Z.mod_pos_bound (z + 2 ^ 63) (2 ^ 64)). lia.
Qed.

(** ** Bytes as integers *)
Definition byte_val (b : byte) : Z := Z.of_N (Byte.to_N b).
Definition byte_of_Z (z : Z) : byte :=
  default Byte.x00 (Byte.of_N (Z.to_N (z mod 256))).

Lemma byte_val_bound b : 0 ≤ byte_val b < 256.
Proof. unfold byte_val. pose proof (Byte.to_N_bounded b). lia. Qed.

Lemma byte_val_of_Z z : byte_val (byte_of_Z z) = z mod 256.
Proof.
  unfold byte_val, byte_of_Z. pose proof (Z.mod_pos_bound z 256).
  destruct (Byte.of_N _) as [b|] eqn:E; cbn.
  - apply Byte.to_of_N in E. rewrite E. lia.
  - apply Byte.of_N_None_iff in E. lia.
Qed.

Lemma byte_val_inj b1 b2 : byte_val b1 = byte_val b2 → b1 = b2.
Proof.
  unfold byte_val. intros H%N2Z.inj.
  apply (f_equal Byte.of_N) in H. rewrite !Byte.of_to_N in H. congruence.
Qed.

(** ** The order of byte strings *)
Fixpoint bytes_cmp (a b : bytes) : comparison :=
  match a, b with
  | [], [] => Eq
  | [], _ :: _ => Lt
  | _ :: _, [] => Gt
  | x :: a', y :: b' =>
      match byte_val x ?= byte_val y with
      | Eq => bytes_cmp a' b'
      | c => c
      end
  end.

Definition bytes_le (a b : bytes) : Prop := bytes_cmp a b ≠ Gt.
Definition bytes_lt (a b : bytes) : Prop := bytes_cmp a b = Lt.

#[export] Instance bytes_le_dec : RelDecision bytes_le.
Proof. intros a b. unfold bytes_le. apply _. Defined.
#[export] Instance bytes_lt_dec : RelDecision bytes_lt.
Proof. intros a b. unfold bytes_lt. apply _. Defined.

Lemma bytes_cmp_refl a : bytes_cmp a a = Eq.
Proof. induction a as [|x a IH]; cbn; [done|]. by rewrite Z.compare_refl. Qed.

Lemma bytes_cmp_eq a b : bytes_cmp a b = Eq ↔ a = b.
Proof.
  split; [|intros ->; apply bytes_cmp_refl].
  revert b. induction a as [|x a IH]; intros [|y b]; cbn; try done.
  destruct (byte_val x ?= byte_val y) eqn:E; try done.
  apply Z.compare_eq, byte_val_inj in E as ->. intros H. f_equal. auto.
Qed.

Lemma bytes_cmp_antisym a b : bytes_cmp b a = CompOpp (bytes_cmp a b).
Proof.
  revert b. induction a as [|x a IH]; intros [|y b]; cbn; try done.
  rewrite (Z.compare_antisym (byte_val x) (byte_val y)).
  destruct (byte_val x ?= byte_val y); cbn; auto.
Qed.

Lemma bytes_lt_trans a b c : bytes_lt a b → bytes_lt b c → bytes_lt a c.
Proof.
  unfold bytes_lt. revert b c.
  induction a as [|x a IH]; intros [|y b] [|z c]; cbn; try done.
  destruct (Z.compare_spec (byte_val x) (byte_val y)) as [E|L|G]; try done;
  destruct (Z.compare_spec (byte_val y) (byte_val z)) as [E'|L'|G']; try done;
  intros H1 H2;
  destruct (Z.compare_spec (byte_val x) (byte_val z)); try lia; eauto.
Qed.

Lemma bytes_le_lteq a b : bytes_le a b ↔ bytes_lt a b ∨ a = b.
Proof.
  unfold bytes_le, bytes_lt. rewrite <- bytes_cmp_eq.
  destruct (bytes_cmp a b); naive_solver.
Qed.

Lemma bytes_nle a b : ¬ bytes_le a b ↔ bytes_lt b a.
Proof.
  unfold bytes_le, bytes_lt. rewrite (bytes_cmp_antisym a b).
  destruct (bytes_cmp a b); naive_solver.
Qed.

Lemma bytes_nlt a b : ¬ bytes_lt a b ↔ bytes_le b a.
Proof.
  unfold bytes_le, bytes_lt. rewrite (bytes_cmp_antisym a b).
  destruct (bytes_cmp a b); naive_solver.
Qed.

Lemma bytes_lt_irrefl a : ¬ bytes_lt a a.
Proof. unfold bytes_lt. by rewrite bytes_cmp_refl. Qed.

#[export] Instance bytes_le_preorder : PreOrder bytes_le.
Proof.
  split.
  - intros a. apply bytes_le_lteq. by right.
  - intros a b c. rewrite !bytes_le_lteq.
    intros [?| ->] [?| ->]; eauto using bytes_lt_trans.
Qed.
#[export] Instance bytes_le_antisymm : AntiSymm (=) bytes_le.
Proof.
  intros a b. rewrite !bytes_le_lteq. intros [H| ->] [H'|H']; try done.
  destruct (bytes_lt_irrefl a). by eapply bytes_lt_trans.
Qed.
#[export] Instance bytes_le_total : Total bytes_le.
Proof.
  intros a b. destruct (decide (bytes_le a b)) as [|H]; [by left|right].
  apply bytes_nle in H. apply bytes_le_lteq. by left.
Qed.

Lemma bytes_lt_le_trans a b c : bytes_lt a b → bytes_le b c → bytes_lt a c.
Proof. rewrite bytes_le_lteq. intros ? [?| <-]; eauto using bytes_lt_trans. Qed.
Lemma bytes_le_lt_trans a b c : bytes_le a b → bytes_lt b c → bytes_lt a c.
Proof. rewrite bytes_le_lteq. intros [?| ->] ?; eauto using bytes_lt_trans. Qed.
Lemma bytes_lt_le a b : bytes_lt a b → bytes_le a b.
Proof. rewrite bytes_le_lteq. auto. Qed.

#[export] Hint Resolve bytes_lt_trans bytes_lt_le_trans bytes_le_lt_trans
  bytes_lt_le bytes_lt_irrefl : giganto.

Lemma bytes_cmp_app p a b : bytes_cmp (p ++ a) (p ++ b) = bytes_cmp a b.
Proof. induction p as [|x p IH]; cbn; [done|]. by rewrite Z.compare_refl. Qed.

Lemma bytes_le_app p a b : bytes_le (p ++ a) (p ++ b) ↔ bytes_le a b.
Proof. unfold bytes_le. by rewrite bytes_cmp_app. Qed.

(** Everything between two extensions of [p] extends [p]. *)
Lemma bytes_between_prefix p a b x :
  bytes_le (p ++ a) x → bytes_le x (p ++ b) → ∃ c, x = p ++ c.
Proof.
  unfold bytes_le. revert x.
  induction p as [|u p IH]; intros x Hl Hu; [by exists x|].
  destruct x as [|v x]; cbn in Hl, Hu; [done|].
  destruct (Z.compare_spec (byte_val u) (byte_val v)) as [E|L|G]; [..|done].
  - apply byte_val_inj in E as ->. rewrite Z.compare_refl in Hu.
    destruct (IH x) as [c ->]; eauto.
  - destruct (Z.compare_spec (byte_val v) (byte_val u)); (done || lia).
Qed.

(** ** Big- and little-endian digits *)
Fixpoint be_bytes (n : nat) (z : Z) : bytes :=
  match n with
  | O => []
  | S n' => byte_of_Z (z / 256 ^ Z.of_nat n') :: be_bytes n' z
  end.

Fixpoint be_val (bs : bytes) : Z :=
  match bs with
  | [] => 0
  | b :: bs' => byte_val b * 256 ^ Z.of_nat (length bs') + be_val bs'
  end.

Lemma length_be_bytes n z : length (be_bytes n z) = n.
Proof. induction n; cbn; auto. Qed.
#[export] Hint Rewrite length_be_bytes : giganto.

Lemma pow256_pos n : 0 < 256 ^ Z.of_nat n.
Proof. apply Z.pow_pos_nonneg; lia. Qed.

Lemma be_val_bound bs : 0 ≤ be_val bs < 256 ^ Z.of_nat (length bs).
Proof.
  induction bs as [|b bs IH]; cbn [be_val length]; [done|].
  rewrite Nat2Z.inj_succ, Z.pow_succ_r by lia.
  pose proof (byte_val_bound b). pose proof (pow256_pos (length bs)). nia.
Qed.

Lemma be_val_be_bytes n z : be_val (be_bytes n z) = z mod 256 ^ Z.of_nat n.
Proof.
  induction n as [|n IH]; cbn [be_val be_bytes].
  - by rewrite Z.mod_1_r.
  - rewrite length_be_bytes, IH, byte_val_of_Z.
    rewrite Nat2Z.inj_succ, Z.pow_succ_r by lia.
    pose proof (pow256_pos n) as Hp.
    rewrite (Z.mul_comm 256), Z.rem_mul_r by lia. lia.
Qed.

(** Byte strings of the same length are ordered as the numbers they spell. *)
Lemma bytes_cmp_be_val a b :
  length a = length b → bytes_cmp a b = (be_val a ?= be_val b).
Proof.
  revert b. induction a as [|x a IH]; intros [|y b] Hl; try done.
  injection Hl as Hl. cbn [bytes_cmp be_val]. rewrite Hl.
  pose proof (be_val_bound a) as Ha. pose proof (be_val_bound b) as Hb.
  rewrite Hl in Ha. pose proof (pow256_pos (length b)).
  destruct (Z.compare_spec (byte_val x) (byte_val y)) as [E|L|G].
  - rewrite IH, E by done.
    destruct (Z.compare_spec (be_val a) (be_val b)); symmetry;
      [apply Z.compare_eq_iff|apply Z.compare_lt_iff|apply Z.compare_gt_iff]; lia.
  - symmetry. apply Z.compare_lt_iff. nia.
  - symmetry. apply Z.compare_gt_iff. nia.
Qed.

Lemma be_val_inj a b : length a = length b → be_val a = be_val b → a = b.
Proof.
  intros Hl Hv. apply bytes_cmp_eq. rewrite bytes_cmp_be_val by done.
  rewrite Hv. apply Z.compare_refl.
Qed.

Lemma be_bytes_be_val bs : be_bytes (length bs) (be_val bs) = bs.
Proof.
  apply be_val_inj; [apply length_be_bytes|].
  rewrite be_val_be_bytes. apply Z.mod_small, be_val_bound.
Qed.

Lemma be_bytes_mod n x y :
  x mod 256 ^ Z.of_nat n = y mod 256 ^ Z.of_nat n → be_bytes n x = be_bytes n y.
Proof.
  intros H. apply be_val_inj; [by rewrite !length_be_bytes|].
  by rewrite !be_val_be_bytes.
Qed.

(** ** The codecs of the machine integers *)
Definition i64_to_be_bytes (z : Z) : bytes := be_bytes 8 z.
Definition i64_from_be_bytes (bs : bytes) : Z := wrap_i64 (be_val bs).
Definition i64_to_le_bytes (z : Z) : bytes := reverse (be_bytes 8 z).
Definition i64_from_le_bytes (bs : bytes) : Z := wrap_i64 (be_val (reverse bs)).
Definition u32_to_be_bytes (z : Z) : bytes := be_bytes 4 z.
Definition u32_to_le_bytes (z : Z) : bytes := reverse (be_bytes 4 z).
Definition u32_from_le_bytes (bs : bytes) : Z := be_val (reverse bs).

Lemma length_i64_to_be_bytes z : length (i64_to_be_bytes z) = 8%nat.
Proof. apply length_be_bytes. Qed.
Lemma length_i64_to_le_bytes z : length (i64_to_le_bytes z) = 8%nat.
Proof. unfold i64_to_le_bytes. by rewrite length_reverse, length_be_bytes. Qed.
Lemma length_u32_to_be_bytes z : length (u32_to_be_bytes z) = 4%nat.
Proof. apply length_be_bytes. Qed.
Lemma length_u32_to_le_bytes z : length (u32_to_le_bytes z) = 4%nat.
Proof. unfold u32_to_le_bytes. by rewrite length_reverse, length_be_bytes. Qed.
#[export] Hint Rewrite length_i64_to_be_bytes length_i64_to_le_bytes
  length_u32_to_be_bytes length_u32_to_le_bytes : giganto.

Lemma i64_from_to_be_bytes z : is_i64 z → i64_from_be_bytes (i64_to_be_bytes z) = z.
Proof.
  intros ?. unfold i64_from_be_bytes, i64_to_be_bytes. rewrite be_val_be_bytes.
  change (256 ^ Z.of_nat 8) with (2 ^ 64). rewrite wrap_i64_mod. by apply wrap_i64_id.
Qed.
Lemma i64_from_to_le_bytes z : is_i64 z → i64_from_le_bytes (i64_to_le_bytes z) = z.
Proof.
  intros ?. unfold i64_from_le_bytes, i64_to_le_bytes. rewrite reverse_involutive.
  by apply i64_from_to_be_bytes.
Qed.
Lemma u32_from_to_le_bytes z :
  0 ≤ z < 2 ^ 32 → u32_from_le_bytes (u32_to_le_bytes z) = z.
Proof.
  intros ?. unfold u32_from_le_bytes, u32_to_le_bytes.
  rewrite reverse_involutive, be_val_be_bytes. apply Z.mod_small. done.
Qed.

Lemma i64_from_be_bytes_range bs : is_i64 (i64_from_be_bytes bs).
Proof. apply wrap_i64_range. Qed.

(** [to_be_bytes] preserves the order of the non-negative timestamps. *)
Lemma i64_be_bytes_cmp a b :
  0 ≤ a ≤ i64_max → 0 ≤ b ≤ i64_max →
  bytes_cmp (i64_to_be_bytes a) (i64_to_be_bytes b) = (a ?= b).
Proof.
  unfold i64_max, i64_to_be_bytes. intros ??.
  rewrite bytes_cmp_be_val, !be_val_be_bytes by (by rewrite !length_be_bytes).
  by rewrite !Z.mod_small by lia.
Qed.

(** The bytes of a negative [i64] come after those of all others. *)
Lemma i64_be_bytes_negative a b :
  0 ≤ a ≤ i64_max → i64_min ≤ b < 0 →
  bytes_cmp (i64_to_be_bytes a) (i64_to_be_bytes b) = Lt.
Proof.
  unfold i64_max, i64_min, i64_to_be_bytes. intros Ha Hb.
  rewrite bytes_cmp_be_val, !be_val_be_bytes by (by rewrite !length_be_bytes).
  change (256 ^ Z.of_nat 8) with (2 ^ 64).
  rewrite Z.mod_small by lia. rewrite <- (Z.mod_add b 1) by lia. rewrite Z.mod_small by lia.
  apply Z.compare_lt_iff. lia.
Qed.

Lemma i64_to_from_be_bytes bs :
  length bs = 8%nat → i64_to_be_bytes (i64_from_be_bytes bs) = bs.
Proof.
  intros Hl. unfold i64_to_be_bytes, i64_from_be_bytes.
  rewrite <- (be_bytes_be_val bs) at 2. rewrite Hl.
  apply be_bytes_mod. change (256 ^ Z.of_nat 8) with (2 ^ 64).
  unfold wrap_i64. rewrite Zminus_mod_idemp_l. f_equal. lia.
Qed.

#[global] Arguments i64_to_be_bytes : simpl never.
#[global] Arguments i64_from_be_bytes : simpl never.
#[global] Arguments i64_to_le_bytes : simpl never.
#[global] Arguments i64_from_le_bytes : simpl never.
#[global] Arguments u32_to_be_bytes : simpl never.
#[global] Arguments u32_to_le_bytes : simpl never.
#[global] Arguments u32_from_le_bytes : simpl never.

(** ** [String::from_utf8_lossy]

    Strings are their UTF-8 bytes.  Each maximal part of an invalid sequence is
    replaced by U+FFFD; the cases are those of [core::str::Utf8Chunks]. *)
Definition byte_in (lo hi : Z) (b : Byte.byte) : bool :=
  (lo <=? Z.of_N (Byte.to_N b)) && (Z.of_N (Byte.to_N b) <=? hi).
Definition REPLACEMENT : bytes := [Byte.xef; Byte.xbf; Byte.xbd].

(** How many continuation bytes follow a first byte and where the first of
    them must be. *)
Definition utf8_first (b : Byte.byte) : option (nat * Z * Z) :=
  if byte_in 0 127 b then Some (0%nat, 0, 0)
  else if byte_in 194 223 b then Some (1%nat, 128, 191)
  else if byte_in 224 224 b then Some (2%nat, 160, 191)
  else if byte_in 225 236 b then Some (2%nat, 128, 191)
  else if byte_in 237 237 b then Some (2%nat, 128, 159)
  else if byte_in 238 239 b then Some (2%nat, 128, 191)
  else if byte_in 240 240 b then Some (3%nat, 144, 191)
  else if byte_in 241 243 b then Some (3%nat, 128, 191)
  else if byte_in 244 244 b then Some (3%nat, 128, 143)
  else None.

(** [pending] holds the bytes of an unfinished character, [more] how many are
    to come and [lo], [hi] the bounds of the next. *)
Fixpoint utf8_go (pending : bytes) (more : nat) (lo hi : Z) (bs : bytes) : bytes :=
  match bs with
  | [] => match pending with [] => [] | _ => REPLACEMENT end
  | b :: bs =>
      let start (out : bytes) :=
        match utf8_first b with
        | Some (O, _, _) => out ++ b :: utf8_go [] 0 0 0 bs
        | Some (n, lo, hi) => out ++ utf8_go [b] n lo hi bs
        | None => out ++ REPLACEMENT ++ utf8_go [] 0 0 0 bs
        end in
      match more with
      | O => start []
      | S more' =>
          if byte_in lo hi b then
            match more' with
            | O => pending ++ b :: utf8_go [] 0 0 0 bs
            | S _ => utf8_go (pending ++ [b]) more' 128 191 bs
            end
          else start REPLACEMENT
      end
  end.
Definition from_utf8_lossy (bs : bytes) : bytes := utf8_go [] 0 0 0 bs.

Lemma from_utf8_lossy_ascii bs :
  Forall (λ b, byte_in 0 127 b = true) bs → from_utf8_lossy bs = bs.
Proof.
  unfold from_utf8_lossy. induction 1 as [|b bs Hb _ IH]; [done|]. cbn [utf8_go].
  unfold utf8_first. rewrite Hb. cbn [app]. by rewrite IH.
Qed.

Example lossy_valid : from_utf8_lossy [Byte.xed; Byte.x95; Byte.x9c] = [Byte.xed; Byte.x95; Byte.x9c].
Proof. reflexivity. Qed.
Example lossy_cut :
  from_utf8_lossy [Byte.xf0; Byte.x9f; Byte.x41] = REPLACEMENT ++ [Byte.x41].
Proof. reflexivity. Qed.
Example lossy_surrogate :
  from_utf8_lossy [Byte.xed; Byte.xa0; Byte.x80] = REPLACEMENT ++ REPLACEMENT ++ REPLACEMENT.
Proof. reflexivity. Qed.
