(* ===== verification/Externals.v ===== *)
(** * Interfaces to the code Giganto calls

    RocksDB (crate [rocksdb]), [chrono]'s time stamps, [bincode] and [base64]
    are not part of the repository: each is a class of operations, with a class
    of laws that states the documented behaviour the code relies on.  The
    development's definitions and theorems take these classes as arguments.
    The instances at the end ([mem_rocksdb], [nanos_chrono], [plain_base64])
    show that the laws can be met and make the model executable. *)

From Stdlib Require Import ZArith Lia.
From S2P Require Import Prelude Bytes.

(** ** [chrono::DateTime<Utc>] *)
Class Chrono := {
  DateTime : Type;
  (** [Utc.timestamp_nanos(n)] *)
  timestamp_nanos : Z → DateTime;
  (** [t.timestamp_nanos_opt()]: [None] outside the range of an [i64]. *)
  timestamp_nanos_opt : DateTime → option Z;
  (** [Ord for DateTime<Utc>] *)
  dt_cmp : DateTime → DateTime → comparison;
  MIN_UTC : DateTime;
  MAX_UTC : DateTime;
}.

Class ChronoLaws `{Chrono} : Prop := {
  timestamp_nanos_opt_nanos n :
    is_i64 n → timestamp_nanos_opt (timestamp_nanos n) = Some n;
  timestamp_nanos_opt_range t n : timestamp_nanos_opt t = Some n → is_i64 n;
  dt_cmp_nanos a b :
    is_i64 a → is_i64 b →
    dt_cmp (timestamp_nanos a) (timestamp_nanos b) = (a ?= b);
  dt_cmp_max n : is_i64 n → dt_cmp (timestamp_nanos n) MAX_UTC = Lt;
  dt_cmp_min n : is_i64 n → dt_cmp MIN_UTC (timestamp_nanos n) = Lt;
  dt_cmp_antisym a b : dt_cmp b a = CompOpp (dt_cmp a b);
}.

(** ** [bincode] and [base64] *)
Class Bincode (T : Type) := {
  bincode_serialize : T → result bytes;
  bincode_deserialize : bytes → result T;
}.
Class BincodeLaws (T : Type) `{Bincode T} : Prop :=
  bincode_roundtrip (x : T) b :
    bincode_serialize x = Ok b → bincode_deserialize b = Ok x.

Class Base64 := {
  base64_encode : bytes → string;
  base64_decode : string → result bytes;
}.
Class Base64Laws `{Base64} : Prop :=
  base64_roundtrip b : base64_decode (base64_encode b) = Ok b.

(** ** RocksDB *)
Inductive Direction := Forward | Reverse.
Inductive IteratorMode :=
| Start
| From (key : bytes) (d : Direction).

#[export] Instance Direction_eq_dec : EqDecision Direction.
Proof. solve_decision. Defined.

Class RocksDB := {
  DB : Type;
  (** [db.cf_handle(name)] is [Some]. *)
  cf_handle : DB → string → bool;
  get_cf : DB → string → bytes → result (option bytes);
  put_cf : string → bytes → bytes → M DB unit;
  delete_cf : string → bytes → M DB unit;
  (** deletes the half-open range [from, to) *)
  delete_range_cf : string → bytes → bytes → M DB unit;
  flush_wal : bool → M DB unit;
  (** An iterator reads a snapshot: the items it yields, in order. *)
  iterator_cf : DB → string → IteratorMode → list (result (bytes * bytes));
  prefix_iterator_cf : DB → string → bytes → list (result (bytes * bytes));
}.

(** *** What the operations mean, on the ordered map a column family holds *)
Inductive WriteOp :=
| WPut (k v : bytes)
| WDelete (k : bytes)
| WDeleteRange (from to : bytes).

Definition write `{RocksDB} (op : WriteOp) (cf : string) : M DB unit :=
  match op with
  | WPut k v => put_cf cf k v
  | WDelete k => delete_cf cf k
  | WDeleteRange a b => delete_range_cf cf a b
  end.

Definition in_range (a b k : bytes) : Prop := bytes_le a k ∧ bytes_lt k b.
#[export] Instance in_range_dec a b k : Decision (in_range a b k).
Proof. unfold in_range. apply _. Defined.

Definition apply_op (op : WriteOp) (m : gmap bytes bytes) : gmap bytes bytes :=
  match op with
  | WPut k v => <[k := v]> m
  | WDelete k => delete k m
  | WDeleteRange a b => filter (λ kv, ¬ in_range a b kv.1) m
  end.

(** RocksDB refuses a range whose end precedes its start. *)
Definition valid_op (op : WriteOp) : Prop :=
  match op with WDeleteRange a b => bytes_le a b | _ => True end.

#[export] Instance valid_op_dec op : Decision (valid_op op).
Proof. destruct op; apply _. Defined.

Definition key_le (a b : bytes * bytes) : Prop := bytes_le a.1 b.1.
Definition key_lt (a b : bytes * bytes) : Prop := bytes_lt a.1 b.1.
#[export] Instance key_le_dec : RelDecision key_le.
Proof. intros a b. unfold key_le. apply _. Defined.

(** The entries of a column family in key order. *)
Definition sorted_entries (m : gmap bytes bytes) : list (bytes * bytes) :=
  merge_sort key_le (map_to_list m).

Definition scan (mode : IteratorMode) (m : gmap bytes bytes) : list (bytes * bytes) :=
  match mode with
  | Start => sorted_entries m
  | From k Forward => filter (λ kv, bytes_le k kv.1) (sorted_entries m)
  | From k Reverse => reverse (filter (λ kv, bytes_le kv.1 k) (sorted_entries m))
  end.

Class RocksDBSpec `{RocksDB} := {
  cf_view : DB → string → gmap bytes bytes;
  (** no read or write of this database fails for an I/O reason *)
  io_ok : DB → Prop;
  write_ok op cf db db' :
    write op cf db = (Ok tt, db') → cf_view db' cf = apply_op op (cf_view db cf);
  write_frame op cf cf' db : cf ≠ cf' →
    cf_view (write op cf db).2 cf' = cf_view db cf';
  write_handle op cf cf' db : cf_handle (write op cf db).2 cf' = cf_handle db cf';
  write_io op cf db : io_ok db → cf_handle db cf = true → valid_op op →
    ∃ db', write op cf db = (Ok tt, db') ∧ io_ok db';
  (** a refused write changes nothing *)
  write_invalid op cf db : io_ok db → cf_handle db cf = true → ¬ valid_op op →
    ∃ e, write op cf db = (Err e, db);
  flush_view sync db cf : cf_view (flush_wal sync db).2 cf = cf_view db cf;
  flush_handle sync db cf : cf_handle (flush_wal sync db).2 cf = cf_handle db cf;
  flush_io sync db : io_ok db → ∃ db', flush_wal sync db = (Ok tt, db') ∧ io_ok db';
  get_ok db cf k o : get_cf db cf k = Ok o → o = cf_view db cf !! k;
  get_io db cf k : io_ok db → cf_handle db cf = true →
    get_cf db cf k = Ok (cf_view db cf !! k);
  iterator_io db cf mode : io_ok db → cf_handle db cf = true →
    iterator_cf db cf mode = Ok <$> scan mode (cf_view db cf);
  (** Without a prefix extractor the prefix iterator starts at the prefix and
      may run past its last entry. *)
  prefix_iterator_io db cf p : io_ok db → cf_handle db cf = true →
    ∃ l, prefix_iterator_cf db cf p = Ok <$> l ∧
      l `prefix_of` scan (From p Forward) (cf_view db cf) ∧
      ∀ k v, p `prefix_of` k → cf_view db cf !! k = Some v → (k, v) ∈ l;
}.

(** ** Facts about ordered entries *)
#[export] Instance key_le_preorder : PreOrder key_le.
Proof.
  split; unfold key_le; [intros ?; reflexivity|intros ??? H1 H2; by etrans].
Qed.
#[export] Instance key_le_total : Total key_le.
Proof. intros a b. unfold key_le. apply (total bytes_le). Qed.
#[export] Instance key_lt_trans : Transitive key_lt.
Proof. intros a b c. unfold key_lt. apply bytes_lt_trans. Qed.

Lemma elem_of_sorted_entries m k v : (k, v) ∈ sorted_entries m ↔ m !! k = Some v.
Proof.
  unfold sorted_entries. rewrite merge_sort_Permutation. apply elem_of_map_to_list.
Qed.

Lemma sorted_entries_sorted m : StronglySorted key_lt (sorted_entries m).
Proof.
  assert (NoDup (sorted_entries m).*1) as Hnd.
  { unfold sorted_entries. rewrite merge_sort_Permutation. apply NoDup_fst_map_to_list. }
  pose proof (StronglySorted_merge_sort key_le (map_to_list m)) as Hs.
  fold (sorted_entries m) in Hs. revert Hnd.
  induction Hs as [|x l Hs IH Hx]; intros Hnd; [constructor|].
  cbn in Hnd. apply NoDup_cons in Hnd as [Hni Hnd].
  constructor; [auto|].
  apply Forall_forall. intros y Hy. eapply Forall_forall in Hx; [|exact Hy].
  unfold key_le in Hx. apply bytes_le_lteq in Hx as [|E]; [done|].
  destruct Hni. rewrite E. by apply list_elem_of_fmap_2.
Qed.

Lemma key_lt_irrefl x : ¬ key_lt x x.
Proof. apply bytes_lt_irrefl. Qed.

(** A strictly sorted list is determined by its elements. *)
Lemma key_sorted_ext (l1 l2 : list (bytes * bytes)) :
  StronglySorted key_lt l1 → StronglySorted key_lt l2 →
  (∀ x, x ∈ l1 ↔ x ∈ l2) → l1 = l2.
Proof.
  intros H1. revert l2. induction H1 as [|x l1 H1 IH Hx]; intros l2 H2 He.
  - destruct l2 as [|y l2]; [done|]. exfalso. apply (not_elem_of_nil y), He. left.
  - destruct H2 as [|y l2 H2 Hy].
    { exfalso. apply (not_elem_of_nil x), He. left. }
    rewrite Forall_forall in Hx, Hy.
    assert (x = y) as <-. {
      assert (x ∈ y :: l2) as Hin2 by (apply He; left).
      assert (y ∈ x :: l1) as Hin3 by (apply He; left).
      apply elem_of_cons in Hin2 as [Heq|Hin2]; [done|].
      apply elem_of_cons in Hin3 as [Heq|Hin3]; [done|].
      exfalso. apply (key_lt_irrefl x). etrans; [by apply Hx|by apply Hy]. }
    f_equal. apply IH; [done|]. intros z. specialize (He z).
    rewrite !elem_of_cons in He. split; intros Hz.
    + destruct (proj1 He (or_intror Hz)) as [->|]; [|done].
      exfalso. by apply (key_lt_irrefl x), Hx.
    + destruct (proj2 He (or_intror Hz)) as [->|]; [|done].
      exfalso. by apply (key_lt_irrefl x), Hy.
Qed.

Lemma elem_of_scan_forward k m x :
  x ∈ scan (From k Forward) m ↔ bytes_le k x.1 ∧ m !! x.1 = Some x.2.
Proof.
  destruct x as [a b]. cbn. rewrite list_elem_of_filter, elem_of_sorted_entries. done.
Qed.

Lemma elem_of_scan_reverse k m x :
  x ∈ scan (From k Reverse) m ↔ bytes_le x.1 k ∧ m !! x.1 = Some x.2.
Proof.
  destruct x as [a b]. cbn.
  rewrite elem_of_reverse, list_elem_of_filter, elem_of_sorted_entries. done.
Qed.

Lemma scan_forward_sorted k m : StronglySorted key_lt (scan (From k Forward) m).
Proof. cbn. apply sorted_filter, sorted_entries_sorted. Qed.

Lemma cf_view_write `{RocksDBSpec} op cf cf' db db' :
  write op cf db = (Ok tt, db') →
  cf_view db' cf' = if decide (cf = cf') then apply_op op (cf_view db cf') else cf_view db cf'.
Proof.
  intros Hw. case_decide as Hcf.
  - subst cf'. by apply write_ok.
  - replace db' with (write op cf db).2 by (by rewrite Hw). by apply write_frame.
Qed.

(** ** Instances *)

(** A database held in memory: the column families by name. *)
Module Mem.
Notation db := (gmap string (gmap bytes bytes)).
Definition view (d : db) (cf : string) : gmap bytes bytes := default ∅ (d !! cf).
Definition do_op (op : WriteOp) (cf : string) : M db unit := λ d,
  match d !! cf with
  | None => (Err "no such column family", d)
  | Some m =>
      if decide (valid_op op) then (Ok tt, <[cf := apply_op op m]> d)
      else (Err "end key comes before start key", d)
  end.
End Mem.

#[export] Instance mem_rocksdb : RocksDB := {|
  DB := Mem.db;
  cf_handle d cf := bool_decide (is_Some (d !! cf));
  get_cf d cf k := Ok (Mem.view d cf !! k);
  put_cf cf k v := Mem.do_op (WPut k v) cf;
  delete_cf cf k := Mem.do_op (WDelete k) cf;
  delete_range_cf cf a b := Mem.do_op (WDeleteRange a b) cf;
  flush_wal _ := m_ret tt;
  iterator_cf d cf mode := Ok <$> scan mode (Mem.view d cf);
  prefix_iterator_cf d cf p := Ok <$> scan (From p Forward) (Mem.view d cf);
|}.

Lemma mem_write (op : WriteOp) (cf : string) (d : Mem.db) : write op cf d = Mem.do_op op cf d.
Proof. by destruct op. Qed.

Lemma mem_handle (cf : string) (d : Mem.db) : cf_handle d cf = bool_decide (is_Some (d !! cf)).
Proof. done. Qed.

Lemma prefix_bytes_le (p k : bytes) : p `prefix_of` k → bytes_le p k.
Proof.
  intros [c ->]. rewrite <- (app_nil_r p) at 1. apply bytes_le_app.
  unfold bytes_le. by destruct c.
Qed.

Section mem.
Implicit Types d : Mem.db.

Lemma mem_op_ok op cf d d' :
  Mem.do_op op cf d = (Ok tt, d') → Mem.view d' cf = apply_op op (Mem.view d cf).
Proof.
  unfold Mem.do_op, Mem.view. destruct (d !! cf); [|done].
  case_decide; [|done]. intros [= <-]. by rewrite lookup_insert_eq.
Qed.

Lemma mem_op_frame op cf cf' d : cf ≠ cf' →
  Mem.view (Mem.do_op op cf d).2 cf' = Mem.view d cf'.
Proof.
  intros Hne. unfold Mem.do_op, Mem.view. destruct (d !! cf); [|done].
  case_decide; [|done]. cbn. by rewrite lookup_insert_ne.
Qed.

Lemma mem_op_handle op cf cf' d :
  bool_decide (is_Some ((Mem.do_op op cf d).2 !! cf')) = bool_decide (is_Some (d !! cf')).
Proof.
  unfold Mem.do_op. destruct (d !! cf) as [m|] eqn:E; [|done].
  case_decide; [|done]. cbn. apply bool_decide_ext.
  rewrite lookup_insert_is_Some'. naive_solver.
Qed.

Lemma mem_op_valid op cf d :
  bool_decide (is_Some (d !! cf)) = true →
  Mem.do_op op cf d =
    if decide (valid_op op) then (Ok tt, <[cf := apply_op op (Mem.view d cf)]> d)
    else (Err "end key comes before start key", d).
Proof.
  intros [m Hm]%bool_decide_eq_true_1. unfold Mem.do_op, Mem.view. by rewrite Hm.
Qed.
End mem.

#[export] Program Instance mem_rocksdb_spec : RocksDBSpec := {|
  cf_view := Mem.view;
  io_ok _ := True;
|}.
Next Obligation. intros op cf d d'. rewrite mem_write. apply mem_op_ok. Qed.
Next Obligation. intros op cf cf' d. rewrite mem_write. apply mem_op_frame. Qed.
Next Obligation. intros op cf cf' d. rewrite mem_write. apply mem_op_handle. Qed.
Next Obligation.
  intros op cf d _ Hh Hv. rewrite mem_write. rewrite mem_op_valid by done.
  rewrite decide_True by done. eauto.
Qed.
Next Obligation.
  intros op cf d _ Hh Hv. rewrite mem_write. rewrite mem_op_valid by done.
  rewrite decide_False by done. eauto.
Qed.
Next Obligation. done. Qed.
Next Obligation. done. Qed.
Next Obligation. intros sync d _. by exists d. Qed.
Next Obligation. by intros d cf k o [= ->]. Qed.
Next Obligation. done. Qed.
Next Obligation. done. Qed.
Next Obligation.
  intros d cf p _ _. eexists. split; [done|]. split; [done|].
  intros k v Hp Hk. apply elem_of_scan_forward. cbn. auto using prefix_bytes_le.
Qed.

(** Time stamps as nanoseconds, with two sentinels outside the [i64] range. *)
#[export] Instance nanos_chrono : Chrono := {|
  DateTime := Z;
  timestamp_nanos := id;
  timestamp_nanos_opt n := if decide (is_i64 n) then Some n else None;
  dt_cmp := Z.compare;
  MIN_UTC := i64_min - 1;
  MAX_UTC := i64_max + 1;
|}.
#[export] Instance nanos_chrono_laws : ChronoLaws.
Proof.
  split; cbn; unfold is_i64, id.
  - intros n Hn. by rewrite decide_True.
  - intros t n. case_decide; naive_solver.
  - done.
  - intros n Hn. apply Z.compare_lt_iff. lia.
  - intros n Hn. apply Z.compare_lt_iff. lia.
  - intros a b. apply Z.compare_antisym.
Qed.

(** A transparent stand-in for base64. *)
#[export] Instance plain_base64 : Base64 := {|
  base64_encode b := String.string_of_list_byte b;
  base64_decode s := Ok (String.list_byte_of_string s);
|}.
#[export] Instance plain_base64_laws : Base64Laws.
Proof. intros b. apply (f_equal Ok), String.list_byte_of_string_of_list_byte. Qed.
