(* ===== verification/StorageKey.v ===== *)
(** * Storage keys (src/src/storage.rs, [StorageKey] and [StorageKeyBuilder])

    A raw event is stored under [source NUL (mid NUL)? timestamp], the time
    stamp in eight big-endian bytes.  The builder methods append to [pre_key];
    the three bound methods turn an optional time into the end key of a search
    range.  The lemmas say when a stored key lies in such a range. *)

From Stdlib Require Import ZArith Lia.
From S2P Require Import Prelude Bytes Externals.

Definition TIMESTAMP_SIZE : nat := 8.

(** [str::as_bytes] *)
Notation as_bytes := String.list_byte_of_string.

Notation "x |> f" := (f x) (at level 61, left associativity, only parsing) : giganto_scope.

Section storage_key.
Context `{Chrono}.

Record StorageKeyBuilder := mk_builder { pre_key : bytes }.
Record StorageKey := mk_key { key : bytes }.

Definition builder : StorageKeyBuilder := mk_builder [].

Definition start_key (k : string) (b : StorageKeyBuilder) : StorageKeyBuilder :=
  mk_builder (pre_key b ++ as_bytes k ++ [Byte.x00]).

Definition mid_key (k : option bytes) (b : StorageKeyBuilder) : StorageKeyBuilder :=
  match k with
  | Some m => mk_builder (pre_key b ++ m ++ [Byte.x00])
  | None => b
  end.

Definition end_key (k : Z) (b : StorageKeyBuilder) : StorageKeyBuilder :=
  mk_builder (pre_key b ++ i64_to_be_bytes k).

(** [time.timestamp_nanos_opt().unwrap_or(i64::MAX)] *)
Definition nanos_or_max (t : DateTime) : Z := default i64_max (timestamp_nanos_opt t).

Definition lower_closed_bound_end_key (time : option DateTime)
    (b : StorageKeyBuilder) : StorageKeyBuilder :=
  let end_key := match time with Some t => nanos_or_max t | None => 0 end in
  mk_builder (pre_key b ++ i64_to_be_bytes end_key).

Definition upper_closed_bound_end_key (time : option DateTime)
    (b : StorageKeyBuilder) : StorageKeyBuilder :=
  let end_key := match time with Some t => nanos_or_max t | None => i64_max end in
  mk_builder (pre_key b ++ i64_to_be_bytes end_key).

(** [ns.checked_sub(1)] on an [i64] *)
Definition checked_pred (ns : Z) : option Z :=
  if decide (is_i64 (ns - 1)) then Some (ns - 1) else None.

Definition upper_open_bound_end_key (time : option DateTime)
    (b : StorageKeyBuilder) : StorageKeyBuilder :=
  let unbounded := mk_builder (pre_key b ++ i64_to_be_bytes i64_max) in
  match time with
  | Some t =>
      match checked_pred (nanos_or_max t) with
      | Some ns =>
          if 0 <=? ns then mk_builder (pre_key b ++ i64_to_be_bytes ns)
          else unbounded
      | None => unbounded
      end
  | None => unbounded
  end.

Definition build (b : StorageKeyBuilder) : StorageKey := mk_key (pre_key b).

(** [graphql.rs], [get_timestamp_from_key]: the last eight bytes of a key. *)
Definition key_suffix (k : bytes) : bytes := drop (length k - TIMESTAMP_SIZE) k.
Definition key_nanos (k : bytes) : Z := i64_from_be_bytes (key_suffix k).

Definition get_timestamp_from_key (k : bytes) : result DateTime :=
  if (TIMESTAMP_SIZE <? length k)%nat then Ok (timestamp_nanos (key_nanos k))
  else Err "invalid database key length".

(** ** The shape of a key *)
Definition key_prefix (source : string) (mid : option bytes) : bytes :=
  pre_key (builder |> start_key source |> mid_key mid).
Definition event_key (source : string) (mid : option bytes) (ts : Z) : bytes :=
  key (builder |> start_key source |> mid_key mid |> end_key ts |> build).

Definition no_nul (s : string) : Prop := Byte.x00 ∉ as_bytes s.
#[export] Instance no_nul_dec s : Decision (no_nul s).
Proof. unfold no_nul. apply _. Defined.

Lemma key_prefix_eq source mid :
  key_prefix source mid =
    as_bytes source ++ [Byte.x00] ++
    match mid with Some m => m ++ [Byte.x00] | None => [] end.
Proof.
  unfold key_prefix. destruct mid; cbn; by rewrite <- ?app_assoc, ?app_nil_r.
Qed.

Lemma event_key_eq source mid ts :
  event_key source mid ts = key_prefix source mid ++ i64_to_be_bytes ts.
Proof. done. Qed.

Lemma key_prefix_nonempty source mid : key_prefix source mid ≠ [].
Proof. rewrite key_prefix_eq. by destruct (as_bytes source). Qed.

Lemma key_suffix_app p s : length s = TIMESTAMP_SIZE → key_suffix (p ++ s) = s.
Proof.
  intros Hl. unfold key_suffix. rewrite length_app, Hl, Nat.add_sub. apply drop_app_length.
Qed.

Lemma key_nanos_app p ts : is_i64 ts → key_nanos (p ++ i64_to_be_bytes ts) = ts.
Proof.
  intros Hts. unfold key_nanos. rewrite key_suffix_app by apply length_i64_to_be_bytes.
  by apply i64_from_to_be_bytes.
Qed.

Lemma get_timestamp_prefix p ts :
  p ≠ [] → is_i64 ts →
  get_timestamp_from_key (p ++ i64_to_be_bytes ts) = Ok (timestamp_nanos ts).
Proof.
  intros Hp Hts. unfold get_timestamp_from_key. rewrite key_nanos_app by done.
  rewrite length_app, length_i64_to_be_bytes.
  destruct p; [done|]. cbn [length]. unfold TIMESTAMP_SIZE.
  by rewrite (proj2 (Nat.ltb_lt _ _)) by lia.
Qed.

(** ** Keys and prefixes *)
Lemma split_nul (a b c d : bytes) :
  Byte.x00 ∉ a → Byte.x00 ∉ c →
  a ++ [Byte.x00] ++ b = c ++ [Byte.x00] ++ d → a = c ∧ b = d.
Proof.
  revert c. induction a as [|x a IH]; intros [|y c] Ha Hc E; cbn in E.
  - by injection E.
  - injection E as Ex Eb. destruct Hc. rewrite <- Ex. left.
  - injection E as Ex Eb. destruct Ha. rewrite Ex. left.
  - injection E as -> Eb. destruct (IH c) as [-> ->]; [set_solver..|done|done].
Qed.

Lemma as_bytes_inj s1 s2 : as_bytes s1 = as_bytes s2 → s1 = s2.
Proof.
  intros E%(f_equal String.string_of_list_byte).
  by rewrite !String.string_of_list_byte_of_string in E.
Qed.

(** A key of another source does not start with this source's prefix. *)
Lemma source_prefix_inj s1 s2 p1 p2 :
  no_nul s1 → no_nul s2 →
  as_bytes s1 ++ [Byte.x00] ++ p1 = as_bytes s2 ++ [Byte.x00] ++ p2 →
  s1 = s2 ∧ p1 = p2.
Proof.
  intros H1 H2 E. apply split_nul in E as [E ->]; [|done..].
  split; [by apply as_bytes_inj|done].
Qed.

Lemma be_i64_inj a b :
  is_i64 a → is_i64 b → i64_to_be_bytes a = i64_to_be_bytes b → a = b.
Proof.
  intros Ha Hb E%(f_equal i64_from_be_bytes).
  by rewrite !i64_from_to_be_bytes in E.
Qed.

Lemma event_key_parts_inj s1 s2 m1 m2 t1 t2 :
  no_nul s1 → no_nul s2 → is_i64 t1 → is_i64 t2 →
  event_key s1 m1 t1 = event_key s2 m2 t2 → s1 = s2 ∧ m1 = m2 ∧ t1 = t2.
Proof.
  intros Hs1 Hs2 Ht1 Ht2. rewrite !event_key_eq, !key_prefix_eq, <- !app_assoc.
  intros E. apply source_prefix_inj in E as [-> E]; [|done..].
  apply app_inj_2 in E as [Em Et]; [|by rewrite !length_i64_to_be_bytes].
  split; [done|]. split; [|by apply be_i64_inj].
  destruct m1 as [m1|], m2 as [m2|]; try done.
  - by apply app_inj_2 in Em as [-> _].
  - by destruct m1.
  - by destruct m2.
Qed.

(** ** Search ranges *)

(** The keys a boundary iterator from [from] to [to] may yield. *)
Definition between (from to k : bytes) : Prop := bytes_le from k ∧ bytes_le k to.

Definition lower_key (p : StorageKeyBuilder) (time : option DateTime) : bytes :=
  key (p |> lower_closed_bound_end_key time |> build).
Definition upper_key (p : StorageKeyBuilder) (time : option DateTime) : bytes :=
  key (p |> upper_open_bound_end_key time |> build).
Definition upper_closed_key (p : StorageKeyBuilder) (time : option DateTime) : bytes :=
  key (p |> upper_closed_bound_end_key time |> build).

Definition lower_nanos (time : option DateTime) : Z :=
  match time with Some t => nanos_or_max t | None => 0 end.
Definition upper_nanos (time : option DateTime) : Z :=
  match time with
  | Some t => let ns := nanos_or_max t in if 1 <=? ns then ns - 1 else i64_max
  | None => i64_max
  end.

Lemma lower_key_eq p time : lower_key p time = pre_key p ++ i64_to_be_bytes (lower_nanos time).
Proof. done. Qed.

Lemma nanos_or_max_range `{!ChronoLaws} t : is_i64 (nanos_or_max t).
Proof.
  unfold nanos_or_max. destruct (timestamp_nanos_opt t) as [n|] eqn:E; cbn.
  - by eapply timestamp_nanos_opt_range.
  - done.
Qed.

Lemma nanos_or_max_nanos `{!ChronoLaws} n : is_i64 n → nanos_or_max (timestamp_nanos n) = n.
Proof. intros Hn. unfold nanos_or_max. by rewrite timestamp_nanos_opt_nanos. Qed.

Lemma upper_key_eq `{!ChronoLaws} p time :
  upper_key p time = pre_key p ++ i64_to_be_bytes (upper_nanos time).
Proof.
  unfold upper_key, upper_nanos, upper_open_bound_end_key, checked_pred.
  destruct time as [t|]; [|done]. cbn zeta.
  pose proof (nanos_or_max_range t) as Hr. unfold is_i64, i64_min, i64_max in *.
  case_decide; repeat case_match; try done; exfalso;
    rewrite ?Z.leb_le, ?Z.leb_gt in *; lia.
Qed.

Lemma between_prefix `{!ChronoLaws} p time1 time2 k :
  between (lower_key p time1) (upper_key p time2) k → ∃ c, k = pre_key p ++ c.
Proof.
  rewrite lower_key_eq, upper_key_eq. intros [H1 H2].
  by eapply bytes_between_prefix.
Qed.

Lemma between_nanos p lo hi ts :
  0 ≤ lo ≤ i64_max → 0 ≤ hi ≤ i64_max → 0 ≤ ts ≤ i64_max →
  between (p ++ i64_to_be_bytes lo) (p ++ i64_to_be_bytes hi) (p ++ i64_to_be_bytes ts)
    ↔ lo ≤ ts ≤ hi.
Proof.
  intros ???. unfold between. rewrite !bytes_le_app. unfold bytes_le.
  rewrite !i64_be_bytes_cmp by done. done.
Qed.
End storage_key.

#[global] Arguments event_key : simpl never.
#[global] Arguments key_nanos : simpl never.

#[export] Hint Resolve key_prefix_nonempty : giganto.

(** A key with a time stamp after the epoch. *)
Definition good_key (k : bytes) : Prop := (TIMESTAMP_SIZE ≤ length k)%nat ∧ 0 ≤ key_nanos k.

Lemma length_key_suffix k : good_key k → length (key_suffix k) = 8%nat.
Proof. intros [Hl _]. unfold key_suffix. rewrite length_drop. unfold TIMESTAMP_SIZE in *. lia. Qed.

Lemma good_key_nanos k : good_key k → be_val (key_suffix k) = key_nanos k.
Proof.
  intros Hg. pose proof (be_val_bound (key_suffix k)) as Hr.
  rewrite length_key_suffix in Hr by done. change (256 ^ Z.of_nat 8) with (2 ^ 64) in Hr.
  destruct Hg as [_ Hn]. unfold key_nanos, i64_from_be_bytes, wrap_i64 in *.
  set (z := be_val _) in *. clearbody z.
  destruct (decide (z < 2 ^ 63)) as [Hz|Hz].
  - rewrite Z.mod_small by lia. lia.
  - replace (z + 2 ^ 63) with (z - 2 ^ 63 + 1 * 2 ^ 64) in Hn by lia.
    rewrite Z.mod_add, Z.mod_small in Hn by lia. lia.
Qed.

(** The suffixes compare as the time stamps do. *)
Lemma suffix_cmp a b :
  good_key a → good_key b → bytes_cmp (key_suffix a) (key_suffix b) = (key_nanos a ?= key_nanos b).
Proof.
  intros Ha Hb. rewrite bytes_cmp_be_val by (by rewrite !length_key_suffix).
  by rewrite !good_key_nanos.
Qed.

Lemma good_event_key s m ts : 0 ≤ ts ≤ i64_max → good_key (event_key s m ts).
Proof.
  intros Hts. unfold good_key. rewrite event_key_eq, key_nanos_app, length_app, length_i64_to_be_bytes
    by (unfold is_i64, i64_min; lia). unfold TIMESTAMP_SIZE. lia.
Qed.

(** The keys of one source are in byte order as its events are in time. *)
Lemma event_key_lt source t1 t2 :
  0 ≤ t1 → t1 < t2 → t2 ≤ i64_max → bytes_lt (event_key source None t1) (event_key source None t2).
Proof.
  intros ???. rewrite !event_key_eq. unfold bytes_lt. rewrite bytes_cmp_app, i64_be_bytes_cmp by lia.
  by apply Z.compare_lt_iff.
Qed.

(** ** What the key layout guarantees *)
Section key_theorems.
Context `{ChronoLaws}.

(** Two mid keys of one column family: both absent, both of one width
    (the core number of a statistics key, the request time of a packet key)
    or both free of NUL (a log kind). *)
Definition mid_compat (m1 m2 : option bytes) : Prop :=
  match m1, m2 with
  | None, None => True
  | Some a, Some b => length a = length b ∨ (Byte.x00 ∉ a ∧ Byte.x00 ∉ b)
  | _, _ => False
  end.

Lemma event_key_prefix_inv s m s' m' ts c :
  no_nul s → no_nul s' → mid_compat m m' →
  event_key s' m' ts = key_prefix s m ++ c →
  s' = s ∧ m' = m ∧ c = i64_to_be_bytes ts.
Proof.
  intros Hs Hs' Hm. rewrite event_key_eq, !key_prefix_eq, <- !app_assoc.
  intros E. apply source_prefix_inj in E as [-> E]; [|done..].
  destruct m as [a|], m' as [b|]; try done.
  rewrite <- !app_assoc in E. destruct Hm as [Hl|[Ha Hb]].
  - apply app_inj_1 in E as [-> E]; [|done]. cbn in E. injection E as E. auto.
  - apply split_nul in E as [-> E]; auto.
Qed.

Lemma upper_nanos_range time : 0 ≤ upper_nanos time ≤ i64_max.
Proof.
  unfold upper_nanos. destruct time as [t|]; [|done]. cbn zeta.
  pose proof (nanos_or_max_range t) as Hr. unfold is_i64, i64_max in *.
  destruct (Z.leb_spec 1 (nanos_or_max t)); lia.
Qed.

Lemma between_event_key s m s' m' start end_ ts :
  no_nul s → no_nul s' → mid_compat m m' →
  0 ≤ lower_nanos start ≤ i64_max → 0 ≤ ts ≤ i64_max →
  between (lower_key (builder |> start_key s |> mid_key m) start)
          (upper_key (builder |> start_key s |> mid_key m) end_)
          (event_key s' m' ts)
    ↔ s' = s ∧ m' = m ∧ lower_nanos start ≤ ts ≤ upper_nanos end_.
Proof.
  intros Hs Hs' Hm Hlo Hts. split.
  - intros Hb. destruct (between_prefix _ _ _ _ Hb) as [c E].
    apply event_key_prefix_inv in E as (-> & -> & _); [|done..].
    rewrite lower_key_eq, upper_key_eq, event_key_eq in Hb.
    apply between_nanos in Hb; auto using upper_nanos_range.
  - intros (-> & -> & Hr). rewrite lower_key_eq, upper_key_eq, event_key_eq.
    apply between_nanos; auto using upper_nanos_range.
Qed.

(** A key of the range has the source and mid key of the range. *)
Lemma between_same_prefix s m s' m' start end_ ts :
  no_nul s → no_nul s' → mid_compat m m' →
  between (lower_key (builder |> start_key s |> mid_key m) start)
          (upper_key (builder |> start_key s |> mid_key m) end_) (event_key s' m' ts) →
  s' = s ∧ m' = m.
Proof.
  intros Hs Hs' Hm Hb. destruct (between_prefix _ _ _ _ Hb) as [c E].
  by apply event_key_prefix_inv in E as (-> & -> & _).
Qed.

(** Keys of one source and mid key are in byte order as they are in time. *)
Lemma event_key_order s m t1 t2 :
  0 ≤ t1 ≤ i64_max → 0 ≤ t2 ≤ i64_max →
  bytes_lt (event_key s m t1) (event_key s m t2) →
  key_nanos (event_key s m t1) < key_nanos (event_key s m t2).
Proof.
  intros H1 H2. rewrite !event_key_eq. unfold bytes_lt.
  rewrite bytes_cmp_app, i64_be_bytes_cmp, !key_nanos_app
    by (done || unfold is_i64, i64_min; lia).
  by intros ?%Z.compare_lt_iff.
Qed.

(** A stored event key carries its time stamp: reading the time stamp
    back from the key of any source and mid key gives the one it was built
    with. *)
Theorem timestamp_key_roundtrip source mid ts :
  is_i64 ts →
  get_timestamp_from_key (event_key source mid ts) = Ok (timestamp_nanos ts).
Proof. intros Hts. rewrite event_key_eq. apply get_timestamp_prefix; auto with giganto. Qed.

(** storage keys are unambiguous: for sources without a NUL byte, two
    events share a key only if source, mid key and time stamp all agree. *)
Theorem event_key_injective s1 s2 m1 m2 t1 t2 :
  no_nul s1 → no_nul s2 → is_i64 t1 → is_i64 t2 →
  event_key s1 m1 t1 = event_key s2 m2 t2 → s1 = s2 ∧ m1 = m2 ∧ t1 = t2.
Proof. apply event_key_parts_inj. Qed.

(** C24: the search range built from a time filter [start, end) contains
    exactly the keys of the same source and mid key whose time stamp is in
    the half-open window, whatever else is stored in the column family. *)
Theorem range_is_time_window s m s' m' a b ts :
  no_nul s → no_nul s' → mid_compat m m' →
  0 ≤ a ≤ i64_max → 0 < b ≤ i64_max → 0 ≤ ts ≤ i64_max →
  between (lower_key (builder |> start_key s |> mid_key m) (Some (timestamp_nanos a)))
          (upper_key (builder |> start_key s |> mid_key m) (Some (timestamp_nanos b)))
          (event_key s' m' ts)
    ↔ s' = s ∧ m' = m ∧ a ≤ ts < b.
Proof.
  intros Hs Hs' Hm Ha Hb Hts.
  assert (is_i64 a ∧ is_i64 b) as [Hia Hib] by (unfold is_i64, i64_min; lia).
  assert (lower_nanos (Some (timestamp_nanos a)) = a) as Hlo
    by (by cbn; rewrite nanos_or_max_nanos).
  assert (upper_nanos (Some (timestamp_nanos b)) = b - 1) as Hup.
  { unfold upper_nanos. rewrite nanos_or_max_nanos by done.
    by rewrite (proj2 (Z.leb_le 1 b)) by lia. }
  rewrite between_event_key by (done || by rewrite Hlo). rewrite Hlo, Hup.
  assert (a ≤ ts ≤ b - 1 ↔ a ≤ ts < b) as -> by lia. done.
Qed.

(** An end time at or before the epoch does not make the range empty: the
    upper bound falls back to the unbounded one, as if no end were given. *)
Theorem end_before_epoch_is_unbounded p b :
  i64_min ≤ b ≤ 0 → upper_key p (Some (timestamp_nanos b)) = upper_key p None.
Proof.
  intros Hb. rewrite !upper_key_eq. f_equal. unfold upper_nanos.
  rewrite nanos_or_max_nanos by (unfold is_i64, i64_max; lia).
  by rewrite (proj2 (Z.leb_gt 1 b)) by lia.
Qed.

(** A start time before the epoch selects none of the events after it: the
    big-endian bytes of a negative time stamp sort after all others. *)
Theorem start_before_epoch_selects_nothing p a to ts :
  i64_min ≤ a < 0 → 0 ≤ ts ≤ i64_max →
  ¬ between (lower_key p (Some (timestamp_nanos a))) to (pre_key p ++ i64_to_be_bytes ts).
Proof.
  intros Ha Hts [Hl _]. rewrite lower_key_eq in Hl. apply bytes_le_app in Hl.
  unfold lower_nanos in Hl.
  rewrite nanos_or_max_nanos in Hl by (unfold is_i64, i64_max; lia).
  apply Hl. unfold i64_to_be_bytes.
  rewrite bytes_cmp_be_val, !be_val_be_bytes by (by rewrite !length_be_bytes).
  unfold i64_min, i64_max in *. change (256 ^ Z.of_nat 8) with (2 ^ 64).
  rewrite (Z.mod_small ts) by lia.
  rewrite <- (Z.mod_add a 1), Z.mod_small by lia.
  apply Z.compare_gt_iff. lia.
Qed.
End key_theorems.

(** ** Witnesses *)
Lemma timestamp_key_roundtrip_witness :
  get_timestamp_from_key (event_key "src1" None 1700000000000000000)
    = Ok (timestamp_nanos 1700000000000000000).
Proof. apply timestamp_key_roundtrip. concrete. Defined.

Lemma event_key_injective_witness :
  event_key "src1" (Some [Byte.x41]) 7 = event_key "src1" (Some [Byte.x41]) 7 ∧
  ("src1" = "src1" ∧ Some [Byte.x41] = Some [Byte.x41] ∧ 7 = 7).
Proof. split; [reflexivity|]. apply event_key_injective; concrete. Defined.

Lemma range_is_time_window_witness :
  between (lower_key (builder |> start_key "src1" |> mid_key None) (Some (timestamp_nanos 10)))
          (upper_key (builder |> start_key "src1" |> mid_key None) (Some (timestamp_nanos 20)))
          (event_key "src1" None 19).
Proof. apply (range_is_time_window "src1" None "src1" None 10 20 19); concrete. Defined.

Lemma end_before_epoch_is_unbounded_witness :
  upper_key (builder |> start_key "s") (Some (timestamp_nanos (-5)))
    = upper_key (builder |> start_key "s") None.
Proof. apply end_before_epoch_is_unbounded. concrete. Defined.

Lemma start_before_epoch_selects_nothing_witness :
  ¬ between (lower_key (builder |> start_key "s") (Some (timestamp_nanos (-1))))
            (upper_key (builder |> start_key "s") None)
            (pre_key (builder |> start_key "s") ++ i64_to_be_bytes 5).
Proof. apply start_before_epoch_selects_nothing; concrete. Defined.
