(* ===== verification/NetAddr.v ===== *)
(** * [std::net::IpAddr] and the string tests of [std] the filters use

    [IpAddr] with its derived order (every IPv4 address precedes every IPv6
    address) and its [FromStr], which follows the recursive descent parser of
    the Rust standard library; [str::contains] as a search for a substring. *)

From Stdlib Require Import ZArith Lia Ascii.
From S2P Require Import Prelude.

(** ** Substrings *)
Fixpoint str_contains (s sub : string) : bool :=
  String.prefix sub s ||
  match s with
  | String _ s' => str_contains s' sub
  | EmptyString => false
  end.

Lemma string_app_cons c a b : (String c a +:+ b)%string = String c (a +:+ b).
Proof. reflexivity. Qed.
Lemma string_app_nil b : ("" +:+ b)%string = b.
Proof. reflexivity. Qed.

Lemma string_app_nil_r a : (a +:+ "")%string = a.
Proof. induction a as [|c a IH]; [done|]. by rewrite string_app_cons, IH. Qed.
Lemma string_app_assoc a b c : (a +:+ (b +:+ c) = (a +:+ b) +:+ c)%string.
Proof. induction a as [|x a IH]; [done|]. by rewrite !string_app_cons, IH. Qed.

Lemma prefix_spec sub s : String.prefix sub s = true ↔ ∃ b, s = (sub +:+ b)%string.
Proof.
  revert s. induction sub as [|c sub IH]; intros s.
  - split; [by exists s|]. by destruct s.
  - destruct s as [|d s]; cbn [String.prefix].
    + split; [done|]. intros [b Hb]. by rewrite string_app_cons in Hb.
    + destruct (Ascii.ascii_dec c d) as [->|Hne].
      * rewrite IH. split; intros [b Hb]; exists b.
        -- by rewrite Hb.
        -- rewrite string_app_cons in Hb. by injection Hb.
      * split; [done|]. intros [b Hb]. rewrite string_app_cons in Hb.
        injection Hb as E _. by destruct Hne.
Qed.

Lemma str_contains_spec s sub :
  str_contains s sub = true ↔ ∃ a b, s = (a +:+ sub +:+ b)%string.
Proof.
  induction s as [|c s IH]; cbn [str_contains].
  - rewrite orb_false_r, prefix_spec. split.
    + intros [b Hb]. exists "", b. by rewrite string_app_nil.
    + intros (a & b & Hb). destruct a as [|d a].
      * by exists b.
      * by rewrite string_app_cons in Hb.
  - rewrite orb_true_iff, prefix_spec, IH. split.
    + intros [[b Hb]|(a & b & Hb)]; [exists "", b; by rewrite string_app_nil|].
      exists (String c a), b. by rewrite string_app_cons, Hb.
    + intros (a & b & Hb). destruct a as [|d a].
      * left. by exists b.
      * right. rewrite string_app_cons in Hb. injection Hb as -> ->. by exists a, b.
Qed.

(** ** Addresses *)
Inductive IpAddr :=
| V4 (addr : Z)
| V6 (addr : Z).

#[export] Instance IpAddr_eq_dec : EqDecision IpAddr.
Proof. solve_decision. Defined.

(** The derived [Ord] *)
Definition ip_cmp (a b : IpAddr) : comparison :=
  match a, b with
  | V4 x, V4 y | V6 x, V6 y => x ?= y
  | V4 _, V6 _ => Lt
  | V6 _, V4 _ => Gt
  end.
Definition ip_leb (a b : IpAddr) : bool := match ip_cmp a b with Gt => false | _ => true end.
Definition ip_ltb (a b : IpAddr) : bool := match ip_cmp a b with Lt => true | _ => false end.
Definition ip_eqb (a b : IpAddr) : bool := bool_decide (a = b).

Lemma ip_leb_refl a : ip_leb a a = true.
Proof. by destruct a; unfold ip_leb; cbn; rewrite Z.compare_refl. Qed.

Lemma ip_ltb_irrefl a : ip_ltb a a = false.
Proof. by destruct a; unfold ip_ltb; cbn; rewrite Z.compare_refl. Qed.

(** ** [IpAddr::from_str] *)
Definition chars := list ascii.
Definition parser (A : Type) : Type := chars → option (A * chars).

(** [char::to_digit] for radix 10 and 16 *)
Definition to_digit (radix : Z) (c : ascii) : option Z :=
  let n := Z.of_nat (nat_of_ascii c) in
  let d := if (48 <=? n) && (n <=? 57) then Some (n - 48)
           else if (97 <=? n) && (n <=? 122) then Some (n - 87)
           else if (65 <=? n) && (n <=? 90) then Some (n - 55)
           else None in
  d ≫= λ d, if d <? radix then Some d else None.

Fixpoint read_digits (radix max_digits bound : Z) (acc count : Z) (s : chars) :
    option (Z * Z * chars) :=
  match s with
  | [] => Some (acc, count, [])
  | c :: s' =>
      match to_digit radix c with
      | None => Some (acc, count, s)
      | Some d =>
          let acc' := acc * radix + d in
          if bound <? acc' then None
          else if max_digits <? count + 1 then None
          else read_digits radix max_digits bound acc' (count + 1) s'
      end
  end.

Definition read_number (radix max_digits bound : Z) (allow_zero_prefix : bool) : parser Z :=
  λ s,
    let has_leading_zero := match s with c :: _ => Ascii.eqb c "0" | [] => false end in
    match read_digits radix max_digits bound 0 0 s with
    | None => None
    | Some (v, count, s') =>
        if count =? 0 then None
        else if negb allow_zero_prefix && has_leading_zero && (1 <? count) then None
        else Some (v, s')
    end.

Definition read_given_char (c : ascii) (s : chars) : option chars :=
  match s with
  | d :: s' => if Ascii.eqb c d then Some s' else None
  | [] => None
  end.

Definition read_separator {A} (sep : ascii) (index : nat) (inner : parser A) : parser A :=
  λ s, if (0 <? index)%nat then read_given_char sep s ≫= inner else inner s.

Fixpoint read_octets (index n : nat) (acc : Z) : parser Z := λ s,
  match n with
  | O => Some (acc, s)
  | S n' =>
      match read_separator "." index (read_number 10 3 255 false) s with
      | Some (o, s') => read_octets (S index) n' (acc * 256 + o) s'
      | None => None
      end
  end.
Definition read_ipv4_addr : parser Z := read_octets 0 4 0.

(** [read_groups]: the groups read, whether an IPv4 tail was read, the rest. *)
Fixpoint read_groups (index n : nat) (s : chars) : list Z * bool * chars :=
  match n with
  | O => ([], false, s)
  | S n' =>
      let ipv4 := match n' with
                  | O => None
                  | S _ => read_separator ":" index read_ipv4_addr s
                  end in
      match ipv4 with
      | Some (a, s') => ([a / 65536; a mod 65536], true, s')
      | None =>
          match read_separator ":" index (read_number 16 4 65535 true) s with
          | Some (g, s') =>
              let '(gs, v4, rest) := read_groups (S index) n' s' in (g :: gs, v4, rest)
          | None => ([], false, s)
          end
      end
  end.

Definition ipv6_of_groups (gs : list Z) : Z := foldl (λ acc g, acc * 65536 + g) 0 gs.

Definition read_ipv6_addr : parser Z := λ s,
  let '(head, head_ipv4, s1) := read_groups 0 8 s in
  let head_size := length head in
  if (head_size =? 8)%nat then Some (ipv6_of_groups head, s1)
  else if head_ipv4 then None
  else
    match read_given_char ":" s1 ≫= read_given_char ":" with
    | None => None
    | Some s2 =>
        let '(tail, _, s3) := read_groups 0 (8 - (head_size + 1)) s2 in
        let zeros := replicate (8 - head_size - length tail) 0 in
        Some (ipv6_of_groups (head ++ zeros ++ tail), s3)
    end.

Definition read_ip_addr : parser IpAddr := λ s,
  match read_ipv4_addr s with
  | Some (a, s') => Some (V4 a, s')
  | None => prod_map V6 id <$> read_ipv6_addr s
  end.

Definition parse_ip (s : string) : result IpAddr :=
  match read_ip_addr (String.list_ascii_of_string s) with
  | Some (a, []) => Ok a
  | _ => Err "invalid IP address syntax"
  end.

Example parse_v4 : parse_ip "192.168.4.76" = Ok (V4 3232236620).
Proof. reflexivity. Qed.
Example parse_v4_zero_prefix : is_ok (parse_ip "192.168.04.76") = false.
Proof. reflexivity. Qed.
Example parse_v4_big : is_ok (parse_ip "256.1.1.1") = false.
Proof. reflexivity. Qed.
Example parse_v6_short : parse_ip "::1" = Ok (V6 1).
Proof. reflexivity. Qed.
Example parse_v6_mixed : parse_ip "::ffff:1.2.3.4" = Ok (V6 (65535 * 2 ^ 32 + 16909060)).
Proof. reflexivity. Qed.
Example parse_v6_full : parse_ip "2001:db8:0:0:0:0:2:1" = parse_ip "2001:DB8::2:1".
Proof. reflexivity. Qed.
Example parse_v6_long : is_ok (parse_ip "1:2:3:4:5:6:7:8:9") = false.
Proof. reflexivity. Qed.

(** ** [Display for IpAddr] *)

(** Digits of a non-negative number, at most [fuel] of them. *)
Fixpoint digits (fuel : nat) (radix z : Z) (acc : string) : string :=
  match fuel with
  | O => acc
  | S fuel =>
      let d := z mod radix in
      let c := ascii_of_nat (Z.to_nat (if d <? 10 then 48 + d else 87 + d)) in
      let acc := String c acc in
      if z <? radix then acc else digits fuel radix (z / radix) acc
  end.
(** [{}] and [{:x}] of an unsigned integer of at most 128 bits. *)
Definition dec (z : Z) : string := digits 40 10 z "".
Definition hex (z : Z) : string := digits 40 16 z "".
(** [{:0width}]: at least [width] digits *)
Definition pad (width : nat) (s : string) : string :=
  String.concat "" (replicate (width - String.length s) "0") +:+ s.

Definition v4_to_string (a : Z) : string :=
  dec (a / 2 ^ 24) +:+ "." +:+ dec (a / 2 ^ 16 mod 256) +:+ "." +:+
  dec (a / 2 ^ 8 mod 256) +:+ "." +:+ dec (a mod 256).

Definition segments (a : Z) : list Z :=
  (λ i, a / 2 ^ (16 * (7 - Z.of_nat i)) mod 65536) <$> seq 0 8.

(** The first longest run of zero segments: its start and length. *)
Fixpoint longest_zeros (segs : list Z) (i : nat) (longest current : nat * nat) : nat * nat :=
  match segs with
  | [] => longest
  | seg :: segs =>
      if seg =? 0 then
        let current := (if (current.2 =? 0)%nat then i else current.1, S current.2) in
        let longest := if (longest.2 <? current.2)%nat then current else longest in
        longest_zeros segs (S i) longest current
      else longest_zeros segs (S i) longest (0%nat, 0%nat)
  end.

Definition fmt_segments (segs : list Z) : string := String.concat ":" (hex <$> segs).

Definition v6_to_string (a : Z) : string :=
  let segs := segments a in
  if (a / 2 ^ 32 =? 65535) then "::ffff:" +:+ v4_to_string (a mod 2 ^ 32)
  else
    let '(start, len) := longest_zeros segs 0 (0%nat, 0%nat) (0%nat, 0%nat) in
    if (1 <? len)%nat then
      fmt_segments (take start segs) +:+ "::" +:+ fmt_segments (drop (start + len) segs)
    else fmt_segments segs.

Definition ip_to_string (a : IpAddr) : string :=
  match a with V4 a => v4_to_string a | V6 a => v6_to_string a end.

Example show_v4 : ip_to_string (V4 3232236620) = "192.168.4.76".
Proof. reflexivity. Qed.
Example show_v6 : ip_to_string (V6 (2 ^ 125 + 255)) = "2000::ff".
Proof. vm_compute. reflexivity. Qed.
Example show_parse : parse_ip (ip_to_string (V6 (2 ^ 100 + 2 ^ 20 + 7))) = Ok (V6 (2 ^ 100 + 2 ^ 20 + 7)).
Proof. vm_compute. reflexivity. Qed.
