(* ===== verification/GigantoClient.v ===== *)
(** * The types of the giganto-client crate

    The events, enums and wire helpers below belong to the crate
    [giganto-client], which is not part of the repository.  The records hold the
    fields the repository reads or writes; machine integers are [Z], a [f64] is
    its binary64 datum.  What the repository calls is the class [Client]. *)

From Stdlib Require Import ZArith.
From Stdlib Require Import Floats.SpecFloat.
From S2P Require Import Prelude Bytes NetAddr Externals.

(** The event kinds the repository names; any other is [OtherKind]. *)
Module RawEventKind.
Inductive t :=
| Conn | Dns | Log | Http | Rdp | PeriodicTimeSeries | Smtp | Ntlm | Kerberos
| Ssh | DceRpc | Statistics | OpLog | Packet | Ftp | Mqtt | Ldap | Tls | Smb | Nfs
| ProcessCreate | FileCreateTime | NetworkConnect | ProcessTerminate | ImageLoad
| FileCreate | RegistryValueSet | RegistryKeyRename | FileCreateStreamHash
| PipeEvent | DnsQuery | FileDelete | ProcessTamper | FileDeleteDetected
| Netflow5 | Netflow9 | SecuLog
| OtherKind (code : Z).

#[export] Instance eq_dec : EqDecision t.
Proof. solve_decision. Defined.
End RawEventKind.
Notation RawEventKind := RawEventKind.t.
Export (hints) RawEventKind.

Module RequestStreamRecord.
Inductive t :=
| Conn | Dns | Rdp | Http | Log | Smtp | Ntlm | Kerberos | Ssh | DceRpc | Ftp
| Mqtt | Ldap | Tls | Smb | Nfs | FileCreate | FileDelete | Pcap.

#[export] Instance eq_dec : EqDecision t.
Proof. solve_decision. Defined.
End RequestStreamRecord.
Notation RequestStreamRecord := RequestStreamRecord.t.
Export (hints) RequestStreamRecord.

Inductive NodeType := Hog | Crusher.
Inductive OpLogLevel := Info | Warn | Error.

#[export] Instance NodeType_eq_dec : EqDecision NodeType.
Proof. solve_decision. Defined.

Module Conn.
Record t := mk { orig_addr : IpAddr; orig_port : Z; resp_addr : IpAddr; resp_port : Z;
   proto : Z; duration : Z; service : string; orig_bytes : Z; resp_bytes : Z;
   orig_pkts : Z; resp_pkts : Z; }.
End Conn.
Notation Conn := Conn.t.

Module Dns.
Record t := mk { orig_addr : IpAddr; orig_port : Z; resp_addr : IpAddr; resp_port : Z;
   proto : Z; last_time : Z; query : string; answer : list string; trans_id : Z;
   rtt : Z; qclass : Z; qtype : Z; rcode : Z; aa_flag : bool; tc_flag : bool;
   rd_flag : bool; ra_flag : bool; ttl : list Z; }.
End Dns.
Notation Dns := Dns.t.

Module Http.
Record t := mk { orig_addr : IpAddr; orig_port : Z; resp_addr : IpAddr; resp_port : Z;
   proto : Z; last_time : Z; method : string; host : string; uri : string;
   referrer : string; version : string; user_agent : string; request_len : Z;
   response_len : Z; status_code : Z; status_msg : string; username : string;
   password : string; cookie : string; content_encoding : string; content_type : string;
   cache_control : string; orig_filenames : list string; orig_mime_types : list string;
   resp_filenames : list string; resp_mime_types : list string; }.
End Http.
Notation Http := Http.t.

Module Rdp.
Record t := mk { orig_addr : IpAddr; orig_port : Z; resp_addr : IpAddr; resp_port : Z;
   proto : Z; last_time : Z; cookie : string; }.
End Rdp.
Notation Rdp := Rdp.t.

Module Smtp.
Record t := mk { orig_addr : IpAddr; orig_port : Z; resp_addr : IpAddr; resp_port : Z;
   proto : Z; last_time : Z; mailfrom : string; date : string; from_ : string;
   to_ : string; subject : string; agent : string; }.
End Smtp.
Notation Smtp := Smtp.t.

Module Ntlm.
Record t := mk { orig_addr : IpAddr; orig_port : Z; resp_addr : IpAddr; resp_port : Z;
   proto : Z; last_time : Z; username : string; hostname : string; domainname : string;
   server_nb_computer_name : string; server_dns_computer_name : string;
   server_tree_name : string; success : string; }.
End Ntlm.
Notation Ntlm := Ntlm.t.

Module Kerberos.
Record t := mk { orig_addr : IpAddr; orig_port : Z; resp_addr : IpAddr; resp_port : Z;
   proto : Z; last_time : Z; client_time : Z; server_time : Z; error_code : Z;
   client_realm : string; cname_type : Z; client_name : list string; realm : string;
   sname_type : Z; service_name : list string; }.
End Kerberos.
Notation Kerberos := Kerberos.t.

Module Ssh.
Record t := mk { orig_addr : IpAddr; orig_port : Z; resp_addr : IpAddr; resp_port : Z;
   proto : Z; last_time : Z; version : Z; auth_success : string; auth_attempts : Z;
   direction : string; client : string; server : string; cipher_alg : string;
   mac_alg : string; compression_alg : string; kex_alg : string; host_key_alg : string;
   host_key : string; }.
End Ssh.
Notation Ssh := Ssh.t.

Module DceRpc.
Record t := mk { orig_addr : IpAddr; orig_port : Z; resp_addr : IpAddr; resp_port : Z;
   proto : Z; last_time : Z; rtt : Z; named_pipe : string; endpoint : string;
   operation : string; }.
End DceRpc.
Notation DceRpc := DceRpc.t.

Module Log.
Record t := mk { kind : string; log : bytes; }.
End Log.
Notation Log := Log.t.

Module OpLog.
Record t := mk { agent_name : string; log_level : OpLogLevel; contents : string; }.
End OpLog.
Notation OpLog := OpLog.t.

Module PeriodicTimeSeries.
Record t := mk { id : string; data : list spec_float; }.
End PeriodicTimeSeries.
Notation PeriodicTimeSeries := PeriodicTimeSeries.t.

Module Packet.
Record t := mk { packet_timestamp : Z; packet : bytes; }.
End Packet.
Notation Packet := Packet.t.

Module Ftp.
Record t := mk { orig_addr : IpAddr; orig_port : Z; resp_addr : IpAddr; resp_port : Z;
   proto : Z; last_time : Z; user : string; password : string; command : string;
   reply_code : string; reply_msg : string; data_passive : bool;
   data_orig_addr : IpAddr; data_resp_addr : IpAddr; data_resp_port : Z; file : string;
   file_size : Z; file_id : string; }.
End Ftp.
Notation Ftp := Ftp.t.

Module Mqtt.
Record t := mk { orig_addr : IpAddr; orig_port : Z; resp_addr : IpAddr; resp_port : Z;
   proto : Z; last_time : Z; protocol : string; version : Z; client_id : string;
   connack_reason : Z; subscribe : list string; suback_reason : list Z; }.
End Mqtt.
Notation Mqtt := Mqtt.t.

Module Ldap.
Record t := mk { orig_addr : IpAddr; orig_port : Z; resp_addr : IpAddr; resp_port : Z;
   proto : Z; last_time : Z; message_id : Z; version : Z; opcode : list string;
   result : list string; diagnostic_message : list string; object_ : list string;
   argument : list string; }.
End Ldap.
Notation Ldap := Ldap.t.

Module Tls.
Record t := mk { orig_addr : IpAddr; orig_port : Z; resp_addr : IpAddr; resp_port : Z;
   proto : Z; last_time : Z; server_name : string; alpn_protocol : string; ja3 : string;
   version : string; cipher : Z; ja3s : string; serial : string;
   subject_country : string; subject_org_name : string; subject_common_name : string;
   validity_not_before : Z; validity_not_after : Z; subject_alt_name : string;
   issuer_country : string; issuer_org_name : string; issuer_org_unit_name : string;
   issuer_common_name : string; last_alert : Z; }.
End Tls.
Notation Tls := Tls.t.

Module Smb.
Record t := mk { orig_addr : IpAddr; orig_port : Z; resp_addr : IpAddr; resp_port : Z;
   proto : Z; last_time : Z; command : Z; path : string; service : string;
   file_name : string; file_size : Z; resource_type : Z; fid : Z; create_time : Z;
   access_time : Z; write_time : Z; change_time : Z; }.
End Smb.
Notation Smb := Smb.t.

Module Nfs.
Record t := mk { orig_addr : IpAddr; orig_port : Z; resp_addr : IpAddr; resp_port : Z;
   proto : Z; last_time : Z; read_files : list string; write_files : list string; }.
End Nfs.
Notation Nfs := Nfs.t.

Module Statistics.
Record t := mk { core : Z; period : Z; stats : list (RawEventKind * Z * Z); }.
End Statistics.
Notation Statistics := Statistics.t.

Module ProcessCreate.
Record t := mk { agent_name : string; agent_id : string; process_guid : string;
   process_id : Z; image : string; file_version : string; description : string;
   product : string; company : string; original_file_name : string;
   command_line : string; current_directory : string; user : string;
   logon_guid : string; logon_id : Z; terminal_session_id : Z; integrity_level : string;
   hashes : list string; parent_process_guid : string; parent_process_id : Z;
   parent_image : string; parent_command_line : string; parent_user : string; }.
End ProcessCreate.
Notation ProcessCreate := ProcessCreate.t.

Module FileCreationTimeChanged.
Record t := mk { agent_name : string; agent_id : string; process_guid : string;
   process_id : Z; image : string; target_filename : string; creation_utc_time : Z;
   previous_creation_utc_time : Z; user : string; }.
End FileCreationTimeChanged.
Notation FileCreationTimeChanged := FileCreationTimeChanged.t.

Module NetworkConnection.
Record t := mk { agent_name : string; agent_id : string; process_guid : string;
   process_id : Z; image : string; user : string; protocol : string; initiated : bool;
   source_is_ipv6 : bool; source_ip : IpAddr; source_hostname : string; source_port : Z;
   source_port_name : string; destination_is_ipv6 : bool; destination_ip : IpAddr;
   destination_hostname : string; destination_port : Z; destination_port_name : string; }.
End NetworkConnection.
Notation NetworkConnection := NetworkConnection.t.

Module ProcessTerminated.
Record t := mk { agent_name : string; agent_id : string; process_guid : string;
   process_id : Z; image : string; user : string; }.
End ProcessTerminated.
Notation ProcessTerminated := ProcessTerminated.t.

Module ImageLoaded.
Record t := mk { agent_name : string; agent_id : string; process_guid : string;
   process_id : Z; image : string; image_loaded : string; file_version : string;
   description : string; product : string; company : string;
   original_file_name : string; hashes : list string; signed : bool; signature : string;
   signature_status : string; user : string; }.
End ImageLoaded.
Notation ImageLoaded := ImageLoaded.t.

Module FileCreate.
Record t := mk { agent_name : string; agent_id : string; process_guid : string;
   process_id : Z; image : string; target_filename : string; creation_utc_time : Z;
   user : string; }.
End FileCreate.
Notation FileCreate := FileCreate.t.

Module RegistryValueSet.
Record t := mk { agent_name : string; agent_id : string; event_type : string;
   process_guid : string; process_id : Z; image : string; target_object : string;
   details : string; user : string; }.
End RegistryValueSet.
Notation RegistryValueSet := RegistryValueSet.t.

Module RegistryKeyValueRename.
Record t := mk { agent_name : string; agent_id : string; event_type : string;
   process_guid : string; process_id : Z; image : string; target_object : string;
   new_name : string; user : string; }.
End RegistryKeyValueRename.
Notation RegistryKeyValueRename := RegistryKeyValueRename.t.

Module FileCreateStreamHash.
Record t := mk { agent_name : string; agent_id : string; process_guid : string;
   process_id : Z; image : string; target_filename : string; creation_utc_time : Z;
   hash : list string; contents : string; user : string; }.
End FileCreateStreamHash.
Notation FileCreateStreamHash := FileCreateStreamHash.t.

Module PipeEvent.
Record t := mk { agent_name : string; agent_id : string; event_type : string;
   process_guid : string; process_id : Z; pipe_name : string; image : string;
   user : string; }.
End PipeEvent.
Notation PipeEvent := PipeEvent.t.

Module DnsEvent.
Record t := mk { agent_name : string; agent_id : string; process_guid : string;
   process_id : Z; query_name : string; query_status : Z; query_results : list string;
   image : string; user : string; }.
End DnsEvent.
Notation DnsEvent := DnsEvent.t.

Module FileDelete.
Record t := mk { agent_name : string; agent_id : string; process_guid : string;
   process_id : Z; user : string; image : string; target_filename : string;
   hashes : list string; is_executable : bool; archived : bool; }.
End FileDelete.
Notation FileDelete := FileDelete.t.

Module ProcessTampering.
Record t := mk { agent_name : string; agent_id : string; process_guid : string;
   process_id : Z; image : string; tamper_type : string; user : string; }.
End ProcessTampering.
Notation ProcessTampering := ProcessTampering.t.

Module FileDeleteDetected.
Record t := mk { agent_name : string; agent_id : string; process_guid : string;
   process_id : Z; user : string; image : string; target_filename : string;
   hashes : list string; is_executable : bool; }.
End FileDeleteDetected.
Notation FileDeleteDetected := FileDeleteDetected.t.

Module Netflow5.
Record t := mk { srcaddr : IpAddr; dstaddr : IpAddr; nexthop : IpAddr; input : Z;
   output : Z; dpkts : Z; doctets : Z; first : Z; last : Z; srcport : Z; dstport : Z;
   tcp_flags : Z; prot : Z; tos : Z; src_as : Z; dst_as : Z; src_mask : Z; dst_mask : Z;
   sequence : Z; engine_type : Z; engine_id : Z; sampling_mode : Z; sampling_rate : Z; }.
End Netflow5.
Notation Netflow5 := Netflow5.t.

Module Netflow9.
Record t := mk { sequence : Z; source_id : Z; template_id : Z; orig_addr : IpAddr;
   orig_port : Z; resp_addr : IpAddr; resp_port : Z; proto : Z; contents : string; }.
End Netflow9.
Notation Netflow9 := Netflow9.t.

Module SecuLog.
Record t := mk { source : string; kind : string; log_type : string; version : string;
   orig_addr : option IpAddr; orig_port : option Z; resp_addr : option IpAddr;
   resp_port : option Z; proto : option Z; contents : string; }.
End SecuLog.
Notation SecuLog := SecuLog.t.

(** Messages of a publish client *)
Module RequestHogStream.
Record t := mk { start : Z; source : option (list string); }.
End RequestHogStream.
Notation RequestHogStream := RequestHogStream.t.

Module RequestCrusherStream.
Record t := mk {
  start : Z; id : string; src_ip : option IpAddr; dst_ip : option IpAddr;
  source : option string; }.
End RequestCrusherStream.
Notation RequestCrusherStream := RequestCrusherStream.t.

Module RequestRange.
Record t := mk { source : string; kind : string; start : Z; end_ : Z; count : nat; }.
End RequestRange.
Notation RequestRange := RequestRange.t.

Module RequestRawData.
Record t := mk { kind : string; input : list (string * list Z); }.
End RequestRawData.
Notation RequestRawData := RequestRawData.t.

Inductive MessageCode := ReqRange | Pcap | RawData.

(** What the repository calls in giganto-client (and the [Display] of events). *)
Class Client := {
  kind_of_u32 : Z → option RawEventKind;
  kind_from_str : string → option RawEventKind;
  kind_default : RawEventKind;
  node_str : NodeType → string;
  record_str : RequestStreamRecord → string;
  http_to_string : Http → string;
  kind_debug : RawEventKind → string;
  qclass_str : Z → string;
  qtype_str : Z → string;
}.
