(* ===== verification/Events.v ===== *)
(** * Events as the filters see them (src/src/ingest/implement.rs)

    The trait [EventFilter] is a type class; every event type has an instance.
    The instances are built with two constructors for the two shapes the file
    repeats: an event between two end points and an event without addresses. *)

From Stdlib Require Import ZArith.
From S2P Require Import Prelude Bytes NetAddr Externals GigantoClient.

Class EventFilter (T : Type) := {
  data_type : T → string;
  orig_addr : T → option IpAddr;
  resp_addr : T → option IpAddr;
  orig_port : T → option Z;
  resp_port : T → option Z;
  log_level : T → option string;
  log_contents : T → option string;
  (** the trait's default methods return [None] *)
  text : T → option string;
  event_source : T → option string;
}.

(** An event between two addresses, without log fields. *)
Definition endpoint_filter {T} (name : string) (oa ra : T → IpAddr) (op rp : T → Z) :
    EventFilter T := {|
  data_type _ := name;
  orig_addr e := Some (oa e); resp_addr e := Some (ra e);
  orig_port e := Some (op e); resp_port e := Some (rp e);
  log_level _ := None; log_contents _ := None; text _ := None; event_source _ := None |}.

(** An event without addresses or log fields. *)
Definition plain_filter {T} (name : string) : EventFilter T := {|
  data_type _ := name;
  orig_addr _ := None; resp_addr _ := None; orig_port _ := None; resp_port _ := None;
  log_level _ := None; log_contents _ := None; text _ := None; event_source _ := None |}.

#[export] Instance Conn_filter : EventFilter Conn :=
  endpoint_filter "conn" Conn.orig_addr Conn.resp_addr Conn.orig_port Conn.resp_port.
#[export] Instance Dns_filter : EventFilter Dns :=
  endpoint_filter "dns" Dns.orig_addr Dns.resp_addr Dns.orig_port Dns.resp_port.
#[export] Instance Http_filter `{Client} : EventFilter Http := {|
  data_type _ := "http";
  orig_addr e := Some (Http.orig_addr e); resp_addr e := Some (Http.resp_addr e);
  orig_port e := Some (Http.orig_port e); resp_port e := Some (Http.resp_port e);
  log_level _ := None; log_contents _ := None;
  text e := Some (http_to_string e); event_source _ := None |}.
#[export] Instance Rdp_filter : EventFilter Rdp :=
  endpoint_filter "rdp" Rdp.orig_addr Rdp.resp_addr Rdp.orig_port Rdp.resp_port.
#[export] Instance Smtp_filter : EventFilter Smtp :=
  endpoint_filter "smtp" Smtp.orig_addr Smtp.resp_addr Smtp.orig_port Smtp.resp_port.
#[export] Instance Ntlm_filter : EventFilter Ntlm :=
  endpoint_filter "ntlm" Ntlm.orig_addr Ntlm.resp_addr Ntlm.orig_port Ntlm.resp_port.
#[export] Instance Kerberos_filter : EventFilter Kerberos :=
  endpoint_filter "kerberos" Kerberos.orig_addr Kerberos.resp_addr Kerberos.orig_port Kerberos.resp_port.
#[export] Instance Ssh_filter : EventFilter Ssh :=
  endpoint_filter "ssh" Ssh.orig_addr Ssh.resp_addr Ssh.orig_port Ssh.resp_port.
#[export] Instance DceRpc_filter : EventFilter DceRpc :=
  endpoint_filter "dce rpc" DceRpc.orig_addr DceRpc.resp_addr DceRpc.orig_port DceRpc.resp_port.
#[export] Instance Log_filter : EventFilter Log := plain_filter "log".
#[export] Instance OpLog_filter : EventFilter OpLog := {|
  data_type _ := "oplog";
  orig_addr _ := None; resp_addr _ := None; orig_port _ := None; resp_port _ := None;
  log_level e := match OpLog.log_level e with
                 | Info => Some "Info"
                 | Warn => Some "Warn"
                 | Error => Some "Error"
                 end;
  log_contents e := Some (OpLog.contents e);
  text _ := None; event_source _ := None |}.
#[export] Instance PeriodicTimeSeries_filter : EventFilter PeriodicTimeSeries := plain_filter "periodic time series".
#[export] Instance Packet_filter : EventFilter Packet := plain_filter "packet".
#[export] Instance Ftp_filter : EventFilter Ftp :=
  endpoint_filter "ftp" Ftp.orig_addr Ftp.resp_addr Ftp.orig_port Ftp.resp_port.
#[export] Instance Mqtt_filter : EventFilter Mqtt :=
  endpoint_filter "mqtt" Mqtt.orig_addr Mqtt.resp_addr Mqtt.orig_port Mqtt.resp_port.
#[export] Instance Ldap_filter : EventFilter Ldap :=
  endpoint_filter "ldap" Ldap.orig_addr Ldap.resp_addr Ldap.orig_port Ldap.resp_port.
#[export] Instance Tls_filter : EventFilter Tls :=
  endpoint_filter "tls" Tls.orig_addr Tls.resp_addr Tls.orig_port Tls.resp_port.
#[export] Instance Smb_filter : EventFilter Smb :=
  endpoint_filter "smb" Smb.orig_addr Smb.resp_addr Smb.orig_port Smb.resp_port.
#[export] Instance Nfs_filter : EventFilter Nfs :=
  endpoint_filter "nfs" Nfs.orig_addr Nfs.resp_addr Nfs.orig_port Nfs.resp_port.
#[export] Instance Statistics_filter : EventFilter Statistics := plain_filter "statistics".
#[export] Instance ProcessCreate_filter : EventFilter ProcessCreate := plain_filter "process create".
#[export] Instance FileCreationTimeChanged_filter : EventFilter FileCreationTimeChanged := plain_filter "file creation time changed".
#[export] Instance NetworkConnection_filter : EventFilter NetworkConnection :=
  endpoint_filter "network connection" NetworkConnection.source_ip NetworkConnection.destination_ip NetworkConnection.source_port NetworkConnection.destination_port.
#[export] Instance ProcessTerminated_filter : EventFilter ProcessTerminated := plain_filter "process terminated".
#[export] Instance ImageLoaded_filter : EventFilter ImageLoaded := plain_filter "image loaded".
#[export] Instance FileCreate_filter : EventFilter FileCreate := plain_filter "file create".
#[export] Instance RegistryValueSet_filter : EventFilter RegistryValueSet := plain_filter "registry value set".
#[export] Instance RegistryKeyValueRename_filter : EventFilter RegistryKeyValueRename := plain_filter "registry key value rename".
#[export] Instance FileCreateStreamHash_filter : EventFilter FileCreateStreamHash := plain_filter "file create stream hash".
#[export] Instance PipeEvent_filter : EventFilter PipeEvent := plain_filter "pipe event".
#[export] Instance DnsEvent_filter : EventFilter DnsEvent := plain_filter "dns event".
#[export] Instance FileDelete_filter : EventFilter FileDelete := plain_filter "file delete".
#[export] Instance ProcessTampering_filter : EventFilter ProcessTampering := plain_filter "process tampering".
#[export] Instance FileDeleteDetected_filter : EventFilter FileDeleteDetected := plain_filter "file delete detected".
#[export] Instance Netflow5_filter : EventFilter Netflow5 :=
  endpoint_filter "netflow v5" Netflow5.srcaddr Netflow5.dstaddr Netflow5.srcport Netflow5.dstport.
#[export] Instance Netflow9_filter : EventFilter Netflow9 := {|
  data_type _ := "netflow v9";
  orig_addr e := Some (Netflow9.orig_addr e); resp_addr e := Some (Netflow9.resp_addr e);
  orig_port e := Some (Netflow9.orig_port e); resp_port e := Some (Netflow9.resp_port e);
  log_level _ := None; log_contents e := Some (Netflow9.contents e);
  text _ := None; event_source _ := None |}.
#[export] Instance SecuLog_filter : EventFilter SecuLog := {|
  data_type _ := "security log";
  orig_addr := SecuLog.orig_addr; resp_addr := SecuLog.resp_addr;
  orig_port := SecuLog.orig_port; resp_port := SecuLog.resp_port;
  log_level _ := None; log_contents e := Some (SecuLog.contents e);
  text _ := None; event_source e := Some (SecuLog.source e) |}.

(** ** The encodings of the events *)
Class Codecs := {
  codec_Conn :: Bincode Conn;
  codec_Dns :: Bincode Dns;
  codec_Log :: Bincode Log;
  codec_Http :: Bincode Http;
  codec_Rdp :: Bincode Rdp;
  codec_PeriodicTimeSeries :: Bincode PeriodicTimeSeries;
  codec_Smtp :: Bincode Smtp;
  codec_Ntlm :: Bincode Ntlm;
  codec_Kerberos :: Bincode Kerberos;
  codec_Ssh :: Bincode Ssh;
  codec_DceRpc :: Bincode DceRpc;
  codec_Statistics :: Bincode Statistics;
  codec_OpLog :: Bincode OpLog;
  codec_Packet :: Bincode Packet;
  codec_Ftp :: Bincode Ftp;
  codec_Mqtt :: Bincode Mqtt;
  codec_Ldap :: Bincode Ldap;
  codec_Tls :: Bincode Tls;
  codec_Smb :: Bincode Smb;
  codec_Nfs :: Bincode Nfs;
  codec_ProcessCreate :: Bincode ProcessCreate;
  codec_FileCreationTimeChanged :: Bincode FileCreationTimeChanged;
  codec_NetworkConnection :: Bincode NetworkConnection;
  codec_ProcessTerminated :: Bincode ProcessTerminated;
  codec_ImageLoaded :: Bincode ImageLoaded;
  codec_FileCreate :: Bincode FileCreate;
  codec_RegistryValueSet :: Bincode RegistryValueSet;
  codec_RegistryKeyValueRename :: Bincode RegistryKeyValueRename;
  codec_FileCreateStreamHash :: Bincode FileCreateStreamHash;
  codec_PipeEvent :: Bincode PipeEvent;
  codec_DnsEvent :: Bincode DnsEvent;
  codec_FileDelete :: Bincode FileDelete;
  codec_ProcessTampering :: Bincode ProcessTampering;
  codec_FileDeleteDetected :: Bincode FileDeleteDetected;
  codec_Netflow5 :: Bincode Netflow5;
  codec_Netflow9 :: Bincode Netflow9;
  codec_SecuLog :: Bincode SecuLog;
}.
