(* ===== verification/Filters.v ===== *)
(** * Query filters

    The address, port, contents and source tests of src/src/graphql.rs, and the
    filters of the GraphQL queries (network.rs, log.rs, packet.rs,
    timeseries.rs, security.rs, export.rs) with their two traits:
    [KeyExtractor] (which part of the key space to search) and
    [RawEventFilter] (which of the events found there to keep). *)

From Stdlib Require Import ZArith Lia.
From S2P Require Import Prelude Bytes Externals StorageKey NetAddr GigantoClient Events.

(** [str::to_lowercase] is a table of Unicode; it is left abstract. *)
Class Unicode := to_lowercase : string → string.

Module IpRange.
Record t := mk { start : option string; end_ : option string; }.
End IpRange.
Notation IpRange := IpRange.t.

Module PortRange.
Record t := mk { start : option Z; end_ : option Z; }.
End PortRange.
Notation PortRange := PortRange.t.

(** [a? && b?]: the right operand is evaluated only if the left one holds. *)
Definition and_then (a b : result bool) : result bool :=
  match a with
  | Ok true => b
  | Ok false => Ok false
  | Err e => Err e
  end.
Infix "&&?" := and_then (at level 40, left associativity) : giganto_scope.

Definition check_address (filter_addr : option IpRange) (target_addr : option IpAddr) :
    result bool :=
  match filter_addr, target_addr with
  | Some ip_range, Some addr =>
      match IpRange.start ip_range with
      | Some start =>
          match IpRange.end_ ip_range with
          | Some end_ =>
              ((λ s, ip_leb s addr) <$> parse_ip start) &&?
              ((λ e, ip_ltb addr e) <$> parse_ip end_)
          | None => (λ s, ip_eqb addr s) <$> parse_ip start
          end
      | None => Ok true
      end
  | _, _ => Ok true
  end.

Definition check_port (filter_port : option PortRange) (target_port : option Z) : bool :=
  match filter_port, target_port with
  | Some port_range, Some port =>
      match PortRange.start port_range with
      | Some start =>
          match PortRange.end_ port_range with
          | Some end_ => (start <=? port) && (port <? end_)
          | None => port =? start
          end
      | None => true
      end
  | _, _ => true
  end.

Definition check_contents (filter_str target_str : option string) : bool :=
  match filter_str with
  | None => true
  | Some f => match target_str with Some contents => str_contains contents f | None => false end
  end.

Definition check_source (filter_src target_src : option string) : bool :=
  match filter_src with
  | None => true
  | Some f => match target_src with Some source => bool_decide (source = f) | None => false end
  end.

(** ** The two traits *)
Class KeyExtractor `{Chrono} (F : Type) := {
  get_start_key : F → string;
  get_mid_key : F → option bytes;
  get_range_end_key : F → option DateTime * option DateTime;
}.

Class RawEventFilter (F : Type) :=
  check : F → option IpAddr → option IpAddr → option Z → option Z →
    option string → option string → option string → option string → result bool.

(** [filter.check(e.orig_addr(), .., e.source())] *)
Definition check_event {F T} `{RawEventFilter F, EventFilter T} (f : F) (e : T) : result bool :=
  check f (orig_addr e) (resp_addr e) (orig_port e) (resp_port e)
    (log_level e) (log_contents e) (text e) (event_source e).

(** [Ok(true)] keeps the event; [Ok(false)] and errors drop it. *)
Definition keeps {F T} `{RawEventFilter F, EventFilter T} (f : F) (e : T) : bool :=
  match check_event f e with Ok b => b | Err _ => false end.

(** The four end point tests the network, search, export and security
    filters share. *)
Definition check_endpoints (foa fra : option IpRange) (fop frp : option PortRange)
    (oa ra : option IpAddr) (op rp : option Z) : result bool :=
  check_address foa oa &&? check_address fra ra &&?
  Ok (check_port fop op) &&? Ok (check_port frp rp).

Section filters.
Context `{Chrono}.

Record TimeRange := mk_time_range { tr_start : option DateTime; tr_end : option DateTime; }.

(** [get_range_end_key] of every filter *)
Definition range_of (time : option TimeRange) : option DateTime * option DateTime :=
  match time with Some t => (tr_start t, tr_end t) | None => (None, None) end.
End filters.

Module NetworkFilter.
Record t `{Chrono} := mk {
  time : option TimeRange; source : string;
  orig_addr : option IpRange; resp_addr : option IpRange;
  orig_port : option PortRange; resp_port : option PortRange;
  log_level : option string; log_contents : option string; }.

#[export] Instance keys `{Chrono} : KeyExtractor t := {|
  get_start_key f := source f;
  get_mid_key _ := None;
  get_range_end_key f := range_of (time f) |}.

#[export] Instance raw_check `{Chrono} : RawEventFilter t :=
  λ f oa ra op rp _ _ _ _,
    check_endpoints (orig_addr f) (resp_addr f) (orig_port f) (resp_port f) oa ra op rp.
End NetworkFilter.
Notation NetworkFilter := NetworkFilter.t.
Export (hints) NetworkFilter.

Module SearchFilter.
Record t `{Chrono} := mk {
  time : option TimeRange; source : string;
  orig_addr : option IpRange; resp_addr : option IpRange;
  orig_port : option PortRange; resp_port : option PortRange;
  log_level : option string; log_contents : option string;
  timestamps : list DateTime; keyword : option string; }.

Definition keyword_ok `{Chrono} `{Unicode} (f : t) (txt : option string) : bool :=
  match keyword f with
  | Some k =>
      match txt with
      | Some x => str_contains (to_lowercase x) (to_lowercase k)
      | None => false
      end
  | None => true
  end.

#[export] Instance raw_check `{Chrono} `{Unicode} : RawEventFilter t :=
  λ f oa ra op rp _ _ txt _,
    if keyword_ok f txt then
      check_endpoints (orig_addr f) (resp_addr f) (orig_port f) (resp_port f) oa ra op rp
    else Ok false.
End SearchFilter.
Notation SearchFilter := SearchFilter.t.
Export (hints) SearchFilter.

Module LogFilter.
Record t `{Chrono} := mk { time : option TimeRange; source : string; kind : option string; }.

#[export] Instance keys `{Chrono} : KeyExtractor t := {|
  get_start_key f := source f;
  get_mid_key f := as_bytes <$> kind f;
  get_range_end_key f := range_of (time f) |}.
#[export] Instance raw_check `{Chrono} : RawEventFilter t := λ _ _ _ _ _ _ _ _ _, Ok true.
End LogFilter.
Notation LogFilter := LogFilter.t.
Export (hints) LogFilter.

Module OpLogFilter.
Record t `{Chrono} := mk {
  time : option TimeRange; agent_id : string;
  log_level : option string; contents : option string; }.

#[export] Instance keys `{Chrono} : KeyExtractor t := {|
  get_start_key f := agent_id f;
  get_mid_key _ := None;
  get_range_end_key f := range_of (time f) |}.

#[export] Instance raw_check `{Chrono} : RawEventFilter t :=
  λ f _ _ _ _ level contents_ _ _,
    let level_differs :=
      match log_level f, level with
      | Some fl, Some l => negb (bool_decide (fl = l))
      | _, _ => false
      end in
    let contents_miss :=
      match contents f, contents_ with
      | Some fs, Some c => negb (str_contains c fs)
      | _, _ => false
      end in
    if level_differs then Ok false else if contents_miss then Ok false else Ok true.
End OpLogFilter.
Notation OpLogFilter := OpLogFilter.t.
Export (hints) OpLogFilter.

Module TimeSeriesFilter.
Record t `{Chrono} := mk { time : option TimeRange; id : string; }.

#[export] Instance keys `{Chrono} : KeyExtractor t := {|
  get_start_key f := id f;
  get_mid_key _ := None;
  get_range_end_key f := range_of (time f) |}.
#[export] Instance raw_check `{Chrono} : RawEventFilter t := λ _ _ _ _ _ _ _ _ _, Ok true.
End TimeSeriesFilter.
Notation TimeSeriesFilter := TimeSeriesFilter.t.
Export (hints) TimeSeriesFilter.

Module PacketFilter.
Record t `{Chrono} := mk {
  source : string; request_time : DateTime; packet_time : option TimeRange; }.

#[export] Instance keys `{Chrono} : KeyExtractor t := {|
  get_start_key f := source f;
  get_mid_key f := i64_to_be_bytes <$> timestamp_nanos_opt (request_time f);
  get_range_end_key f := range_of (packet_time f) |}.
#[export] Instance raw_check `{Chrono} : RawEventFilter t := λ _ _ _ _ _ _ _ _ _, Ok true.
End PacketFilter.
Notation PacketFilter := PacketFilter.t.
Export (hints) PacketFilter.

Module SecuLogFilter.
Record t `{Chrono} := mk {
  time : option TimeRange; source : option string; kind : string;
  orig_addr : option IpRange; resp_addr : option IpRange;
  orig_port : option PortRange; resp_port : option PortRange; log : option string; }.

#[export] Instance keys `{Chrono} : KeyExtractor t := {|
  get_start_key f := kind f;
  get_mid_key _ := None;
  get_range_end_key f := range_of (time f) |}.

#[export] Instance raw_check `{Chrono} : RawEventFilter t :=
  λ f oa ra op rp _ contents _ src,
    check_endpoints (orig_addr f) (resp_addr f) (orig_port f) (resp_port f) oa ra op rp &&?
    Ok (check_contents (log f) contents) &&? Ok (check_source (source f) src).
End SecuLogFilter.
Notation SecuLogFilter := SecuLogFilter.t.
Export (hints) SecuLogFilter.

Module ExportFilter.
Record t `{Chrono} := mk {
  protocol : string; source_id : string;
  agent_name : option string; agent_id : option string; kind : option string;
  time : option TimeRange;
  orig_addr : option IpRange; resp_addr : option IpRange;
  orig_port : option PortRange; resp_port : option PortRange; }.

#[export] Instance keys `{Chrono} : KeyExtractor t := {|
  get_start_key f := source_id f;
  get_mid_key f :=
    match kind f with
    | Some k => Some (as_bytes k)
    | None =>
        match agent_name f with
        | Some n =>
            Some (as_bytes n ++
              match agent_id f with Some i => Byte.x00 :: as_bytes i | None => [] end)
        | None => None
        end
    end;
  get_range_end_key f := range_of (time f) |}.

#[export] Instance raw_check `{Chrono} : RawEventFilter t :=
  λ f oa ra op rp _ _ _ _,
    check_endpoints (orig_addr f) (resp_addr f) (orig_port f) (resp_port f) oa ra op rp.
End ExportFilter.
Notation ExportFilter := ExportFilter.t.
Export (hints) ExportFilter.
