(* ===== verification/Storage.v ===== *)
(** * The raw-event store (src/src/storage.rs)

    [Database]'s column families and typed stores, the operations of
    [RawEventStore] and [SourceStore], the iterators ([BoundaryIter],
    [StatisticsIter], [FilteredIter], [std::iter::Peekable]) as step functions,
    and the retention task.  RocksDB itself is the interface of [Externals]. *)

From Stdlib Require Import ZArith Lia.
From S2P Require Import Prelude Bytes Externals StorageKey NetAddr GigantoClient Events Filters.

Definition RAW_DATA_COLUMN_FAMILY_NAMES : list string := [
  "conn"; "dns"; "log"; "http"; "rdp"; "periodic time series"; "smtp"; "ntlm";
  "kerberos"; "ssh"; "dce rpc"; "statistics"; "oplog"; "packet"; "ftp"; "mqtt";
  "ldap"; "tls"; "smb"; "nfs"; "process create"; "file create time";
  "network connect"; "process terminate"; "image load"; "file create";
  "registry value set"; "registry key rename"; "file create stream hash";
  "pipe event"; "dns query"; "file delete"; "process tamper";
  "file delete detected"; "netflow5"; "netflow9"; "seculog"].
Definition META_DATA_COLUMN_FAMILY_NAMES : list string := ["sources"].
Definition NON_STANDARD_CFS : list string := [
  "log"; "periodic time series"; "statistics"; "oplog"; "packet"; "seculog"].

(** ** Iterators *)

(** Rust's [Iterator]; [remaining] bounds the number of items still to come. *)
Class Iterator (It A : Type) := {
  next : It → option A * It;
  remaining : It → nat;
}.
Class IteratorLaws (It A : Type) `{Iterator It A} : Prop :=
  next_remaining (it : It) x it' : next it = (Some x, it') → (remaining it' < remaining it)%nat.

Section iterators.
Context {It A : Type} `{IteratorLaws It A}.

Fixpoint drain_n (n : nat) (it : It) : list A :=
  match n with
  | O => []
  | S n' => match next it with
            | (Some x, it') => x :: drain_n n' it'
            | (None, _) => []
            end
  end.

(** The items a loop over the iterator sees: all those before the first
    [None]. *)
Definition drain (it : It) : list A := drain_n (S (remaining it)) it.

Lemma drain_n_enough n m (it : It) :
  (remaining it < n)%nat → (remaining it < m)%nat → drain_n n it = drain_n m it.
Proof.
  revert m it. induction n as [|n IH]; intros [|m] it Hn Hm; [lia..|].
  cbn. destruct (next it) as [[x|] it'] eqn:E; [|done].
  apply next_remaining in E. f_equal. apply IH; lia.
Qed.

Lemma drain_unfold (it : It) :
  drain it = match next it with (Some x, it') => x :: drain it' | (None, _) => [] end.
Proof.
  unfold drain at 1. cbn. destruct (next it) as [[x|] it'] eqn:E; [|done].
  apply next_remaining in E. f_equal.
  rewrite (drain_n_enough (remaining it) (S (remaining it'))) by lia. done.
Qed.
End iterators.
Arguments drain : simpl never.

(** [std::iter::Peekable] *)
Section peekable.
Context {It A : Type} `{IteratorLaws It A}.

Record Peekable := mk_peekable { peeked : option (option A); source_iter : It; }.
Definition peekable (it : It) : Peekable := mk_peekable None it.
Definition peek (p : Peekable) : option A * Peekable :=
  match peeked p with
  | Some v => (v, p)
  | None => let '(v, it) := next (source_iter p) in (v, mk_peekable (Some v) it)
  end.
Definition peekable_next (p : Peekable) : option A * Peekable :=
  match peeked p with
  | Some v => (v, mk_peekable None (source_iter p))
  | None => let '(v, it) := next (source_iter p) in (v, mk_peekable None it)
  end.
Definition peekable_remaining (p : Peekable) : nat :=
  (match peeked p with Some (Some _) => 1 | _ => 0 end + remaining (source_iter p))%nat.

#[export] Instance peekable_iterator : Iterator Peekable A :=
  {| next := peekable_next; remaining := peekable_remaining |}.

Lemma peekable_next_none (it : It) :
  next (peekable it) = (let '(v, it') := next it in (v, peekable it')).
Proof. done. Qed.

#[export] Instance peekable_laws : IteratorLaws Peekable A.
Proof.
  intros [[v|] it] x p'.
  - intros [= -> <-]. cbn. unfold peekable_remaining. cbn. lia.
  - fold (peekable it). rewrite peekable_next_none.
    destruct (next it) as [v it'] eqn:E. intros [= -> <-].
    apply next_remaining in E. done.
Qed.

Lemma drain_peekable (it : It) : drain (peekable it) = drain it.
Proof.
  remember (remaining it) as n eqn:Hn. revert it Hn.
  induction (lt_wf n) as [n _ IH]; intros it ->.
  rewrite (drain_unfold (peekable it)), (drain_unfold it), peekable_next_none.
  destruct (next it) as [[x|] it'] eqn:E; [|done]. f_equal.
  eapply IH; [|done]. by eapply next_remaining.
Qed.

(** Peeking buffers the next item: what remains to be read is unchanged. *)
Lemma drain_peek (it : It) : drain (peek (peekable it)).2 = drain it.
Proof.
  rewrite drain_unfold, (drain_unfold it). unfold peek, peekable. cbn.
  destruct (next it) as [[x|] it'] eqn:E; cbn; unfold peekable_next; cbn; [|done].
  f_equal. apply drain_peekable.
Qed.

Lemma drain_peek_next (it : It) :
  drain (peekable_next (peek (peekable it)).2).2 = tail (drain it) ∨ drain it = [].
Proof.
  rewrite (drain_unfold it). unfold peek, peekable. cbn.
  destruct (next it) as [[x|] it'] eqn:E; [left|by right].
  unfold peekable_next. cbn. apply drain_peekable.
Qed.

Lemma peek_drain (it : It) : (peek (peekable it)).1 = head (drain it).
Proof.
  rewrite (drain_unfold it). unfold peek, peekable. cbn.
  by destruct (next it) as [[x|] it'].
Qed.
End peekable.
Arguments Peekable : clear implicits.

(** ** Typed stores *)
Section stores.
Context `{RocksDB} `{Chrono}.

(** [RawEventStore<'db, T>]: a column family whose values decode to [T]. *)
Record RawEventStore (T : Type) := mk_store { store_cf : string; }.
Arguments mk_store {T} _.
Arguments store_cf {T} _.

Definition raw_event_store (T : Type) (cfname msg : string) (db : DB) :
    result (RawEventStore T) :=
  if cf_handle db cfname then Ok (mk_store cfname) else Err msg.

(** The getters of [Database], one per event type. *)
Definition conn_store := raw_event_store Conn "conn"
  "cannot access conn column family".
Definition dns_store := raw_event_store Dns "dns"
  "cannot access dns column family".
Definition log_store := raw_event_store Log "log"
  "cannot access log column family".
Definition http_store := raw_event_store Http "http"
  "cannot access http column family".
Definition rdp_store := raw_event_store Rdp "rdp"
  "cannot access rdp column family".
Definition periodic_time_series_store := raw_event_store PeriodicTimeSeries "periodic time series"
  "cannot access periodic time series column family".
Definition smtp_store := raw_event_store Smtp "smtp"
  "cannot access smtp column family".
Definition ntlm_store := raw_event_store Ntlm "ntlm"
  "cannot access ntlm column family".
Definition kerberos_store := raw_event_store Kerberos "kerberos"
  "cannot access kerberos column family".
Definition ssh_store := raw_event_store Ssh "ssh"
  "cannot access ssh column family".
Definition dce_rpc_store := raw_event_store DceRpc "dce rpc"
  "cannot access dce rpc column family".
Definition statistics_store := raw_event_store Statistics "statistics"
  "cannot access statistics column family".
Definition op_log_store := raw_event_store OpLog "oplog"
  "cannot access operation log column family".
Definition packet_store := raw_event_store Packet "packet"
  "cannot access packet column family".
Definition ftp_store := raw_event_store Ftp "ftp"
  "cannot access ftp column family".
Definition mqtt_store := raw_event_store Mqtt "mqtt"
  "cannot access mqtt column family".
Definition ldap_store := raw_event_store Ldap "ldap"
  "cannot access ldap column family".
Definition tls_store := raw_event_store Tls "tls"
  "cannot access tls column family".
Definition smb_store := raw_event_store Smb "smb"
  "cannot access smb column family".
Definition nfs_store := raw_event_store Nfs "nfs"
  "cannot access nfs column family".
Definition process_create_store := raw_event_store ProcessCreate "process create"
  "cannot access sysmon #1 column family".
Definition file_create_time_store := raw_event_store FileCreationTimeChanged "file create time"
  "cannot access sysmon #2 column family".
Definition network_connect_store := raw_event_store NetworkConnection "network connect"
  "cannot access sysmon #3 column family".
Definition process_terminate_store := raw_event_store ProcessTerminated "process terminate"
  "cannot access sysmon #5 column family".
Definition image_load_store := raw_event_store ImageLoaded "image load"
  "cannot access sysmon #7 column family".
Definition file_create_store := raw_event_store FileCreate "file create"
  "cannot access sysmon #11 column family".
Definition registry_value_set_store := raw_event_store RegistryValueSet "registry value set"
  "cannot access sysmon #13 column family".
Definition registry_key_rename_store := raw_event_store RegistryKeyValueRename "registry key rename"
  "cannot access sysmon #14 column family".
Definition file_create_stream_hash_store := raw_event_store FileCreateStreamHash "file create stream hash"
  "cannot access sysmon #15 column family".
Definition pipe_event_store := raw_event_store PipeEvent "pipe event"
  "cannot access sysmon #17 column family".
Definition dns_query_store := raw_event_store DnsEvent "dns query"
  "cannot access sysmon #22 column family".
Definition file_delete_store := raw_event_store FileDelete "file delete"
  "cannot access sysmon #23 column family".
Definition process_tamper_store := raw_event_store ProcessTampering "process tamper"
  "cannot access sysmon #25 column family".
Definition file_delete_detected_store := raw_event_store FileDeleteDetected "file delete detected"
  "cannot access sysmon #26 column family".
Definition netflow5_store := raw_event_store Netflow5 "netflow5"
  "cannot access netflow5 column family".
Definition netflow9_store := raw_event_store Netflow9 "netflow9"
  "cannot access netflow9 column family".
Definition secu_log_store := raw_event_store SecuLog "seculog"
  "cannot access security log column family".

Record SourceStore := mk_source_store { source_cf : string; }.
Definition sources_store (db : DB) : result SourceStore :=
  if cf_handle db "sources" then Ok (mk_source_store "sources")
  else Err "cannot access sources column family".

(** The stores of all [source NUL timestamp] column families. *)
Fixpoint retain_stores_of (names : list string) (db : DB) : result (list (RawEventStore unit)) :=
  match names with
  | [] => Ok []
  | name :: names' =>
      if bool_decide (name ∈ NON_STANDARD_CFS) then retain_stores_of names' db
      else
        st ← raw_event_store unit name "cannot access column family" db;
        sts ← retain_stores_of names' db;
        Ok (st :: sts)
  end.
Definition retain_period_store (db : DB) : result (list (RawEventStore unit)) :=
  retain_stores_of RAW_DATA_COLUMN_FAMILY_NAMES db.

(** *** [impl RawEventStore] *)
Definition append {T} (st : RawEventStore T) (key raw_event : bytes) : M DB unit :=
  put_cf (store_cf st) key raw_event.
Definition delete_key {T} (st : RawEventStore T) (key : bytes) : M DB unit :=
  delete_cf (store_cf st) key.
Definition flush {T} (st : RawEventStore T) : M DB unit := flush_wal true.

(** [db.get_cf(..).ok().flatten()]: a read error counts as an absent key. *)
Definition get_value {T} (st : RawEventStore T) (db : DB) (k : bytes) : option bytes :=
  result_ok (get_cf db (store_cf st) k) ≫= id.

Definition multi_get_from_ts {T} (st : RawEventStore T) (source : string)
    (timestamps : list DateTime) (db : DB) : list (DateTime * bytes) :=
  let key_builder := builder |> start_key source in
  omap (λ timestamp,
    let k := key (key_builder |> end_key (nanos_or_max timestamp) |> build) in
    (λ v, (timestamp, v)) <$> get_value st db k) timestamps.

Definition multi_get_with_source {T} (st : RawEventStore T) (source : string)
    (timestamps : list Z) (db : DB) : list (Z * string * bytes) :=
  let key_builder := builder |> start_key source in
  omap (λ timestamp,
    let k := key (key_builder |> end_key timestamp |> build) in
    (λ v, (timestamp, source, v)) <$> get_value st db k) timestamps.

(** *** [impl SourceStore] *)
Definition source_insert (st : SourceStore) (name : string) (last_active : DateTime) : M DB unit :=
  put_cf (source_cf st) (as_bytes name) (i64_to_be_bytes (nanos_or_max last_active)).
(** [.flatten()] drops the read errors. *)
Definition source_names (st : SourceStore) (db : DB) : list bytes :=
  (oks (iterator_cf db (source_cf st) Start)).*1.

(** ** Boundary iterators *)
Record BoundaryIter (T : Type) := mk_boundary_iter {
  bi_inner : list (result (bytes * bytes));
  bi_boundary : bytes;
  bi_cond : comparison;
}.
Arguments mk_boundary_iter {T} _ _ _.
Arguments bi_inner {T} _.
Arguments bi_boundary {T} _.
Arguments bi_cond {T} _.

Definition BoundaryIter_new {T} (inner : list (result (bytes * bytes))) (boundary : bytes)
    (direction : Direction) : BoundaryIter T :=
  mk_boundary_iter inner boundary (match direction with Forward => Gt | Reverse => Lt end).

(** What [BoundaryIter::next] makes of one raw item. *)
Definition boundary_item {T} `{Bincode T} (boundary : bytes) (cond : comparison)
    (item : result (bytes * bytes)) : option (result (bytes * T)) :=
  match item with
  | Ok (k, v) =>
      if decide (bytes_cmp k boundary = cond) then None
      else Some (pair k <$> bincode_deserialize v)
  | Err e => Some (Err e)
  end.

Definition BoundaryIter_next {T} `{Bincode T} (it : BoundaryIter T) :
    option (result (bytes * T)) * BoundaryIter T :=
  match bi_inner it with
  | [] => (None, it)
  | item :: rest =>
      (boundary_item (bi_boundary it) (bi_cond it) item,
       mk_boundary_iter rest (bi_boundary it) (bi_cond it))
  end.

#[export] Instance boundary_iterator {T} `{Bincode T} :
    Iterator (BoundaryIter T) (result (bytes * T)) :=
  {| next := BoundaryIter_next; remaining it := length (bi_inner it) |}.
#[export] Instance boundary_laws {T} `{Bincode T} :
    IteratorLaws (BoundaryIter T) (result (bytes * T)).
Proof.
  intros [inner b c] x it'. cbn. unfold BoundaryIter_next. cbn.
  destruct inner as [|item rest]; [done|]. intros [= _ <-]. cbn. lia.
Qed.

Definition boundary_iter {T} (st : RawEventStore T) (from to : bytes)
    (direction : Direction) (db : DB) : BoundaryIter T :=
  BoundaryIter_new (iterator_cf db (store_cf st) (From from direction)) to direction.

Definition iter_forward {T} (st : RawEventStore T) (db : DB) : list (result (bytes * bytes)) :=
  iterator_cf db (store_cf st) Start.

(** [StatisticsIter]: stops at the first item that does not decode. *)
Record StatisticsIter (T : Type) := mk_statistics_iter { si_inner : BoundaryIter T; }.
Arguments mk_statistics_iter {T} _.
Arguments si_inner {T} _.
Definition StatisticsIter_next {T} `{Bincode T} (it : StatisticsIter T) :
    option (bytes * T) * StatisticsIter T :=
  match next (si_inner it) with
  | (Some (Ok elem), i) => (Some elem, mk_statistics_iter i)
  | (_, i) => (None, mk_statistics_iter i)
  end.
#[export] Instance statistics_iterator {T} `{Bincode T} :
    Iterator (StatisticsIter T) (bytes * T) :=
  {| next := StatisticsIter_next; remaining it := remaining (si_inner it) |}.
#[export] Instance statistics_laws {T} `{Bincode T} :
    IteratorLaws (StatisticsIter T) (bytes * T).
Proof.
  intros [i] x it'. unfold next, remaining, statistics_iterator, StatisticsIter_next. cbn [si_inner].
  destruct (next i) as [[[elem|]|] i'] eqn:E; try done.
  intros [= _ <-]. cbn [si_inner]. by eapply next_remaining.
Qed.

(** [FilteredIter]: skips the events the filter rejects, stops at an error. *)
Record FilteredIter (T : Type) := mk_filtered_iter {
  fi_inner : BoundaryIter T; fi_filter : NetworkFilter; }.
Arguments mk_filtered_iter {T} _ _.
Arguments fi_inner {T} _.
Arguments fi_filter {T} _.

Fixpoint filtered_next {T} `{Bincode T} `{EventFilter T} (filter : NetworkFilter)
    (n : nat) (inner : BoundaryIter T) : option (bytes * T) * BoundaryIter T :=
  match n with
  | O => (None, inner)
  | S n' =>
      match next inner with
      | (Some (Ok elem), inner') =>
          if keeps filter elem.2 then (Some elem, inner') else filtered_next filter n' inner'
      | (_, inner') => (None, inner')
      end
  end.
Definition FilteredIter_next {T} `{Bincode T} `{EventFilter T} (it : FilteredIter T) :
    option (bytes * T) * FilteredIter T :=
  let '(x, i) := filtered_next (fi_filter it) (S (remaining (fi_inner it))) (fi_inner it) in
  (x, mk_filtered_iter i (fi_filter it)).
#[export] Instance filtered_iterator {T} `{Bincode T} `{EventFilter T} :
    Iterator (FilteredIter T) (bytes * T) :=
  {| next := FilteredIter_next; remaining it := remaining (fi_inner it) |}.

Lemma filtered_next_remaining {T} `{Bincode T} `{EventFilter T} f n (i i' : BoundaryIter T) x :
  filtered_next f n i = (Some x, i') → (remaining i' < remaining i)%nat.
Proof.
  revert i. induction n as [|n IH]; intros i; [done|]. cbn [filtered_next].
  destruct (next i) as [[[elem|]|] j] eqn:E; try done.
  apply next_remaining in E. destruct (keeps f elem.2).
  - by intros [= _ <-].
  - intros Hx. apply IH in Hx. lia.
Qed.

#[export] Instance filtered_laws {T} `{Bincode T} `{EventFilter T} :
    IteratorLaws (FilteredIter T) (bytes * T).
Proof.
  intros [i f] x it'. unfold next, remaining, filtered_iterator, FilteredIter_next.
  cbn [fi_inner fi_filter].
  destruct (filtered_next f (S (remaining i)) i) as [y j] eqn:E. intros [= -> <-].
  cbn [fi_inner]. by eapply filtered_next_remaining.
Qed.
End stores.
Arguments mk_store {T} _.
Arguments store_cf {T} _.
Arguments mk_boundary_iter {T} _ _ _.
Arguments bi_inner {T} _.
Arguments bi_boundary {T} _.
Arguments bi_cond {T} _.
Arguments mk_statistics_iter {T} _.
Arguments si_inner {T} _.
Arguments mk_filtered_iter {_ T} _ _.
Arguments fi_inner {_ T} _.
Arguments fi_filter {_ T} _.

(** ** Retention *)
Section retention.
Context `{RocksDB} `{Chrono}.

Definition DEFAULT_FROM : Z := 61000000000.

(** [i64::try_from(retention_period.as_nanos())?] *)
Definition retention_nanos (period : Z) : result Z :=
  if period <=? i64_max then Ok period else Err "out of range integral type conversion attempted".

Definition retention_key (source : bytes) (ts : Z) : bytes :=
  source ++ [Byte.x00] ++ i64_to_be_bytes ts.

Definition retain_store (from to : bytes) (st : RawEventStore unit) : M DB unit :=
  m_ignore (delete_range_cf (store_cf st) from to) ;;; flush st.

(** Slicing off the last eight bytes panics on a shorter key. *)
Definition log_expired (standard_duration : Z) (k : bytes) : result bool :=
  if (length k <? TIMESTAMP_SIZE)%nat then Err "range start index out of range"
  else Ok (key_nanos k <? standard_duration).

Definition retain_log_entry (standard_duration : Z) (log_store : RawEventStore Log)
    (kv : bytes * bytes) : M DB unit :=
  expired <-- m_lift (log_expired standard_duration kv.1) ;;
  if expired : bool then m_ignore (delete_key log_store kv.1) else m_ret tt.

Definition retain_source (standard_duration : Z) (all_store : list (RawEventStore unit))
    (log_store : RawEventStore Log) (source : bytes) : M DB unit :=
  let from := retention_key source DEFAULT_FROM in
  let to := retention_key source standard_duration in
  m_iter (retain_store from to) all_store ;;;
  entries <-- m_gets (λ db, Ok (oks (prefix_iterator_cf db (store_cf log_store) source))) ;;
  m_iter (retain_log_entry standard_duration log_store) entries ;;;
  flush log_store.

(** One tick of [retain_periodically]; [now] is [Utc::now().timestamp_nanos_opt()]. *)
Definition retain_tick (now : option Z) (retention_duration : Z) : M DB unit :=
  let standard_duration := wrap_i64 (default retention_duration now - retention_duration) in
  source_store <-- m_gets sources_store ;;
  sources <-- m_gets (λ db, Ok (source_names source_store db)) ;;
  all_store <-- m_gets retain_period_store ;;
  log_store <-- m_gets log_store ;;
  m_iter (retain_source standard_duration all_store log_store) sources.
End retention.
