(* ===== verification/StorageSpec.v ===== *)
(** * What the raw-event store guarantees

    Theorems about [Storage]: a boundary iterator over a healthy database
    yields exactly the entries between its two keys, in key order (reversed for
    a reverse iterator); an appended event is read back; one retention tick
    deletes exactly the expired events of the registered sources. *)

From Stdlib Require Import ZArith Lia.
From S2P Require Import Prelude Bytes Externals StorageKey NetAddr GigantoClient Events.
From S2P Require Import Filters Storage.

Section healthy.
Context `{RocksDBSpec}.

(** Every column family is open and no operation meets an I/O error. *)
Definition opened (db : DB) : Prop :=
  ∀ name, name ∈ RAW_DATA_COLUMN_FAMILY_NAMES ++ META_DATA_COLUMN_FAMILY_NAMES →
    cf_handle db name = true.
Definition healthy (db : DB) : Prop := io_ok db ∧ opened db.

Lemma write_healthy op cf db :
  healthy db → cf ∈ RAW_DATA_COLUMN_FAMILY_NAMES ++ META_DATA_COLUMN_FAMILY_NAMES →
  valid_op op →
  ∃ db', write op cf db = (Ok tt, db') ∧ healthy db' ∧
    ∀ cf', cf_view db' cf' =
      if decide (cf = cf') then apply_op op (cf_view db cf') else cf_view db cf'.
Proof.
  intros [Hio Hop] Hcf Hv.
  destruct (write_io op cf db Hio (Hop cf Hcf) Hv) as (db' & Hw & Hio').
  exists db'. split; [done|]. split.
  - split; [done|]. intros name Hn.
    replace db' with (write op cf db).2 by (by rewrite Hw).
    rewrite write_handle. by apply Hop.
  - intros cf'. by apply cf_view_write.
Qed.

(** A write whose failure is only logged. *)
Lemma write_ignore_healthy op cf db :
  healthy db → cf ∈ RAW_DATA_COLUMN_FAMILY_NAMES ++ META_DATA_COLUMN_FAMILY_NAMES →
  ∃ db', m_ignore (write op cf) db = (Ok tt, db') ∧ healthy db' ∧
    ∀ cf', cf_view db' cf' =
      if decide (cf = cf' ∧ valid_op op) then apply_op op (cf_view db cf')
      else cf_view db cf'.
Proof.
  intros Hh Hcf. unfold m_ignore. destruct (decide (valid_op op)) as [Hv|Hv].
  - destruct (write_healthy op cf db Hh Hcf Hv) as (db' & -> & Hh' & Hview).
    exists db'. split_and!; [done..|]. intros cf'. rewrite Hview.
    repeat case_decide; naive_solver.
  - destruct Hh as [Hio Hop].
    destruct (write_invalid op cf db Hio (Hop cf Hcf) Hv) as [e ->].
    exists db. split_and!; [done..|]. intros cf'. by rewrite decide_False by naive_solver.
Qed.

Lemma flush_healthy sync db :
  healthy db → ∃ db', flush_wal sync db = (Ok tt, db') ∧ healthy db' ∧
    ∀ cf, cf_view db' cf = cf_view db cf.
Proof.
  intros [Hio Hop]. destruct (flush_io sync db Hio) as (db' & Hf & Hio').
  assert (db' = (flush_wal sync db).2) as Hdb' by (by rewrite Hf).
  exists db'. split; [done|]. split; [split; [done|]|].
  - intros name Hn. rewrite Hdb', flush_handle. by apply Hop.
  - intros cf. rewrite Hdb'. apply flush_view.
Qed.

Lemma in_names cf :
  bool_decide (cf ∈ RAW_DATA_COLUMN_FAMILY_NAMES ++ META_DATA_COLUMN_FAMILY_NAMES) = true →
  cf ∈ RAW_DATA_COLUMN_FAMILY_NAMES ++ META_DATA_COLUMN_FAMILY_NAMES.
Proof. apply bool_decide_eq_true_1. Qed.
End healthy.

Ltac known_cf := apply in_names; vm_compute; reflexivity.

(** ** Boundary iterators *)
Section boundary.
Context `{Bincode T}.

(** The item an iterator makes of a stored entry. *)
Definition decode (kv : bytes * bytes) : result (bytes * T) :=
  pair kv.1 <$> bincode_deserialize kv.2.

Lemma drain_boundary_cons k v l b c :
  drain (mk_boundary_iter (T := T) (Ok (k, v) :: l) b c) =
    if decide (bytes_cmp k b = c) then [] else decode (k, v) :: drain (mk_boundary_iter l b c).
Proof. rewrite drain_unfold. cbn. unfold BoundaryIter_next. cbn. case_decide; reflexivity. Qed.

Lemma drain_boundary_forward l b :
  StronglySorted key_lt l →
  drain (BoundaryIter_new (T := T) (Ok <$> l) b Forward) =
    decode <$> filter (λ kv, bytes_le kv.1 b) l.
Proof.
  unfold BoundaryIter_new. induction 1 as [|[k v] l Hl IH Hx]; [done|].
  cbn [fmap list_fmap]. fold (Ok <$> l). rewrite drain_boundary_cons, filter_cons. cbn [fst].
  case_decide as Hk.
  - rewrite decide_False by (unfold bytes_le; rewrite Hk; tauto).
    rewrite (proj2 (filter_nil_iff _ _)); [done|].
    eapply Forall_impl; [exact Hx|]. intros y Hy. apply bytes_nle.
    eapply bytes_lt_trans; [|exact Hy]. cbn.
    unfold bytes_lt. by rewrite bytes_cmp_antisym, Hk.
  - rewrite decide_True by done. cbn. by rewrite IH.
Qed.

Lemma drain_boundary_reverse l b :
  StronglySorted (flip key_lt) l →
  drain (BoundaryIter_new (T := T) (Ok <$> l) b Reverse) =
    decode <$> filter (λ kv, bytes_le b kv.1) l.
Proof.
  unfold BoundaryIter_new. induction 1 as [|[k v] l Hl IH Hx]; [done|].
  cbn [fmap list_fmap]. fold (Ok <$> l). rewrite drain_boundary_cons, filter_cons. cbn [fst].
  case_decide as Hk.
  - rewrite decide_False by (apply bytes_nle, Hk).
    rewrite (proj2 (filter_nil_iff _ _)); [done|].
    eapply Forall_impl; [exact Hx|]. intros y Hy. apply bytes_nle.
    eapply bytes_lt_trans; [exact Hy|]. done.
  - rewrite decide_True by (apply bytes_nlt, Hk). cbn. by rewrite IH.
Qed.

(** The entries of a column family whose keys lie in [lo, hi], in key order. *)
Definition entries_between (m : gmap bytes bytes) (lo hi : bytes) : list (bytes * bytes) :=
  filter (λ kv, between lo hi kv.1) (sorted_entries m).

Lemma elem_of_entries_between m lo hi k v :
  (k, v) ∈ entries_between m lo hi ↔ between lo hi k ∧ m !! k = Some v.
Proof. unfold entries_between. by rewrite list_elem_of_filter, elem_of_sorted_entries. Qed.

Lemma entries_between_sorted m lo hi : StronglySorted key_lt (entries_between m lo hi).
Proof. apply sorted_filter, sorted_entries_sorted. Qed.

Lemma filter_between_l m lo hi :
  filter (λ kv, bytes_le kv.1 hi) (filter (λ kv, bytes_le lo kv.1) (sorted_entries m)) =
    entries_between m lo hi.
Proof.
  unfold entries_between. rewrite list_filter_filter. apply list_filter_iff.
  intros x. unfold between. tauto.
Qed.

Lemma filter_between_r m lo hi :
  filter (λ kv, bytes_le lo kv.1) (filter (λ kv, bytes_le kv.1 hi) (sorted_entries m)) =
    entries_between m lo hi.
Proof.
  unfold entries_between. rewrite list_filter_filter. apply list_filter_iff.
  intros x. unfold between. tauto.
Qed.
End boundary.

Lemma StronglySorted_flip_reverse {A} (R : relation A) l :
  StronglySorted R l → StronglySorted (flip R) (reverse l).
Proof.
  induction 1 as [|x l Hl IH Hx]; [constructor|]. rewrite reverse_cons.
  apply StronglySorted_app_2; [|done|repeat constructor].
  intros y z Hy Hz. rewrite elem_of_reverse in Hy. apply list_elem_of_singleton in Hz as ->.
  rewrite Forall_forall in Hx. exact (Hx y Hy).
Qed.

Lemma filter_reverse {A} (P : A → Prop) `{∀ x, Decision (P x)} l :
  filter P (reverse l) = reverse (filter P l).
Proof.
  induction l as [|x l IH]; [done|].
  rewrite reverse_cons, filter_app, IH, !filter_cons.
  rewrite filter_nil. case_decide; [by rewrite reverse_cons|]. by rewrite app_nil_r.
Qed.

Section boundary_iter.
Context `{RocksDBSpec} `{Bincode T}.

Definition scan_between (dir : Direction) (m : gmap bytes bytes) (from to : bytes) :
    list (bytes * bytes) :=
  match dir with
  | Forward => entries_between m from to
  | Reverse => reverse (entries_between m to from)
  end.

Lemma drain_boundary_iter (st : RawEventStore T) from to dir db :
  io_ok db → cf_handle db (store_cf st) = true →
  drain (boundary_iter st from to dir db) =
    decode <$> scan_between dir (cf_view db (store_cf st)) from to.
Proof.
  intros Hio Hcf. unfold boundary_iter. rewrite iterator_io by done.
  destruct dir; cbn [scan scan_between].
  - rewrite drain_boundary_forward by (apply (scan_forward_sorted from)).
    by rewrite filter_between_l.
  - rewrite drain_boundary_reverse.
    + by rewrite filter_reverse, filter_between_r.
    + apply StronglySorted_flip_reverse, sorted_filter, sorted_entries_sorted.
Qed.
End boundary_iter.

(** ** Retention *)
Section retention.
Context `{RocksDBSpec} `{Chrono}.

Definition standard_cf (cf : string) : Prop :=
  cf ∈ RAW_DATA_COLUMN_FAMILY_NAMES ∧ cf ∉ NON_STANDARD_CFS.

Definition expired (std : Z) (k : bytes) (source : bytes) : Prop :=
  in_range (retention_key source DEFAULT_FROM) (retention_key source std) k.

#[export] Instance expired_dec std k source : Decision (expired std k source).
Proof. unfold expired. apply _. Defined.

(** What is left of a standard column family once [sources] were treated. *)
Definition retained (std : Z) (sources : list bytes) (m : gmap bytes bytes) : gmap bytes bytes :=
  filter (λ kv, ¬ Exists (expired std kv.1) sources) m.

Lemma retained_nil (std : Z) (m : gmap bytes bytes) : retained std [] m = m.
Proof. apply map_filter_id. intros k v _ Hx. by apply Exists_nil in Hx. Qed.

Lemma retained_snoc (std : Z) (sources : list bytes) (s : bytes) (m : gmap bytes bytes) :
  filter (λ kv, ¬ expired std kv.1 s) (retained std sources m) = retained std (sources ++ [s]) m.
Proof.
  unfold retained. rewrite map_filter_filter. apply map_filter_ext.
  intros k v _. cbn. rewrite Exists_app, Exists_cons, Exists_nil. tauto.
Qed.

Lemma apply_delete_range_invalid (a b : bytes) (m : gmap bytes bytes) :
  ¬ bytes_le a b → filter (λ kv, ¬ in_range a b kv.1) m = m.
Proof.
  intros Hn. apply map_filter_id. intros k v _ [Hk1 Hk2]. apply Hn.
  cbn in *. transitivity k; [done|by apply bytes_lt_le].
Qed.

Lemma delete_range_healthy (a b : bytes) (cf : string) (db : DB) :
  healthy db → cf ∈ RAW_DATA_COLUMN_FAMILY_NAMES ++ META_DATA_COLUMN_FAMILY_NAMES →
  ∃ db', m_ignore (delete_range_cf cf a b) db = (Ok tt, db') ∧ healthy db' ∧
    ∀ cf', cf_view db' cf' =
      if decide (cf = cf') then filter (λ kv, ¬ in_range a b kv.1) (cf_view db cf')
      else cf_view db cf'.
Proof.
  intros Hh Hcf.
  destruct (write_ignore_healthy (WDeleteRange a b) cf db Hh Hcf) as (db' & Hw & Hh' & Hview).
  exists db'. split_and!; [done..|]. intros cf'. rewrite Hview.
  destruct (decide (cf = cf')) as [->|Hne]; [|by rewrite decide_False by tauto].
  destruct (decide (bytes_le a b)) as [Hle|Hle].
  - by rewrite decide_True by done.
  - rewrite decide_False by (intros [_ ?]; done). by rewrite apply_delete_range_invalid.
Qed.

Lemma retain_stores_of_opened names db :
  opened db → (∀ n, n ∈ names → n ∈ RAW_DATA_COLUMN_FAMILY_NAMES) →
  retain_stores_of names db =
    Ok (mk_store <$> filter (λ n, n ∉ NON_STANDARD_CFS) names).
Proof.
  intros Hop. induction names as [|n names IH]; intros Hn; [done|].
  cbn [retain_stores_of]. rewrite filter_cons.
  assert (n ∈ RAW_DATA_COLUMN_FAMILY_NAMES) as Hraw by (apply Hn; left).
  assert (∀ x, x ∈ names → x ∈ RAW_DATA_COLUMN_FAMILY_NAMES) as Hn'
    by (intros x Hx; apply Hn; by right).
  specialize (IH Hn'). case_bool_decide as Hstd.
  - rewrite decide_False by tauto. done.
  - rewrite decide_True by done. unfold raw_event_store.
    rewrite Hop by (apply elem_of_app; by left). cbn. by rewrite IH.
Qed.

Definition standard_names : list string :=
  filter (λ n, n ∉ NON_STANDARD_CFS) RAW_DATA_COLUMN_FAMILY_NAMES.

Lemma elem_of_standard_names cf : cf ∈ standard_names ↔ standard_cf cf.
Proof. unfold standard_names, standard_cf. rewrite list_elem_of_filter. tauto. Qed.

Lemma retain_store_healthy (from to : bytes) (cf : string) (db : DB) :
  healthy db → standard_cf cf →
  ∃ db', retain_store from to (mk_store cf) db = (Ok tt, db') ∧ healthy db' ∧
    ∀ cf', cf_view db' cf' =
      if decide (cf = cf') then filter (λ kv, ¬ in_range from to kv.1) (cf_view db cf')
      else cf_view db cf'.
Proof.
  intros Hh [Hraw _].
  destruct (delete_range_healthy from to cf db Hh) as (db1 & Hd & Hh1 & Hv1);
    [apply elem_of_app; by left|].
  destruct (flush_healthy true db1 Hh1) as (db2 & Hf & Hh2 & Hv2).
  exists db2. split; [|split; [done|]].
  - unfold retain_store, m_bind. cbn [store_cf]. rewrite Hd. exact Hf.
  - intros cf'. by rewrite Hv2.
Qed.

Lemma delete_range_idemp (a b : bytes) (m : gmap bytes bytes) :
  filter (λ kv, ¬ in_range a b kv.1) (filter (λ kv, ¬ in_range a b kv.1) m) =
    filter (λ kv, ¬ in_range a b kv.1) m.
Proof. rewrite map_filter_filter. apply map_filter_ext. naive_solver. Qed.

Lemma retain_stores_loop (from to : bytes) (db : DB) :
  healthy db →
  ∃ db', m_iter (retain_store from to) (mk_store <$> standard_names) db = (Ok tt, db') ∧
    healthy db' ∧
    ∀ cf, cf_view db' cf =
      if decide (standard_cf cf) then filter (λ kv, ¬ in_range from to kv.1) (cf_view db cf)
      else cf_view db cf.
Proof.
  intros Hh.
  destruct (m_iter_inv (retain_store from to) (λ done_ s, healthy s ∧
    ∀ cf, cf_view s cf =
      if decide (cf ∈ store_cf <$> done_)
      then filter (λ kv, ¬ in_range from to kv.1) (cf_view db cf)
      else cf_view db cf) (mk_store <$> standard_names) db) as (db' & Hit & Hh' & Hv).
  - intros done_ [cf0] rest s Hl [Hs Hv].
    assert (standard_cf cf0) as Hstd.
    { apply elem_of_standard_names.
      assert (mk_store cf0 ∈ mk_store (T := unit) <$> standard_names) as Hin
        by (rewrite Hl; set_solver).
      apply list_elem_of_fmap in Hin as (c & [= ->] & Hin). done. }
    destruct (retain_store_healthy from to cf0 s Hs Hstd) as (s' & Hb & Hh' & Hv').
    exists s'. split; [done|]. split; [done|]. intros cf. rewrite Hv', Hv, fmap_app.
    destruct (decide (cf0 = cf)) as [->|Hne].
    + rewrite (decide_True (P := cf ∈ _ ++ _)) by set_solver.
      case_decide; [|done]. apply delete_range_idemp.
    + apply decide_ext. set_solver.
  - split; [done|]. intros cf. by rewrite decide_False by set_solver.
  - exists db'. split_and!; [done..|]. intros cf. rewrite Hv. apply decide_ext.
    rewrite <- elem_of_standard_names, <- list_fmap_compose, list_fmap_id. done.
Qed.

(** *** The log column family *)
Definition log_keys_wf (m : gmap bytes bytes) : Prop :=
  ∀ k v, m !! k = Some v → (TIMESTAMP_SIZE ≤ length k)%nat.

(** The logs after the sources [sources] were treated: nothing is added,
    nothing recent is lost, and the old logs of those sources are gone. *)
Definition logs_retained (std : Z) (sources : list bytes) (m m' : gmap bytes bytes) : Prop :=
  m' ⊆ m ∧
  (∀ k v, m !! k = Some v → std ≤ key_nanos k → m' !! k = Some v) ∧
  (∀ k s, s ∈ sources → s `prefix_of` k → key_nanos k < std → m' !! k = None).

Lemma retain_log_entry_healthy (std : Z) (k v : bytes) (db : DB) :
  healthy db → (TIMESTAMP_SIZE ≤ length k)%nat →
  ∃ db', retain_log_entry std (mk_store "log") (k, v) db = (Ok tt, db') ∧ healthy db' ∧
    (∀ cf, cf ≠ "log" → cf_view db' cf = cf_view db cf) ∧
    cf_view db' "log" =
      if decide (key_nanos k < std) then delete k (cf_view db "log") else cf_view db "log".
Proof.
  intros Hh Hl. unfold retain_log_entry, m_bind, m_lift, log_expired. cbn [fst].
  rewrite (proj2 (Nat.ltb_ge _ _)) by done.
  destruct (Z.ltb_spec (key_nanos k) std) as [Hlt|Hge].
  - destruct (write_ignore_healthy (WDelete k) "log" db Hh) as (db' & Hw & Hh' & Hv); [known_cf|].
    exists db'. split_and!; [exact Hw|done| |].
    + intros cf Hcf. rewrite Hv. by rewrite decide_False by naive_solver.
    + rewrite Hv. by rewrite !decide_True by done.
  - exists db. split_and!; [done..|]. by rewrite decide_False by lia.
Qed.

Lemma retain_logs_loop (std : Z) (l : list (bytes * bytes)) (db : DB) :
  healthy db → (∀ kv, kv ∈ l → (TIMESTAMP_SIZE ≤ length kv.1)%nat) →
  ∃ db', m_iter (retain_log_entry std (mk_store "log")) l db = (Ok tt, db') ∧ healthy db' ∧
    (∀ cf, cf ≠ "log" → cf_view db' cf = cf_view db cf) ∧
    ∀ k, cf_view db' "log" !! k =
      if decide (k ∈ l.*1 ∧ key_nanos k < std) then None else cf_view db "log" !! k.
Proof.
  intros Hh Hl.
  destruct (m_iter_inv (retain_log_entry std (mk_store "log")) (λ done_ s, healthy s ∧
    (∀ cf, cf ≠ "log" → cf_view s cf = cf_view db cf) ∧
    ∀ k, cf_view s "log" !! k =
      if decide (k ∈ done_.*1 ∧ key_nanos k < std) then None else cf_view db "log" !! k)
    l db) as (db' & Hit & Hinv).
  - intros done_ [k v] rest s Heq (Hs & Hcf & Hlog).
    destruct (retain_log_entry_healthy std k v s Hs) as (s' & Hb & Hs' & Hcf' & Hlog');
      [apply (Hl (k, v)); rewrite Heq; set_solver|].
    exists s'. split; [done|]. split; [done|]. split.
    + intros cf Hne. by rewrite Hcf', Hcf.
    + intros k'. rewrite Hlog', fmap_app. cbn.
      destruct (decide (k = k')) as [->|Hne].
      * destruct (decide (key_nanos k' < std)) as [Hlt|Hge].
        -- rewrite lookup_delete_eq. by rewrite decide_True by set_solver.
        -- rewrite Hlog. rewrite !decide_False by tauto. done.
      * assert (∀ m : gmap bytes bytes,
          (if decide (key_nanos k < std) then delete k m else m) !! k' = m !! k') as ->.
        { intros m. case_decide; [by rewrite lookup_delete_ne|done]. }
        rewrite Hlog. apply decide_ext. set_solver.
  - split; [done|]. split; [done|]. intros k. by rewrite decide_False by set_solver.
  - by exists db'.
Qed.

Lemma scan_from_lookup p m l kv :
  l `prefix_of` scan (From p Forward) m → kv ∈ l → m !! kv.1 = Some kv.2.
Proof.
  intros [r Hr] Hin. assert (kv ∈ scan (From p Forward) m) as Hs by (rewrite Hr; set_solver).
  by apply elem_of_scan_forward in Hs as [_ ?].
Qed.

Lemma retain_source_healthy (std : Z) (s : bytes) (db : DB) :
  healthy db → log_keys_wf (cf_view db "log") →
  ∃ db', retain_source std (mk_store <$> standard_names) (mk_store "log") s db = (Ok tt, db') ∧
    healthy db' ∧
    (∀ cf, standard_cf cf →
      cf_view db' cf = filter (λ kv, ¬ expired std kv.1 s) (cf_view db cf)) ∧
    (∀ cf, ¬ standard_cf cf → cf ≠ "log" → cf_view db' cf = cf_view db cf) ∧
    logs_retained std [s] (cf_view db "log") (cf_view db' "log").
Proof.
  intros Hh Hwf. unfold retain_source, m_bind, m_gets.
  destruct (retain_stores_loop (retention_key s DEFAULT_FROM) (retention_key s std) db Hh)
    as (db1 & -> & Hh1 & Hv1). cbn [store_cf].
  assert (¬ standard_cf "log") as Hnl by (intros [_ Hn]; apply Hn; unfold NON_STANDARD_CFS; set_solver).
  assert (cf_view db1 "log" = cf_view db "log") as Hlog1 by (by rewrite Hv1, decide_False).
  destruct (prefix_iterator_io db1 "log" s (proj1 Hh1)) as (l & -> & Hpre & Hall);
    [apply Hh1; known_cf|].
  rewrite oks_fmap_Ok.
  destruct (retain_logs_loop std l db1 Hh1) as (db2 & -> & Hh2 & Hcf2 & Hlog2).
  { intros kv Hin. eapply Hwf. rewrite <- Hlog1. by eapply scan_from_lookup. }
  destruct (flush_healthy true db2 Hh2) as (db3 & Hf & Hh3 & Hv3).
  exists db3. split; [exact Hf|]. split; [done|]. split_and!.
  - intros cf Hcf. rewrite Hv3, Hcf2 by (by intros ->). by rewrite Hv1, decide_True.
  - intros cf Hcf Hne. rewrite Hv3, Hcf2 by done. by rewrite Hv1, decide_False.
  - rewrite Hv3. rewrite <- Hlog1. split_and!.
    + apply map_subseteq_spec. intros k v. rewrite Hlog2. by case_decide.
    + intros k v Hk Hge. rewrite Hlog2, decide_False by lia. done.
    + intros k s' ->%list_elem_of_singleton Hp Hlt. rewrite Hlog2.
      destruct (cf_view db1 "log" !! k) as [v|] eqn:Hk; [|by case_decide].
      rewrite decide_True; [done|]. split; [|done].
      change k with (k, v).1. apply list_elem_of_fmap_2. by apply Hall.
Qed.

Lemma logs_retained_nil std m : logs_retained std [] m m.
Proof. split_and!; [done|done|]. intros k s Hs. by apply not_elem_of_nil in Hs. Qed.

Lemma logs_retained_snoc std l s m m1 m2 :
  logs_retained std l m m1 → logs_retained std [s] m1 m2 → logs_retained std (l ++ [s]) m m2.
Proof.
  intros (Hs1 & Hk1 & Hd1) (Hs2 & Hk2 & Hd2). split_and!.
  - by transitivity m1.
  - intros k v Hk Hge. apply Hk2; [|done]. by apply Hk1.
  - intros k s' Hs' Hp Hlt. apply elem_of_app in Hs' as [Hs'|Hs'].
    + destruct (m2 !! k) as [v|] eqn:E; [|done].
      eapply lookup_weaken in E; [|exact Hs2]. by rewrite (Hd1 k s') in E.
    + by eapply Hd2.
Qed.

Lemma retain_tick_healthy (now retention : Z) (db : DB) :
  healthy db → log_keys_wf (cf_view db "log") →
  let std := wrap_i64 (now - retention) in
  let sources := (sorted_entries (cf_view db "sources")).*1 in
  ∃ db', retain_tick (Some now) retention db = (Ok tt, db') ∧ healthy db' ∧
    (∀ cf, standard_cf cf → cf_view db' cf = retained std sources (cf_view db cf)) ∧
    (∀ cf, ¬ standard_cf cf → cf ≠ "log" → cf_view db' cf = cf_view db cf) ∧
    logs_retained std sources (cf_view db "log") (cf_view db' "log").
Proof.
  intros Hh Hwf std sources. destruct Hh as [Hio Hop].
  unfold retain_tick, m_bind, m_gets. unfold sources_store.
  rewrite (Hop "sources") by known_cf. unfold source_names. cbn [source_cf].
  rewrite (iterator_io db "sources" Start Hio) by (apply Hop; known_cf).
  rewrite oks_fmap_Ok. cbn [scan].
  unfold retain_period_store. rewrite retain_stores_of_opened by done.
  fold standard_names. unfold log_store, raw_event_store.
  rewrite (Hop "log") by known_cf. fold std. fold sources.
  destruct (m_iter_inv (retain_source std (mk_store <$> standard_names) (mk_store "log"))
    (λ done_ s, healthy s ∧
      (∀ cf, standard_cf cf → cf_view s cf = retained std done_ (cf_view db cf)) ∧
      (∀ cf, ¬ standard_cf cf → cf ≠ "log" → cf_view s cf = cf_view db cf) ∧
      logs_retained std done_ (cf_view db "log") (cf_view s "log"))
    sources db) as (db' & Hit & Hinv).
  - intros done_ x rest s _ (Hs & Hstd & Hoth & Hlog).
    destruct (retain_source_healthy std x s Hs) as (s' & Hb & Hs' & Hstd' & Hoth' & Hlog').
    { intros k v Hk. eapply Hwf, lookup_weaken; [exact Hk|]. apply Hlog. }
    exists s'. split; [done|]. split_and!; [done| | |].
    + intros cf Hcf. rewrite Hstd', Hstd by done. apply retained_snoc.
    + intros cf Hcf Hne. by rewrite Hoth', Hoth.
    + by eapply logs_retained_snoc.
  - split_and!; [by split| |done|apply logs_retained_nil].
    intros cf _. by rewrite retained_nil.
  - by exists db'.
Qed.
End retention.

Lemma elem_of_source_keys (m : gmap bytes bytes) s :
  s ∈ (sorted_entries m).*1 ↔ is_Some (m !! s).
Proof.
  rewrite list_elem_of_fmap. split.
  - intros ([k v] & -> & Hin). apply elem_of_sorted_entries in Hin. by exists v.
  - intros [v Hv]. exists (s, v). by rewrite elem_of_sorted_entries.
Qed.

Lemma expired_event `{Chrono} std source ts s :
  no_nul source → Byte.x00 ∉ s → 0 ≤ std ≤ i64_max → 0 ≤ ts ≤ i64_max →
  expired std (event_key source None ts) s ↔
    s = as_bytes source ∧ DEFAULT_FROM ≤ ts < std.
Proof.
  intros Hns Hs Hstd Hts. unfold expired, in_range, retention_key.
  rewrite event_key_eq, key_prefix_eq, app_nil_r, <- app_assoc. split.
  - intros [Hl Hu]. pose proof Hl as Hl'. pose proof (bytes_lt_le _ _ Hu) as Hu'.
    rewrite (app_assoc s) in Hl', Hu'.
    destruct (bytes_between_prefix _ _ _ _ Hl' Hu') as [c Hc].
    rewrite <- (app_assoc s) in Hc. apply split_nul in Hc as [<- _]; [|done..].
    split; [done|].
    unfold bytes_le, bytes_lt in Hl, Hu. rewrite !bytes_cmp_app, !i64_be_bytes_cmp in Hl, Hu
      by (unfold DEFAULT_FROM, i64_max in *; lia). done.
  - intros [-> [Hl Hu]]. unfold bytes_le, bytes_lt.
    rewrite !bytes_cmp_app, !i64_be_bytes_cmp by (unfold DEFAULT_FROM, i64_max in *; lia). done.
Qed.

(** A limit before the epoch is, as bytes, later than every time stamp. *)
Lemma expired_before_epoch `{Chrono} std source ts :
  i64_min ≤ std < 0 → DEFAULT_FROM ≤ ts ≤ i64_max →
  expired std (event_key source None ts) (as_bytes source).
Proof.
  intros Hstd Hts. unfold expired, in_range, retention_key, bytes_le, bytes_lt.
  rewrite event_key_eq, key_prefix_eq, app_nil_r, <- app_assoc, !bytes_cmp_app.
  unfold DEFAULT_FROM, i64_max, i64_min in *.
  rewrite i64_be_bytes_cmp, i64_be_bytes_negative by (unfold i64_max, i64_min; lia). split; [|done].
  apply Z.compare_le_iff. lia.
Qed.

(** ** The properties *)
Section properties.
Context `{RocksDBSpec} `{Chrono}.

(** C14: a boundary iterator yields, for every entry whose key lies between the
    two bounds and no other, the decoded value (or its decoding error), in key
    order when it runs forward and in the opposite order when it runs in
    reverse. *)
Theorem boundary_iter_exact `{Bincode T} (st : RawEventStore T) from to dir db :
  io_ok db → cf_handle db (store_cf st) = true →
  drain (boundary_iter st from to dir db) =
    decode <$> match dir with
               | Forward => entries_between (cf_view db (store_cf st)) from to
               | Reverse => reverse (entries_between (cf_view db (store_cf st)) to from)
               end.
Proof. apply drain_boundary_iter. Qed.

(** An event that was appended without an error is returned by a later
    lookup of its source and time stamp, with the bytes it was stored with. *)
Theorem append_then_get {T} (st : RawEventStore T) source ts raw db db' :
  append st (event_key source None ts) raw db = (Ok tt, db') →
  io_ok db' → cf_handle db (store_cf st) = true →
  multi_get_with_source st source [ts] db' = [(ts, source, raw)].
Proof.
  intros Ha Hio Hcf.
  assert (write (WPut (event_key source None ts) raw) (store_cf st) db = (Ok tt, db')) as Hw by done.
  assert (cf_handle db' (store_cf st) = true) as Hcf'.
  { rewrite <- Hcf. replace db' with (write (WPut (event_key source None ts) raw) (store_cf st) db).2
      by (by rewrite Hw). apply write_handle. }
  unfold multi_get_with_source, get_value. cbn [omap list_omap].
  rewrite get_io by done. rewrite (write_ok _ _ _ _ Hw). cbn [apply_op result_ok mbind option_bind].
  change (key (builder |> start_key source |> end_key ts |> build)) with (event_key source None ts).
  by rewrite lookup_insert_eq.
Qed.

(** C15: one retention tick succeeds on a healthy database when the limit is not
    before the epoch.  In the standard column families, whose keys are a source and a
    time stamp, it deletes an event exactly when its source is registered and its
    time stamp lies between DEFAULT_FROM, 61 seconds after the epoch, and the limit;
    of the logs it removes those of the registered sources before the limit, keeps
    all at or after it and changes none; every other column family stays as it was. *)
Theorem retention_deletes_exactly_expired now retention db :
  healthy db → log_keys_wf (cf_view db "log") → 0 ≤ now - retention ≤ i64_max →
  (∀ s, is_Some (cf_view db "sources" !! s) → Byte.x00 ∉ s) →
  ∃ db', retain_tick (Some now) retention db = (Ok tt, db') ∧
    (∀ cf source ts, standard_cf cf → 0 ≤ ts ≤ i64_max → no_nul source →
      cf_view db' cf !! event_key source None ts =
        if decide (is_Some (cf_view db "sources" !! as_bytes source) ∧
                   DEFAULT_FROM ≤ ts < now - retention)
        then None else cf_view db cf !! event_key source None ts) ∧
    (cf_view db' "log" ⊆ cf_view db "log" ∧
      (∀ k v, cf_view db "log" !! k = Some v → now - retention ≤ key_nanos k →
        cf_view db' "log" !! k = Some v) ∧
      ∀ k s, is_Some (cf_view db "sources" !! s) → s `prefix_of` k →
        key_nanos k < now - retention → cf_view db' "log" !! k = None) ∧
    ∀ cf, ¬ standard_cf cf → cf ≠ "log" → cf_view db' cf = cf_view db cf.
Proof.
  intros Hh Hwf Hstd Hsrc.
  destruct (retain_tick_healthy now retention db Hh Hwf) as (db' & Ht & _ & Hv & Hoth & Hsub & Hkeep & Hdel).
  rewrite wrap_i64_id in Hv, Hkeep, Hdel by (unfold is_i64, i64_min; lia).
  exists db'. split_and!; [done| |done|done| |done].
  2: { intros k s Hs. apply Hdel. by apply elem_of_source_keys. }
  intros cf source ts Hcf Hts Hs. rewrite Hv by done.
  unfold retained. rewrite map_lookup_filter. cbn.
  assert (Exists (expired (now - retention) (event_key source None ts))
    (sorted_entries (cf_view db "sources")).*1 ↔
    is_Some (cf_view db "sources" !! as_bytes source) ∧ DEFAULT_FROM ≤ ts < now - retention) as He.
  { rewrite Exists_exists. split.
    - intros (s & Hin & Hexp). rewrite elem_of_source_keys in Hin.
      apply expired_event in Hexp as [-> ?]; auto.
    - intros [Hin Hr]. exists (as_bytes source). rewrite elem_of_source_keys.
      split; [done|]. apply expired_event; auto. }
  destruct (decide (is_Some (cf_view db "sources" !! as_bytes source) ∧ _)) as [Hd|Hd];
    destruct (cf_view db cf !! event_key source None ts) as [v|]; try done; cbn.
  - by rewrite option_guard_False by tauto.
  - by rewrite option_guard_True by tauto.
Qed.

(** C32: A retention period that reaches back before the epoch makes a tick delete,
    in the standard column families, every event of the registered sources from
    DEFAULT_FROM (61 seconds after the epoch) on, instead of none: the limit is
    negative, and its bytes are greater than those of any time stamp.  The logs, whose
    time stamps are compared as numbers, all stay. *)
Theorem retention_before_epoch_deletes_all now retention db :
  healthy db → log_keys_wf (cf_view db "log") → i64_min ≤ now - retention < 0 →
  ∃ db', retain_tick (Some now) retention db = (Ok tt, db') ∧
    (∀ cf source ts, standard_cf cf → DEFAULT_FROM ≤ ts ≤ i64_max →
      is_Some (cf_view db "sources" !! as_bytes source) →
      cf_view db' cf !! event_key source None ts = None) ∧
    ∀ k v, cf_view db "log" !! k = Some v → 0 ≤ key_nanos k → cf_view db' "log" !! k = Some v.
Proof.
  intros Hh Hwf Hstd.
  destruct (retain_tick_healthy now retention db Hh Hwf) as (db' & Ht & _ & Hv & _ & _ & Hkeep & _).
  rewrite wrap_i64_id in Hv, Hkeep by (unfold is_i64, i64_max; lia).
  exists db'. split_and!; [done| |intros k v Hk ?; apply Hkeep; [done|lia]].
  intros cf source ts Hcf Hts Hsrc. rewrite Hv by done.
  unfold retained. apply map_lookup_filter_None. right. intros v _ Hx. apply Hx. apply Exists_exists.
  exists (as_bytes source). split; [by apply elem_of_source_keys|]. by apply expired_before_epoch.
Qed.
End properties.
