(* ===== verification/Demo.v ===== *)
(** * A concrete database for the examples

    Raw byte strings as events and a database in memory with every column
    family of [Database::open], so that the hypotheses of the theorems about
    the stores can be met and the definitions evaluated. *)

From Stdlib Require Import ZArith Lia.
From S2P Require Import Prelude Bytes Externals StorageKey NetAddr GigantoClient Events.
From S2P Require Import Filters Storage StorageSpec.

(** An event that is its own encoding; bytes starting with 255 do not decode. *)
Record Blob := mk_blob { blob : bytes }.
#[export] Instance blob_bincode : Bincode Blob := {|
  bincode_serialize x := Ok (blob x);
  bincode_deserialize b :=
    match b with
    | Byte.xff :: _ => Err "invalid data"
    | _ => Ok (mk_blob b)
    end |}.
#[export] Instance blob_filter : EventFilter Blob := {|
  data_type _ := "Blob"; orig_addr _ := None; resp_addr _ := None;
  orig_port _ := None; resp_port _ := None; log_level _ := None;
  log_contents _ := None; text _ := None; event_source _ := None |}.

(** Strings encode as their bytes. *)
#[export] Instance string_bincode : Bincode string := {|
  bincode_serialize s := Ok (as_bytes s);
  bincode_deserialize b := Ok (String.string_of_list_byte b) |}.

(** A client library with a few of the names. *)
#[export] Instance demo_client : Client := {|
  kind_of_u32 n := if decide (n = 0) then Some RawEventKind.Conn
                   else if decide (n = 2) then Some RawEventKind.Log else None;
  kind_from_str s := if decide (s = "conn") then Some RawEventKind.Conn
                     else if decide (s = "file_create_time")
                     then Some RawEventKind.FileCreateTime else None;
  kind_default := RawEventKind.Conn;
  node_str t := match t with Hog => "hog" | Crusher => "crusher" end;
  record_str r := match r with
                  | RequestStreamRecord.Conn => "conn"
                  | RequestStreamRecord.Dns => "dns"
                  | _ => "other" end;
  http_to_string _ := "http";
  kind_debug k := if decide (k = RawEventKind.Statistics) then "Statistics"
                  else if decide (k = RawEventKind.Conn) then "Conn" else "other";
  qclass_str n := if decide (n = 1) then "C_IN" else "UNKNOWN";
  qtype_str n := if decide (n = 1) then "A" else "UNKNOWN" |}.

Definition all_cfs : list string :=
  RAW_DATA_COLUMN_FAMILY_NAMES ++ META_DATA_COLUMN_FAMILY_NAMES.

Definition empty_db : Mem.db :=
  foldr (λ name (d : Mem.db), <[name := (∅ : gmap bytes bytes)]> d) ∅ all_cfs.

(** Events of two sources, one of which does not decode, and the sources. *)
Definition demo_events : gmap bytes bytes :=
  list_to_map [
    (event_key "src1" None 100000000000, [Byte.x01]);
    (event_key "src1" None 200000000000, [Byte.x02]);
    (event_key "src1" None 300000000000, [Byte.xff]);
    (event_key "src1" None 400000000000, [Byte.x04]);
    (event_key "src10" None 150000000000, [Byte.x09])].
Definition demo_sources : gmap bytes bytes :=
  {[ as_bytes "src1" := i64_to_be_bytes 400000000000 ]}.
Definition demo_logs : gmap bytes bytes :=
  list_to_map [
    (event_key "src1" (Some (as_bytes "kind")) 100000000000, [Byte.x01]);
    (event_key "src1" (Some (as_bytes "kind")) 300000000000, [Byte.x02])].
Definition demo_db : @DB mem_rocksdb :=
  <["log" := demo_logs]> (<["sources" := demo_sources]> (<["conn" := demo_events]> empty_db))
    : Mem.db.

Definition demo_store : RawEventStore Blob := mk_store "conn".

Lemma empty_db_opened name : name ∈ all_cfs → is_Some (empty_db !! name).
Proof.
  unfold empty_db. generalize all_cfs. intros l. induction l as [|n l IH]; [set_solver|].
  intros Hn. cbn. apply lookup_insert_is_Some'. set_solver.
Qed.

Lemma demo_healthy : healthy demo_db.
Proof.
  split; [done|]. intros name Hn. apply bool_decide_eq_true_2. unfold demo_db.
  rewrite !lookup_insert_is_Some'. right. right. right. by apply empty_db_opened.
Qed.

Lemma demo_log_keys : log_keys_wf (cf_view demo_db "log").
Proof.
  intros k v Hk.
  assert (map_Forall (λ k (_ : bytes), (TIMESTAMP_SIZE ≤ length k)%nat) (cf_view demo_db "log"))
    as Hall by (refine (bool_decide_unpack _ _); vm_compute; exact I).
  exact (Hall k v Hk).
Qed.

Lemma demo_source_names s v : cf_view demo_db "sources" !! s = Some v → Byte.x00 ∉ s.
Proof.
  assert (map_Forall (λ s (_ : bytes), Byte.x00 ∉ s) (cf_view demo_db "sources"))
    as Hall by (refine (bool_decide_unpack _ _); vm_compute; exact I).
  apply Hall.
Qed.

(** ** Witnesses of the store's properties *)
Lemma boundary_iter_exact_witness :
  drain (It := BoundaryIter Blob) (boundary_iter demo_store (event_key "src1" None 400000000000)
           (event_key "src1" None 150000000000) Reverse demo_db) =
    [Ok (event_key "src1" None 400000000000, mk_blob [Byte.x04]); Err "invalid data";
     Ok (event_key "src1" None 200000000000, mk_blob [Byte.x02])].
Proof.
  rewrite (boundary_iter_exact demo_store _ _ Reverse demo_db); [|concrete..].
  vm_compute. reflexivity.
Defined.

Definition appended_db : @DB mem_rocksdb :=
  (append demo_store (event_key "src2" None 5) [Byte.x07] demo_db).2.

Lemma append_then_get_witness :
  multi_get_with_source demo_store "src2" [5] appended_db = [(5, "src2", [Byte.x07])].
Proof.
  refine (append_then_get demo_store "src2" 5 [Byte.x07] demo_db appended_db _ I _).
  - apply injective_projections; [concrete|reflexivity].
  - concrete.
Defined.

(** The retention limit is 250 s: the first two events of [src1] go. *)
Lemma retention_deletes_exactly_expired_witness :
  ∃ db', retain_tick (Some 300000000000) 50000000000 demo_db = (Ok tt, db') ∧
    cf_view db' "conn" !! event_key "src1" None 200000000000 = None ∧
    cf_view db' "log" !! event_key "src1" (Some (as_bytes "kind")) 100000000000 = None ∧
    cf_view db' "log" !! event_key "src1" (Some (as_bytes "kind")) 300000000000
      = Some [Byte.x02].
Proof.
  destruct (retention_deletes_exactly_expired 300000000000 50000000000 demo_db)
    as (db' & Ht & Hv & (_ & Hkeep & Hdel) & _).
  - apply demo_healthy.
  - apply demo_log_keys.
  - concrete.
  - intros s [v Hs]. exact (demo_source_names s v Hs).
  - exists db'. split; [exact Ht|]. split; [|split].
    + rewrite (Hv "conn" "src1" 200000000000); [vm_compute; reflexivity|concrete|concrete|concrete].
    + apply (Hdel _ (as_bytes "src1")).
      * exists (i64_to_be_bytes 400000000000). vm_compute. reflexivity.
      * eexists. vm_compute. reflexivity.
      * vm_compute. reflexivity.
    + apply Hkeep; [vm_compute; reflexivity|concrete].
Defined.

Lemma retention_before_epoch_deletes_all_witness :
  ∃ db', retain_tick (Some 300000000000) 300000000001 demo_db = (Ok tt, db') ∧
    cf_view db' "conn" !! event_key "src1" None 200000000000 = None ∧
    cf_view db' "log" !! event_key "src1" (Some (as_bytes "kind")) 300000000000
      = Some [Byte.x02].
Proof.
  destruct (retention_before_epoch_deletes_all 300000000000 300000000001 demo_db) as (db' & Ht & Hdel & Hkeep).
  - apply demo_healthy.
  - apply demo_log_keys.
  - concrete.
  - exists db'. split; [exact Ht|]. split.
    + apply Hdel; [concrete|concrete|]. vm_compute. by eexists.
    + apply Hkeep; [vm_compute; reflexivity|concrete].
Defined.
