(* ===== verification/Pagination.v ===== *)
(** * Cursor pagination (src/src/graphql.rs)

    [collect_records], [get_connection], [load_connection] and
    [get_filtered_iter] over the stores of [Storage]; [collect_exist_timestamp]
    and [time_range], which answer the search queries.  A database read returns
    the page as a value; a panic ([expect]) is an error. *)

From Stdlib Require Import ZArith Lia.
From S2P Require Import Prelude Bytes Externals StorageKey NetAddr GigantoClient Events.
From S2P Require Import Filters Storage.

Definition MAXIMUM_PAGE_SIZE : nat := 100.

(** [usize::min] of the requested size and the maximum *)
Definition page_size (requested : option nat) : nat :=
  Nat.min (default MAXIMUM_PAGE_SIZE requested) MAXIMUM_PAGE_SIZE.

(** [FromKeyValue] *)
Class FromKeyValue (N T : Type) := from_key_value : bytes → T → result N.

Section collect.
Context `{RawEventFilter F, EventFilter T}.

(** The loop of [collect_records]: [records] are those collected so far and
    the list is what the iterator still yields.  Errors are skipped; once the
    page is full the iterator is asked for one more item. *)
Fixpoint collect_loop (size : nat) (filter : F) (records : list (bytes * T))
    (items : list (result (bytes * T))) : list (bytes * T) * bool :=
  match items with
  | [] => (records, false)
  | Err _ :: rest => collect_loop size filter records rest
  | Ok item :: rest =>
      let records' := if keeps filter item.2 then records ++ [item] else records in
      if (length records' =? size)%nat
      then (records', match rest with [] => false | _ => true end)
      else collect_loop size filter records' rest
  end.
Definition collect_records (items : list (result (bytes * T))) (size : nat) (filter : F) :
    list (bytes * T) * bool :=
  collect_loop size filter [] items.
End collect.

Section connections.
Context `{RocksDB} `{Chrono} `{Base64}.
Context {F : Type} `{!RawEventFilter F} `{!KeyExtractor F}.
Context {T : Type} `{!Bincode T} `{!EventFilter T}.

(** Drops the item a cursor names, if the iterator starts with it. *)
Definition skip_cursor (cursor : bytes) (it : BoundaryIter T) :
    Peekable (BoundaryIter T) (result (bytes * T)) :=
  let '(item, p) := peek (peekable it) in
  match item with
  | Some (Ok (k, _)) => if decide (k = cursor) then (next p).2 else p
  | _ => p
  end.

Definition search_builder (filter : F) : StorageKeyBuilder :=
  builder |> start_key (get_start_key filter) |> mid_key (get_mid_key filter).

Definition get_connection (st : RawEventStore T) (filter : F)
    (after before : option string) (first last : option nat) (db : DB) :
    result (list (bytes * T) * bool * bool) :=
  let key_builder := search_builder filter in
  let range := get_range_end_key filter in
  match before with
  | Some before =>
      if after then Err "cannot use both `after` and `before`"
      else if first then Err "'before' and 'first' cannot be specified simultaneously"
      else
        let last := page_size last in
        cursor ← base64_decode before;
        let from_key := upper_closed_key key_builder range.2 in
        let to_key := lower_key key_builder range.1 in
        if decide (bytes_cmp cursor from_key = Gt) then Err "invalid cursor"
        else
          let iter := skip_cursor cursor (boundary_iter st cursor to_key Reverse db) in
          let '(records, has_previous) := collect_records (drain iter) last filter in
          Ok (reverse records, has_previous, false)
  | None =>
      match after with
      | Some after =>
          if last then Err "'after' and 'last' cannot be specified simultaneously"
          else
            let first := page_size first in
            cursor ← base64_decode after;
            let from_key := lower_key key_builder range.1 in
            let to_key := upper_key key_builder range.2 in
            if decide (bytes_cmp cursor from_key = Lt) then Err "invalid cursor"
            else
              let iter := skip_cursor cursor (boundary_iter st cursor to_key Forward db) in
              let '(records, has_next) := collect_records (drain iter) first filter in
              Ok (records, false, has_next)
      | None =>
          match last with
          | Some last =>
              if first then Err "first and last cannot be used together"
              else
                let from_key := upper_key key_builder range.2 in
                let to_key := lower_key key_builder range.1 in
                let iter := boundary_iter st from_key to_key Reverse db in
                let '(records, has_previous) :=
                  collect_records (drain iter) (page_size (Some last)) filter in
                Ok (reverse records, has_previous, false)
          | None =>
              let from_key := lower_key key_builder range.1 in
              let to_key := upper_key key_builder range.2 in
              let iter := boundary_iter st from_key to_key Forward db in
              let '(records, has_next) :=
                collect_records (drain iter) (page_size first) filter in
              Ok (records, false, has_next)
          end
      end
  end.

(** [async_graphql::connection::Connection]: the edges (cursor and node) and
    the two page flags. *)
Record Connection (N : Type) := mk_connection {
  edges : list (string * N); has_previous_page : bool; has_next_page : bool; }.
Arguments mk_connection {N} _ _ _.

Fixpoint collect_edges {N} `{FromKeyValue N T} (records : list (bytes * T)) :
    result (list (string * N)) :=
  match records with
  | [] => Ok []
  | (k, value) :: rest =>
      node ← map_err "failed to convert value" (from_key_value k value);
      es ← collect_edges rest;
      Ok ((base64_encode k, node) :: es)
  end.

Definition load_connection {N} `{FromKeyValue N T} (st : RawEventStore T) (filter : F)
    (after before : option string) (first last : option nat) (db : DB) :
    result (Connection N) :=
  page ← get_connection st filter after before first last db;
  es ← collect_edges page.1.1;
  Ok (mk_connection es page.1.2 page.2).
End connections.

(** ** Iterators for the merged network query *)
Section filtered.
Context `{RocksDB} `{Chrono} `{Base64} {T : Type} `{!Bincode T} `{!EventFilter T}.

Definition get_filtered_iter (st : RawEventStore T) (filter : NetworkFilter)
    (after before : option string) (first last : option nat) (db : DB) :
    result (FilteredIter T * option bytes * nat) :=
  let key_builder := builder |> start_key (get_start_key filter) in
  let range := get_range_end_key filter in
  match before with
  | Some before =>
      if after then Err "cannot use both `after` and `before`"
      else if first then Err "'before' and 'first' cannot be specified simultaneously"
      else
        let last := page_size last in
        cursor ← base64_decode before;
        let from_key := upper_closed_key key_builder range.2 in
        let to_key := lower_key key_builder range.1 in
        if decide (bytes_cmp cursor from_key = Gt) then Err "invalid cursor"
        else Ok (mk_filtered_iter (boundary_iter st cursor to_key Reverse db) filter,
                 Some cursor, last)
  | None =>
      match after with
      | Some after =>
          if last then Err "'after' and 'last' cannot be specified simultaneously"
          else
            let first := page_size first in
            cursor ← base64_decode after;
            let from_key := lower_key key_builder range.1 in
            let to_key := upper_key key_builder range.2 in
            if decide (bytes_cmp cursor from_key = Lt) then Err "invalid cursor"
            else Ok (mk_filtered_iter (boundary_iter st cursor to_key Forward db) filter,
                     Some cursor, first)
      | None =>
          match last with
          | Some last =>
              if first then Err "first and last cannot be used together"
              else
                let from_key := upper_key key_builder range.2 in
                let to_key := lower_key key_builder range.1 in
                Ok (mk_filtered_iter (boundary_iter st from_key to_key Reverse db) filter,
                    None, page_size (Some last))
          | None =>
              let from_key := lower_key key_builder range.1 in
              let to_key := upper_key key_builder range.2 in
              Ok (mk_filtered_iter (boundary_iter st from_key to_key Forward db) filter,
                  None, page_size first)
          end
      end
  end.
End filtered.

(** ** Search by time stamps *)
Section search.
Context `{Chrono} {T : Type} `{!Bincode T} `{!EventFilter T} `{Unicode}.

(** [graphql.rs], [time_range] *)
Definition time_range (range : option TimeRange) : DateTime * DateTime :=
  let '(start, end_) := range_of range in
  (default (timestamp_nanos i64_min) start, default (timestamp_nanos i64_max) end_).

Definition dt_leb (a b : DateTime) : bool := match dt_cmp a b with Gt => false | _ => true end.
Definition dt_ltb (a b : DateTime) : bool := match dt_cmp a b with Lt => true | _ => false end.

(** The elements of the [BTreeSet] argument, in its order. *)
Definition collect_exist_timestamp (target_data : list (DateTime * bytes))
    (filter : SearchFilter) : list DateTime :=
  let '(start, end_) := time_range (SearchFilter.time filter) in
  omap (λ '(time, value),
    match bincode_deserialize value with
    | Err _ => None
    | Ok raw_event =>
        if dt_leb start time && dt_ltb time end_ then
          match check_event filter raw_event with
          | Ok true => Some time
          | _ => None
          end
        else None
    end) target_data.
End search.
Arguments mk_connection {N} _ _ _.
