(* ===== verification/PaginationSpec.v ===== *)
(** * What cursor pagination guarantees

    Theorems about [Pagination].  The matching events of a filter are those of
    its key range that decode and pass the filter, in key order; each kind of
    page request returns a segment of that list, the segment a cursor asks for
    is the one next to the event the cursor names, and following the cursors
    visits every matching event once. *)

From Stdlib Require Import ZArith Lia.
From S2P Require Import Prelude Bytes Externals StorageKey NetAddr GigantoClient Events.
From S2P Require Import Filters Storage StorageSpec Demo Pagination.

(** ** [omap] and splitting *)
Lemma omap_split {A B} (g : A → option B) l ms1 y ms2 :
  omap g l = ms1 ++ y :: ms2 →
  ∃ l1 z l2, l = l1 ++ z :: l2 ∧ omap g l1 = ms1 ∧ g z = Some y ∧ omap g l2 = ms2.
Proof.
  revert ms1. induction l as [|z l IH]; intros ms1 E; [by destruct ms1|].
  cbn in E. destruct (g z) as [w|] eqn:Ez.
  - destruct ms1 as [|w' ms1]; cbn in E; injection E as -> E.
    + by exists [], z, l.
    + destruct (IH _ E) as (l1 & z' & l2 & -> & <- & Hz' & <-).
      exists (z :: l1), z', l2. cbn. by rewrite Ez.
  - destruct (IH _ E) as (l1 & z' & l2 & -> & <- & Hz' & <-).
    exists (z :: l1), z', l2. cbn. by rewrite Ez.
Qed.

Lemma omap_reverse {A B} (g : A → option B) l : omap g (reverse l) = reverse (omap g l).
Proof.
  induction l as [|x l IH]; [done|]. rewrite reverse_cons, omap_app, IH.
  replace (omap g (x :: l)) with (omap g [x] ++ omap g l)
    by (change (x :: l) with ([x] ++ l); by rewrite omap_app). rewrite reverse_app. f_equal.
  cbn. by destruct (g x).
Qed.

(** ** The collecting loop *)
Section collect_spec.
Context `{RawEventFilter F, EventFilter T}.
Implicit Types items : list (result (bytes * T)).

(** What the loop keeps of one item. *)
Definition accept (f : F) (item : result (bytes * T)) : option (bytes * T) :=
  match item with
  | Ok e => if keeps f e.2 then Some e else None
  | Err _ => None
  end.

Lemma collect_loop_spec size f items records :
  (length records < size)%nat →
  ∃ more, collect_loop size f records items = (take size (records ++ omap (accept f) items), more) ∧
    (more = false → (length (records ++ omap (accept f) items) ≤ size)%nat) ∧
    (more = true → (size ≤ length (records ++ omap (accept f) items))%nat).
Proof.
  revert records. induction items as [|[e|err] items IH]; intros records Hlen.
  - exists false. cbn. rewrite app_nil_r, take_ge by lia. split_and!; [done|lia|done].
  - cbn. destruct (keeps f e.2) eqn:Hk; cbn.
    + destruct (Nat.eqb_spec (length (records ++ [e])) size) as [E|E].
      * rewrite length_app in E. cbn in E.
        replace (records ++ e :: omap (accept f) items)
          with ((records ++ [e]) ++ omap (accept f) items) by (by rewrite <- app_assoc).
        exists (match items with [] => false | _ => true end).
        rewrite take_app_le, take_ge by (rewrite length_app; cbn; lia).
        split_and!; [done| |].
        -- destruct items; [|done]. intros _. rewrite !length_app. cbn. lia.
        -- intros _. rewrite !length_app. cbn. lia.
      * destruct (IH (records ++ [e])) as (more & -> & Hf & Ht).
        { rewrite length_app in *. cbn in *. lia. }
        rewrite <- app_assoc in *. by exists more.
    + destruct (Nat.eqb_spec (length records) size) as [E|E]; [lia|].
      destruct (IH records Hlen) as (more & -> & Hf & Ht). by exists more.
  - cbn. destruct (IH records Hlen) as (more & -> & Hf & Ht). by exists more.
Qed.

Lemma collect_records_spec size f items :
  (0 < size)%nat →
  ∃ more, collect_records items size f = (take size (omap (accept f) items), more) ∧
    (more = false → (length (omap (accept f) items) ≤ size)%nat) ∧
    (more = true → (size ≤ length (omap (accept f) items))%nat).
Proof. intros Hs. by apply (collect_loop_spec size f items []). Qed.

(** Past the requested size the loop never stops. *)
Lemma collect_loop_past size f items records :
  (size < length records)%nat →
  collect_loop size f records items = (records ++ omap (accept f) items, false).
Proof.
  revert records. induction items as [|[e|err] items IH]; intros records Hlen.
  - cbn. by rewrite app_nil_r.
  - cbn. destruct (keeps f e.2).
    + rewrite (proj2 (Nat.eqb_neq _ _)) by (rewrite length_app; cbn; lia).
      rewrite IH by (rewrite length_app; lia). by rewrite <- app_assoc.
    + rewrite (proj2 (Nat.eqb_neq _ _)) by lia. by apply IH.
  - cbn. by apply IH.
Qed.
End collect_spec.

(** ** The events of a search *)
Section matching.
Context `{RocksDBSpec} `{Chrono} `{Base64}.
Context {F : Type} `{!RawEventFilter F} `{!KeyExtractor F}.
Context {T : Type} `{!Bincode T} `{!EventFilter T}.

(** The events of a list of entries that decode and pass the filter. *)
Definition matching (f : F) (l : list (bytes * bytes)) : list (bytes * T) :=
  omap (λ kv, accept f (decode kv)) l.

Lemma omap_accept_decode f l : omap (accept f) (decode (T := T) <$> l) = matching f l.
Proof.
  unfold matching. induction l as [|kv l IH]; [done|]. cbn [fmap list_fmap omap list_omap].
  fold (decode (T := T) <$> l). by rewrite IH.
Qed.

Lemma matching_split f l ms1 k x ms2 :
  matching f l = ms1 ++ (k, x) :: ms2 →
  ∃ l1 v l2, l = l1 ++ (k, v) :: l2 ∧ matching f l1 = ms1 ∧ matching f l2 = ms2 ∧
    bincode_deserialize v = Ok x.
Proof.
  intros E. apply omap_split in E as (l1 & [k' v] & l2 & -> & E1 & Ez & E2).
  unfold decode in Ez. cbn in Ez. destruct (bincode_deserialize v) as [x'|] eqn:Ev; [|done].
  cbn in Ez. destruct (keeps f x'); [|done]. injection Ez as -> ->. eauto 8.
Qed.

Lemma matching_reverse f l : matching f (reverse l) = reverse (matching f l).
Proof. apply omap_reverse. Qed.

Lemma filter_sorted_from (l1 l2 : list (bytes * bytes)) k v :
  StronglySorted key_lt (l1 ++ (k, v) :: l2) →
  filter (λ kv, bytes_le k kv.1) (l1 ++ (k, v) :: l2) = (k, v) :: l2.
Proof.
  intros Hs. rewrite filter_app.
  apply StronglySorted_app in Hs as (Hlt & _ & Hs2).
  rewrite (proj2 (filter_nil_iff _ l1)).
  - cbn [app]. apply filter_true. constructor; [cbn; reflexivity|].
    apply StronglySorted_inv in Hs2 as [_ Hx].
    eapply Forall_impl; [exact Hx|]. intros y Hy. apply bytes_lt_le, Hy.
  - apply Forall_forall. intros y Hy. apply bytes_nle.
    apply (Hlt y (k, v)); [done|left].
Qed.

Lemma filter_sorted_upto (l1 l2 : list (bytes * bytes)) k v :
  StronglySorted key_lt (l1 ++ (k, v) :: l2) →
  filter (λ kv, bytes_le kv.1 k) (l1 ++ (k, v) :: l2) = l1 ++ [(k, v)].
Proof.
  intros Hs. rewrite filter_app, filter_cons.
  apply StronglySorted_app in Hs as (Hlt & _ & Hs2).
  apply StronglySorted_inv in Hs2 as [_ Hx]. f_equal.
  - apply filter_true, Forall_forall. intros y Hy. apply bytes_lt_le.
    apply (Hlt y (k, v)); [done|left].
  - rewrite decide_True by (cbn; reflexivity). f_equal. apply filter_nil_iff.
    eapply Forall_impl; [exact Hx|]. intros y Hy. apply bytes_nle, Hy.
Qed.

(** The entries on either side of an entry of the range. *)
Lemma entries_between_split m lo hi l1 k v l2 :
  entries_between m lo hi = l1 ++ (k, v) :: l2 →
  between lo hi k ∧
  entries_between m k hi = (k, v) :: l2 ∧ entries_between m lo k = l1 ++ [(k, v)].
Proof.
  intros E.
  assert (between lo hi k ∧ m !! k = Some v) as [[Hlo Hhi] _].
  { apply elem_of_entries_between. rewrite E. apply elem_of_app. right. left. }
  pose proof (entries_between_sorted m lo hi) as Hs. rewrite E in Hs.
  split_and!; [by split| |].
  - rewrite <- (filter_sorted_from l1 l2 k v) by done. rewrite <- E.
    unfold entries_between. rewrite list_filter_filter. apply list_filter_iff.
    intros [a b]. unfold between. cbn. split; [|tauto].
    intros [? ?]. split_and!; [done|by transitivity k|done].
  - rewrite <- (filter_sorted_upto l1 l2 k v) by done. rewrite <- E.
    unfold entries_between. rewrite list_filter_filter. apply list_filter_iff.
    intros [a b]. unfold between. cbn. split; [|tauto].
    intros [? ?]. split_and!; [done|done|by transitivity k].
Qed.

(** Skipping the cursor's own entry. *)
Lemma drain_skip_cursor k v x (l : list (bytes * bytes)) (it : BoundaryIter T) :
  bincode_deserialize v = Ok x →
  drain it = decode <$> (k, v) :: l →
  drain (skip_cursor k it) = decode <$> l.
Proof.
  intros Hv Hd. unfold skip_cursor.
  pose proof (peek_drain it) as Hp. pose proof (drain_peek_next it) as Hn.
  destruct (peek (peekable it)) as [o p]. rewrite Hd in Hp, Hn.
  cbn [fst snd head tail fmap list_fmap] in Hp, Hn. unfold decode at 1 in Hp. cbn in Hp.
  rewrite Hv in Hp. subst o. cbn. rewrite decide_True by done.
  by destruct Hn as [Hn|Hn].
Qed.

(** The entries of a filter's key range. *)
Definition window (f : F) (m : gmap bytes bytes) : list (bytes * bytes) :=
  entries_between m (lower_key (search_builder f) (get_range_end_key f).1)
    (upper_key (search_builder f) (get_range_end_key f).2).

(** *** The four kinds of request *)
Lemma page_of_items (size : nat) (f : F) (l : list (bytes * bytes)) :
  (0 < size)%nat →
  ∃ more, collect_records (decode (T := T) <$> l) size f = (take size (matching f l), more) ∧
    (more = false → (length (matching f l) ≤ size)%nat) ∧
    (more = true → (size ≤ length (matching f l))%nat).
Proof. intros Hs. rewrite <- omap_accept_decode. by apply collect_records_spec. Qed.

Variables (st : RawEventStore T) (f : F) (db : DB).
Hypotheses (Hio : io_ok db) (Hcf : cf_handle db (store_cf st) = true).
Let entries := window f (cf_view db (store_cf st)).

Lemma forward_page (first : option nat) :
  (0 < page_size first)%nat →
  ∃ more, get_connection st f None None first None db =
      Ok (take (page_size first) (matching f entries), false, more) ∧
    (more = false → (length (matching f entries) ≤ page_size first)%nat) ∧
    (more = true → (page_size first ≤ length (matching f entries))%nat).
Proof.
  intros Hs. destruct (page_of_items (page_size first) f entries Hs) as (more & Hc & Hm).
  exists more. split; [|done]. unfold get_connection.
  rewrite drain_boundary_iter by done. cbn [scan_between].
  change (entries_between _ _ _) with entries. by rewrite Hc.
Qed.

Lemma backward_page (last : nat) :
  (0 < last)%nat →
  ∃ more, get_connection st f None None None (Some last) db =
      Ok (reverse (take (page_size (Some last)) (reverse (matching f entries))), more, false) ∧
    (more = false → (length (matching f entries) ≤ page_size (Some last))%nat) ∧
    (more = true → (page_size (Some last) ≤ length (matching f entries))%nat).
Proof.
  intros Hs. assert (0 < page_size (Some last))%nat as Hp
    by (unfold page_size, MAXIMUM_PAGE_SIZE; cbn; lia).
  destruct (page_of_items (page_size (Some last)) f (reverse entries) Hp) as (more & Hc & Hm).
  rewrite matching_reverse, length_reverse in *.
  exists more. split; [|done]. unfold get_connection.
  rewrite drain_boundary_iter by done. cbn [scan_between].
  change (entries_between _ _ _) with entries. by rewrite Hc.
Qed.

Context `{!Base64Laws}.

Lemma after_page (first : option nat) ms1 k x ms2 :
  (0 < page_size first)%nat →
  matching f entries = ms1 ++ (k, x) :: ms2 →
  ∃ more, get_connection st f (Some (base64_encode k)) None first None db =
      Ok (take (page_size first) ms2, false, more) ∧
    (more = false → (length ms2 ≤ page_size first)%nat) ∧
    (more = true → (page_size first ≤ length ms2)%nat).
Proof.
  intros Hs Hms. apply matching_split in Hms as (l1 & v & l2 & He & _ & <- & Hv).
  destruct (entries_between_split _ _ _ _ _ _ _ He) as ([Hlo _] & Hfrom & _).
  destruct (page_of_items (page_size first) f l2 Hs) as (more & Hc & Hm).
  exists more. split; [|done]. unfold get_connection.
  rewrite base64_roundtrip. cbn [mbind result_bind].
  rewrite decide_False.
  - rewrite (drain_skip_cursor k v x l2) by
      (done || by rewrite drain_boundary_iter by done; cbn [scan_between]; rewrite Hfrom).
    by rewrite Hc.
  - rewrite bytes_cmp_antisym. intros E. apply Hlo. by destruct (bytes_cmp _ k).
Qed.

Lemma before_page (last : option nat) ms1 k x ms2 :
  (0 < page_size last)%nat →
  matching f entries = ms1 ++ (k, x) :: ms2 →
  bytes_le k (upper_closed_key (search_builder f) (get_range_end_key f).2) →
  ∃ more, get_connection st f None (Some (base64_encode k)) None last db =
      Ok (reverse (take (page_size last) (reverse ms1)), more, false) ∧
    (more = false → (length ms1 ≤ page_size last)%nat) ∧
    (more = true → (page_size last ≤ length ms1)%nat).
Proof.
  intros Hs Hms Hup. apply matching_split in Hms as (l1 & v & l2 & He & <- & _ & Hv).
  destruct (entries_between_split _ _ _ _ _ _ _ He) as (_ & _ & Hto).
  destruct (page_of_items (page_size last) f (reverse l1) Hs) as (more & Hc & Hm).
  rewrite matching_reverse, length_reverse in *.
  exists more. split; [|done]. unfold get_connection.
  rewrite base64_roundtrip. cbn [mbind result_bind].
  rewrite decide_False by exact Hup.
  rewrite (drain_skip_cursor k v x (reverse l1)).
  - by rewrite Hc.
  - done.
  - rewrite drain_boundary_iter by done. cbn [scan_between].
    by rewrite Hto, reverse_app.
Qed.
End matching.

(** ** Following the cursors *)
Section walk.
Context `{RocksDB} `{Chrono} `{Base64}.
Context {F : Type} `{!RawEventFilter F} `{!KeyExtractor F}.
Context {T : Type} `{!Bincode T} `{!EventFilter T}.

(** A client that asks for pages of [size] events, each after the last event
    of the previous page, until a page says that none follows. *)
Fixpoint walk (fuel : nat) (size : nat) (st : RawEventStore T) (f : F)
    (after : option string) (db : DB) : result (list (bytes * T)) :=
  match fuel with
  | O => Err "out of fuel"
  | S fuel =>
      page ← get_connection st f after None (Some size) None db;
      let '(records, _, has_next) := page in
      match last records, has_next with
      | Some (k, _), true =>
          rest ← walk fuel size st f (Some (base64_encode k)) db;
          Ok (records ++ rest)
      | _, _ => Ok records
      end
  end.
End walk.

Lemma take_split_last {A} (n : nat) (l : list A) :
  (0 < n ≤ length l)%nat →
  ∃ l1 x, take n l = l1 ++ [x] ∧ l = l1 ++ x :: drop n l.
Proof.
  intros Hn. destruct (take n l) as [|x l1 _] eqn:E using rev_ind.
  - apply (f_equal length) in E. rewrite length_take in E. cbn in E. lia.
  - exists l1, x. split; [done|].
    rewrite <- (take_drop n l) at 1. by rewrite E, <- app_assoc.
Qed.

Section walk_spec.
Context `{RocksDBSpec} `{Chrono} `{Base64Laws}.
Context {F : Type} `{!RawEventFilter F} `{!KeyExtractor F}.
Context {T : Type} `{!Bincode T} `{!EventFilter T}.
Variables (st : RawEventStore T) (f : F) (db : DB).
Hypotheses (Hio : io_ok db) (Hcf : cf_handle db (store_cf st) = true).
Let found := matching (T := T) f (window f (cf_view db (store_cf st))).

(** What a walk does with its next page, a prefix of the events to come. *)
Lemma walk_page size fuel ms1 ms2 after more :
  (0 < page_size (Some size))%nat →
  found = ms1 ++ ms2 →
  get_connection st f after None (Some size) None db =
    Ok (take (page_size (Some size)) ms2, false, more) →
  (more = false → (length ms2 ≤ page_size (Some size))%nat) →
  (more = true → (page_size (Some size) ≤ length ms2)%nat) →
  (∀ ms3 k x ms4, found = ms3 ++ (k, x) :: ms4 → (length ms4 < length ms2)%nat →
    walk fuel size st f (Some (base64_encode k)) db = Ok ms4) →
  walk (S fuel) size st f after db = Ok ms2.
Proof.
  intros Hs Hf Hpage Hno Hyes IH. cbn [walk]. rewrite Hpage. cbn [mbind result_bind].
  destruct more.
  - destruct (take_split_last (page_size (Some size)) ms2) as (l1 & [k x] & Et & El).
    { specialize (Hyes eq_refl). lia. }
    rewrite Et, last_snoc.
    rewrite (IH (ms1 ++ l1) k x (drop (page_size (Some size)) ms2)).
    + cbn. f_equal. rewrite <- app_assoc. exact (eq_sym El).
    + rewrite Hf, <- app_assoc. f_equal. exact El.
    + apply (f_equal length) in El. rewrite length_app in El. cbn [length] in El. lia.
  - rewrite take_ge by auto. by destruct (last ms2) as [[k x]|].
Qed.

Lemma walk_after size : (0 < size)%nat → ∀ fuel ms3 k x ms4,
  found = ms3 ++ (k, x) :: ms4 → (length ms4 < fuel)%nat →
  walk fuel size st f (Some (base64_encode k)) db = Ok ms4.
Proof.
  intros Hs. assert (0 < page_size (Some size))%nat as Hp
    by (unfold page_size, MAXIMUM_PAGE_SIZE; cbn; lia).
  induction fuel as [|fuel IH]; intros ms3 k x ms4 Hf Hl; [lia|].
  destruct (after_page st f db Hio Hcf (Some size) ms3 k x ms4 Hp Hf)
    as (more & Hpage & Hno & Hyes).
  eapply (walk_page size fuel (ms3 ++ [(k, x)])); try done.
  - by rewrite <- app_assoc.
  - intros ms5 k' x' ms6 Hf' Hlt. eapply IH; [done|]. lia.
Qed.

Lemma walk_from_start size : (0 < size)%nat →
  walk (S (length found)) size st f None db = Ok found.
Proof.
  intros Hs. assert (0 < page_size (Some size))%nat as Hp
    by (unfold page_size, MAXIMUM_PAGE_SIZE; cbn; lia).
  destruct (forward_page st f db Hio Hcf (Some size) Hp) as (more & Hpage & Hno & Hyes).
  eapply (walk_page size _ []); try done.
  intros ms3 k x ms4 Hf Hlt. by eapply walk_after.
Qed.
End walk_spec.

(** ** The properties *)
Section properties.
Context `{RocksDBSpec} `{ChronoLaws} `{Base64Laws}.
Context {F : Type} `{!RawEventFilter F} `{!KeyExtractor F}.
Context {T : Type} `{!Bincode T} `{!EventFilter T}.
Implicit Types (st : RawEventStore T) (f : F) (db : DB).

(** The matching events of the filter's key range, in key order. *)
Definition results st f db : list (bytes * T) :=
  matching f (window f (cf_view db (store_cf st))).

Lemma upper_key_closed (p : StorageKeyBuilder) time k :
  match time with Some t => 1 ≤ nanos_or_max t | None => True end →
  bytes_le k (upper_key p time) → bytes_le k (upper_closed_key p time).
Proof.
  intros Ht Hk. transitivity (upper_key p time); [done|].
  rewrite upper_key_eq. unfold upper_closed_key, upper_closed_bound_end_key, upper_nanos.
  cbn. rewrite bytes_le_app. destruct time as [t|]; [|reflexivity].
  rewrite (proj2 (Z.leb_le 1 _)) by done. unfold bytes_le.
  pose proof (nanos_or_max_range t) as Hr. unfold is_i64 in Hr.
  rewrite i64_be_bytes_cmp by lia. apply Z.compare_le_iff. lia.
Qed.

(** C1: pages asked for one after the other, each after the last cursor of the
    page before, return every matching event exactly once and in key order,
    whatever the (positive) page size, and the walk ends. *)
Theorem pages_enumerate_results st f db size :
  io_ok db → cf_handle db (store_cf st) = true → (0 < size)%nat →
  walk (S (length (results st f db))) size st f None db = Ok (results st f db).
Proof. intros Hio Hcf Hs. by apply walk_from_start. Qed.

Lemma results_spec st f db s m s' m' ts (x : T) :
  get_start_key f = s → get_mid_key f = m →
  no_nul s → no_nul s' → mid_compat m m' → 0 ≤ ts ≤ i64_max →
  0 ≤ lower_nanos (get_range_end_key f).1 ≤ i64_max →
  (event_key s' m' ts, x) ∈ results st f db ↔
    s' = s ∧ m' = m ∧
    lower_nanos (get_range_end_key f).1 ≤ ts ≤ upper_nanos (get_range_end_key f).2 ∧
    keeps f x = true ∧
    ∃ v, cf_view db (store_cf st) !! event_key s' m' ts = Some v ∧
      bincode_deserialize v = Ok x.
Proof.
  intros Hs Hm Hns Hns' Hmc Hts Hlo.
  pose proof (between_event_key s m s' m' (get_range_end_key f).1 (get_range_end_key f).2 ts
    Hns Hns' Hmc Hlo Hts) as Hb.
  unfold results, matching, window, search_builder. rewrite Hs, Hm.
  rewrite list_elem_of_omap. split.
  - intros ([k v] & Hin & Hacc). apply elem_of_entries_between in Hin as [Hk Hv].
    unfold decode in Hacc. cbn in Hacc.
    destruct (bincode_deserialize v) as [x'|] eqn:Ev; [|done].
    cbn in Hacc. destruct (keeps f x') eqn:Hkeep; [|done]. injection Hacc as -> ->.
    apply Hb in Hk as (-> & -> & ?). eauto 10.
  - intros (-> & -> & Hr & Hkeep & v & Hv & Ev). exists (event_key s m ts, v). split.
    + apply elem_of_entries_between. split; [|done]. apply Hb. auto.
    + unfold decode. cbn. rewrite Ev. cbn. by rewrite Hkeep.
Qed.

(** C20: an event is among the results of a search exactly when it is stored
    under the filter's source and mid key with a time stamp inside the time
    window, decodes, and passes the filter. *)
Theorem results_exact st f db s m s' m' ts (x : T) :
  get_start_key f = s → get_mid_key f = m →
  no_nul s → no_nul s' → mid_compat m m' → 0 ≤ ts ≤ i64_max →
  0 ≤ lower_nanos (get_range_end_key f).1 ≤ i64_max →
  (event_key s' m' ts, x) ∈ results st f db ↔
    s' = s ∧ m' = m ∧
    lower_nanos (get_range_end_key f).1 ≤ ts ≤ upper_nanos (get_range_end_key f).2 ∧
    keeps f x = true ∧
    ∃ v, cf_view db (store_cf st) !! event_key s' m' ts = Some v ∧
      bincode_deserialize v = Ok x.
Proof.
  apply results_spec.
Qed.

(** [first: n] returns the [n] oldest matching events, at most 100; when it
    says that no page follows there is none left, and when it says that one
    follows the page is full. *)
Theorem first_page_exact st f db first :
  io_ok db → cf_handle db (store_cf st) = true → (0 < page_size first)%nat →
  ∃ more, get_connection st f None None first None db =
      Ok (take (page_size first) (results st f db), false, more) ∧
    (more = false → (length (results st f db) ≤ page_size first)%nat) ∧
    (more = true → (page_size first ≤ length (results st f db))%nat).
Proof. intros Hio Hcf. by apply forward_page. Qed.

(** [last: n] returns the [n] newest matching events, oldest first. *)
Theorem last_page_exact st f db last :
  io_ok db → cf_handle db (store_cf st) = true → (0 < last)%nat →
  ∃ more, get_connection st f None None None (Some last) db =
      Ok (reverse (take (page_size (Some last)) (reverse (results st f db))), more, false) ∧
    (more = false → (length (results st f db) ≤ page_size (Some last))%nat) ∧
    (more = true → (page_size (Some last) ≤ length (results st f db))%nat).
Proof. intros Hio Hcf. by apply backward_page. Qed.

(** [after] the cursor of a matching event, the page starts with the next
    matching event. *)
Theorem after_cursor_resumes st f db first ms1 k x ms2 :
  io_ok db → cf_handle db (store_cf st) = true → (0 < page_size first)%nat →
  results st f db = ms1 ++ (k, x) :: ms2 →
  ∃ more, get_connection st f (Some (base64_encode k)) None first None db =
      Ok (take (page_size first) ms2, false, more) ∧
    (more = false → (length ms2 ≤ page_size first)%nat) ∧
    (more = true → (page_size first ≤ length ms2)%nat).
Proof. intros Hio Hcf. by apply after_page. Qed.

(** [before] the cursor of a matching event, the page ends with the matching
    event just older than it, provided the end of the time filter, if any, is
    after the epoch. *)
Theorem before_cursor_precedes st f db last ms1 k x ms2 :
  io_ok db → cf_handle db (store_cf st) = true → (0 < page_size last)%nat →
  match (get_range_end_key f).2 with Some t => 1 ≤ nanos_or_max t | None => True end →
  results st f db = ms1 ++ (k, x) :: ms2 →
  ∃ more, get_connection st f None (Some (base64_encode k)) None last db =
      Ok (reverse (take (page_size last) (reverse ms1)), more, false) ∧
    (more = false → (length ms1 ≤ page_size last)%nat) ∧
    (more = true → (page_size last ≤ length ms1)%nat).
Proof.
  intros Hio Hcf Hs Ht Hr. eapply before_page; [done..|].
  apply upper_key_closed; [done|].
  apply matching_split in Hr as (l1 & v & l2 & He & _).
  by apply entries_between_split in He as ([_ Hk] & _).
Qed.

(** [first: 0] does not bound the page: if the first entry of the range
    decodes and matches, every matching event is returned, whatever the
    maximum page size. *)
Theorem first_zero_is_unbounded st f db k v x l :
  io_ok db → cf_handle db (store_cf st) = true →
  window f (cf_view db (store_cf st)) = (k, v) :: l →
  bincode_deserialize v = Ok x → keeps f x = true →
  get_connection st f None None (Some 0%nat) None db = Ok (results st f db, false, false).
Proof.
  intros Hio Hcf Hw Hv Hk. unfold get_connection.
  rewrite drain_boundary_iter by done. cbn [scan_between].
  unfold results. change (entries_between _ _ _) with (window f (cf_view db (store_cf st))).
  rewrite Hw, <- omap_accept_decode. unfold collect_records, page_size.
  cbn [fmap list_fmap]. unfold decode at 1 3. cbn [fst snd]. rewrite Hv. cbn.
  rewrite Hk. cbn. rewrite collect_loop_past by (cbn; lia). done.
Qed.

(** Contradictory or malformed page arguments are refused before the
    store is read: both cursors, a cursor with the other direction's size,
    both sizes, and a cursor that is not valid base64. *)
Theorem bad_page_arguments st f db after before first last :
  (is_Some after ∧ is_Some before) ∨ (is_Some before ∧ is_Some first) ∨
  (is_Some after ∧ is_Some last) ∨ (is_Some first ∧ is_Some last) ∨
  (∃ c e, (after = Some c ∨ before = Some c) ∧ base64_decode c = Err e) →
  is_ok (get_connection st f after before first last db) = false.
Proof.
  intros Hbad. unfold get_connection.
  destruct after as [a|], before as [b|], first as [n|], last as [n'|]; try done;
    repeat (destruct Hbad as [Hbad|Hbad]);
    try (destruct Hbad as [[? [=]] [? [=]]]);
    destruct Hbad as (c & e & [[= ->]|[= ->]] & Hc); cbn; by rewrite Hc.
Qed.
End properties.

(** ** Witnesses: the events of [src1] in the demonstration database *)
Definition demo_filter : NetworkFilter.t :=
  NetworkFilter.mk nanos_chrono None "src1" None None None None None None.
Definition demo_results : list (bytes * Blob) := [
  (event_key "src1" None 100000000000, mk_blob [Byte.x01]);
  (event_key "src1" None 200000000000, mk_blob [Byte.x02]);
  (event_key "src1" None 400000000000, mk_blob [Byte.x04])].

Lemma demo_results_eq : results demo_store demo_filter demo_db = demo_results.
Proof. vm_compute. reflexivity. Qed.

Lemma pages_enumerate_results_witness :
  walk 4 2 demo_store demo_filter None demo_db = Ok demo_results.
Proof.
  pose proof (pages_enumerate_results demo_store demo_filter demo_db 2) as Hw.
  rewrite demo_results_eq in Hw. change 4%nat with (S (length demo_results)).
  apply Hw; concrete.
Defined.

Lemma results_exact_witness :
  (event_key "src1" None 200000000000, mk_blob [Byte.x02])
    ∈ results demo_store demo_filter demo_db.
Proof.
  apply (results_exact demo_store demo_filter demo_db "src1" None "src1" None 200000000000);
    [concrete..|].
  split_and!; [concrete..|]. exists [Byte.x02]. split; concrete.
Defined.

Lemma first_page_exact_witness :
  ∃ more, get_connection demo_store demo_filter None None (Some 2%nat) None demo_db =
    Ok (take 2 demo_results, false, more).
Proof.
  destruct (first_page_exact demo_store demo_filter demo_db (Some 2%nat))
    as (more & Hp & _); [concrete..|].
  exists more. rewrite Hp, demo_results_eq. reflexivity.
Defined.

Lemma last_page_exact_witness :
  ∃ more, get_connection demo_store demo_filter None None None (Some 2%nat) demo_db =
    Ok (drop 1 demo_results, more, false).
Proof.
  destruct (last_page_exact demo_store demo_filter demo_db 2) as (more & Hp & _);
    [concrete..|].
  exists more. rewrite Hp, demo_results_eq. reflexivity.
Defined.

Lemma after_cursor_resumes_witness :
  ∃ more, get_connection demo_store demo_filter
    (Some (base64_encode (event_key "src1" None 100000000000))) None (Some 1%nat) None demo_db =
    Ok ([(event_key "src1" None 200000000000, mk_blob [Byte.x02])], false, more).
Proof.
  destruct (after_cursor_resumes demo_store demo_filter demo_db (Some 1%nat) []
    (event_key "src1" None 100000000000) (mk_blob [Byte.x01]) (tail demo_results))
    as (more & Hp & _); [concrete..|apply demo_results_eq|].
  exists more. exact Hp.
Defined.

Lemma before_cursor_precedes_witness :
  ∃ more, get_connection demo_store demo_filter
    None (Some (base64_encode (event_key "src1" None 400000000000))) None (Some 1%nat) demo_db =
    Ok ([(event_key "src1" None 200000000000, mk_blob [Byte.x02])], more, false).
Proof.
  destruct (before_cursor_precedes demo_store demo_filter demo_db (Some 1%nat)
    (take 2 demo_results) (event_key "src1" None 400000000000) (mk_blob [Byte.x04]) [])
    as (more & Hp & _); [concrete..|apply demo_results_eq|].
  exists more. exact Hp.
Defined.

Lemma first_zero_is_unbounded_witness :
  get_connection demo_store demo_filter None None (Some 0%nat) None demo_db =
    Ok (demo_results, false, false).
Proof.
  rewrite <- demo_results_eq.
  refine (first_zero_is_unbounded demo_store demo_filter demo_db
    (event_key "src1" None 100000000000) [Byte.x01] (mk_blob [Byte.x01])
    (tail (window demo_filter (cf_view demo_db "conn"))) _ _ _ _ _); concrete.
Defined.

Lemma bad_page_arguments_witness :
  is_ok (get_connection demo_store demo_filter (Some "a") (Some "b") None None demo_db) = false.
Proof. apply bad_page_arguments. left. split; eexists; reflexivity. Defined.
