(* ===== verification/Channels.v ===== *)
(** * Direct streams to subscribers

    The live part of the publish service: the keys a client subscribes under
    (src/src/publish/implement.rs), the keys of an ingested network event
    ([NetworkKey] of src/src/ingest.rs), the shared map of subscriptions, and
    [send_direct_stream] (src/src/publish.rs), which the ingest service calls
    for every stored network event. *)

From Stdlib Require Import ZArith Lia Ascii.
From S2P Require Import Prelude Bytes Externals StorageKey NetAddr GigantoClient Demo.

(** ['\0'] *)
Definition nul : string := String Ascii.zero EmptyString.

Module NetworkKey.
Record t := mk { source_key : string; all_key : string; }.
Definition new (source protocol : string) : t :=
  mk (source +:+ nul +:+ protocol) ("all" +:+ nul +:+ protocol).
End NetworkKey.
Notation NetworkKey := NetworkKey.t.

(** ** Subscriptions

    A sender of a [tokio::mpsc::unbounded_channel]; the clones of one sender
    share their channel, so the map holds channel names.  [ch_open] is false
    once the receiving end was dropped. *)
Record Channel := mk_channel { ch_queue : list bytes; ch_open : bool; }.
Notation ChannelId := nat.

(** [StreamDirectChannel] and the channels its senders belong to. *)
Record Channels := mk_channels {
  subscriptions : gmap string ChannelId;
  channels : gmap ChannelId Channel;
}.

Definition no_channels : Channels := mk_channels ∅ ∅.

(** [sender.send(buf)?]: an error once the receiver is gone. *)
Definition channel_send (c : ChannelId) (buf : bytes) : M Channels unit := λ s,
  match channels s !! c with
  | Some ch =>
      if ch_open ch then
        (Ok tt, mk_channels (subscriptions s)
                  (<[c := mk_channel (ch_queue ch ++ [buf]) true]> (channels s)))
      else (Err "channel closed", s)
  | None => (Err "channel closed", s)
  end.

(** [u32::try_from(len)?.to_le_bytes()] *)
Definition u32_len (b : bytes) : result bytes :=
  if decide (Z.of_nat (length b) < 2 ^ 32) then Ok (u32_to_le_bytes (Z.of_nat (length b)))
  else Err "out of range integral type conversion attempted".

Section direct.
Context `{Client} `{Bincode string}.

Definition key_matches (network_key : NetworkKey) (req_key : string) : bool :=
  str_contains req_key (NetworkKey.source_key network_key) ||
  str_contains req_key (NetworkKey.all_key network_key).

(** The buffer a subscriber gets: time stamp, the source for a hog, the raw
    event, each variable part after its length. *)
Definition direct_frame (req_key : string) (raw_event : bytes) (timestamp : Z)
    (source : string) : result bytes :=
  raw_len ← u32_len raw_event;
  let send_buf := i64_to_le_bytes timestamp in
  send_buf ←
    (if str_contains req_key (node_str Hog) then
       source_bytes ← bincode_serialize source;
       source_len ← u32_len source_bytes;
       Ok (send_buf ++ source_len ++ source_bytes)
     else Ok send_buf);
  Ok (send_buf ++ raw_len ++ raw_event).

Definition send_to_subscriber (network_key : NetworkKey) (raw_event : bytes) (timestamp : Z)
    (source : string) (sub : string * ChannelId) : M Channels unit :=
  let '(req_key, sender) := sub in
  if key_matches network_key req_key then
    send_buf <-- m_lift (direct_frame req_key raw_event timestamp source) ;;
    channel_send sender send_buf
  else m_ret tt.

(** [subs] lists the subscriptions in the order the hash map yields them. *)
Definition send_direct_stream (subs : list (string * ChannelId)) (network_key : NetworkKey)
    (raw_event : bytes) (timestamp : Z) (source : string) : M Channels unit :=
  m_iter (send_to_subscriber network_key raw_event timestamp source) subs.
End direct.

(** ** The requests of subscribers (publish/implement.rs) *)
Class RequestStreamMessage (N : Type) := {
  channel_key : N → option string → string → result (list string);
  start_time : N → Z;
  filter_ip : N → IpAddr → IpAddr → bool;
  (** a panic ([unreachable!]) is an error *)
  msg_source : N → result string;
  msg_id : N → result (option string);
}.

Section requests.
Context `{Client}.

Definition hog_key (source : option string) (record_type : string) (target_source : string) :
    result string :=
  match source with
  | Some src => Ok (node_str Hog +:+ nul +:+ src +:+ nul +:+ target_source +:+ nul +:+ record_type)
  | None => Err "called `Option::unwrap()` on a `None` value"
  end.

Fixpoint hog_keys (source : option string) (record_type : string) (targets : list string) :
    result (list string) :=
  match targets with
  | [] => Ok []
  | target :: targets' =>
      key ← hog_key source record_type target;
      keys ← hog_keys source record_type targets';
      Ok (key :: keys)
  end.

#[export] Instance hog_message : RequestStreamMessage RequestHogStream := {|
  channel_key msg source record_type :=
    match RequestHogStream.source msg with
    | Some source_list => hog_keys source record_type source_list
    | None => Err "Failed to generate hog channel key, source is required."
    end;
  start_time := RequestHogStream.start;
  filter_ip _ _ _ := true;
  msg_source _ := Err "unreachable";
  msg_id _ := Err "unreachable" |}.

Definition crusher_key (id target_source record_type : string) : string :=
  node_str Crusher +:+ nul +:+ id +:+ nul +:+ target_source +:+ nul +:+ record_type.

Definition crusher_filter_ip (msg : RequestCrusherStream) (orig_addr resp_addr : IpAddr) : bool :=
  match RequestCrusherStream.src_ip msg, RequestCrusherStream.dst_ip msg with
  | Some c_orig_addr, Some c_resp_addr =>
      ip_eqb c_orig_addr orig_addr && ip_eqb c_resp_addr resp_addr
  | None, Some c_resp_addr => ip_eqb c_resp_addr resp_addr
  | Some c_orig_addr, None => ip_eqb c_orig_addr orig_addr
  | None, None => true
  end.

#[export] Instance crusher_message : RequestStreamMessage RequestCrusherStream := {|
  channel_key msg _ record_type :=
    match RequestCrusherStream.source msg with
    | Some target => Ok [crusher_key (RequestCrusherStream.id msg) target record_type]
    | None => Err "Failed to generate crusher channel key, source is required."
    end;
  start_time := RequestCrusherStream.start;
  filter_ip := crusher_filter_ip;
  msg_source msg :=
    match RequestCrusherStream.source msg with
    | Some source => Ok source
    | None => Err "Failed to generate crusher key, source is required."
    end;
  msg_id msg := Ok (Some (RequestCrusherStream.id msg)) |}.
End requests.

(** ** Lemmas *)
Lemma channel_send_open c buf s ch :
  channels s !! c = Some ch → ch_open ch = true →
  channel_send c buf s =
    (Ok tt, mk_channels (subscriptions s)
              (<[c := mk_channel (ch_queue ch ++ [buf]) true]> (channels s))).
Proof. intros Hc Ho. unfold channel_send. by rewrite Hc, Ho. Qed.

Lemma as_bytes_app a b : as_bytes (a +:+ b) = as_bytes a ++ as_bytes b.
Proof.
  induction a as [|c a IH]; [done|]. rewrite string_app_cons. cbn. f_equal. exact IH.
Qed.

Definition is_prefix (p s : string) : Prop := ∃ y, s = p +:+ y.
Definition is_suffix (p s : string) : Prop := ∃ x, s = x +:+ p.

Lemma no_nul_app a b : no_nul (a +:+ b) ↔ no_nul a ∧ no_nul b.
Proof. unfold no_nul. rewrite as_bytes_app, elem_of_app. tauto. Qed.

Lemma split_nul_string a b c d :
  no_nul a → no_nul c → a +:+ nul +:+ b = c +:+ nul +:+ d → a = c ∧ b = d.
Proof.
  intros Ha Hc E%(f_equal as_bytes). rewrite !as_bytes_app in E.
  apply split_nul in E as [E1 E2]; [|done..]. by split; apply as_bytes_inj.
Qed.

Lemma no_nul_empty : no_nul "".
Proof. apply not_elem_of_nil. Qed.

(** A string is free of NUL or has a first one. *)
Lemma first_nul x : no_nul x ∨ ∃ a b, x = a +:+ nul +:+ b ∧ no_nul a.
Proof.
  induction x as [|c x IH]; [left; apply no_nul_empty|].
  destruct (decide (c = Ascii.zero)) as [->|Hc].
  - right. exists "", x. split; [done|]. apply no_nul_empty.
  - assert (no_nul (String c "")) as Hc'.
    { unfold no_nul. cbn. intros E%list_elem_of_singleton. apply Hc.
      apply (f_equal Ascii.ascii_of_byte) in E. by rewrite Ascii.ascii_of_byte_of_ascii in E. }
    destruct IH as [IH|(a & b & -> & Ha)].
    + left. change (no_nul (String c "" +:+ x)). by apply no_nul_app.
    + right. exists (String c a), b. split; [done|].
      change (no_nul (String c "" +:+ a)). by apply no_nul_app.
Qed.

(** Where a pattern with a NUL occurs in a string whose first part has none. *)
Lemma contains_after_nul s p a rest :
  no_nul s → no_nul a →
  str_contains (a +:+ nul +:+ rest) (s +:+ nul +:+ p) = true ↔
    (is_suffix s a ∧ is_prefix p rest) ∨ str_contains rest (s +:+ nul +:+ p) = true.
Proof.
  intros Hs Ha. rewrite !str_contains_spec. split.
  - intros (x & y & E). destruct (first_nul x) as [Hx|(x1 & x2 & -> & Hx1)].
    + left. rewrite <- !string_app_assoc, (string_app_assoc x s) in E.
      apply split_nul_string in E as [-> ->]; [|done|by apply no_nul_app].
      split; [by exists x|by exists y].
    + right. rewrite <- !string_app_assoc in E.
      apply split_nul_string in E as [_ ->]; [|done..].
      exists x2, y. by rewrite <- !string_app_assoc.
  - intros [[[x ->] [y ->]]|(x & y & ->)].
    + exists x, y. by rewrite <- !string_app_assoc.
    + exists (a +:+ nul +:+ x), y. by rewrite <- !string_app_assoc.
Qed.

Lemma not_contains_nul s p a :
  no_nul a → str_contains a (s +:+ nul +:+ p) ≠ true.
Proof.
  rewrite str_contains_spec. intros Ha (x & y & ->).
  rewrite !no_nul_app in Ha. destruct Ha as (_ & (_ & Hn & _) & _). apply Hn. left.
Qed.

Lemma is_prefix_before_nul p a rest :
  no_nul p → no_nul a → is_prefix p (a +:+ nul +:+ rest) ↔ is_prefix p a.
Proof.
  intros Hp Ha. split; [|intros [y ->]; exists (y +:+ nul +:+ rest); by rewrite <- string_app_assoc].
  intros [y E]. destruct (first_nul y) as [Hy|(y1 & y2 & -> & Hy1)].
  - exfalso. assert (no_nul (a +:+ nul +:+ rest)) as Hn by (rewrite E; by apply no_nul_app).
    rewrite !no_nul_app in Hn. destruct Hn as (_ & Hn & _). apply Hn. left.
  - rewrite (string_app_assoc p y1) in E. apply split_nul_string in E as [-> _]; [|done|].
    + by exists y1.
    + by apply no_nul_app.
Qed.

(** A pattern [s NUL p] in a key of four parts. *)
Lemma contains_four s p a b c d :
  no_nul s → no_nul p → no_nul a → no_nul b → no_nul c → no_nul d →
  str_contains (a +:+ nul +:+ b +:+ nul +:+ c +:+ nul +:+ d) (s +:+ nul +:+ p) = true ↔
    (is_suffix s a ∧ is_prefix p b) ∨ (is_suffix s b ∧ is_prefix p c) ∨
    (is_suffix s c ∧ is_prefix p d).
Proof.
  intros Hs Hp Ha Hb Hc Hd. rewrite !contains_after_nul by done.
  rewrite !is_prefix_before_nul by done.
  pose proof (not_contains_nul s p d Hd). tauto.
Qed.

(** A string occurs in every string it ends. *)
Lemma str_contains_suffix_of x a : str_contains (x +:+ a) a = true.
Proof. apply str_contains_spec. exists x, "". by rewrite string_app_nil_r. Qed.

Section delivery.
Context `{Client} `{Bincode string}.
Implicit Types (s : Channels) (nk : NetworkKey).

(** The frames one event adds to the channel [c], one per matching key. *)
Definition delivered nk (raw : bytes) (ts : Z) (source : string)
    (subs : list (string * ChannelId)) (c : ChannelId) : list bytes :=
  omap (λ '(k, c'),
    if key_matches nk k && (c' =? c)%nat then result_ok (direct_frame k raw ts source)
    else None) subs.

(** Every matching subscriber can take the frame. *)
Definition deliverable nk (raw : bytes) (ts : Z) (source : string)
    (subs : list (string * ChannelId)) s : Prop :=
  ∀ k c, (k, c) ∈ subs → key_matches nk k = true →
    (∃ ch, channels s !! c = Some ch ∧ ch_open ch = true) ∧
    is_ok (direct_frame k raw ts source) = true.

Definition add_frames (ch : Channel) (l : list bytes) : Channel :=
  mk_channel (ch_queue ch ++ l) (ch_open ch).

Lemma add_frames_nil ch : add_frames ch [] = ch.
Proof. destruct ch. unfold add_frames. cbn. by rewrite app_nil_r. Qed.

Lemma send_to_matching nk raw ts source k c b ch s :
  key_matches nk k = true → direct_frame k raw ts source = Ok b →
  channels s !! c = Some ch → ch_open ch = true →
  send_to_subscriber nk raw ts source (k, c) s =
    (Ok tt, mk_channels (subscriptions s) (<[c := add_frames ch [b]]> (channels s))).
Proof.
  intros Hk Hf Hc Ho. cbn. rewrite Hk. unfold m_bind, m_lift. rewrite Hf.
  rewrite (channel_send_open _ _ _ _ Hc Ho). unfold add_frames. by rewrite Ho.
Qed.

Lemma send_to_other nk raw ts source k c s :
  key_matches nk k = false → send_to_subscriber nk raw ts source (k, c) s = (Ok tt, s).
Proof. intros Hk. cbn. by rewrite Hk. Qed.

Lemma deliver_all nk raw ts source subs s :
  deliverable nk raw ts source subs s →
  ∃ s', send_direct_stream subs nk raw ts source s = (Ok tt, s') ∧
    subscriptions s' = subscriptions s ∧
    ∀ c, channels s' !! c = (λ ch, add_frames ch (delivered nk raw ts source subs c)) <$> channels s !! c.
Proof.
  revert s. induction subs as [|[k c] subs IH]; intros s Hd.
  - exists s. split_and!; [done..|]. intros c. cbn.
    destruct (channels s !! c) as [ch|]; [|done]. cbn. by rewrite add_frames_nil.
  - unfold send_direct_stream. cbn [m_iter]. unfold m_bind.
    destruct (key_matches nk k) eqn:Hk.
    + destruct (Hd k c ltac:(left) Hk) as [(ch & Hc & Ho) Hf].
      destruct (direct_frame k raw ts source) as [b|] eqn:Hb; [|done].
      rewrite (send_to_matching nk raw ts source k c b ch s Hk Hb Hc Ho).
      destruct (IH (mk_channels (subscriptions s) (<[c := add_frames ch [b]]> (channels s))))
        as (s' & Hs & Hsub & Hch).
      { intros k' c' Hin Hk'. destruct (Hd k' c' ltac:(by right) Hk') as [(ch' & Hc' & Ho') Hf'].
        split; [|done]. cbn. destruct (decide (c = c')) as [->|Hne].
        - exists (add_frames ch [b]). by rewrite lookup_insert_eq.
        - exists ch'. by rewrite lookup_insert_ne. }
      exists s'. split_and!; [exact Hs|done|]. intros c0. rewrite Hch. cbn.
      rewrite Hk. cbn. destruct (Nat.eqb_spec c c0) as [->|Hne].
      * rewrite lookup_insert_eq, Hc, Hb. cbn. unfold add_frames. cbn.
        by rewrite <- app_assoc.
      * by rewrite lookup_insert_ne.
    + rewrite (send_to_other nk raw ts source k c s Hk).
      destruct (IH s) as (s' & Hs & Hsub & Hch).
      { intros k' c' Hin. apply Hd. by right. }
      exists s'. split_and!; [exact Hs|done|]. intros c0. rewrite Hch. cbn. by rewrite Hk.
Qed.

(** A matching subscriber whose receiver is gone makes the call fail. *)
Lemma send_to_closed nk raw ts source k c s :
  key_matches nk k = true →
  match channels s !! c with Some ch => ch_open ch = false | None => True end →
  ∃ e, send_to_subscriber nk raw ts source (k, c) s = (Err e, s).
Proof.
  intros Hk Hc. cbn. rewrite Hk. unfold m_bind, m_lift, channel_send.
  destruct (direct_frame k raw ts source) as [b|e]; [|by exists e].
  destruct (channels s !! c) as [ch|]; [|by eexists]. rewrite Hc. by eexists.
Qed.

Definition closed_in s (c : ChannelId) : Prop :=
  match channels s !! c with Some ch => ch_open ch = false | None => True end.

Lemma channel_send_closed_in c buf s c0 :
  closed_in s c0 → closed_in (channel_send c buf s).2 c0.
Proof.
  unfold closed_in, channel_send. intros Hc.
  destruct (channels s !! c) as [ch|] eqn:E; [|done].
  destruct (ch_open ch) eqn:Ho; [|done]. cbn.
  destruct (decide (c = c0)) as [->|Hne].
  - rewrite E in Hc. congruence.
  - by rewrite lookup_insert_ne.
Qed.

Lemma send_to_subscriber_closed_in nk raw ts source sub s c0 :
  closed_in s c0 → closed_in (send_to_subscriber nk raw ts source sub s).2 c0.
Proof.
  intros Hc. destruct sub as [k c]. cbn. destruct (key_matches nk k); [|done].
  unfold m_bind, m_lift. destruct (direct_frame k raw ts source); [|done].
  by apply channel_send_closed_in.
Qed.

Lemma send_direct_closed nk raw ts source subs s k c :
  (k, c) ∈ subs → key_matches nk k = true → closed_in s c →
  ∃ e s', send_direct_stream subs nk raw ts source s = (Err e, s').
Proof.
  intros Hin Hk. revert s. unfold send_direct_stream.
  induction subs as [|sub subs IH]; intros s Hc; [by apply not_elem_of_nil in Hin|].
  cbn [m_iter]. unfold m_bind.
  destruct (send_to_subscriber nk raw ts source sub s) as [[[]|e] s1] eqn:Hs; [|by eauto].
  apply elem_of_cons in Hin as [<-|Hin].
  - destruct (send_to_closed nk raw ts source k c s Hk Hc) as [e He]. congruence.
  - apply IH; [done|]. pose proof (send_to_subscriber_closed_in nk raw ts source sub s c Hc) as Hc'.
    by rewrite Hs in Hc'.
Qed.

Lemma is_suffix_refl a : is_suffix a a.
Proof. by exists "". Qed.
Lemma is_prefix_refl a : is_prefix a a.
Proof. exists "". by rewrite string_app_nil_r. Qed.

Lemma key_matches_four source protocol a b c d :
  no_nul source → no_nul protocol → no_nul a → no_nul b → no_nul c → no_nul d →
  key_matches (NetworkKey.new source protocol) (a +:+ nul +:+ b +:+ nul +:+ c +:+ nul +:+ d) = true ↔
    ∃ x : string, (x = source ∨ x = "all") ∧
      ((is_suffix x a ∧ is_prefix protocol b) ∨ (is_suffix x b ∧ is_prefix protocol c) ∨
       (is_suffix x c ∧ is_prefix protocol d)).
Proof.
  intros Hs Hp Ha Hb Hc Hd.
  assert (no_nul "all") as Hall by concrete.
  unfold key_matches. rewrite orb_true_iff. cbn [NetworkKey.source_key NetworkKey.all_key NetworkKey.new].
  rewrite !contains_four by done. split.
  - intros [Hm|Hm]; [exists source|exists "all"]; auto.
  - intros (x & [-> | ->] & Hm); auto.
Qed.
End delivery.

(** ** The properties *)
Section properties.
Context `{Client} `{Bincode string}.

(** What a hog reads back from a frame: time stamp, encoded source, event. *)
Definition read_hog_frame (b : bytes) : Z * bytes * bytes :=
  let ts := i64_from_le_bytes (take 8 b) in
  let b := drop 8 b in
  let source_len := Z.to_nat (u32_from_le_bytes (take 4 b)) in
  let b := drop 4 b in
  let source := take source_len b in
  let b := drop source_len b in
  let raw_len := Z.to_nat (u32_from_le_bytes (take 4 b)) in
  (ts, source, take raw_len (drop 4 b)).

Lemma take_drop_prefix {A} (n : nat) (a b : list A) :
  length a = n → take n (a ++ b) = a ∧ drop n (a ++ b) = b.
Proof. intros <-. by rewrite take_app_length, drop_app_length. Qed.

Lemma u32_len_ok b l :
  u32_len b = Ok l → length l = 4%nat ∧ Z.to_nat (u32_from_le_bytes l) = length b.
Proof.
  unfold u32_len. case_decide as Hl; [|done]. intros [= <-].
  rewrite length_u32_to_le_bytes, u32_from_to_le_bytes by lia. lia.
Qed.

(** a network event that is sent to the subscribers reaches every channel
    exactly once per matching subscription, behind the frames already queued,
    and no other channel changes. *)
Theorem direct_stream_delivers nk raw ts source subs s :
  deliverable nk raw ts source subs s →
  ∃ s', send_direct_stream subs nk raw ts source s = (Ok tt, s') ∧
    subscriptions s' = subscriptions s ∧
    ∀ c, channels s' !! c =
      (λ ch, mk_channel (ch_queue ch ++ delivered nk raw ts source subs c) (ch_open ch))
        <$> channels s !! c.
Proof. apply deliver_all. Qed.

(** One matching subscriber whose receiver was dropped makes the whole call
    fail, whatever the other subscribers are and in whatever order the map
    lists them. *)
Theorem closed_subscriber_fails_all nk raw ts source subs s k c ch :
  (k, c) ∈ subs → key_matches nk k = true →
  channels s !! c = Some ch → ch_open ch = false →
  ∃ e s', send_direct_stream subs nk raw ts source s = (Err e, s').
Proof.
  intros Hin Hk Hc Ho. apply (send_direct_closed nk raw ts source subs s k c Hin Hk).
  unfold closed_in. by rewrite Hc.
Qed.

(** which events a hog's subscription receives, exactly: those of a source
    that ends the requested one and a protocol that starts its record type, or
    the same one part earlier in the key.  An equal source or the word [all]
    is a special case, but not the only one. *)
Theorem hog_subscription_matches requester target record source protocol k :
  no_nul (node_str Hog) → no_nul requester → no_nul target → no_nul record →
  no_nul source → no_nul protocol →
  hog_key (Some requester) record target = Ok k →
  key_matches (NetworkKey.new source protocol) k = true ↔
    ∃ x : string, (x = source ∨ x = "all") ∧
      ((is_suffix x (node_str Hog) ∧ is_prefix protocol requester) ∨
       (is_suffix x requester ∧ is_prefix protocol target) ∨
       (is_suffix x target ∧ is_prefix protocol record)).
Proof. intros Hh Hr Ht Hrec Hs Hp [= <-]. by apply key_matches_four. Qed.

(** Every source a hog lists gets a key, and the events of that source and
    record type, or of every source if the list says [all], match it. *)
Theorem hog_subscription_complete msg requester record keys targets target source :
  RequestHogStream.source msg = Some targets → target ∈ targets →
  target = source ∨ target = "all" →
  channel_key msg (Some requester) record = Ok keys →
  ∃ k, k ∈ keys ∧ key_matches (NetworkKey.new source record) k = true.
Proof.
  intros Hm Hin Ht Hk. cbn in Hk. rewrite Hm in Hk. clear Hm.
  assert (∀ x, key_matches (NetworkKey.new source record)
    (x +:+ target +:+ nul +:+ record) = true) as Hmatch.
  { intros x. unfold key_matches. apply orb_true_iff.
    destruct Ht as [-> | ->]; [left|right]; apply str_contains_suffix_of. }
  revert keys Hk. induction targets as [|t targets IH]; intros keys Hk;
    [by apply not_elem_of_nil in Hin|].
  cbn in Hk. destruct (hog_keys (Some requester) record targets) as [keys'|]; [|done].
  injection Hk as <-. apply elem_of_cons in Hin as [<-|Hin].
  - eexists. split; [left|].
    pose proof (Hmatch (node_str Hog +:+ nul +:+ requester +:+ nul)) as Hx.
    by rewrite <- !string_app_assoc in Hx.
  - destruct (IH Hin keys' eq_refl) as (k & Hkin & Hkm). exists k. split; [by right|done].
Qed.

(** The frame a hog receives spells the time stamp, the encoded source and
    the raw event it was built from. *)
Theorem hog_frame_roundtrip req_key raw ts source source_bytes b :
  is_i64 ts → str_contains req_key (node_str Hog) = true →
  bincode_serialize source = Ok source_bytes →
  direct_frame req_key raw ts source = Ok b →
  read_hog_frame b = (ts, source_bytes, raw).
Proof.
  intros Hts Hk Hs. unfold direct_frame.
  destruct (u32_len raw) as [rl|] eqn:Hrl; [|done]. cbn [mbind result_bind].
  rewrite Hk, Hs. cbn [mbind result_bind].
  destruct (u32_len source_bytes) as [sl|] eqn:Hsl; [|done].
  cbn [mbind result_bind]. intros <-%(inj Ok).
  apply u32_len_ok in Hrl as [Hrl Hr], Hsl as [Hsl Hsb].
  rewrite <- !app_assoc. unfold read_hog_frame. cbv zeta.
  destruct (take_drop_prefix 8 (i64_to_le_bytes ts) (sl ++ source_bytes ++ rl ++ raw)
    (length_i64_to_le_bytes ts)) as [-> ->].
  destruct (take_drop_prefix 4 sl (source_bytes ++ rl ++ raw) Hsl) as [-> ->].
  rewrite Hsb.
  destruct (take_drop_prefix (length source_bytes) source_bytes (rl ++ raw) eq_refl) as [-> ->].
  destruct (take_drop_prefix 4 rl raw Hrl) as [-> ->].
  by rewrite Hr, firstn_all, i64_from_to_le_bytes.
Qed.
End properties.

(** ** Witnesses *)
Definition demo_channels : Channels := mk_channels
  (list_to_map [("hog" +:+ nul +:+ "h1" +:+ nul +:+ "src1" +:+ nul +:+ "conn", 0%nat)])
  (list_to_map [(0%nat, mk_channel [] true); (1%nat, mk_channel [] false)]).
Definition demo_key : string := "hog" +:+ nul +:+ "h1" +:+ nul +:+ "src1" +:+ nul +:+ "conn".

Lemma direct_stream_delivers_witness :
  ∃ s', send_direct_stream [(demo_key, 0%nat)] (NetworkKey.new "src1" "conn")
      [Byte.x01] 5 "src1" demo_channels = (Ok tt, s') ∧
    ∃ b, channels s' !! 0%nat = Some (mk_channel [b] true).
Proof.
  destruct (direct_stream_delivers (NetworkKey.new "src1" "conn") [Byte.x01] 5 "src1"
    [(demo_key, 0%nat)] demo_channels) as (s' & Hs & _ & Hch).
  - intros k c [= -> ->]%list_elem_of_singleton _. split; [|concrete].
    exists (mk_channel [] true). split; concrete.
  - exists s'. split; [exact Hs|]. eexists. rewrite Hch. vm_compute. reflexivity.
Defined.

Lemma closed_subscriber_fails_all_witness :
  ∃ e s', send_direct_stream [(demo_key, 0%nat); (demo_key, 1%nat)]
      (NetworkKey.new "src1" "conn") [Byte.x01] 5 "src1" demo_channels = (Err e, s').
Proof.
  apply (closed_subscriber_fails_all (NetworkKey.new "src1" "conn") [Byte.x01] 5 "src1"
    [(demo_key, 0%nat); (demo_key, 1%nat)] demo_channels demo_key 1%nat (mk_channel [] false)).
  - right. left.
  - concrete.
  - concrete.
  - concrete.
Defined.

(** The events of [src1] go to a subscriber of [othersrc1] as well. *)
Lemma hog_subscription_matches_witness :
  key_matches (NetworkKey.new "src1" "conn")
    ("hog" +:+ nul +:+ "h1" +:+ nul +:+ "othersrc1" +:+ nul +:+ "conn") = true.
Proof.
  apply (hog_subscription_matches "h1" "othersrc1" "conn" "src1" "conn"); [concrete..|].
  exists "src1". split; [by left|]. right. right. split.
  - by exists "other".
  - by exists "".
Defined.

Lemma hog_subscription_complete_witness :
  ∃ k, k ∈ [demo_key] ∧ key_matches (NetworkKey.new "src1" "conn") k = true.
Proof.
  apply (hog_subscription_complete (RequestHogStream.mk 0 (Some ["src1"])) "h1" "conn"
    [demo_key] ["src1"] "src1" "src1"); [concrete|left|by left|concrete].
Defined.

Lemma hog_frame_roundtrip_witness :
  read_hog_frame (default [] (result_ok (direct_frame demo_key [Byte.x01; Byte.x02] 77 "src1")))
    = (77, as_bytes "src1", [Byte.x01; Byte.x02]).
Proof.
  apply (hog_frame_roundtrip demo_key [Byte.x01; Byte.x02] 77 "src1"); concrete.
Defined.
