(* ===== verification/Ingest.v ===== *)
(** * The ingest service (src/src/ingest.rs)

    [handle_request] maps the kind of a stream to its column family and to the
    keys its events are forwarded under.  [handle_data] is a pair of concurrent
    tasks, the receiver loop and the interval acknowledger, which share the send
    stream, the acknowledgement counter and the last time stamp: it is modelled
    as a state with one executable step per access to the shared state
    ([recv_step], [hand_step]), and a run is any interleaving of such steps with
    changes other streams make to the database and the subscriptions.
    [check_sources_conn] and the bookkeeping of [handle_connection] follow. *)

From Stdlib Require Import ZArith Lia.
From S2P Require Import Prelude Bytes Externals StorageKey NetAddr GigantoClient Events.
From S2P Require Import Filters Storage StorageSpec Demo Channels.

Definition ACK_ROTATION_CNT : Z := 1024.
Definition CHANNEL_CLOSE_MESSAGE : bytes := as_bytes "channel done".
Definition CHANNEL_CLOSE_TIMESTAMP : Z := -1.
Definition NO_TIMESTAMP : Z := 0.

(** The order in which a hash map lists its entries. *)
Class HashOrder := {
  listed : gmap string ChannelId → list (string * ChannelId);
  listed_perm m : listed m ≡ₚ map_to_list m;
}.
#[export] Program Instance map_order : HashOrder := {| listed := map_to_list |}.
Next Obligation. done. Qed.

(** ** Dispatch *)
Section dispatch.
Context `{RocksDB} `{Client}.

(** The arguments [handle_request] calls [handle_data] with. *)
Record Route := mk_route {
  rt_kind : RawEventKind; rt_network_key : option NetworkKey; rt_cf : string; }.

Definition network_route {T} (kind : RawEventKind) (source protocol : string)
    (st : result (RawEventStore T)) : result (option Route) :=
  st ← st;
  Ok (Some (mk_route kind (Some (NetworkKey.new source protocol)) (store_cf st))).
Definition plain_route {T} (kind : RawEventKind) (st : result (RawEventStore T)) :
    result (option Route) :=
  st ← st;
  Ok (Some (mk_route kind None (store_cf st))).

Definition route_rest (kind : RawEventKind) (source : string) (db : DB) :
    result (option Route) :=
  match kind with
  | RawEventKind.PipeEvent => plain_route kind (pipe_event_store db)
  | RawEventKind.DnsQuery => plain_route kind (dns_query_store db)
  | RawEventKind.FileDelete => plain_route kind (file_delete_store db)
  | RawEventKind.ProcessTamper => plain_route kind (process_tamper_store db)
  | RawEventKind.FileDeleteDetected => plain_route kind (file_delete_detected_store db)
  | RawEventKind.Netflow5 => plain_route kind (netflow5_store db)
  | RawEventKind.Netflow9 => plain_route kind (netflow9_store db)
  | RawEventKind.SecuLog => plain_route kind (secu_log_store db)
  | _ => Ok None
  end.
Definition route_sysmon (kind : RawEventKind) (source : string) (db : DB) :
    result (option Route) :=
  match kind with
  | RawEventKind.ProcessCreate => plain_route kind (process_create_store db)
  | RawEventKind.FileCreateTime => plain_route kind (file_create_time_store db)
  | RawEventKind.NetworkConnect => plain_route kind (network_connect_store db)
  | RawEventKind.ProcessTerminate => plain_route kind (process_terminate_store db)
  | RawEventKind.ImageLoad => plain_route kind (image_load_store db)
  | RawEventKind.FileCreate => plain_route kind (file_create_store db)
  | RawEventKind.RegistryValueSet => plain_route kind (registry_value_set_store db)
  | RawEventKind.RegistryKeyRename => plain_route kind (registry_key_rename_store db)
  | RawEventKind.FileCreateStreamHash => plain_route kind (file_create_stream_hash_store db)
  | _ => route_rest kind source db
  end.
Definition route_reports (kind : RawEventKind) (source : string) (db : DB) :
    result (option Route) :=
  match kind with
  | RawEventKind.Statistics => plain_route kind (statistics_store db)
  | RawEventKind.OpLog => plain_route kind (op_log_store db)
  | RawEventKind.Packet => plain_route kind (packet_store db)
  | RawEventKind.Ftp => network_route kind source "ftp" (ftp_store db)
  | RawEventKind.Mqtt => network_route kind source "mqtt" (mqtt_store db)
  | RawEventKind.Ldap => network_route kind source "ldap" (ldap_store db)
  | RawEventKind.Tls => network_route kind source "tls" (tls_store db)
  | RawEventKind.Smb => network_route kind source "smb" (smb_store db)
  | RawEventKind.Nfs => network_route kind source "nfs" (nfs_store db)
  | _ => route_sysmon kind source db
  end.
Definition route_network (kind : RawEventKind) (source : string) (db : DB) :
    result (option Route) :=
  match kind with
  | RawEventKind.Conn => network_route kind source "conn" (conn_store db)
  | RawEventKind.Dns => network_route kind source "dns" (dns_store db)
  | RawEventKind.Log => network_route kind source "log" (log_store db)
  | RawEventKind.Http => network_route kind source "http" (http_store db)
  | RawEventKind.Rdp => network_route kind source "rdp" (rdp_store db)
  | RawEventKind.PeriodicTimeSeries => plain_route kind (periodic_time_series_store db)
  | RawEventKind.Smtp => network_route kind source "smtp" (smtp_store db)
  | RawEventKind.Ntlm => network_route kind source "ntlm" (ntlm_store db)
  | RawEventKind.Kerberos => network_route kind source "kerberos" (kerberos_store db)
  | RawEventKind.Ssh => network_route kind source "ssh" (ssh_store db)
  | RawEventKind.DceRpc => network_route kind source "dce rpc" (dce_rpc_store db)
  | _ => route_reports kind source db
  end.

(** [header] is what [receive_record_header] fills its buffer with; no route
    means the error is logged and the stream ends normally. *)
Definition handle_request (source : string) (header : result bytes) (db : DB) :
    result (option Route) :=
  buf ← map_err "failed to read record type" header;
  kind ← context "unknown raw event kind" (kind_of_u32 (u32_from_le_bytes buf));
  route_network kind source db.
End dispatch.

(** ** Storage keys of received events *)
Section keys.
Context `{Bincode Log, Bincode PeriodicTimeSeries, Bincode OpLog, Bincode Packet,
  Bincode Statistics, Bincode SecuLog}.

Definition with_source (source : string) (e : SecuLog) : SecuLog :=
  SecuLog.mk source (SecuLog.kind e) (SecuLog.log_type e) (SecuLog.version e)
    (SecuLog.orig_addr e) (SecuLog.orig_port e) (SecuLog.resp_addr e) (SecuLog.resp_port e)
    (SecuLog.proto e) (SecuLog.contents e).

(** The key an event is stored under and the bytes that are stored. *)
Definition storage_key (raw_event_kind : RawEventKind) (source : string) (timestamp : Z)
    (raw_event : bytes) : result (bytes * bytes) :=
  let key_builder := builder |> start_key source in
  key_builder_raw ←
    match raw_event_kind with
    | RawEventKind.Log =>
        log ← bincode_deserialize (T := Log) raw_event;
        Ok (key_builder |> mid_key (Some (as_bytes (Log.kind log))) |> end_key timestamp,
            raw_event)
    | RawEventKind.PeriodicTimeSeries =>
        time_series ← bincode_deserialize (T := PeriodicTimeSeries) raw_event;
        Ok (builder |> start_key (PeriodicTimeSeries.id time_series) |> end_key timestamp,
            raw_event)
    | RawEventKind.OpLog =>
        op_log ← bincode_deserialize (T := OpLog) raw_event;
        let agent_id := OpLog.agent_name op_log +:+ "@" +:+ source in
        Ok (builder |> start_key agent_id |> end_key timestamp, raw_event)
    | RawEventKind.Packet =>
        packet ← bincode_deserialize (T := Packet) raw_event;
        Ok (key_builder |> mid_key (Some (i64_to_be_bytes timestamp))
                        |> end_key (Packet.packet_timestamp packet), raw_event)
    | RawEventKind.Statistics =>
        statistics ← bincode_deserialize (T := Statistics) raw_event;
        Ok (key_builder |> mid_key (Some (u32_to_be_bytes (Statistics.core statistics)))
                        |> end_key timestamp, raw_event)
    | RawEventKind.SecuLog =>
        secu_log ← bincode_deserialize (T := SecuLog) raw_event;
        let secu_log := with_source source secu_log in
        raw_event ← bincode_serialize secu_log;
        Ok (builder |> start_key (SecuLog.kind secu_log) |> end_key timestamp, raw_event)
    | _ => Ok (key_builder |> end_key timestamp, raw_event)
    end;
  Ok (key (key_builder_raw.1 |> build), key_builder_raw.2).
End keys.

(** ** The two tasks of [handle_data] *)
Section handle_data.
Context `{RocksDB} `{Chrono} `{Client} `{HashOrder}.
Context `{Bincode string, Bincode Log, Bincode PeriodicTimeSeries, Bincode OpLog,
  Bincode Packet, Bincode Statistics, Bincode SecuLog}.

(** What [receive_event] returns. *)
Inductive Received :=
| REvent (raw_event : bytes) (timestamp : Z)
| RFinishedEarly
| RError (e : string).

(** Where the receiver loop is: before which access to the shared state. *)
Inductive RecvPc :=
| PIdle
| PCloseAck (timestamp : Z)
| PAppend (raw : bytes) (timestamp : Z) (k value : bytes)
| PDirect (value : bytes) (timestamp : Z)
| PCount (timestamp : Z)
| PTime (timestamp : Z)
| PCheck (timestamp : Z)
| PAck (timestamp : Z)
| PReset
| PNotify
| PRotationFlush
| PShutdown
| PShutdownFlush
| PErrorFlush (e : string)
| PFinalFlush
| PDone (r : result unit).

(** Where the interval task is. *)
Inductive HandPc :=
| HWait
| HSend (last_timestamp : Z)
| HReset
| HEnd.

(** The last two fields record history: the events appended so far, and how
    many of them a flush of the write-ahead log has covered. *)
Record Stream := mk_stream {
  s_input : list Received;
  s_db : DB;
  s_channels : Channels;
  s_acks : list Z;
  s_cnt : Z;
  s_time : Z;
  s_notified : bool;
  s_recv : RecvPc;
  s_hand : HandPc;
  s_stored : list (bytes * Z);
  s_durable : nat;
}.

Definition start_stream (input : list Received) (db : DB) (ch : Channels) : Stream :=
  mk_stream input db ch [] 0 NO_TIMESTAMP false PIdle HWait [] 0.

Definition set_recv (pc : RecvPc) (s : Stream) : Stream :=
  mk_stream (s_input s) (s_db s) (s_channels s) (s_acks s) (s_cnt s) (s_time s)
    (s_notified s) pc (s_hand s) (s_stored s) (s_durable s).
Definition set_hand (pc : HandPc) (s : Stream) : Stream :=
  mk_stream (s_input s) (s_db s) (s_channels s) (s_acks s) (s_cnt s) (s_time s)
    (s_notified s) (s_recv s) pc (s_stored s) (s_durable s).
Definition set_input (l : list Received) (s : Stream) : Stream :=
  mk_stream l (s_db s) (s_channels s) (s_acks s) (s_cnt s) (s_time s)
    (s_notified s) (s_recv s) (s_hand s) (s_stored s) (s_durable s).
Definition set_db (db : DB) (s : Stream) : Stream :=
  mk_stream (s_input s) db (s_channels s) (s_acks s) (s_cnt s) (s_time s)
    (s_notified s) (s_recv s) (s_hand s) (s_stored s) (s_durable s).
Definition set_channels (ch : Channels) (s : Stream) : Stream :=
  mk_stream (s_input s) (s_db s) ch (s_acks s) (s_cnt s) (s_time s)
    (s_notified s) (s_recv s) (s_hand s) (s_stored s) (s_durable s).
Definition push_ack (a : Z) (s : Stream) : Stream :=
  mk_stream (s_input s) (s_db s) (s_channels s) (s_acks s ++ [a]) (s_cnt s) (s_time s)
    (s_notified s) (s_recv s) (s_hand s) (s_stored s) (s_durable s).
Definition set_cnt (n : Z) (s : Stream) : Stream :=
  mk_stream (s_input s) (s_db s) (s_channels s) (s_acks s) n (s_time s)
    (s_notified s) (s_recv s) (s_hand s) (s_stored s) (s_durable s).
Definition set_time (t : Z) (s : Stream) : Stream :=
  mk_stream (s_input s) (s_db s) (s_channels s) (s_acks s) (s_cnt s) t
    (s_notified s) (s_recv s) (s_hand s) (s_stored s) (s_durable s).
Definition set_notified (b : bool) (s : Stream) : Stream :=
  mk_stream (s_input s) (s_db s) (s_channels s) (s_acks s) (s_cnt s) (s_time s)
    b (s_recv s) (s_hand s) (s_stored s) (s_durable s).
Definition push_stored (e : bytes * Z) (s : Stream) : Stream :=
  mk_stream (s_input s) (s_db s) (s_channels s) (s_acks s) (s_cnt s) (s_time s)
    (s_notified s) (s_recv s) (s_hand s) (s_stored s ++ [e]) (s_durable s).
Definition set_durable (n : nat) (s : Stream) : Stream :=
  mk_stream (s_input s) (s_db s) (s_channels s) (s_acks s) (s_cnt s) (s_time s)
    (s_notified s) (s_recv s) (s_hand s) (s_stored s) n.

Variables (raw_event_kind : RawEventKind) (network_key : option NetworkKey).
Variables (source : string) (cf : string).

Definition is_close (raw_event : bytes) (timestamp : Z) : bool :=
  (timestamp =? CHANNEL_CLOSE_TIMESTAMP) && bool_decide (raw_event = CHANNEL_CLOSE_MESSAGE).

(** [store.flush()?], followed by [ok] or by the end of the task. *)
Definition flush_then (ok : Stream → Stream) (s : Stream) : Stream :=
  let '(r, db') := flush_wal true (s_db s) in
  match r with
  | Ok _ => ok (set_durable (length (s_stored s)) (set_db db' s))
  | Err e => set_recv (PDone (Err e)) (set_db db' s)
  end.

(** [send_ack_timestamp(..).await?]; [send_ok] tells whether the peer is there. *)
Definition ack_then (send_ok : bool) (timestamp : Z) (ok : Stream → Stream) (s : Stream) : Stream :=
  if send_ok then ok (push_ack timestamp s)
  else set_recv (PDone (Err "failed to send acknowledgement")) s.

Definition recv_event (ev : Received) (s : Stream) : Stream :=
  match ev with
  | REvent raw_event timestamp =>
      if is_close raw_event timestamp then set_recv (PCloseAck timestamp) s
      else
        match storage_key raw_event_kind source timestamp raw_event with
        | Ok (k, value) => set_recv (PAppend raw_event timestamp k value) s
        | Err e => set_recv (PDone (Err e)) s
        end
  | RFinishedEarly => set_recv PFinalFlush (set_hand HEnd s)
  | RError e => set_recv (PErrorFlush e) s
  end.

(** One step of the receiver; [None] when it waits or has ended.  [shutdown] is
    the value of the shutdown signal. *)
Definition recv_step (send_ok shutdown : bool) (s : Stream) : option Stream :=
  match s_recv s with
  | PIdle =>
      match s_input s with
      | [] => None
      | ev :: rest => Some (recv_event ev (set_input rest s))
      end
  | PCloseAck timestamp => Some (ack_then send_ok timestamp (set_recv PIdle) s)
  | PAppend raw timestamp k value =>
      let '(r, db') := append (T := unit) (mk_store cf) k value (s_db s) in
      Some match r with
           | Ok _ => set_recv (PDirect value timestamp)
                       (push_stored (raw, timestamp) (set_db db' s))
           | Err e => set_recv (PDone (Err e)) (set_db db' s)
           end
  | PDirect value timestamp =>
      match network_key with
      | None => Some (set_recv (PCount timestamp) s)
      | Some nk =>
          let '(r, ch') := send_direct_stream (listed (subscriptions (s_channels s)))
                             nk value timestamp source (s_channels s) in
          Some match r with
               | Ok _ => set_recv (PCount timestamp) (set_channels ch' s)
               | Err e => set_recv (PDone (Err e)) (set_channels ch' s)
               end
      end
  | PCount timestamp => Some (set_recv (PTime timestamp) (set_cnt ((s_cnt s + 1) mod 2 ^ 16) s))
  | PTime timestamp => Some (set_recv (PCheck timestamp) (set_time timestamp s))
  | PCheck timestamp =>
      Some (set_recv (if ACK_ROTATION_CNT <=? s_cnt s then PAck timestamp else PShutdown) s)
  | PAck timestamp => Some (ack_then send_ok timestamp (set_recv PReset) s)
  | PReset => Some (set_recv PNotify (set_cnt 0 s))
  | PNotify => Some (set_recv PRotationFlush (set_notified true s))
  | PRotationFlush => Some (flush_then (set_recv PShutdown) s)
  | PShutdown => Some (set_recv (if shutdown then PShutdownFlush else PIdle) s)
  | PShutdownFlush => Some (flush_then (λ s, set_recv PFinalFlush (set_hand HEnd s)) s)
  | PErrorFlush e => Some (flush_then (λ s, set_recv (PDone (Err e)) (set_hand HEnd s)) s)
  | PFinalFlush => Some (flush_then (set_recv (PDone (Ok tt))) s)
  | PDone _ => None
  end.

(** One step of the interval task: [tick] says whether the timer fires. *)
Definition hand_step (tick send_ok : bool) (s : Stream) : option Stream :=
  match s_hand s with
  | HWait =>
      if tick then
        Some (if s_time s =? NO_TIMESTAMP then s else set_hand (HSend (s_time s)) s)
      else if s_notified s then Some (set_notified false s)
      else None
  | HSend last_timestamp =>
      Some (if send_ok then set_hand HReset (push_ack last_timestamp s) else set_hand HEnd s)
  | HReset => Some (set_hand HWait (set_cnt 0 s))
  | HEnd => None
  end.

(** Interleavings, with what the rest of the server does to the shared
    database and subscriptions in between. *)
Inductive Action :=
| ARecv (send_ok shutdown : bool)
| AHand (tick send_ok : bool)
| AOther (db : DB) (ch : Channels).

Definition exec (a : Action) (s : Stream) : option Stream :=
  match a with
  | ARecv send_ok shutdown => recv_step send_ok shutdown s
  | AHand tick send_ok => hand_step tick send_ok s
  | AOther db ch => Some (set_channels ch (set_db db s))
  end.

Fixpoint run (schedule : list Action) (s : Stream) : option Stream :=
  match schedule with
  | [] => Some s
  | a :: schedule => s' ← exec a s; run schedule s'
  end.
End handle_data.
