(* ===== verification/IngestSpec.v ===== *)
(** * What the ingest service guarantees

    Safety of every interleaving of the receiver, the interval task and the
    rest of the server (acknowledged events are stored, in the order they came;
    the counter stays within its bound), the complete behaviour of a receiver
    that is not disturbed, and what can happen when it is. *)

From Stdlib Require Import ZArith Lia.
From S2P Require Import Prelude Bytes Externals StorageKey NetAddr GigantoClient Events.
From S2P Require Import Filters Storage StorageSpec Demo Channels Ingest.

Section safety.
Context `{RocksDB} `{Chrono} `{Client} `{HashOrder}.
Context `{Bincode string, Bincode Log, Bincode PeriodicTimeSeries, Bincode OpLog,
  Bincode Packet, Bincode Statistics, Bincode SecuLog}.
Variables (raw_event_kind : RawEventKind) (network_key : option NetworkKey).
Variables (source : string) (cf : string).
Implicit Types s : Stream.

Notation exec := (exec raw_event_kind network_key source cf).
Notation run := (run raw_event_kind network_key source cf).

(** The events of the input, without the channel-close messages. *)
Definition data_event (ev : Received) : option (bytes * Z) :=
  match ev with
  | REvent raw ts => if is_close raw ts then None else Some (raw, ts)
  | _ => None
  end.
Definition data (l : list Received) : list (bytes * Z) := omap data_event l.

Definition is_stored s (ts : Z) : Prop := ∃ raw, (raw, ts) ∈ s_stored s.

(** An event read from the stream but not appended yet. *)
Definition in_flight (pc : RecvPc) : list (bytes * Z) :=
  match pc with PAppend raw ts _ _ => [(raw, ts)] | _ => [] end.

Definition order_inv (input0 : list Received) s : Prop :=
  match s_recv s with
  | PDone _ => s_stored s `prefix_of` data input0
  | pc => data input0 = s_stored s ++ in_flight pc ++ data (s_input s)
  end.

Definition cnt_inv s : Prop :=
  0 ≤ s_cnt s ∧
  match s_recv s with
  | PTime _ | PCheck _ | PAck _ | PReset | PDone _ => s_cnt s ≤ ACK_ROTATION_CNT
  | _ => s_cnt s < ACK_ROTATION_CNT
  end.

(** The time stamp the receiver carries once the event is appended. *)
Definition carried (pc : RecvPc) : option Z :=
  match pc with
  | PDirect _ ts | PCount ts | PTime ts | PCheck ts | PAck ts => Some ts
  | _ => None
  end.

Definition ack_inv s : Prop :=
  (∀ a, a ∈ s_acks s → a = CHANNEL_CLOSE_TIMESTAMP ∨ is_stored s a) ∧
  (∀ ts, carried (s_recv s) = Some ts → is_stored s ts) ∧
  (s_time s = NO_TIMESTAMP ∨ is_stored s (s_time s)) ∧
  (∀ ts, s_hand s = HSend ts → is_stored s ts) ∧
  (∀ ts, s_recv s = PCloseAck ts → ts = CHANNEL_CLOSE_TIMESTAMP).

Definition durable_inv s : Prop := (s_durable s ≤ length (s_stored s))%nat.

(** All the cases of one step, with the program counters substituted. *)
Ltac step_cases H :=
  match type of H with Ingest.exec _ _ _ _ ?a ?s = Some _ => destruct a as [??|??|??] end;
  cbn [Ingest.exec] in H;
  unfold recv_step, hand_step, recv_event, ack_then, flush_then in H;
  repeat match type of H with
  | context [match ?x with _ => _ end] => destruct x eqn:?; try discriminate H
  end;
  injection H as <-; cbn in *;
  repeat match goal with
  | E : s_recv ?s = _, Hx : context [s_recv ?s] |- _ => progress rewrite E in Hx
  | E : s_hand ?s = _, Hx : context [s_hand ?s] |- _ => progress rewrite E in Hx
  end.

Lemma run_inv (Inv : Stream → Prop) schedule s s' :
  (∀ a s s', exec a s = Some s' → Inv s → Inv s') →
  run schedule s = Some s' → Inv s → Inv s'.
Proof.
  intros Hstep. revert s. induction schedule as [|a schedule IH]; intros s Hr Hs.
  - by injection Hr as <-.
  - cbn in Hr. destruct (exec a s) as [s1|] eqn:E; [|done]. cbn in Hr. eauto.
Qed.

Lemma cnt_inv_step a s s' : exec a s = Some s' → cnt_inv s → cnt_inv s'.
Proof.
  intros He Hinv. unfold cnt_inv, ACK_ROTATION_CNT in Hinv. step_cases He.
  all: unfold cnt_inv, ACK_ROTATION_CNT in *; cbn.
  all: repeat match goal with H : (_ <=? _) = _ |- _ => revert H; case Z.leb_spec; intros end.
  all: try (rewrite Z.mod_small by lia).
  all: first [lia | done | destruct (s_recv s); lia].
Qed.

Lemma data_cons ev l :
  data (ev :: l) = match data_event ev with Some e => e :: data l | None => data l end.
Proof. unfold data. cbn. by destruct (data_event ev). Qed.

Lemma order_inv_step input0 a s s' :
  exec a s = Some s' → order_inv input0 s → order_inv input0 s'.
Proof.
  intros He Hinv. unfold order_inv in Hinv. step_cases He.
  all: unfold order_inv; cbn; try assumption.
  all: repeat match goal with
    | E : s_input _ = _ |- _ => rewrite E in *
    | E : is_close _ _ = _ |- _ => rewrite ?data_cons in Hinv; cbn in Hinv; rewrite E in Hinv
    end.
  all: try assumption.
  all: try (by rewrite Hinv; apply prefix_app_r).
  all: try (by rewrite <- app_assoc).
Qed.
Lemma is_close_timestamp raw ts : is_close raw ts = true → ts = CHANNEL_CLOSE_TIMESTAMP.
Proof. unfold is_close. intros [Ht _]%andb_true_iff. by apply Z.eqb_eq. Qed.

(** Steps only extend the list of stored events. *)
Lemma stored_step a s s' ts : exec a s = Some s' → is_stored s ts → is_stored s' ts.
Proof.
  intros He [raw Hin]. exists raw. step_cases He; try assumption.
  apply elem_of_app. by left.
Qed.

Lemma elem_of_snoc_l {A} (x y : A) l : x ∈ l → x ∈ l ++ [y].
Proof. intros. apply elem_of_app. by left. Qed.
Lemma elem_of_snoc_r {A} (x : A) l : x ∈ l ++ [x].
Proof. apply elem_of_app. right. left. Qed.

Lemma ack_inv_step a s s' : exec a s = Some s' → ack_inv s → ack_inv s'.
Proof.
  intros He (Hacks & Hcar & Htime & Hhand & Hclose).
  step_cases He; unfold ack_inv, is_stored in *; cbn;
    repeat match goal with E : s_hand _ = _ |- _ => rewrite E end;
    repeat match goal with E : s_recv _ = _ |- _ => rewrite E end.
  all: split_and!; try assumption; try (intros ? [= <-]); try discriminate;
    try (by eapply is_close_timestamp);
    try (intros x Hx; apply elem_of_app in Hx as [Hx| ->%list_elem_of_singleton]);
    try (intros x Hx; destruct (Hacks x Hx) as [|[? ?]]);
    eauto using elem_of_snoc_l, elem_of_snoc_r.
  - destruct Htime as [|[? ?]]; eauto using elem_of_snoc_l.
  - intros x Hx. destruct (Hhand x Hx) as [? ?]. eauto using elem_of_snoc_l.
  - destruct Htime as [Ht|]; [|done].
    match goal with E : (_ =? _) = false |- _ => apply Z.eqb_neq in E; done end.
Qed.

Lemma durable_inv_step a s s' : exec a s = Some s' → durable_inv s → durable_inv s'.
Proof.
  intros He Hinv. unfold durable_inv in *. step_cases He; rewrite ?length_app; cbn; lia.
Qed.

(** The invariants hold in every state the stream can be in. *)
Definition ingest_inv (input0 : list Received) s : Prop :=
  order_inv input0 s ∧ cnt_inv s ∧ ack_inv s ∧ durable_inv s.

Lemma ingest_inv_step input a s s' : exec a s = Some s' → ingest_inv input s → ingest_inv input s'.
Proof.
  intros He (?&?&?&?).
  split_and!; eauto using order_inv_step, cnt_inv_step, ack_inv_step, durable_inv_step.
Qed.

Lemma ingest_inv_start input db ch : ingest_inv input (start_stream input db ch).
Proof.
  split_and!; unfold order_inv, cnt_inv, ack_inv, durable_inv, ACK_ROTATION_CNT; cbn; try done; try lia.
  split_and!; try done; try (by left). intros x Hx. by apply not_elem_of_nil in Hx.
Qed.

Lemma ingest_inv_run input db ch schedule s :
  run schedule (start_stream input db ch) = Some s → ingest_inv input s.
Proof.
  intros Hr. eapply (run_inv (ingest_inv input)); [|exact Hr|apply ingest_inv_start].
  intros a s1 s2. apply ingest_inv_step.
Qed.

Lemma order_inv_prefix input s : order_inv input s → s_stored s `prefix_of` data input.
Proof.
  unfold order_inv. intros Ho. destruct (s_recv s); try done; rewrite Ho; by apply prefix_app_r.
Qed.
End safety.

(** ** A receiver that is not disturbed *)
Section complete.
Context `{RocksDBSpec} `{Chrono} `{Client} `{HashOrder}.
Context `{Bincode string, Bincode Log, Bincode PeriodicTimeSeries, Bincode OpLog,
  Bincode Packet, Bincode Statistics, Bincode SecuLog}.
Variables (raw_event_kind : RawEventKind) (network_key : option NetworkKey).
Variables (source : string) (cf : string).
Implicit Types s : Stream.

Notation run := (run raw_event_kind network_key source cf).
Notation quiet n := (replicate n (ARecv true false)).

Lemma run_app l1 l2 s : run (l1 ++ l2) s = run l1 s ≫= run l2.
Proof.
  revert s. induction l1 as [|a l1 IH]; intros s; [done|]. cbn.
  destruct (exec _ _ _ _ a s) as [s1|]; [|done]. apply IH.
Qed.

Lemma run_quiet_S n s s1 :
  recv_step raw_event_kind network_key source cf true false s = Some s1 →
  run (quiet (S n)) s = run (quiet n) s1.
Proof. intros Hs. cbn. by rewrite Hs. Qed.

(** What is sent to the subscribers for one event. *)
Definition direct (value : bytes) (ts : Z) (ch : Channels) : result unit * Channels :=
  match network_key with
  | None => (Ok tt, ch)
  | Some nk => send_direct_stream (listed (subscriptions ch)) nk value ts source ch
  end.

Notation View := (string → gmap bytes bytes).
Definition put_view (k v : bytes) (m : View) : View :=
  λ c, if decide (cf = c) then <[k := v]> (m c) else m c.

(** The receiver as a loop over the events, without its internal steps: the
    stored data, the subscribers' channels, the acknowledgements sent and the
    events since the last one. *)
Fixpoint ingest_events (evs : list (bytes * Z)) (m : View) (ch : Channels) (acks : list Z)
    (cnt : Z) : option (View * Channels * list Z * Z) :=
  match evs with
  | [] => Some (m, ch, acks, cnt)
  | (raw, ts) :: evs =>
      match storage_key raw_event_kind source ts raw with
      | Err _ => None
      | Ok (k, v) =>
          match direct v ts ch with
          | (Err _, _) => None
          | (Ok _, ch') =>
              if ACK_ROTATION_CNT <=? cnt + 1
              then ingest_events evs (put_view k v m) ch' (acks ++ [ts]) 0
              else ingest_events evs (put_view k v m) ch' acks (cnt + 1)
          end
      end
  end.

(** The receiver is between two events, with the given history. *)
Record at_rest s (input : list Received) (m : View) (ch : Channels)
    (acks : list Z) (cnt : Z) (stored : list (bytes * Z)) : Prop := {
  rest_recv : s_recv s = PIdle;
  rest_input : s_input s = input;
  rest_healthy : healthy (s_db s);
  rest_view : ∀ c, cf_view (s_db s) c = m c;
  rest_channels : s_channels s = ch;
  rest_acks : s_acks s = acks;
  rest_cnt : s_cnt s = cnt;
  rest_stored : s_stored s = stored;
}.

Hypothesis known : cf ∈ RAW_DATA_COLUMN_FAMILY_NAMES.

Lemma known_all : cf ∈ RAW_DATA_COLUMN_FAMILY_NAMES ++ META_DATA_COLUMN_FAMILY_NAMES.
Proof. apply elem_of_app. by left. Qed.

Lemma flush_then_healthy ok s :
  healthy (s_db s) → ∃ db', healthy db' ∧ (∀ c, cf_view db' c = cf_view (s_db s) c) ∧
    flush_then ok s = ok (set_durable (length (s_stored s)) (set_db db' s)).
Proof.
  intros Hh. destruct (flush_healthy true _ Hh) as (db' & Hf & Hh' & Hv).
  exists db'. split_and!; [done..|]. unfold flush_then. by rewrite Hf.
Qed.

Ltac quiet_step := erewrite run_quiet_S;
  [|unfold recv_step; cbn [s_recv set_recv set_cnt set_time push_ack set_notified set_db
      set_channels push_stored set_durable set_input set_hand]; reflexivity].

Lemma recv_one s raw ts k v input m ch ch' acks cnt stored :
  at_rest s (REvent raw ts :: input) m ch acks cnt stored →
  is_close raw ts = false → storage_key raw_event_kind source ts raw = Ok (k, v) →
  direct v ts ch = (Ok tt, ch') → 0 ≤ cnt < ACK_ROTATION_CNT →
  ∃ n s', run (quiet n) s = Some s' ∧
    if ACK_ROTATION_CNT <=? cnt + 1
    then at_rest s' input (put_view k v m) ch' (acks ++ [ts]) 0 (stored ++ [(raw, ts)])
    else at_rest s' input (put_view k v m) ch' acks (cnt + 1) (stored ++ [(raw, ts)]).
Proof.
  intros [Hpc Hin Hh Hm Hch Hacks Hcnt Hsto] Hcl Hkey Hdir Hb.
  destruct (write_healthy (WPut k v) cf (s_db s) Hh known_all I) as (db1 & Hw & Hh1 & Hv1).
  destruct s as [i0 db0 ch0 acks0 cnt0 time0 nt0 pc0 hd0 st0 du0]. cbn in *.
  subst pc0 i0 ch acks cnt stored.
  assert (∀ c, cf_view db1 c = put_view k v m c) as Hput.
  { intros c. unfold put_view. rewrite Hv1, <- Hm. done. }
  set (s6 := mk_stream input db1 ch' acks0 (cnt0 + 1) ts nt0 PShutdown hd0 (st0 ++ [(raw, ts)]) du0).
  assert (∀ n, run (quiet (6 + n))
    (mk_stream (REvent raw ts :: input) db0 ch0 acks0 cnt0 time0 nt0 PIdle hd0 st0 du0) =
    run (quiet n) (set_recv (if ACK_ROTATION_CNT <=? cnt0 + 1 then PAck ts else PShutdown) s6))
    as Hpre.
  { intros n. cbn [Nat.add]. 
    erewrite run_quiet_S; [|unfold recv_step, recv_event; cbn; rewrite Hcl, Hkey; reflexivity].
    erewrite run_quiet_S; [|unfold recv_step, append; cbn; rewrite Hw; reflexivity].
    erewrite run_quiet_S with (s1 := mk_stream input db1 ch' acks0 cnt0 time0 nt0 (PCount ts) hd0
      (st0 ++ [(raw, ts)]) du0);
      [|unfold recv_step, direct in *; cbn; destruct network_key;
        [by rewrite Hdir|by injection Hdir as <-]].
    quiet_step. quiet_step. quiet_step. unfold set_cnt, set_time; cbn.
    by rewrite Z.mod_small by (unfold ACK_ROTATION_CNT in Hb; lia). }
  destruct (ACK_ROTATION_CNT <=? cnt0 + 1).
  - destruct (flush_healthy true db1 Hh1) as (db2 & Hf & Hh2 & Hv2).
    eexists (6 + 5)%nat, _. split.
    + rewrite Hpre. unfold s6. cbn. unfold flush_then. cbn. rewrite Hf. reflexivity.
    + split; cbn; try done. intros c. by rewrite Hv2.
  - eexists (6 + 1)%nat, _. split; [rewrite Hpre; reflexivity|]. by split.
Qed.

Definition events (evs : list (bytes * Z)) : list Received := (λ e, REvent e.1 e.2) <$> evs.

Lemma recv_all evs s input m ch acks cnt stored m' ch' acks' cnt' :
  at_rest s (events evs ++ input) m ch acks cnt stored →
  Forall (λ e, is_close e.1 e.2 = false) evs → 0 ≤ cnt < ACK_ROTATION_CNT →
  ingest_events evs m ch acks cnt = Some (m', ch', acks', cnt') →
  ∃ n s', run (quiet n) s = Some s' ∧
    at_rest s' input m' ch' acks' cnt' (stored ++ evs).
Proof.
  revert s m ch acks cnt stored.
  induction evs as [|[raw ts] evs IH]; intros s m ch acks cnt stored Hs Hcl Hcnt Hspec.
  - injection Hspec as <- <- <- <-. exists 0%nat, s. by rewrite app_nil_r.
  - apply Forall_cons in Hcl as [Hc Hcl]. cbn in Hspec, Hc.
    destruct (storage_key _ _ _ _) as [[k v]|] eqn:Hkey; [|done].
    destruct (direct v ts ch) as [[[]|] ch1] eqn:Hdir; [|done].
    destruct (recv_one s raw ts k v _ m ch ch1 acks cnt stored Hs Hc Hkey Hdir Hcnt)
      as (n1 & s1 & Hr1 & Hs1).
    destruct (Z.leb_spec ACK_ROTATION_CNT (cnt + 1)) as [Hle|Hgt].
    + destruct (IH s1 _ _ _ _ _ Hs1 Hcl ltac:(done) Hspec) as (n2 & s2 & Hr2 & Hs2).
      exists (n1 + n2)%nat, s2. rewrite replicate_add, run_app, Hr1.
      split; [exact Hr2|]. by rewrite <- app_assoc in Hs2.
    + destruct (IH s1 _ _ _ _ _ Hs1 Hcl ltac:(lia) Hspec) as (n2 & s2 & Hr2 & Hs2).
      exists (n1 + n2)%nat, s2. rewrite replicate_add, run_app, Hr1.
      split; [exact Hr2|]. by rewrite <- app_assoc in Hs2.
Qed.

Lemma recv_finish s m ch acks cnt stored :
  at_rest s [RFinishedEarly] m ch acks cnt stored →
  ∃ s', run (quiet 2) s = Some s' ∧ s_recv s' = PDone (Ok tt) ∧ s_hand s' = HEnd ∧
    (∀ c, cf_view (s_db s') c = m c) ∧ s_channels s' = ch ∧ s_acks s' = acks ∧
    s_stored s' = stored ∧ s_durable s' = length stored.
Proof.
  intros [Hpc Hin Hh Hm Hch Hacks Hcnt Hsto].
  destruct (flush_healthy true (s_db s) Hh) as (db2 & Hf & Hh2 & Hv2).
  destruct s as [i0 db0 ch0 acks0 cnt0 time0 nt0 pc0 hd0 st0 du0]. cbn in *.
  subst pc0 i0 ch acks cnt stored. eexists. split.
  - cbn. unfold flush_then. cbn. rewrite Hf. reflexivity.
  - cbn. split_and!; try done. intros c. by rewrite Hv2.
Qed.

(** Between two acknowledgements there are never [ACK_ROTATION_CNT] events. *)
Lemma ingest_events_count evs m ch acks cnt m' ch' acks' cnt' :
  0 ≤ cnt < ACK_ROTATION_CNT →
  ingest_events evs m ch acks cnt = Some (m', ch', acks', cnt') →
  0 ≤ cnt' < ACK_ROTATION_CNT ∧
  cnt + Z.of_nat (length evs) =
    cnt' + ACK_ROTATION_CNT * (Z.of_nat (length acks') - Z.of_nat (length acks)).
Proof.
  revert m ch acks cnt. induction evs as [|[raw ts] evs IH]; intros m ch acks cnt Hc Hs.
  - injection Hs as <- <- <- <-. split; [done|]. cbn. lia.
  - cbn in Hs. destruct (storage_key _ _ _ _) as [[k v]|]; [|done].
    destruct (direct v ts ch) as [[[]|] ch1]; [|done]. unfold ACK_ROTATION_CNT in *.
    destruct (Z.leb_spec 1024 (cnt + 1)) as [Hle|Hgt].
    + destruct (IH _ _ _ 0 ltac:(done) Hs) as [Hc' E]. split; [done|].
      rewrite length_app in E. cbn [length] in *. lia.
    + destruct (IH _ _ _ (cnt + 1) ltac:(lia) Hs) as [Hc' E]. split; [done|].
      cbn [length] in *. lia.
Qed.
End complete.

(** ** What the stored data look like *)
Section stored_data.
Context `{Chrono} `{Client} `{HashOrder}.
Context `{Bincode string, Bincode Log, Bincode PeriodicTimeSeries, Bincode OpLog,
  Bincode Packet, Bincode Statistics, Bincode SecuLog}.

(** The kinds whose key is the source and the time stamp. *)
Definition plain_kind (kind : RawEventKind) : bool :=
  match kind with
  | RawEventKind.Log | RawEventKind.PeriodicTimeSeries | RawEventKind.OpLog
  | RawEventKind.Packet | RawEventKind.Statistics | RawEventKind.SecuLog => false
  | _ => true
  end.

Lemma storage_key_plain kind source ts raw :
  plain_kind kind = true → storage_key kind source ts raw = Ok (event_key source None ts, raw).
Proof. by destruct kind. Qed.

Lemma ingest_events_lookup kind nk source cf evs m ch acks cnt m' ch' acks' cnt' ts :
  plain_kind kind = true → no_nul source → is_i64 ts → Forall (λ e, is_i64 e.2) evs →
  ingest_events kind nk source cf evs m ch acks cnt = Some (m', ch', acks', cnt') →
  m' cf !! event_key source None ts =
    match last (filter (λ e, e.2 = ts) evs) with
    | Some e => Some e.1
    | None => m cf !! event_key source None ts
    end.
Proof.
  intros Hk Hns Hts. revert m ch acks cnt.
  induction evs as [|[raw t] evs IH]; intros m ch acks cnt Hi Hs.
  - by injection Hs as <- _ _ _.
  - apply Forall_cons in Hi as [Ht Hi]. cbn in Hs, Ht. rewrite storage_key_plain in Hs by done.
    destruct (direct nk source raw t ch) as [[[]|] ch1]; [|done].
    assert (∃ acks1 cnt1, ingest_events kind nk source cf evs
      (put_view cf (event_key source None t) raw m) ch1 acks1 cnt1 = Some (m', ch', acks', cnt'))
      as (acks1 & cnt1 & Hs1) by (destruct (_ <=? _); eauto).
    rewrite (IH _ _ _ _ Hi Hs1). rewrite filter_cons. cbn [snd].
    destruct (decide (t = ts)) as [->|Hne].
    + rewrite last_cons. destruct (last _) as [e|]; [done|].
      unfold put_view. rewrite decide_True by done. by rewrite lookup_insert_eq.
    + destruct (last _) as [e|]; [done|].
      unfold put_view. rewrite decide_True by done. rewrite lookup_insert_ne; [done|].
      intros E. apply event_key_parts_inj in E as (_ & _ & ?); done.
Qed.
End stored_data.

(** ** The dispatch table *)
(** The kinds whose events are forwarded to subscribers. *)
Definition forwarded_kind (kind : RawEventKind) : bool :=
  match kind with
  | RawEventKind.Conn | RawEventKind.Dns | RawEventKind.Log | RawEventKind.Http
  | RawEventKind.Rdp | RawEventKind.Smtp | RawEventKind.Ntlm | RawEventKind.Kerberos
  | RawEventKind.Ssh | RawEventKind.DceRpc | RawEventKind.Ftp | RawEventKind.Mqtt
  | RawEventKind.Ldap | RawEventKind.Tls | RawEventKind.Smb | RawEventKind.Nfs => true
  | _ => false
  end.

Definition named_kinds : list RawEventKind := [
  RawEventKind.Conn; RawEventKind.Dns; RawEventKind.Log; RawEventKind.Http; RawEventKind.Rdp;
  RawEventKind.PeriodicTimeSeries; RawEventKind.Smtp; RawEventKind.Ntlm; RawEventKind.Kerberos;
  RawEventKind.Ssh; RawEventKind.DceRpc; RawEventKind.Statistics; RawEventKind.OpLog;
  RawEventKind.Packet; RawEventKind.Ftp; RawEventKind.Mqtt; RawEventKind.Ldap; RawEventKind.Tls;
  RawEventKind.Smb; RawEventKind.Nfs; RawEventKind.ProcessCreate; RawEventKind.FileCreateTime;
  RawEventKind.NetworkConnect; RawEventKind.ProcessTerminate; RawEventKind.ImageLoad;
  RawEventKind.FileCreate; RawEventKind.RegistryValueSet; RawEventKind.RegistryKeyRename;
  RawEventKind.FileCreateStreamHash; RawEventKind.PipeEvent; RawEventKind.DnsQuery;
  RawEventKind.FileDelete; RawEventKind.ProcessTamper; RawEventKind.FileDeleteDetected;
  RawEventKind.Netflow5; RawEventKind.Netflow9; RawEventKind.SecuLog].

(** The column family of a kind, read off the table on a database that has all
    of them. *)
Definition kind_cf (kind : RawEventKind) : string :=
  match route_network kind "" demo_db with Ok (Some r) => rt_cf r | _ => "" end.
Definition cf_kind (cf : string) : option RawEventKind :=
  head (filter (λ k, kind_cf k = cf) named_kinds).

Lemma kind_cf_inj k1 k2 :
  k1 ∈ named_kinds → k2 ∈ named_kinds → kind_cf k1 = kind_cf k2 → k1 = k2.
Proof.
  assert (Forall (λ k, cf_kind (kind_cf k) = Some k) named_kinds) as Hinv
    by (refine (bool_decide_unpack _ _); vm_compute; exact I).
  rewrite Forall_forall in Hinv. intros H1%Hinv H2%Hinv E. congruence.
Qed.

Lemma kind_cf_known k :
  k ∈ named_kinds → kind_cf k ∈ RAW_DATA_COLUMN_FAMILY_NAMES.
Proof.
  revert k. apply Forall_forall. refine (bool_decide_unpack _ _). vm_compute. exact I.
Qed.

Lemma route_network_spec `{RocksDB} kind source db r :
  route_network kind source db = Ok (Some r) →
  kind ∈ named_kinds ∧ rt_kind r = kind ∧ rt_cf r = kind_cf kind ∧
  (is_Some (rt_network_key r) ↔ forwarded_kind kind = true).
Proof.
  destruct (decide (kind ∈ named_kinds)) as [Hin|Hin].
  - intros Hr. split; [done|].
    assert (∃ T cf msg, ∃ st, raw_event_store T cf msg db = Ok st ∧ cf = kind_cf kind ∧
      rt_kind r = kind ∧ rt_cf r = store_cf st ∧
      (is_Some (rt_network_key r) ↔ forwarded_kind kind = true))
      as (T & cf & msg & st & Hst & Hcf & Hk & Hrc & Hn).
    { destruct kind; try discriminate Hr; cbn in Hr;
        unfold network_route, plain_route in Hr; inv_result;
        (do 4 eexists; split; [eassumption|]; split; [vm_compute; reflexivity|]);
        cbn; split_and!; try done; split; (done || (intros [? ?]; done) || eauto). }
    unfold raw_event_store in Hst. destruct (cf_handle db cf); [|done]. injection Hst as <-.
    split_and!; [done| |done..]. by rewrite Hrc.
  - intros Hr. destruct kind; try (destruct Hin; refine (bool_decide_unpack _ _); vm_compute; exact I).
    done.
Qed.

(** ** The properties *)
Section properties.
Context `{RocksDBSpec} `{Chrono} `{Client} `{HashOrder}.
Context `{Bincode string, Bincode Log, Bincode PeriodicTimeSeries, Bincode OpLog,
  Bincode Packet, Bincode Statistics, Bincode SecuLog}.
Implicit Types (kind : RawEventKind) (nk : option NetworkKey).

(** C10: whatever the receiver, the interval task and the rest of the server do
    in whatever order, every acknowledgement on the wire is the time stamp of
    an event that was appended to the database, or answers a channel-close
    message. *)
Theorem acks_are_of_stored_events kind nk source cf input db ch schedule s a :
  run kind nk source cf schedule (start_stream input db ch) = Some s →
  a ∈ s_acks s → a = CHANNEL_CLOSE_TIMESTAMP ∨ ∃ raw, (raw, a) ∈ s_stored s.
Proof. intros Hr. apply ingest_inv_run in Hr as (_ & _ & (Hacks & _) & _). apply Hacks. Qed.

(** events are appended in the order they were received and none is
    skipped: at any moment the appended events are an initial part of those the
    peer sent, so an acknowledged event and all before it are stored. *)
Theorem events_stored_in_order kind nk source cf input db ch schedule s :
  run kind nk source cf schedule (start_stream input db ch) = Some s →
  s_stored s `prefix_of` data input ∧ (s_durable s ≤ length (s_stored s))%nat.
Proof.
  intros Hr. apply ingest_inv_run in Hr as (Ho & _ & _ & Hd).
  split; [by apply order_inv_prefix|done].
Qed.

(** the shared 16-bit counter stays between 0 and [ACK_ROTATION_CNT] in
    every interleaving, so its increment never wraps. *)
Theorem ack_counter_bounded kind nk source cf input db ch schedule s :
  run kind nk source cf schedule (start_stream input db ch) = Some s →
  0 ≤ s_cnt s ≤ ACK_ROTATION_CNT.
Proof.
  intros Hr. apply ingest_inv_run in Hr as (_ & [Hpos Hc] & _ & _).
  destruct (s_recv s); lia.
Qed.

Lemma receiver_reaches_end kind nk source cf evs db ch m' ch' acks' cnt' :
  healthy db → cf ∈ RAW_DATA_COLUMN_FAMILY_NAMES →
  Forall (λ e, is_close e.1 e.2 = false) evs →
  ingest_events kind nk source cf evs (cf_view db) ch [] 0 = Some (m', ch', acks', cnt') →
  ∃ n s', run kind nk source cf (replicate n (ARecv true false))
      (start_stream (events evs ++ [RFinishedEarly]) db ch) = Some s' ∧
    s_recv s' = PDone (Ok tt) ∧ s_stored s' = evs ∧ s_durable s' = length evs ∧
    s_acks s' = acks' ∧ s_channels s' = ch' ∧ ∀ c, cf_view (s_db s') c = m' c.
Proof.
  intros Hh Hcf Hcl Hspec.
  destruct (recv_all kind nk source cf Hcf evs
    (start_stream (events evs ++ [RFinishedEarly]) db ch) [RFinishedEarly]
    (cf_view db) ch [] 0 [] m' ch' acks' cnt') as (n & s1 & Hr & Hrest); [by split|done..|].
  destruct (recv_finish kind nk source cf s1 m' ch' acks' cnt' evs Hrest)
    as (s2 & Hr2 & Hpc & _ & Hv & Hc & Ha & Hst & Hd).
  exists (n + 2)%nat, s2. rewrite replicate_add, run_app, Hr. done.
Qed.

(** C9: the receiver refines the loop [ingest_events]: left undisturbed over a
    healthy database it reaches its end, with every event stored and flushed,
    every frame sent, and exactly the acknowledgements the loop sends. *)
Theorem receiver_refines_loop kind nk source cf evs db ch m' ch' acks' cnt' :
  healthy db → cf ∈ RAW_DATA_COLUMN_FAMILY_NAMES →
  Forall (λ e, is_close e.1 e.2 = false) evs →
  ingest_events kind nk source cf evs (cf_view db) ch [] 0 = Some (m', ch', acks', cnt') →
  ∃ n s', run kind nk source cf (replicate n (ARecv true false))
      (start_stream (events evs ++ [RFinishedEarly]) db ch) = Some s' ∧
    s_recv s' = PDone (Ok tt) ∧ s_stored s' = evs ∧ s_durable s' = length evs ∧
    s_acks s' = acks' ∧ s_channels s' = ch' ∧ ∀ c, cf_view (s_db s') c = m' c.
Proof.
  apply receiver_reaches_end.
Qed.

(** An undisturbed receiver acknowledges once per [ACK_ROTATION_CNT] events,
    so fewer than that many stored events are ever unacknowledged. *)
Theorem acks_per_rotation kind nk source cf evs m ch m' ch' acks' cnt' :
  ingest_events kind nk source cf evs m ch [] 0 = Some (m', ch', acks', cnt') →
  Z.of_nat (length acks') = Z.of_nat (length evs) `div` ACK_ROTATION_CNT ∧
  cnt' = Z.of_nat (length evs) `mod` ACK_ROTATION_CNT.
Proof.
  intros Hs. apply ingest_events_count in Hs as [Hc E]; [|done].
  cbn [length] in E. unfold ACK_ROTATION_CNT in *.
  split; [eapply Z.div_unique|eapply Z.mod_unique with (q := Z.of_nat (length acks'))];
    (left; exact Hc) || lia.
Qed.

(** for a kind keyed by source and time stamp, the database maps each key of
    the source to the last event received with that time stamp: an event is
    found again, unless a later one of the same source and time replaced it. *)
Theorem last_event_of_a_time_stays kind nk source cf evs m ch m' ch' acks' cnt' ts :
  plain_kind kind = true → no_nul source → is_i64 ts → Forall (λ e, is_i64 e.2) evs →
  ingest_events kind nk source cf evs m ch [] 0 = Some (m', ch', acks', cnt') →
  m' cf !! event_key source None ts =
    match last (filter (λ e, e.2 = ts) evs) with
    | Some e => Some e.1
    | None => m cf !! event_key source None ts
    end.
Proof. apply ingest_events_lookup. Qed.

(** a matching subscriber whose receiver is gone stops the ingestion of the
    stream: the event is stored, but the receiver ends with an error, without
    counting or acknowledging the event. *)
Theorem closed_subscriber_stops_ingest kind (nk : NetworkKey) source cf (s : Stream)
    (value : bytes) (ts : Z) (k : string) (c : ChannelId) (chn : Channel) :
  s_recv s = PDirect value ts →
  subscriptions (s_channels s) !! k = Some c → key_matches nk k = true →
  channels (s_channels s) !! c = Some chn → ch_open chn = false →
  ∃ e s', recv_step kind (Some nk) source cf true false s = Some s' ∧
    s_recv s' = PDone (Err e) ∧ s_acks s' = s_acks s ∧ s_cnt s' = s_cnt s ∧
    s_stored s' = s_stored s.
Proof.
  intros Hpc Hsub Hk Hc Ho. unfold recv_step. rewrite Hpc.
  destruct (send_direct_closed nk value ts source (listed (subscriptions (s_channels s)))
    (s_channels s) k c) as (e & ch' & Hs).
  - rewrite listed_perm. by apply elem_of_map_to_list.
  - done.
  - unfold closed_in. by rewrite Hc.
  - rewrite Hs. eexists e, _. split; [reflexivity|done].
Qed.

(** every named kind is dispatched to a column family of raw events, two
    kinds never share one, and exactly the network protocols and logs get a key
    to forward their events under: the sysmon kinds do not. *)
Theorem dispatch_separates_kinds kind1 kind2 source db r1 r2 :
  route_network kind1 source db = Ok (Some r1) →
  route_network kind2 source db = Ok (Some r2) →
  rt_kind r1 = kind1 ∧ rt_cf r1 ∈ RAW_DATA_COLUMN_FAMILY_NAMES ∧
  (is_Some (rt_network_key r1) ↔ forwarded_kind kind1 = true) ∧
  (rt_cf r1 = rt_cf r2 → kind1 = kind2).
Proof.
  intros (Hin1 & Hk1 & Hc1 & Hn1)%route_network_spec (Hin2 & _ & Hc2 & _)%route_network_spec.
  split_and!; [done|rewrite Hc1; by apply kind_cf_known|done|].
  rewrite Hc1, Hc2. by apply kind_cf_inj.
Qed.
End properties.

(** ** Witnesses and scenarios

    Connection events of [src1] over the demonstration database; the other
    event types are not decoded here. *)
#[local] Instance undecoded (T : Type) : Bincode T | 100 := {|
  bincode_serialize _ := Err "not encoded"; bincode_deserialize _ := Err "not decoded" |}.

Notation demo_run := (run RawEventKind.Conn None "src1" "conn").
Definition demo_input : list (bytes * Z) := [([Byte.x01], 7); ([Byte.x02], 8); ([Byte.x03], 8)].
Definition demo_start : Stream :=
  start_stream (events demo_input ++ [RFinishedEarly]) demo_db no_channels.

(** One event, then the interval task's acknowledgement. *)
Definition tick_schedule : list Action :=
  replicate 7 (ARecv true false) ++ replicate 2 (AHand true true).

(** What a run ended with, without the database. *)
Definition outcome (s : option Stream) : option (list Z * Z * list (bytes * Z) * nat) :=
  (λ s, (s_acks s, s_cnt s, s_stored s, s_durable s)) <$> s.

Lemma outcome_some s o :
  outcome s = Some o → ∃ s', s = Some s' ∧
    s_acks s' = o.1.1.1 ∧ s_cnt s' = o.1.1.2 ∧ s_stored s' = o.1.2 ∧ s_durable s' = o.2.
Proof. destruct s as [s'|]; [|done]. intros [= <-]. by exists s'. Qed.

Lemma tick_outcome :
  outcome (demo_run tick_schedule demo_start) = Some ([7], 1, [([Byte.x01], 7)], 0%nat).
Proof. vm_compute. reflexivity. Qed.

(** an acknowledgement does not wait for the write-ahead log: after one
    event and one tick of the interval the event is acknowledged although no
    flush has covered it. *)
Theorem interval_ack_precedes_flush :
  ∃ schedule s, run RawEventKind.Conn None "src1" "conn" schedule
      (start_stream (events demo_input ++ [RFinishedEarly]) demo_db no_channels) = Some s ∧
    7 ∈ s_acks s ∧ s_stored s = [([Byte.x01], 7)] ∧ s_durable s = 0%nat.
Proof.
  destruct (outcome_some _ _ tick_outcome) as (s & Hr & Ha & _ & Hst & Hd).
  exists tick_schedule, s. split; [exact Hr|]. rewrite Ha. split_and!; [left|done..].
Qed.

(** Many events; the interval task loads the first time stamp and sends it only
    after the receiver's rotation. *)
Definition many_input : list (bytes * Z) :=
  (λ n, ([Byte.x01], Z.of_nat n)) <$> seq 1 1024.
Definition late_schedule : list Action :=
  replicate 7 (ARecv true false) ++ [AHand true true] ++
  replicate (1023 * 7 + 4) (ARecv true false) ++ [AHand true true].

Lemma late_outcome :
  match outcome (demo_run late_schedule (start_stream (events many_input) demo_db no_channels)) with
  | Some (acks, _, _, _) => bool_decide (acks = [1024; 1])
  | None => false
  end = true.
Proof. vm_compute. reflexivity. Qed.

(** cumulative acknowledgements can go backwards: the interval task reads
    the last time stamp before it waits for the send stream, so the receiver's
    rotation can acknowledge 1024 events first and the older time stamp follows
    on the wire. *)
Theorem acks_can_go_backwards :
  ∃ schedule s, run RawEventKind.Conn None "src1" "conn" schedule
      (start_stream (events many_input) demo_db no_channels) = Some s ∧ s_acks s = [1024; 1].
Proof.
  pose proof late_outcome as Ho.
  destruct (outcome (demo_run late_schedule _)) as [[[[acks c] st] d]|] eqn:E; [|done].
  apply bool_decide_eq_true_1 in Ho. apply outcome_some in E as (s & Hr & Ha & _).
  exists late_schedule, s. split; [exact Hr|]. by rewrite Ha.
Qed.

Lemma acks_are_of_stored_events_witness :
  ∃ s, demo_run tick_schedule demo_start = Some s ∧
    (7 = CHANNEL_CLOSE_TIMESTAMP ∨ ∃ raw, (raw, 7) ∈ s_stored s).
Proof.
  destruct (outcome_some _ _ tick_outcome) as (s & Hr & Ha & _).
  exists s. split; [exact Hr|].
  refine (acks_are_of_stored_events _ _ _ _ _ _ _ _ _ 7 Hr _). rewrite Ha. left.
Defined.

Lemma events_stored_in_order_witness :
  ∃ s, demo_run tick_schedule demo_start = Some s ∧
    s_stored s `prefix_of` data (events demo_input ++ [RFinishedEarly]).
Proof.
  destruct (outcome_some _ _ tick_outcome) as (s & Hr & _).
  exists s. split; [exact Hr|]. exact (proj1 (events_stored_in_order _ _ _ _ _ _ _ _ _ Hr)).
Defined.

Lemma ack_counter_bounded_witness :
  ∃ s, demo_run tick_schedule demo_start = Some s ∧ 0 ≤ s_cnt s ≤ ACK_ROTATION_CNT.
Proof.
  destruct (outcome_some _ _ tick_outcome) as (s & Hr & _).
  exists s. split; [exact Hr|]. exact (ack_counter_bounded _ _ _ _ _ _ _ _ _ Hr).
Defined.

Definition demo_view : string → gmap bytes bytes :=
  put_view "conn" (event_key "src1" None 8) [Byte.x03]
    (put_view "conn" (event_key "src1" None 8) [Byte.x02]
       (put_view "conn" (event_key "src1" None 7) [Byte.x01] (cf_view demo_db))).

Lemma demo_loop :
  ingest_events RawEventKind.Conn None "src1" "conn" demo_input (cf_view demo_db)
    no_channels [] 0 = Some (demo_view, no_channels, [], 3).
Proof. reflexivity. Qed.

Lemma receiver_refines_loop_witness :
  ∃ n s', demo_run (replicate n (ARecv true false)) demo_start = Some s' ∧
    s_recv s' = PDone (Ok tt) ∧ s_stored s' = demo_input ∧ s_durable s' = 3%nat.
Proof.
  destruct (receiver_refines_loop RawEventKind.Conn None "src1" "conn" demo_input demo_db
    no_channels demo_view no_channels [] 3) as (n & s' & Hr & Hpc & Hst & Hd & _).
  - apply demo_healthy.
  - concrete.
  - concrete.
  - apply demo_loop.
  - exists n, s'. split_and!; [exact Hr|exact Hpc|exact Hst|exact Hd].
Defined.

Lemma acks_per_rotation_witness :
  Z.of_nat (length (@nil Z)) = Z.of_nat (length demo_input) `div` ACK_ROTATION_CNT ∧
  3 = Z.of_nat (length demo_input) `mod` ACK_ROTATION_CNT.
Proof. exact (acks_per_rotation _ _ _ _ _ _ _ _ _ _ _ demo_loop). Defined.

Lemma last_event_of_a_time_stays_witness :
  demo_view "conn" !! event_key "src1" None 8 = Some [Byte.x03].
Proof.
  refine (last_event_of_a_time_stays _ _ _ _ _ _ _ _ _ _ _ 8 _ _ _ _ demo_loop); concrete.
Defined.

Definition closed_channels : Channels :=
  mk_channels {[ demo_key := 1%nat ]} {[ 1%nat := mk_channel [] false ]}.

Lemma closed_subscriber_stops_ingest_witness :
  ∃ e s', recv_step RawEventKind.Conn (Some (NetworkKey.new "src1" "conn")) "src1" "conn"
      true false (set_recv (PDirect [Byte.x01] 7) (set_channels closed_channels demo_start))
      = Some s' ∧ s_recv s' = PDone (Err e).
Proof.
  destruct (closed_subscriber_stops_ingest RawEventKind.Conn (NetworkKey.new "src1" "conn")
    "src1" "conn" (set_recv (PDirect [Byte.x01] 7) (set_channels closed_channels demo_start))
    [Byte.x01] 7 demo_key 1%nat (mk_channel [] false)) as (e & s' & Hs & Hpc & _);
    [concrete..|].
  exists e, s'. split; [exact Hs|exact Hpc].
Defined.

Lemma dispatch_separates_kinds_witness :
  "file create" ∈ RAW_DATA_COLUMN_FAMILY_NAMES ∧
  (is_Some (rt_network_key (mk_route RawEventKind.FileCreate None "file create")) ↔
   forwarded_kind RawEventKind.FileCreate = true).
Proof.
  destruct (dispatch_separates_kinds RawEventKind.FileCreate RawEventKind.FileCreateTime "src1"
    demo_db (mk_route RawEventKind.FileCreate None "file create")
    (mk_route RawEventKind.FileCreateTime None "file create time"))
    as (_ & Hcf & Hkey & _); [concrete..|].
  split; [exact Hcf|exact Hkey].
Defined.
