(* ===== verification/Sources.v ===== *)
(** * Connected sources (src/src/ingest.rs)

    [handle_connection] registers a peer's connection and reports its arrival
    and departure through a channel to [check_sources_conn], which keeps the
    table of live sources and the [sources] column family. *)

From Stdlib Require Import ZArith Lia.
From S2P Require Import Prelude Bytes Externals StorageKey NetAddr GigantoClient Filters.
From S2P Require Import Storage StorageSpec Demo.

Section sources.
Context `{RocksDB} `{Chrono}.

Inductive ConnState := Connected | Disconnected.

(** [SourceInfo]: source, time, state, and whether the agent is a reproduce. *)
Record SourceInfo := mk_info {
  info_source : string; info_time : DateTime; info_state : ConnState; info_rep : bool; }.

(** A QUIC connection is known by a number. *)
Notation ConnectionId := nat.

(** The tables the tasks share, the channel between them, and how often the
    waiting [notify_source] (if there is one) was notified. *)
Record Registry := mk_registry {
  rg_db : DB;
  rg_sources : gmap string DateTime;
  rg_packet_sources : gmap string ConnectionId;
  rg_queue : list SourceInfo;
  rg_notified : nat;
}.

(** *** [handle_connection] *)
Definition is_reproduce (agent : string) : bool := str_contains agent "reproduce".

Definition set_packet_sources (m : gmap string ConnectionId) (r : Registry) : Registry :=
  mk_registry (rg_db r) (rg_sources r) m (rg_queue r) (rg_notified r).
Definition send_info (i : SourceInfo) (r : Registry) : Registry :=
  mk_registry (rg_db r) (rg_sources r) (rg_packet_sources r) (rg_queue r ++ [i]) (rg_notified r).

(** After the handshake: [agent] and [source] come from the certificate. *)
Definition connection_opened (conn : ConnectionId) (agent source : string) (now : DateTime)
    (r : Registry) : Registry :=
  let rep := is_reproduce agent in
  let r := if rep then r else set_packet_sources (<[source := conn]> (rg_packet_sources r)) r in
  send_info (mk_info source now Connected rep) r.

(** [accept_bi] fails: [application_closed] is the peer's own close. *)
Definition connection_closed (agent source : string) (now : DateTime) (application_closed : bool)
    (r : Registry) : result unit * Registry :=
  (if application_closed then Ok tt else Err "connection error",
   send_info (mk_info source now Disconnected (is_reproduce agent)) r).

(** *** [check_sources_conn] *)
Variable source_store : SourceStore.
Variable notify_source : bool.

(** [if source_store.insert(..).is_err() { error!(..) }] *)
Definition record_source (name : string) (time : DateTime) (r : Registry) : Registry :=
  mk_registry (m_ignore (source_insert source_store name time) (rg_db r)).2
    (rg_sources r) (rg_packet_sources r) (rg_queue r) (rg_notified r).
Definition set_sources (m : gmap string DateTime) (r : Registry) : Registry :=
  mk_registry (rg_db r) m (rg_packet_sources r) (rg_queue r) (rg_notified r).
Definition notify (r : Registry) : Registry :=
  mk_registry (rg_db r) (rg_sources r) (rg_packet_sources r) (rg_queue r)
    (if notify_source then S (rg_notified r) else rg_notified r).

(** The daily tick; [keys] are the keys of the table in the map's order and
    [now k] is the time when [k] is reached. *)
Definition refresh_source (now : string → DateTime) (r : Registry) (key : string) : Registry :=
  let r := record_source key (now key) r in
  set_sources (<[key := now key]> (rg_sources r)) r.
Definition sources_tick (keys : list string) (now : string → DateTime) (r : Registry) : Registry :=
  foldl (refresh_source now) r keys.

Definition on_info (i : SourceInfo) (r : Registry) : Registry :=
  let r := record_source (info_source i) (info_time i) r in
  if info_rep i then r
  else
    match info_state i with
    | Connected =>
        notify (set_sources (<[info_source i := info_time i]> (rg_sources r)) r)
    | Disconnected =>
        notify (set_packet_sources (delete (info_source i) (rg_packet_sources r))
          (set_sources (delete (info_source i) (rg_sources r)) r))
    end.

(** [rx.recv()] *)
Definition recv_info (r : Registry) : option Registry :=
  match rg_queue r with
  | [] => None
  | i :: rest =>
      Some (on_info i (mk_registry (rg_db r) (rg_sources r) (rg_packet_sources r) rest
                         (rg_notified r)))
  end.

(** The steps of the connections and of the table's task, in any order. *)
Inductive Step : Registry → Registry → Prop :=
| SOpened conn agent source now r :
    Step r (connection_opened conn agent source now r)
| SClosed agent source now ac r :
    Step r (connection_closed agent source now ac r).2
| STick now r keys :
    keys ≡ₚ (map_to_list (rg_sources r)).*1 → Step r (sources_tick keys now r)
| SRecv r r' :
    recv_info r = Some r' → Step r r'.
End sources.

(** ** What the table guarantees *)
Section spec.
Context `{RocksDBSpec} `{Chrono}.
Implicit Types r : Registry.

Notation store := (mk_source_store "sources").
Notation registered r name := (is_Some (cf_view (rg_db r) "sources" !! as_bytes name)).

Lemma record_source_spec name time r :
  healthy (rg_db r) →
  healthy (rg_db (record_source store name time r)) ∧
  ∀ cf, cf_view (rg_db (record_source store name time r)) cf =
    if decide ("sources" = cf)
    then <[as_bytes name := i64_to_be_bytes (nanos_or_max time)]> (cf_view (rg_db r) cf)
    else cf_view (rg_db r) cf.
Proof.
  intros Hh.
  destruct (write_ignore_healthy (WPut (as_bytes name) (i64_to_be_bytes (nanos_or_max time)))
    "sources" (rg_db r) Hh) as (db' & Hw & Hh' & Hv); [known_cf|].
  unfold record_source, source_insert. cbn [source_cf rg_db write] in Hw |- *.
  rewrite Hw. split; [done|]. intros cf. cbn [snd]. rewrite Hv. apply decide_ext. naive_solver.
Qed.

(** A source once registered stays so. *)
Lemma registered_record name name' time r :
  healthy (rg_db r) → name = name' ∨ registered r name →
  registered (record_source store name' time r) name.
Proof.
  intros Hh Hr. destruct (record_source_spec name' time r Hh) as [_ Hv].
  rewrite Hv, decide_True by done. apply lookup_insert_is_Some'.
  destruct Hr as [->|Hr]; auto.
Qed.

Definition sources_inv r : Prop :=
  healthy (rg_db r) ∧ ∀ name, is_Some (rg_sources r !! name) → registered r name.

Lemma refresh_inv now r key :
  sources_inv r → sources_inv (refresh_source store now r key).
Proof.
  intros [Hh Hr]. unfold refresh_source, sources_inv. cbn.
  split; [apply (record_source_spec key (now key) r Hh)|].
  intros name. rewrite lookup_insert_is_Some'. intros [->|Hn].
  - apply registered_record; auto.
  - apply registered_record; auto.
Qed.

Lemma on_info_inv notify_source i r :
  sources_inv r → sources_inv (on_info store notify_source i r).
Proof.
  intros [Hh Hr]. unfold on_info.
  pose proof (record_source_spec (info_source i) (info_time i) r Hh) as [Hh' _].
  assert (∀ name, name = info_source i ∨ is_Some (rg_sources r !! name) →
    registered (record_source store (info_source i) (info_time i) r) name) as Hreg.
  { intros name Hn. apply registered_record; [done|]. destruct Hn; auto. }
  destruct (info_rep i); [split; [done|]; intros name Hn; apply Hreg; by right|].
  destruct (info_state i); (split; [done|]); intros name; cbn.
  - rewrite lookup_insert_is_Some'. intros [Hn|Hn]; apply Hreg; auto.
  - rewrite lookup_delete_is_Some. intros [_ Hn]. apply Hreg. auto.
Qed.

Lemma step_inv notify_source r r' :
  Step store notify_source r r' → sources_inv r → sources_inv r'.
Proof.
  intros Hs Hinv. destruct Hs as [conn agent source now r|agent source now ac r|now r keys _|r r' Hrecv].
  - unfold connection_opened. destruct (is_reproduce agent); exact Hinv.
  - exact Hinv.
  - unfold sources_tick. revert r Hinv. induction keys as [|key keys IH]; intros r Hinv; [done|].
    cbn. apply IH. by apply refresh_inv.
  - unfold recv_info in Hrecv. destruct (rg_queue r) as [|i rest]; [done|]. injection Hrecv as <-.
    by apply on_info_inv.
Qed.

(** every source in the table of live sources is registered in the database,
    whatever connections come and go, so the retention task sees it. *)
Theorem live_sources_are_registered notify_source r r' :
  healthy (rg_db r) → rg_sources r = ∅ →
  rtc (Step store notify_source) r r' →
  ∀ name, is_Some (rg_sources r' !! name) →
    as_bytes name ∈ source_names store (rg_db r').
Proof.
  intros Hh He Hrtc.
  assert (sources_inv r) as Hinv.
  { split; [done|]. rewrite He. intros name [? Hn]. by rewrite lookup_empty in Hn. }
  assert (sources_inv r') as [[Hio Hop] Hreg]
    by (clear Hh He; induction Hrtc; eauto using step_inv).
  intros name Hn. apply Hreg in Hn. unfold source_names. cbn.
  rewrite iterator_io by (done || (apply Hop; known_cf)).
  rewrite oks_fmap_Ok. cbn [scan]. by apply elem_of_source_keys.
Qed.

(** when a source reconnects before its first connection is seen to close,
    the late report of the first close removes the entries of the second,
    although that connection is open. *)
Theorem late_close_forgets_reconnect notify_source agent source c1 c2 t1 t2 t3 r :
  is_reproduce agent = false → rg_queue r = [] →
  ∃ r', ((recv_info store notify_source
      (connection_closed agent source t3 true
        (connection_opened c2 agent source t2
          (connection_opened c1 agent source t1 r))).2 ≫= recv_info store notify_source)
        ≫= recv_info store notify_source) = Some r' ∧
    rg_queue r' = [] ∧ rg_packet_sources r' !! source = None ∧ rg_sources r' !! source = None.
Proof.
  intros Hrep Hq. unfold connection_closed, connection_opened. rewrite Hrep.
  unfold recv_info. cbn. rewrite Hq. cbn. eexists. split; [reflexivity|].
  split; [done|]. cbn. by rewrite !lookup_delete_eq.
Qed.
End spec.

(** ** Witnesses *)
Definition demo_registry : Registry := mk_registry demo_db ∅ ∅ [] 0.

Lemma live_sources_are_registered_witness :
  ∃ r' : Registry, rtc (Step (mk_source_store "sources") false) demo_registry r' ∧
    as_bytes "src2" ∈ source_names (mk_source_store "sources") (rg_db r').
Proof.
  assert (∃ r' : Registry,
    recv_info (mk_source_store "sources") false
      (connection_opened 0 "piglet" "src2" (timestamp_nanos 5) demo_registry) = Some r' ∧
    rg_sources r' !! "src2" = Some (timestamp_nanos 5)) as (r' & Hr & Hs)
    by (eexists; split; reflexivity).
  exists r'.
  assert (rtc (Step (mk_source_store "sources") false) demo_registry r') as Hrtc.
  { eapply rtc_l; [apply (SOpened _ _ 0%nat "piglet" "src2" (timestamp_nanos 5))|].
    apply rtc_once. by apply SRecv. }
  split; [exact Hrtc|].
  apply (live_sources_are_registered false demo_registry r' demo_healthy eq_refl Hrtc).
  by eexists.
Defined.

Lemma late_close_forgets_reconnect_witness :
  ∃ r', ((recv_info (mk_source_store "sources") false
      (connection_closed "piglet" "src1" (timestamp_nanos 3) true
        (connection_opened 2 "piglet" "src1" (timestamp_nanos 2)
          (connection_opened 1 "piglet" "src1" (timestamp_nanos 1) demo_registry))).2
      ≫= recv_info (mk_source_store "sources") false)
      ≫= recv_info (mk_source_store "sources") false) = Some r' ∧
    rg_packet_sources r' !! "src1" = None.
Proof.
  destruct (late_close_forgets_reconnect false "piglet" "src1" 1 2 (timestamp_nanos 1)
    (timestamp_nanos 2) (timestamp_nanos 3) demo_registry) as (r' & Hr & _ & Hp & _);
    [concrete..|].
  exists r'. split; [exact Hr|exact Hp].
Defined.
