(* ===== verification/Publish.v ===== *)
(** * The publish service (src/src/publish.rs)

    Range and raw-data requests, which answer from the stores; subscriptions
    ([send_stream]), which send the stored events of a crusher and then forward
    what [send_direct_stream] puts into the subscriber's channel; and the relay
    of packet-capture requests.  What is written to a QUIC stream is the list
    of calls to giganto-client's [frame] and [publish] functions. *)

From Stdlib Require Import ZArith Lia.
From S2P Require Import Prelude Bytes Externals StorageKey NetAddr GigantoClient Events.
From S2P Require Import Filters Storage Channels.

(** [ResponseRangeData::response_data], the encoding of one record of a range
    response. *)
Class ResponseRangeData (T : Type) := response_data : T → Z → string → result bytes.
Class RangeCodecs := {
  range_Conn :: ResponseRangeData Conn;
  range_Dns :: ResponseRangeData Dns;
  range_Log :: ResponseRangeData Log;
  range_Http :: ResponseRangeData Http;
  range_Rdp :: ResponseRangeData Rdp;
  range_PeriodicTimeSeries :: ResponseRangeData PeriodicTimeSeries;
  range_Smtp :: ResponseRangeData Smtp;
  range_Ntlm :: ResponseRangeData Ntlm;
  range_Kerberos :: ResponseRangeData Kerberos;
  range_Ssh :: ResponseRangeData Ssh;
  range_DceRpc :: ResponseRangeData DceRpc;
  range_Statistics :: ResponseRangeData Statistics;
  range_OpLog :: ResponseRangeData OpLog;
  range_Packet :: ResponseRangeData Packet;
  range_Ftp :: ResponseRangeData Ftp;
  range_Mqtt :: ResponseRangeData Mqtt;
  range_Ldap :: ResponseRangeData Ldap;
  range_Tls :: ResponseRangeData Tls;
  range_Smb :: ResponseRangeData Smb;
  range_Nfs :: ResponseRangeData Nfs;
  range_ProcessCreate :: ResponseRangeData ProcessCreate;
  range_FileCreationTimeChanged :: ResponseRangeData FileCreationTimeChanged;
  range_NetworkConnection :: ResponseRangeData NetworkConnection;
  range_ProcessTerminated :: ResponseRangeData ProcessTerminated;
  range_ImageLoaded :: ResponseRangeData ImageLoaded;
  range_FileCreate :: ResponseRangeData FileCreate;
  range_RegistryValueSet :: ResponseRangeData RegistryValueSet;
  range_RegistryKeyValueRename :: ResponseRangeData RegistryKeyValueRename;
  range_FileCreateStreamHash :: ResponseRangeData FileCreateStreamHash;
  range_PipeEvent :: ResponseRangeData PipeEvent;
  range_DnsEvent :: ResponseRangeData DnsEvent;
  range_FileDelete :: ResponseRangeData FileDelete;
  range_ProcessTampering :: ResponseRangeData ProcessTampering;
  range_FileDeleteDetected :: ResponseRangeData FileDeleteDetected;
  range_Netflow5 :: ResponseRangeData Netflow5;
  range_Netflow9 :: ResponseRangeData Netflow9;
  range_SecuLog :: ResponseRangeData SecuLog;
}.

(** ** The wire *)
Inductive WireCall :=
| SendBytes (b : bytes)
| SendRaw (b : bytes)
| SendRecord (b : bytes)
| SendRange (data : option bytes)
| SendHogStart (r : RequestStreamRecord)
| SendOk
| SendErr (e : string)
| Finish.

(** A send stream: the calls made so far, and how many more succeed before the
    peer is gone ([None]: all of them). *)
Record Wire := mk_wire { calls : list WireCall; writes_left : option nat; }.

Definition emit (c : WireCall) : M Wire unit := λ w,
  match writes_left w with
  | None => (Ok tt, mk_wire (calls w ++ [c]) None)
  | Some (S n) => (Ok tt, mk_wire (calls w ++ [c]) (Some n))
  | Some O => (Err "connection lost", w)
  end.

(** [i64::from_be_bytes(key[(key.len() - TIMESTAMP_SIZE)..].try_into()?)]; a
    shorter key panics. *)
Definition key_timestamp (k : bytes) : result Z :=
  if (length k <? TIMESTAMP_SIZE)%nat then Err "attempt to subtract with overflow"
  else Ok (key_nanos k).

Section range.
Context `{RocksDB} `{Chrono} `{Client}.

(** ** Range requests *)
Definition send_range_item {T} `{ResponseRangeData T} (source : string)
    (item : result (bytes * T)) : M Wire unit :=
  kv <-- m_lift (map_err "Failed to read Database" item) ;;
  timestamp <-- m_lift (key_timestamp kv.1) ;;
  data <-- m_lift (response_data kv.2 timestamp source) ;;
  emit (SendRange (Some data)).

Definition range_builder (msg : RequestRange) (availed_kind : bool) : StorageKeyBuilder :=
  let key_builder := builder |> start_key (RequestRange.source msg) in
  if availed_kind then key_builder |> mid_key (Some (as_bytes (RequestRange.kind msg)))
  else key_builder.

Definition process_range_data {T} `{Bincode T} `{ResponseRangeData T}
    (store : RawEventStore T) (msg : RequestRange) (availed_kind : bool) (db : DB) :
    M Wire unit :=
  let key_builder := range_builder msg availed_kind in
  let from_key := lower_key key_builder (Some (timestamp_nanos (RequestRange.start msg))) in
  let to_key := upper_key key_builder (Some (timestamp_nanos (RequestRange.end_ msg))) in
  let iter := boundary_iter store from_key to_key Forward db in
  m_iter (send_range_item (RequestRange.source msg))
    (take (RequestRange.count msg) (drain iter)) ;;;
  emit (SendRange None) ;;;
  emit Finish.

(** ** Raw-data requests *)
Definition send_raw_item {T} `{Bincode T} `{ResponseRangeData T}
    (item : Z * string * bytes) : M Wire unit :=
  let '(timestamp, source, value) := item in
  val <-- m_lift (bincode_deserialize (T := T) value) ;;
  data <-- m_lift (response_data val timestamp source) ;;
  emit (SendRange (Some data)).

Definition process_raw_events {T} `{Bincode T} `{ResponseRangeData T}
    (store : RawEventStore T) (msg : list (string * list Z)) (db : DB) : M Wire unit :=
  let output := msg ≫= λ '(source, timestamps),
    multi_get_with_source store source timestamps db in
  m_iter (send_raw_item (T := T)) output ;;;
  emit (SendRange None) ;;;
  emit Finish.

(** ** Dispatch of requests *)
Definition range_of_store {T} `{Bincode T} `{ResponseRangeData T} (failed : string)
    (store : result (RawEventStore T)) (msg : RequestRange) (availed_kind : bool) (db : DB) :
    M Wire unit :=
  store <-- m_lift (map_err failed store) ;;
  process_range_data store msg availed_kind db.
Definition raw_of_store {T} `{Bincode T} `{ResponseRangeData T}
    (store : result (RawEventStore T)) (input : list (string * list Z)) (db : DB) :
    M Wire unit :=
  store <-- m_lift store ;;
  process_raw_events store input db.

Context `{Codecs} `{RangeCodecs}.

Definition range_request_c (kind : RawEventKind) (msg : RequestRange) (db : DB) :
    M Wire unit :=
  match kind with
  | RawEventKind.RegistryValueSet => range_of_store "Failed to open registry_value_set store"
      (registry_value_set_store db) msg false db
  | RawEventKind.RegistryKeyRename => range_of_store "Failed to open registry_key_rename store"
      (registry_key_rename_store db) msg false db
  | RawEventKind.FileCreateStreamHash => range_of_store "Failed to open file_create_stream_hash store"
      (file_create_stream_hash_store db) msg false db
  | RawEventKind.PipeEvent => range_of_store "Failed to open pipe_event store"
      (pipe_event_store db) msg false db
  | RawEventKind.DnsQuery => range_of_store "Failed to open dns_query store"
      (dns_query_store db) msg false db
  | RawEventKind.FileDelete => range_of_store "Failed to open file_delete store"
      (file_delete_store db) msg false db
  | RawEventKind.ProcessTamper => range_of_store "Failed to open process_tamper store"
      (process_tamper_store db) msg false db
  | RawEventKind.FileDeleteDetected => range_of_store "Failed to open file_delete_detected store"
      (file_delete_detected_store db) msg false db
  | RawEventKind.Netflow5 => range_of_store "Failed to open netflow5 store"
      (netflow5_store db) msg false db
  | RawEventKind.Netflow9 => range_of_store "Failed to open netflow9 store"
      (netflow9_store db) msg false db
  | _ => m_ret tt
  end.
Definition range_request_b (kind : RawEventKind) (msg : RequestRange) (db : DB) :
    M Wire unit :=
  match kind with
  | RawEventKind.PeriodicTimeSeries => range_of_store "Failed to open periodic time series storage"
      (periodic_time_series_store db) msg false db
  | RawEventKind.Ldap => range_of_store "Failed to open ldap store"
      (ldap_store db) msg false db
  | RawEventKind.Tls => range_of_store "Failed to open tls store"
      (tls_store db) msg false db
  | RawEventKind.Smb => range_of_store "Failed to open smb store"
      (smb_store db) msg false db
  | RawEventKind.Nfs => range_of_store "Failed to open nfs store"
      (nfs_store db) msg false db
  | RawEventKind.ProcessCreate => range_of_store "Failed to open process_create store"
      (process_create_store db) msg false db
  | RawEventKind.FileCreateTime => range_of_store "Failed to open file_create store"
      (file_create_store db) msg false db
  | RawEventKind.NetworkConnect => range_of_store "Failed to open network_connect store"
      (network_connect_store db) msg false db
  | RawEventKind.ProcessTerminate => range_of_store "Failed to open process_terminate store"
      (process_terminate_store db) msg false db
  | RawEventKind.ImageLoad => range_of_store "Failed to open image_load store"
      (image_load_store db) msg false db
  | RawEventKind.FileCreate => range_of_store "Failed to open file_create store"
      (file_create_store db) msg false db
  | _ => range_request_c kind msg db
  end.
Definition range_request (kind : RawEventKind) (msg : RequestRange) (db : DB) :
    M Wire unit :=
  match kind with
  | RawEventKind.Conn => range_of_store "Failed to open conn store"
      (conn_store db) msg false db
  | RawEventKind.Dns => range_of_store "Failed to open dns store"
      (dns_store db) msg false db
  | RawEventKind.Rdp => range_of_store "Failed to open rdp store"
      (rdp_store db) msg false db
  | RawEventKind.Http => range_of_store "Failed to open http store"
      (http_store db) msg false db
  | RawEventKind.Smtp => range_of_store "Failed to open smtp store"
      (smtp_store db) msg false db
  | RawEventKind.Log => range_of_store "Failed to open log store"
      (log_store db) msg true db
  | RawEventKind.Ntlm => range_of_store "Failed to open ntlm store"
      (ntlm_store db) msg false db
  | RawEventKind.Kerberos => range_of_store "Failed to open kerberos store"
      (kerberos_store db) msg false db
  | RawEventKind.Ssh => range_of_store "Failed to open ssh store"
      (ssh_store db) msg false db
  | RawEventKind.DceRpc => range_of_store "Failed to open dce rpc store"
      (dce_rpc_store db) msg false db
  | RawEventKind.Ftp => range_of_store "Failed to open ftp store"
      (ftp_store db) msg false db
  | RawEventKind.Mqtt => range_of_store "Failed to open mqtt store"
      (mqtt_store db) msg false db
  | _ => range_request_b kind msg db
  end.

Definition raw_request (kind : RawEventKind) (input : list (string * list Z)) (db : DB) :
    M Wire unit :=
  match kind with
  | RawEventKind.Conn => raw_of_store (conn_store db) input db
  | RawEventKind.Dns => raw_of_store (dns_store db) input db
  | RawEventKind.Rdp => raw_of_store (rdp_store db) input db
  | RawEventKind.Http => raw_of_store (http_store db) input db
  | RawEventKind.Smtp => raw_of_store (smtp_store db) input db
  | RawEventKind.Ntlm => raw_of_store (ntlm_store db) input db
  | RawEventKind.Kerberos => raw_of_store (kerberos_store db) input db
  | RawEventKind.Ssh => raw_of_store (ssh_store db) input db
  | RawEventKind.DceRpc => raw_of_store (dce_rpc_store db) input db
  | RawEventKind.Ftp => raw_of_store (ftp_store db) input db
  | RawEventKind.Mqtt => raw_of_store (mqtt_store db) input db
  | RawEventKind.Ldap => raw_of_store (ldap_store db) input db
  | RawEventKind.Tls => raw_of_store (tls_store db) input db
  | RawEventKind.Smb => raw_of_store (smb_store db) input db
  | RawEventKind.Nfs => raw_of_store (nfs_store db) input db
  | RawEventKind.Log => raw_of_store (log_store db) input db
  | RawEventKind.PeriodicTimeSeries => raw_of_store (periodic_time_series_store db) input db
  | RawEventKind.ProcessCreate => raw_of_store (process_create_store db) input db
  | RawEventKind.FileCreateTime => raw_of_store (file_create_time_store db) input db
  | RawEventKind.NetworkConnect => raw_of_store (network_connect_store db) input db
  | RawEventKind.ProcessTerminate => raw_of_store (process_terminate_store db) input db
  | RawEventKind.ImageLoad => raw_of_store (image_load_store db) input db
  | RawEventKind.FileCreate => raw_of_store (file_create_store db) input db
  | RawEventKind.RegistryValueSet => raw_of_store (registry_value_set_store db) input db
  | RawEventKind.RegistryKeyRename => raw_of_store (registry_key_rename_store db) input db
  | RawEventKind.FileCreateStreamHash => raw_of_store (file_create_stream_hash_store db) input db
  | RawEventKind.PipeEvent => raw_of_store (pipe_event_store db) input db
  | RawEventKind.DnsQuery => raw_of_store (dns_query_store db) input db
  | RawEventKind.FileDelete => raw_of_store (file_delete_store db) input db
  | RawEventKind.ProcessTamper => raw_of_store (process_tamper_store db) input db
  | RawEventKind.FileDeleteDetected => raw_of_store (file_delete_detected_store db) input db
  | RawEventKind.Netflow5 => raw_of_store (netflow5_store db) input db
  | RawEventKind.Netflow9 => raw_of_store (netflow9_store db) input db
  | _ => m_ret tt
  end.
End range.

(** ** Packet-capture requests *)
Section pcap.
Context {PcapFilter : Type} `{Bincode (list PcapFilter)} (filter_source : PcapFilter → string).

(** The filters that are relayed to a source's connection, in order; a filter
    for a source that is not connected is logged and dropped. *)
Definition relay (packet_sources : gmap string nat) (filters : list PcapFilter) :
    list (nat * PcapFilter) :=
  omap (λ filter, (λ conn, (conn, filter)) <$> packet_sources !! filter_source filter) filters.

Definition process_pcap_extract (filter_data : bytes) (packet_sources : gmap string nat) :
    M Wire (list (nat * PcapFilter)) :=
  match bincode_deserialize (T := list PcapFilter) filter_data with
  | Ok filters =>
      emit SendOk ;;; m_ret (relay packet_sources filters)
  | Err e =>
      emit (SendErr e) ;;; m_lift (Err "Failed to deserialize Pcapfilters")
  end.
End pcap.

Section requests.
Context `{RocksDB} `{Chrono} `{Client} `{Codecs} `{RangeCodecs}.
Context `{Bincode RequestRange} `{Bincode RequestRawData}.
Context {PcapFilter : Type} `{Bincode (list PcapFilter)} (filter_source : PcapFilter → string).

Definition kind_of (name : string) : RawEventKind := default kind_default (kind_from_str name).

(** [request] is what [receive_range_data_request] returns; the result holds the
    packet-capture requests that are relayed. *)
Definition handle_request (request : result (MessageCode * bytes))
    (packet_sources : gmap string nat) (db : DB) : M Wire (list (nat * PcapFilter)) :=
  req <-- m_lift request ;;
  let '(msg_type, msg_buf) := req in
  match msg_type with
  | ReqRange =>
      msg <-- m_lift (map_err "Failed to deserialize message"
                        (bincode_deserialize (T := RequestRange) msg_buf)) ;;
      range_request (kind_of (RequestRange.kind msg)) msg db ;;;
      m_ret []
  | Pcap => process_pcap_extract filter_source msg_buf packet_sources
  | RawData =>
      msg <-- m_lift (map_err "Failed to deserialize message"
                        (bincode_deserialize (T := RequestRawData) msg_buf)) ;;
      raw_request (kind_of (RequestRawData.kind msg)) (RequestRawData.input msg) db ;;;
      m_ret []
  end.
End requests.

(** ** Subscriptions *)

(** The task that forwards a subscriber's channel to its stream. *)
Record Realtime := mk_realtime {
  rt_wire : Wire; rt_last_ts : Z; rt_remove_keys : list string; rt_channel : ChannelId; }.

Record Publisher := mk_publisher {
  pb_channels : Channels;
  pb_next : ChannelId;
  pb_tasks : list Realtime;
}.

(** The arguments of [send_stream] besides the store; [sr_uni] is what
    [conn.open_uni()] returns. *)
Record StreamRequest (N : Type) := mk_stream_request {
  sr_msg : N; sr_source : option string; sr_kind : option string;
  sr_node_type : NodeType; sr_uni : result Wire; }.
Arguments mk_stream_request {N} _ _ _ _ _.
Arguments sr_msg {N} _.
Arguments sr_source {N} _.
Arguments sr_kind {N} _.
Arguments sr_node_type {N} _.
Arguments sr_uni {N} _.

(** A new channel [c], registered under every key. *)
Definition subscribe (keys : list string) (c : ChannelId) (s : Channels) : Channels :=
  mk_channels (foldl (λ m k, <[k := c]> m) (subscriptions s) keys)
    (<[c := mk_channel [] true]> (channels s)).
(** The receiving end is dropped. *)
Definition drop_receiver (c : ChannelId) (s : Channels) : Channels :=
  mk_channels (subscriptions s)
    (alter (λ ch, mk_channel (ch_queue ch) false) c (channels s)).
Definition unsubscribe (keys : list string) (s : Channels) : Channels :=
  mk_channels (foldl (λ m k, delete k m) (subscriptions s) keys) (channels s).

Section subscribe.
Context `{RocksDB} `{Chrono} `{Client}.

Definition send_crusher_stream_start_message (start_msg : string) : M Wire unit :=
  emit (SendRaw (as_bytes start_msg)).

(** The time stamp and the event *)
Definition send_crusher_data {T} `{Bincode T} (timestamp : Z) (record_data : T) : M Wire unit :=
  emit (SendBytes (i64_to_le_bytes timestamp)) ;;;
  data <-- m_lift (bincode_serialize record_data) ;;
  emit (SendRecord data).

(** One stored event of a crusher's stream; [last_ts] is the time stamp of the
    last event sent. *)
Definition send_stored_item {T N} `{Bincode T} `{EventFilter T} `{RequestStreamMessage N}
    (msg : N) (last_ts : Z) (item : result (bytes * T)) : M Wire Z :=
  kv <-- m_lift (map_err "Failed to read database" item) ;;
  match orig_addr kv.2, resp_addr kv.2 with
  | Some oa, Some ra =>
      if filter_ip msg oa ra then
        timestamp <-- m_lift (key_timestamp kv.1) ;;
        send_crusher_data timestamp kv.2 ;;;
        m_ret timestamp
      else m_ret last_ts
  | _, _ => m_lift (Err "Failed to deserialize database data")
  end.

Fixpoint send_stored {T N} `{Bincode T} `{EventFilter T} `{RequestStreamMessage N}
    (msg : N) (last_ts : Z) (items : list (result (bytes * T))) : M Wire Z :=
  match items with
  | [] => m_ret last_ts
  | item :: items =>
      last_ts <-- send_stored_item msg last_ts item ;;
      send_stored msg last_ts items
  end.

(** The start message and, for a crusher, the stored events. *)
Definition start_stream_task {T N} `{Bincode T} `{EventFilter T} `{RequestStreamMessage N}
    (store : RawEventStore T) (record_type : RequestStreamRecord) (req : StreamRequest N)
    (db : DB) : M Wire Z :=
  let msg := sr_msg req in
  match sr_node_type req with
  | Hog => emit (SendHogStart record_type) ;;; m_ret 0
  | Crusher =>
      id <-- m_lift (msg_id msg) ;;
      id <-- m_lift (context "called `Option::unwrap()` on a `None` value" id) ;;
      send_crusher_stream_start_message id ;;;
      source <-- m_lift (msg_source msg) ;;
      let key_builder := builder |> start_key source |> mid_key (as_bytes <$> sr_kind req) in
      let from_key := lower_key key_builder (Some (timestamp_nanos (start_time msg))) in
      let to_key := upper_key key_builder None in
      send_stored msg 0 (drain (boundary_iter store from_key to_key Forward db))
  end.

Definition send_stream {T N} `{Bincode T} `{EventFilter T} `{RequestStreamMessage N}
    (store : RawEventStore T) (record_type : RequestStreamRecord) (req : StreamRequest N)
    (db : DB) : M Publisher unit := λ p,
  match sr_uni req with
  | Err e => (Err e, p)
  | Ok sender =>
      match channel_key (sr_msg req) (sr_source req) (record_str record_type) with
      | Err e => (Err e, p)
      | Ok channel_keys =>
          let c := pb_next p in
          let channels := subscribe channel_keys c (pb_channels p) in
          match start_stream_task store record_type req db sender with
          | (Ok last_ts, sender) =>
              (Ok tt, mk_publisher channels (S c)
                 (pb_tasks p ++ [mk_realtime sender last_ts channel_keys c]))
          | (Err e, _) =>
              (Err e, mk_publisher (drop_receiver c channels) (S c) (pb_tasks p))
          end
      end
  end.

(** One message of the forwarding task; [None] when it ends. *)
Definition realtime_step (rt : Realtime) (buf : bytes) (s : Channels) :
    option Realtime * Channels :=
  let ts := i64_from_le_bytes (take TIMESTAMP_SIZE buf) in
  if ts <? rt_last_ts rt then (Some rt, s)
  else
    match emit (SendBytes buf) (rt_wire rt) with
    | (Ok _, w) => (Some (mk_realtime w (rt_last_ts rt) (rt_remove_keys rt) (rt_channel rt)), s)
    | (Err _, _) => (None, drop_receiver (rt_channel rt) (unsubscribe (rt_remove_keys rt) s))
    end.

Fixpoint realtime (rt : Realtime) (bufs : list bytes) (s : Channels) :
    option Realtime * Channels :=
  match bufs with
  | [] => (Some rt, s)
  | buf :: bufs =>
      match realtime_step rt buf s with
      | (Some rt, s) => realtime rt bufs s
      | (None, s) => (None, s)
      end
  end.

(** An error of [send_stream] is only logged. *)
Definition stream_of {T N} `{Bincode T} `{EventFilter T} `{RequestStreamMessage N}
    (store : result (RawEventStore T)) (record_type : RequestStreamRecord)
    (req : StreamRequest N) (db : DB) : M Publisher unit :=
  match store with
  | Ok store => m_ignore (send_stream store record_type req db)
  | Err _ => m_ret tt
  end.

Context `{Codecs}.

Definition process_stream_c {N} `{RequestStreamMessage N} (kind : RequestStreamRecord) (req : StreamRequest N) (db : DB) :
    M Publisher unit :=
  match kind with
  | RequestStreamRecord.Smb => stream_of (smb_store db) kind req db
  | RequestStreamRecord.Nfs => stream_of (nfs_store db) kind req db
  | RequestStreamRecord.FileCreate => stream_of (file_create_store db) kind req db
  | RequestStreamRecord.FileDelete => stream_of (file_delete_store db) kind req db
  | _ => m_ret tt
  end.
Definition process_stream_b {N} `{RequestStreamMessage N} (kind : RequestStreamRecord) (req : StreamRequest N) (db : DB) :
    M Publisher unit :=
  match kind with
  | RequestStreamRecord.Kerberos => stream_of (kerberos_store db) kind req db
  | RequestStreamRecord.Ssh => stream_of (ssh_store db) kind req db
  | RequestStreamRecord.DceRpc => stream_of (dce_rpc_store db) kind req db
  | RequestStreamRecord.Ftp => stream_of (ftp_store db) kind req db
  | RequestStreamRecord.Mqtt => stream_of (mqtt_store db) kind req db
  | RequestStreamRecord.Ldap => stream_of (ldap_store db) kind req db
  | RequestStreamRecord.Tls => stream_of (tls_store db) kind req db
  | _ => process_stream_c kind req db
  end.
Definition process_stream {N} `{RequestStreamMessage N} (kind : RequestStreamRecord) (req : StreamRequest N) (db : DB) :
    M Publisher unit :=
  match kind with
  | RequestStreamRecord.Conn => stream_of (conn_store db) kind req db
  | RequestStreamRecord.Dns => stream_of (dns_store db) kind req db
  | RequestStreamRecord.Rdp => stream_of (rdp_store db) kind req db
  | RequestStreamRecord.Http => stream_of (http_store db) kind req db
  | RequestStreamRecord.Log => stream_of (log_store db) kind req db
  | RequestStreamRecord.Smtp => stream_of (smtp_store db) kind req db
  | RequestStreamRecord.Ntlm => stream_of (ntlm_store db) kind req db
  | _ => process_stream_b kind req db
  end.

Context `{Bincode RequestHogStream} `{Bincode RequestCrusherStream}.
Definition stream_request (node_type : NodeType) (record_type : RequestStreamRecord)
    (raw_data : bytes) (conn_source : string) (uni : result Wire) (db : DB) :
    M Publisher unit :=
  match node_type with
  | Hog =>
      match bincode_deserialize (T := RequestHogStream) raw_data with
      | Ok msg =>
          process_stream record_type
            (mk_stream_request msg (Some conn_source) None node_type uni) db
      | Err _ => m_ret tt
      end
  | Crusher =>
      match bincode_deserialize (T := RequestCrusherStream) raw_data with
      | Ok msg =>
          process_stream record_type (mk_stream_request msg None None node_type uni) db
      | Err _ => m_ret tt
      end
  end.

Context {PcapFilter : Type} `{Bincode (list PcapFilter)} (filter_source : PcapFilter → string).

(** [request_stream]: the requests of one client, until receiving one fails or a
    capture request cannot be answered.  A request comes with the stream
    [open_uni] gives it.  The tasks it spawns are run in the order of the
    requests. *)
Fixpoint request_stream
    (requests : list (result (NodeType * RequestStreamRecord * bytes) * result Wire))
    (conn_source : string) (packet_sources : gmap string nat) (db : DB)
    (relayed : list (nat * PcapFilter)) (p : Publisher) (send : Wire) :
    result (list (nat * PcapFilter)) * Publisher * Wire :=
  match requests with
  | [] | (Err _, _) :: _ => (Ok relayed, p, send)
  | (Ok (node_type, record_type, raw_data), uni) :: requests =>
      if decide (record_type = RequestStreamRecord.Pcap) then
        match process_pcap_extract filter_source raw_data packet_sources send with
        | (Ok fs, send) =>
            request_stream requests conn_source packet_sources db (relayed ++ fs) p send
        | (Err e, send) => (Err e, p, send)
        end
      else
        let p := (stream_request node_type record_type raw_data conn_source uni db p).2 in
        request_stream requests conn_source packet_sources db relayed p send
  end.
End subscribe.
