(* ===== verification/PublishSpec.v ===== *)
(** * What the publish service guarantees

    The answers to range and raw-data requests are exactly the stored events
    asked for, in order, followed by the end marker; a subscription sends the
    stored events first and then forwards the live ones; a subscription that
    fails half way stays registered. *)

From Stdlib Require Import ZArith Lia.
From S2P Require Import Prelude Bytes Externals StorageKey NetAddr GigantoClient Events.
From S2P Require Import Filters Storage StorageSpec Demo Channels Publish.

(** ** Writing to a stream that does not break *)
Definition whole (w : Wire) : Prop := writes_left w = None.

Definition wrote (w : Wire) (l : list WireCall) : Wire := mk_wire (calls w ++ l) None.

Lemma wrote_nil w : whole w → wrote w [] = w.
Proof. destruct w as [cs o]. unfold whole, wrote. cbn. intros ->. by rewrite app_nil_r. Qed.
Lemma wrote_app w l1 l2 : wrote (wrote w l1) l2 = wrote w (l1 ++ l2).
Proof. unfold wrote. cbn. by rewrite app_assoc. Qed.
Lemma wrote_whole w l : whole (wrote w l).
Proof. done. Qed.
Lemma emit_whole c w : whole w → emit c w = (Ok tt, wrote w [c]).
Proof. unfold whole, emit. by intros ->. Qed.

#[export] Hint Resolve wrote_whole : giganto.

(** A loop whose body writes one call per item. *)
Lemma m_iter_writes {A} (body : A → M Wire unit) (P : A → WireCall → Prop) l cs w :
  (∀ a c w, P a c → whole w → body a w = (Ok tt, wrote w [c])) →
  Forall2 P l cs → whole w → m_iter body l w = (Ok tt, wrote w cs).
Proof.
  intros Hbody Hl. revert w. induction Hl as [|a c l cs Hac Hl IH]; intros w Hw.
  - cbn. unfold m_ret. by rewrite wrote_nil.
  - cbn. unfold m_bind. rewrite (Hbody a c w Hac Hw), IH by done. by rewrite wrote_app.
Qed.

Lemma m_iter_app {S A} (body : A → M S unit) l1 l2 s :
  m_iter body (l1 ++ l2) s = (m_iter body l1 ;;; m_iter body l2) s.
Proof.
  revert s. induction l1 as [|a l1 IH]; intros s; [done|].
  cbn. unfold m_bind in *. destruct (body a s) as [[[]|e] s1]; [|done]. apply IH.
Qed.

Section spec.
Context `{RocksDBSpec} `{Chrono} `{Client}.
Context {T : Type} `{!Bincode T} `{!ResponseRangeData T}.

(** The call that answers with one stored entry. *)
Definition range_call (source : string) (kv : bytes * bytes) (c : WireCall) : Prop :=
  ∃ x d, bincode_deserialize kv.2 = Ok x ∧ (TIMESTAMP_SIZE ≤ length kv.1)%nat ∧
    response_data (T := T) x (key_nanos kv.1) source = Ok d ∧ c = SendRange (Some d).

Lemma key_timestamp_ok k : (TIMESTAMP_SIZE ≤ length k)%nat → key_timestamp k = Ok (key_nanos k).
Proof. intros Hl. unfold key_timestamp. by rewrite (proj2 (Nat.ltb_ge _ _)). Qed.

Lemma send_range_item_writes source kv c w :
  range_call source kv c → whole w →
  send_range_item (T := T) source (decode kv) w = (Ok tt, wrote w [c]).
Proof.
  intros (x & d & Hx & Hl & Hd & ->) Hw. unfold send_range_item, decode, m_bind, m_lift.
  rewrite Hx. cbn [fmap result_fmap map_err fst snd]. rewrite key_timestamp_ok by done.
  rewrite Hd. by apply emit_whole.
Qed.

Definition range_entries (store : RawEventStore T) (msg : RequestRange) (availed_kind : bool)
    (db : DB) : list (bytes * bytes) :=
  take (RequestRange.count msg)
    (entries_between (cf_view db (store_cf store))
      (lower_key (range_builder msg availed_kind) (Some (timestamp_nanos (RequestRange.start msg))))
      (upper_key (range_builder msg availed_kind) (Some (timestamp_nanos (RequestRange.end_ msg))))).

Lemma process_range_data_eq store msg availed_kind db w :
  io_ok db → cf_handle db (store_cf store) = true →
  process_range_data store msg availed_kind db w =
    (m_iter (λ kv, send_range_item (T := T) (RequestRange.source msg) (decode kv))
       (range_entries store msg availed_kind db) ;;;
     emit (SendRange None) ;;; emit Finish) w.
Proof.
  intros Hio Hcf. unfold process_range_data, range_entries.
  rewrite drain_boundary_iter by done. cbn [scan_between].
  rewrite <- fmap_take. unfold m_bind. generalize (take (RequestRange.count msg)
    (entries_between (cf_view db (store_cf store))
      (lower_key (range_builder msg availed_kind) (Some (timestamp_nanos (RequestRange.start msg))))
      (upper_key (range_builder msg availed_kind) (Some (timestamp_nanos (RequestRange.end_ msg)))))).
  intros l. f_equal.
  assert (∀ w, m_iter (send_range_item (T := T) (RequestRange.source msg)) (decode <$> l) w =
    m_iter (λ kv, send_range_item (RequestRange.source msg) (decode kv)) l w) as ->; [|done].
  induction l as [|kv l IH]; intros w0; [done|]. cbn. unfold m_bind.
  destruct (send_range_item _ _ w0) as [[[]|] w1]; [|done]. apply IH.
Qed.
End spec.

(** ** Subscriptions *)
Section subscriptions.
Context `{RocksDBSpec} `{Chrono} `{Client}.
Context {T : Type} `{!Bincode T} `{!EventFilter T}.
Context {N : Type} `{!RequestStreamMessage N}.

(** The calls that send one stored event: none if the filter rejects it. *)
Definition stored_calls (msg : N) (kv : bytes * bytes) (cs : list WireCall) (ts : option Z) : Prop :=
  ∃ x oa ra, bincode_deserialize (T := T) kv.2 = Ok x ∧
    orig_addr x = Some oa ∧ resp_addr x = Some ra ∧
    if filter_ip msg oa ra then
      ∃ d, bincode_serialize x = Ok d ∧ (TIMESTAMP_SIZE ≤ length kv.1)%nat ∧
        cs = [SendBytes (i64_to_le_bytes (key_nanos kv.1)); SendRecord d] ∧
        ts = Some (key_nanos kv.1)
    else cs = [] ∧ ts = None.

Lemma send_stored_item_writes msg last_ts kv cs ts w :
  stored_calls msg kv cs ts → whole w →
  send_stored_item (T := T) msg last_ts (decode kv) w = (Ok (default last_ts ts), wrote w cs).
Proof.
  intros (x & oa & ra & Hx & Hoa & Hra & Hf) Hw.
  unfold send_stored_item, send_crusher_data, decode, m_bind, m_lift, m_ret. rewrite Hx.
  cbn [fmap result_fmap map_err fst snd]. rewrite Hoa, Hra.
  destruct (filter_ip msg oa ra).
  - destruct Hf as (d & Hd & Hl & -> & ->). rewrite key_timestamp_ok by done.
    rewrite emit_whole by done. rewrite Hd. rewrite emit_whole by done.
    by rewrite wrote_app.
  - destruct Hf as [-> ->]. by rewrite wrote_nil.
Qed.

(** The stored events of a stream and the calls that send them. *)
Definition stored_stream (msg : N) (l : list (bytes * bytes))
    (sent : list (list WireCall * option Z)) : Prop :=
  Forall2 (λ kv r, stored_calls msg kv r.1 r.2) l sent.

Lemma send_stored_writes msg l sent last_ts w :
  stored_stream msg l sent → whole w →
  send_stored (T := T) msg last_ts (decode <$> l) w =
    (Ok (default last_ts (last (omap snd sent))), wrote w (mjoin sent.*1)).
Proof.
  intros Hl. revert last_ts w. induction Hl as [|kv [cs ts] l sent Hkv Hl IH]; intros last_ts w Hw.
  - cbn. unfold m_ret. by rewrite wrote_nil.
  - cbn [fmap list_fmap send_stored]. unfold m_bind.
    rewrite (send_stored_item_writes msg last_ts kv cs ts w Hkv Hw).
    change (list_fmap _ _ decode l) with (decode (T := T) <$> l).
    rewrite IH by done. rewrite wrote_app. f_equal. f_equal. cbn.
    destruct ts as [t|]; [|done]. cbn. rewrite last_cons. by destruct (last _).
Qed.

(** The keys of a subscription name its channel, later keys over earlier. *)
Lemma subscribe_lookup keys c s k :
  subscriptions (subscribe keys c s) !! k =
    if decide (k ∈ keys) then Some c else subscriptions s !! k.
Proof.
  unfold subscribe. cbn. generalize (subscriptions s). intros m. revert m.
  induction keys as [|k' keys IH]; intros m; [done|]. cbn. rewrite IH.
  destruct (decide (k = k')) as [->|Hne].
  - rewrite lookup_insert_eq, (decide_True (P := k' ∈ k' :: keys)) by left.
    by case_decide.
  - rewrite lookup_insert_ne by done. apply decide_ext. rewrite elem_of_cons. tauto.
Qed.

Lemma drop_receiver_closed c s : closed_in (drop_receiver c s) c.
Proof.
  unfold closed_in, drop_receiver. cbn. rewrite lookup_alter_eq.
  by destruct (channels s !! c).
Qed.
End subscriptions.

Section realtime_spec.
Implicit Types rt : Realtime.

Definition frame_ts (buf : bytes) : Z := i64_from_le_bytes (take TIMESTAMP_SIZE buf).

Lemma realtime_whole rt bufs s :
  whole (rt_wire rt) →
  realtime rt bufs s =
    (Some (mk_realtime
       (wrote (rt_wire rt) (SendBytes <$> filter (λ b, rt_last_ts rt ≤ frame_ts b) bufs))
       (rt_last_ts rt) (rt_remove_keys rt) (rt_channel rt)), s).
Proof.
  revert rt. induction bufs as [|buf bufs IH]; intros rt Hw.
  - cbn. rewrite wrote_nil by done. by destruct rt.
  - cbn [realtime]. unfold realtime_step. fold (frame_ts buf). rewrite filter_cons.
    destruct (Z.ltb_spec (frame_ts buf) (rt_last_ts rt)) as [Hlt|Hge].
    + rewrite decide_False by lia. by apply IH.
    + rewrite decide_True by lia. rewrite emit_whole by done. rewrite IH by done.
      cbn. by rewrite wrote_app.
Qed.
End realtime_spec.

(** ** The properties *)
Section properties.
Context `{RocksDBSpec} `{Chrono} `{Client}.

(** C34: a range request is answered by the first [count] stored events of the
    source between its two times, in key order and each with its own time
    stamp, and then by the end marker. *)
Theorem range_response_exact {T} `{!Bincode T} `{!ResponseRangeData T}
    (store : RawEventStore T) msg availed_kind db cs w :
  io_ok db → cf_handle db (store_cf store) = true → whole w →
  Forall2 (range_call (T := T) (RequestRange.source msg))
    (range_entries store msg availed_kind db) cs →
  process_range_data store msg availed_kind db w =
    (Ok tt, wrote w (cs ++ [SendRange None; Finish])).
Proof.
  intros Hio Hcf Hw Hcs. rewrite process_range_data_eq by done. unfold m_bind.
  erewrite (m_iter_writes _ (range_call (T := T) (RequestRange.source msg)));
    [|intros kv c w' Hc Hw'; by apply send_range_item_writes|exact Hcs|exact Hw].
  rewrite emit_whole by done. rewrite emit_whole by done. by rewrite !wrote_app.
Qed.

(** An event that does not decode ends the answer with an error: the events
    before it were sent, nothing after it is, and there is no end marker. *)
Theorem range_response_stops_at_bad_event {T} `{!Bincode T} `{!ResponseRangeData T}
    (store : RawEventStore T) msg availed_kind db l1 k v l2 e cs w :
  io_ok db → cf_handle db (store_cf store) = true → whole w →
  range_entries store msg availed_kind db = l1 ++ (k, v) :: l2 →
  Forall2 (range_call (T := T) (RequestRange.source msg)) l1 cs →
  bincode_deserialize (T := T) v = Err e →
  process_range_data store msg availed_kind db w =
    (Err "Failed to read Database", wrote w cs).
Proof.
  intros Hio Hcf Hw Hl Hcs Hv. rewrite process_range_data_eq by done. rewrite Hl.
  unfold m_bind at 1. rewrite m_iter_app. unfold m_bind at 1.
  erewrite (m_iter_writes _ (range_call (T := T) (RequestRange.source msg)));
    [|intros kv c w' Hc Hw'; by apply send_range_item_writes|exact Hcs|exact Hw].
  cbn [m_iter]. unfold m_bind, send_range_item, decode, m_lift. cbn. by rewrite Hv.
Qed.

(** The stored values a raw-data request asks for, in the order it asks. *)
Definition requested (m : gmap bytes bytes) (input : list (string * list Z)) :
    list (Z * string * bytes) :=
  input ≫= λ '(source, timestamps),
    omap (λ ts, (λ v, (ts, source, v)) <$> m !! event_key source None ts) timestamps.

Definition raw_call {T} `{!Bincode T} `{!ResponseRangeData T} (item : Z * string * bytes)
    (c : WireCall) : Prop :=
  ∃ x d, bincode_deserialize (T := T) item.2 = Ok x ∧
    response_data x item.1.1 item.1.2 = Ok d ∧ c = SendRange (Some d).

Lemma requested_eq {T} (store : RawEventStore T) input db :
  io_ok db → cf_handle db (store_cf store) = true →
  (input ≫= λ '(source, timestamps), multi_get_with_source store source timestamps db) =
    requested (cf_view db (store_cf store)) input.
Proof.
  intros Hio Hcf. unfold requested. induction input as [|[source timestamps] input IH]; [done|].
  cbn. rewrite IH. f_equal. unfold multi_get_with_source.
  induction timestamps as [|ts timestamps IH2]; [done|]. cbn [omap list_omap].
  rewrite IH2. unfold get_value. rewrite get_io by done. done.
Qed.

(** A raw-data request is answered by the stored event of every source and
    time stamp it lists, in its order; a time without an event is skipped. *)
Theorem raw_response_exact {T} `{!Bincode T} `{!ResponseRangeData T}
    (store : RawEventStore T) input db cs w :
  io_ok db → cf_handle db (store_cf store) = true → whole w →
  Forall2 (raw_call (T := T)) (requested (cf_view db (store_cf store)) input) cs →
  process_raw_events store input db w = (Ok tt, wrote w (cs ++ [SendRange None; Finish])).
Proof.
  intros Hio Hcf Hw Hcs. unfold process_raw_events.
  rewrite requested_eq by done.
  unfold m_bind.
  erewrite (m_iter_writes _ (raw_call (T := T))); [|clear|exact Hcs|exact Hw].
  - rewrite emit_whole by done. rewrite emit_whole by done. by rewrite !wrote_app.
  - intros [[ts source] v] c w (x & d & Hx & Hd & ->) Hw. cbn in *.
    unfold m_bind, m_lift. rewrite Hx, Hd. by apply emit_whole.
Qed.

(** a range request for file-creation-time events never reads their column
    family: two databases that agree on the [file create] family get the same
    answer, whatever file-creation-time events they hold. *)
Theorem range_ignores_file_create_time `{Codecs} `{RangeCodecs} msg db1 db2 w :
  io_ok db1 → io_ok db2 →
  cf_handle db1 "file create" = true → cf_handle db2 "file create" = true →
  cf_view db1 "file create" = cf_view db2 "file create" →
  range_request RawEventKind.FileCreateTime msg db1 w =
  range_request RawEventKind.FileCreateTime msg db2 w.
Proof.
  intros Hio1 Hio2 Hcf1 Hcf2 Hv. cbn [range_request range_request_b].
  unfold range_of_store, file_create_store, raw_event_store, m_bind, m_lift.
  rewrite Hcf1, Hcf2. cbn [map_err]. rewrite !process_range_data_eq by done.
  unfold range_entries. cbn [store_cf]. by rewrite Hv.
Qed.

(** a crusher's subscription first sends its id, then every stored event of
    the source from the start time on that its address filter accepts, in key
    order, and leaves a forwarding task that remembers the time stamp of the
    last event sent. *)
Theorem crusher_gets_stored_events {T N} `{!Bincode T} `{!EventFilter T}
    `{!RequestStreamMessage N} (store : RawEventStore T) record_type (req : StreamRequest N)
    id source keys sent sender db p :
  io_ok db → cf_handle db (store_cf store) = true →
  sr_node_type req = Crusher → sr_uni req = Ok sender → whole sender →
  msg_id (sr_msg req) = Ok (Some id) → msg_source (sr_msg req) = Ok source →
  channel_key (sr_msg req) (sr_source req) (record_str record_type) = Ok keys →
  stored_stream (T := T) (sr_msg req)
    (entries_between (cf_view db (store_cf store))
      (lower_key (builder |> start_key source |> mid_key (as_bytes <$> sr_kind req))
         (Some (timestamp_nanos (start_time (sr_msg req)))))
      (upper_key (builder |> start_key source |> mid_key (as_bytes <$> sr_kind req)) None)) sent →
  send_stream store record_type req db p =
    (Ok tt, mk_publisher (subscribe keys (pb_next p) (pb_channels p)) (S (pb_next p))
       (pb_tasks p ++ [mk_realtime (wrote sender (SendRaw (as_bytes id) :: mjoin sent.*1))
                         (default 0 (last (omap snd sent))) keys (pb_next p)])).
Proof.
  intros Hio Hcf Hnode Huni Hw Hid Hsrc Hkeys Hsent.
  unfold send_stream. rewrite Huni, Hkeys. unfold start_stream_task, send_crusher_stream_start_message. rewrite Hnode, Hid, Hsrc.
  unfold m_bind, m_lift. cbn [context]. rewrite emit_whole by done.
  rewrite drain_boundary_iter by done. cbn [scan_between].
  rewrite (send_stored_writes (sr_msg req) _ sent 0 _ Hsent) by done.
  by rewrite wrote_app.
Qed.

(** the forwarding task sends every live frame whose time stamp is not older
    than that of the last stored event, in the order of arrival, and drops the
    others. *)
Theorem realtime_forwards_newer rt bufs s :
  whole (rt_wire rt) →
  realtime rt bufs s =
    (Some (mk_realtime
       (wrote (rt_wire rt) (SendBytes <$> filter (λ b, rt_last_ts rt ≤ frame_ts b) bufs))
       (rt_last_ts rt) (rt_remove_keys rt) (rt_channel rt)), s).
Proof. apply realtime_whole. Qed.

(** a subscription that fails after it was registered (the start message, a
    stored event that does not decode or has no addresses) leaves its keys in
    the map, with a channel nobody reads. *)
Theorem failed_subscription_stays {T N} `{!Bincode T} `{!EventFilter T}
    `{!RequestStreamMessage N} (store : RawEventStore T) record_type (req : StreamRequest N)
    sender keys e w db p k :
  sr_uni req = Ok sender →
  channel_key (sr_msg req) (sr_source req) (record_str record_type) = Ok keys →
  start_stream_task store record_type req db sender = (Err e, w) → k ∈ keys →
  ∃ p', send_stream store record_type req db p = (Err e, p') ∧
    subscriptions (pb_channels p') !! k = Some (pb_next p) ∧
    ∃ ch, channels (pb_channels p') !! pb_next p = Some ch ∧ ch_open ch = false.
Proof.
  intros Huni Hkeys Hstart Hk. unfold send_stream. rewrite Huni, Hkeys, Hstart.
  eexists. split; [reflexivity|]. split.
  - change (subscriptions (subscribe keys (pb_next p) (pb_channels p)) !! k = Some (pb_next p)).
    rewrite subscribe_lookup. by rewrite decide_True.
  - cbn. rewrite lookup_alter_eq, lookup_insert_eq. eexists. split; [reflexivity|done].
Qed.
End properties.

(** ** Witnesses *)
#[local] Instance blob_range : ResponseRangeData Blob := λ x _ _, Ok (blob x).
#[local] Instance undecoded (T : Type) : Bincode T | 100 := {|
  bincode_serialize _ := Err "not encoded"; bincode_deserialize _ := Err "not decoded" |}.
#[local] Instance no_codecs : Codecs.
Proof. constructor; apply undecoded. Defined.
#[local] Instance no_range_codecs : RangeCodecs.
Proof. constructor; exact (λ _ _ _, Err "not encoded"). Defined.

Definition demo_wire : Wire := mk_wire [] None.
Definition demo_range : RequestRange :=
  RequestRange.mk "src1" "conn" 100000000000 250000000000 10.

Lemma range_response_exact_witness :
  process_range_data demo_store demo_range false demo_db demo_wire =
    (Ok tt, mk_wire [SendRange (Some [Byte.x01]); SendRange (Some [Byte.x02]);
                     SendRange None; Finish] None).
Proof.
  apply (range_response_exact demo_store demo_range false demo_db
    [SendRange (Some [Byte.x01]); SendRange (Some [Byte.x02])]); [concrete..|].
  assert (range_entries demo_store demo_range false demo_db =
    [(event_key "src1" None 100000000000, [Byte.x01]);
     (event_key "src1" None 200000000000, [Byte.x02])]) as -> by (vm_compute; reflexivity).
  repeat (constructor; [do 2 eexists; split_and!; [reflexivity|concrete|reflexivity..]|]).
  constructor.
Defined.

Lemma range_response_stops_at_bad_event_witness :
  process_range_data demo_store (RequestRange.mk "src1" "conn" 200000000000 500000000000 10)
    false demo_db demo_wire =
    (Err "Failed to read Database", mk_wire [SendRange (Some [Byte.x02])] None).
Proof.
  refine (range_response_stops_at_bad_event demo_store
    (RequestRange.mk "src1" "conn" 200000000000 500000000000 10) false demo_db
    [(event_key "src1" None 200000000000, [Byte.x02])]
    (event_key "src1" None 300000000000) [Byte.xff]
    [(event_key "src1" None 400000000000, [Byte.x04])] "invalid data"
    [SendRange (Some [Byte.x02])] demo_wire _ _ _ _ _ _).
  1-3, 6: concrete.
  - vm_compute. reflexivity.
  - constructor; [|constructor]. do 2 eexists; split_and!; [reflexivity|concrete|reflexivity..].
Defined.

Lemma raw_response_exact_witness :
  process_raw_events demo_store [("src1", [400000000000; 5]); ("src10", [150000000000])]
    demo_db demo_wire =
    (Ok tt, mk_wire [SendRange (Some [Byte.x04]); SendRange (Some [Byte.x09]);
                     SendRange None; Finish] None).
Proof.
  apply (raw_response_exact demo_store [("src1", [400000000000; 5]); ("src10", [150000000000])]
    demo_db [SendRange (Some [Byte.x04]); SendRange (Some [Byte.x09])]); [concrete..|].
  assert (requested (cf_view demo_db (store_cf demo_store))
    [("src1", [400000000000; 5]); ("src10", [150000000000])] =
    [(400000000000, "src1", [Byte.x04]); (150000000000, "src10", [Byte.x09])]) as ->
    by (vm_compute; reflexivity).
  repeat (constructor; [do 2 eexists; split_and!; reflexivity|]). constructor.
Defined.

(** The demonstration database with one more file-creation-time event. *)
Definition created_db : @DB mem_rocksdb :=
  <["file create time" := {[ event_key "src1" None 100000000000 := [Byte.x05] ]}]>
    (demo_db : Mem.db).

Lemma range_ignores_file_create_time_witness :
  range_request RawEventKind.FileCreateTime demo_range created_db demo_wire =
  range_request RawEventKind.FileCreateTime demo_range demo_db demo_wire.
Proof. apply range_ignores_file_create_time; concrete. Defined.

(** An event between two fixed hosts. *)
Record Hop := mk_hop { hop : bytes }.
#[local] Instance hop_bincode : Bincode Hop := {|
  bincode_serialize x := Ok (hop x); bincode_deserialize b := Ok (mk_hop b) |}.
#[local] Instance hop_filter : EventFilter Hop :=
  endpoint_filter "hop" (λ _, V4 1) (λ _, V4 2) (λ _, 80) (λ _, 80).
Definition hop_store : RawEventStore Hop := mk_store "conn".
Definition crusher_msg (start : Z) : RequestCrusherStream :=
  RequestCrusherStream.mk start "id1" (Some (V4 1)) None (Some "src1").
Definition crusher_request (start : Z) : StreamRequest RequestCrusherStream :=
  mk_stream_request (crusher_msg start) None None Crusher (Ok demo_wire).
Definition demo_publisher : Publisher := mk_publisher no_channels 0 [].

Lemma crusher_gets_stored_events_witness :
  (send_stream hop_store RequestStreamRecord.Conn (crusher_request 400000000000) demo_db
     demo_publisher).2 =
    mk_publisher (subscribe [crusher_key "id1" "src1" "conn"] 0 no_channels) 1
      [mk_realtime (mk_wire [SendRaw (as_bytes "id1");
                             SendBytes (i64_to_le_bytes 400000000000);
                             SendRecord [Byte.x04]] None)
         400000000000 [crusher_key "id1" "src1" "conn"] 0].
Proof.
  rewrite (crusher_gets_stored_events hop_store RequestStreamRecord.Conn
    (crusher_request 400000000000) "id1" "src1" [crusher_key "id1" "src1" "conn"]
    [([SendBytes (i64_to_le_bytes 400000000000); SendRecord [Byte.x04]], Some 400000000000)]
    demo_wire demo_db demo_publisher); [reflexivity|concrete..|].
  assert (entries_between (cf_view demo_db (store_cf hop_store))
      (lower_key (builder |> start_key "src1" |> mid_key None)
         (Some (timestamp_nanos 400000000000)))
      (upper_key (builder |> start_key "src1" |> mid_key None) None) =
    [(event_key "src1" None 400000000000, [Byte.x04])]) as He by (vm_compute; reflexivity).
  unfold stored_stream. cbn [sr_msg sr_kind crusher_request crusher_msg start_time
    crusher_message RequestCrusherStream.start fmap option_fmap option_map]. rewrite He.
  constructor; [|constructor].
  do 3 eexists. split_and!; [reflexivity..|]. cbn.
  eexists. split_and!; [reflexivity|concrete|vm_compute; reflexivity..].
Defined.

Lemma realtime_forwards_newer_witness :
  (realtime (mk_realtime demo_wire 5 [] 0)
     [i64_to_le_bytes 4; i64_to_le_bytes 5; i64_to_le_bytes 6] no_channels).1 =
    Some (mk_realtime (mk_wire [SendBytes (i64_to_le_bytes 5); SendBytes (i64_to_le_bytes 6)] None)
            5 [] 0).
Proof. rewrite realtime_forwards_newer by reflexivity. vm_compute. reflexivity. Defined.

Lemma failed_subscription_stays_witness :
  ∃ p', send_stream demo_store RequestStreamRecord.Conn (crusher_request 0) demo_db
      demo_publisher = (Err "Failed to deserialize database data", p') ∧
    subscriptions (pb_channels p') !! crusher_key "id1" "src1" "conn" = Some 0%nat.
Proof.
  destruct (failed_subscription_stays demo_store RequestStreamRecord.Conn (crusher_request 0)
    demo_wire [crusher_key "id1" "src1" "conn"] "Failed to deserialize database data"
    (mk_wire [SendRaw (as_bytes "id1")] None) demo_db demo_publisher
    (crusher_key "id1" "src1" "conn")) as (p' & Hs & Hsub & _).
  - concrete.
  - concrete.
  - vm_compute. reflexivity.
  - left.
  - exists p'. split; [exact Hs|exact Hsub].
Defined.
