(* ===== verification/Statistics.v ===== *)
(** * The statistics query (src/src/graphql/statistics.rs)

    [statistics] opens, for every source, one iterator per core from the newest
    record to the oldest, and [gen_statistics] merges them: at each round the
    records of the newest time stamp are summed up and their iterators
    advanced.  [Vec::remove] on the list of iterators is [delete], the order in
    which the [HashMap] of totals is read is the parameter [hash_order], and
    the sums of [u64] wrap, as they do in a release build. *)

From Stdlib Require Import ZArith Lia.
From Stdlib Require Import Floats.SpecFloat.
From S2P Require Import Prelude Bytes Externals StorageKey NetAddr GigantoClient Events.
From S2P Require Import Filters Storage.

Definition MAX_CORE_SIZE : nat := 16.
Definition BYTE_TO_BIT : Z := 8.
Definition STATS_ALLOWED_KINDS : list RawEventKind := [
  RawEventKind.Conn; RawEventKind.Dns; RawEventKind.Rdp; RawEventKind.Http;
  RawEventKind.Smtp; RawEventKind.Ntlm; RawEventKind.Kerberos; RawEventKind.Ssh;
  RawEventKind.DceRpc; RawEventKind.Ftp; RawEventKind.Mqtt; RawEventKind.Ldap;
  RawEventKind.Tls; RawEventKind.Smb; RawEventKind.Nfs; RawEventKind.Statistics].

Module StatisticsDetail.
Record t := mk { protocol : string; bps : option spec_float; pps : option spec_float;
  eps : option spec_float; }.
End StatisticsDetail.
Notation StatisticsDetail := StatisticsDetail.t.

Module StatisticsInfo.
Record t := mk { timestamp : Z; detail : list StatisticsDetail; }.
End StatisticsInfo.
Notation StatisticsInfo := StatisticsInfo.t.

Module StatisticsRawEvent.
Record t := mk { source : string; stats : list StatisticsInfo; }.
End StatisticsRawEvent.
Notation StatisticsRawEvent := StatisticsRawEvent.t.

(** ** Rates *)

(** [u64 as f64] and the division of [f64] *)
Definition f64_of_Z (z : Z) : spec_float := binary_normalize 53 1024 z 0 false.
Definition f64_div : spec_float → spec_float → spec_float := SFdiv 53 1024.

(** [n / d], rounded to the nearest integer, ties to even *)
Definition round_half_even (n d : Z) : Z :=
  let q := n / d in
  match 2 * (n mod d) ?= d with
  | Lt => q
  | Gt => q + 1
  | Eq => if Z.even q then q else q + 1
  end.

(** [m * 2^e] in hundredths: the digits [format!("{:.2}")] shows. *)
Definition hundredths (m : positive) (e : Z) : Z :=
  if 0 <=? e then Zpos m * 2 ^ e * 100 else round_half_even (Zpos m * 100) (2 ^ (- e)).

(** [format!("{:.2}", x).parse::<f64>()]: the text is the decimal value in
    hundredths, and reading it gives the nearest [f64]. *)
Definition through_text (x : spec_float) : spec_float :=
  match x with
  | S754_finite s m e =>
      match hundredths m e with
      | Zpos h => f64_div (S754_finite s h 0) (S754_finite false 100 0)
      | _ => S754_zero s
      end
  | _ => x
  end.

Definition calculate_ps (period len : Z) : spec_float :=
  through_text (f64_div (f64_of_Z len) (f64_of_Z period)).

Definition wrap_u64 (z : Z) : Z := z mod 2 ^ 64.

(** ** Merging the cores *)
(** [HashMap<RawEventKind, (u64, u64)>]: counts and sizes by kind. *)
Notation Totals := (list (RawEventKind * (Z * Z))).

Fixpoint add_total (record : RawEventKind) (count size : Z) (totals : Totals) : Totals :=
  match totals with
  | [] => [(record, (count, size))]
  | (k, (c, s)) :: totals =>
      if decide (k = record) then (k, (wrap_u64 (c + count), wrap_u64 (s + size))) :: totals
      else (k, (c, s)) :: add_total record count size totals
  end.

Definition add_record (allowed : list RawEventKind) (totals : Totals)
    (r : RawEventKind * Z * Z) : Totals :=
  let '(record, count, size) := r in
  if decide (record ∈ allowed) then add_total record count size totals else totals.

Definition add_stats (allowed : list RawEventKind) (totals : Totals) (value : Statistics) :
    Totals :=
  foldl (add_record allowed) totals (Statistics.stats value).

(** [iter.max_by_key(..)] on the suffixes: the last of the greatest. *)
Definition later_key (best x : bytes * Statistics) : bytes * Statistics :=
  match bytes_cmp (key_suffix x.1) (key_suffix best.1) with Lt => best | _ => x end.
Definition latest (values : list (bytes * Statistics)) : option (bytes * Statistics) :=
  match values with
  | [] => None
  | x :: values => Some (foldl later_key x values)
  end.

Class HashOrder := hash_order : Totals → Totals.
Class HashOrderLaws `{HashOrder} : Prop := hash_order_perm l : hash_order l ≡ₚ l.

Section details.
Context `{Client}.

Definition detail_of (period : Z) (r_type : RawEventKind) (count size : Z) : StatisticsDetail :=
  if decide (r_type = RawEventKind.Statistics) then
    StatisticsDetail.mk (kind_debug r_type)
      (Some (calculate_ps period (wrap_u64 (size * BYTE_TO_BIT))))
      (Some (calculate_ps period count)) None
  else
    StatisticsDetail.mk (kind_debug r_type) None None (Some (calculate_ps period count)).

Definition details `{HashOrder} (period : Z) (totals : Totals) : list StatisticsDetail :=
  (λ '(r_type, (count, size)), detail_of period r_type count size) <$> hash_order totals.

Definition convert_to_stats_allowed_type (input : string) : result RawEventKind :=
  let raw_event_kind := default kind_default (kind_from_str input) in
  if decide (raw_event_kind ∈ STATS_ALLOWED_KINDS) then Ok raw_event_kind
  else Err "not allowed RawEventKind string".
End details.

Section gen.
Context `{Client} `{HashOrder} {It : Type} `{Iterator It (bytes * Statistics)}.
Implicit Types (its : list It) (values : list (bytes * Statistics)).

(** The first items; an iterator without one adds no value. *)
Fixpoint first_values its : list It * list (bytes * Statistics) :=
  match its with
  | [] => ([], [])
  | it :: its =>
      let '(item, it) := next it in
      let '(its, values) := first_values its in
      (it :: its, match item with Some item => item :: values | None => values end)
  end.

(** The indices of the values with the time stamp. *)
Definition candidates (ts : Z) values : list nat :=
  filter (λ idx, (key_nanos ∘ fst) <$> values !! idx = Some ts) (seq 0 (length values)).

Definition same_time (ts : Z) values : list (bytes * Statistics) :=
  filter (λ v, key_nanos v.1 = ts) values.

(** Replaces the value of an iterator by its next one, or drops both. *)
Definition advance (st : list It * list (bytes * Statistics)) (idx : nat) :
    list It * list (bytes * Statistics) :=
  let '(its, values) := st in
  match its !! idx with
  | Some it =>
      match next it with
      | (Some item, it) => (<[idx := it]> its, <[idx := item]> values)
      | (None, _) => (delete idx its, delete idx values)
      end
  | None => (its, values)
  end.

Definition info_of_round (allowed : list RawEventKind) (period ts : Z) values : StatisticsInfo :=
  StatisticsInfo.mk ts
    (details period (foldl (add_stats allowed) [] (same_time ts values).*2)).

(** One turn of the loop on the most recent value. *)
Definition gen_round (allowed : list RawEventKind) (latest_value : bytes * Statistics)
    (st : list It * list (bytes * Statistics)) :
    StatisticsInfo * (list It * list (bytes * Statistics)) :=
  let ts := key_nanos latest_value.1 in
  (info_of_round allowed (Statistics.period latest_value.2) ts st.2,
   foldl advance st (reverse (candidates ts st.2))).

Fixpoint gen_loop (fuel : nat) (latest_flag : bool) (allowed : list RawEventKind)
    (infos : list StatisticsInfo) (st : list It * list (bytes * Statistics)) :
    result (list StatisticsInfo * list It) :=
  match fuel with
  | O => Err "out of fuel"
  | S fuel =>
      match latest st.2 with
      | None => Ok (infos, st.1)
      | Some v =>
          let '(info, st) := gen_round allowed v st in
          if latest_flag then Ok (infos ++ [info], st.1)
          else gen_loop fuel latest_flag allowed (infos ++ [info]) st
      end
  end.

(** The items the iterators still hold, and one per iterator for its removal. *)
Definition gen_measure its : nat := sum_list ((λ it, S (remaining it)) <$> its).

(** It returns the event and the iterators it leaves behind. *)
Definition gen_statistics (its : list It) (source : string) (latest_flag : bool)
    (allowed : list RawEventKind) : result (StatisticsRawEvent * list It) :=
  let st := first_values its in
  r ← gen_loop (S (gen_measure st.1)) latest_flag allowed [] st;
  let '(infos, its) := r in
  Ok (StatisticsRawEvent.mk source infos, its).
End gen.

(** ** The query *)
Section query.
Context `{RocksDB} `{Chrono} `{Client} `{HashOrder} `{!Bincode Statistics}.

Notation CoreIter := (Peekable (StatisticsIter Statistics) (bytes * Statistics)).

Definition get_statistics_iter (st : RawEventStore Statistics) (core_id : Z)
    (source : string) (time : option TimeRange) (db : DB) : StatisticsIter Statistics :=
  let '(start, end_) := range_of time in
  let key_builder :=
    builder |> start_key source |> mid_key (Some (be_bytes 4 core_id)) in
  let from_key := upper_key key_builder end_ in
  let to_key := lower_key key_builder start in
  mk_statistics_iter (boundary_iter st from_key to_key Reverse db).

Fixpoint open_cores (cores : list nat) (source : string) (time : option TimeRange)
    (db : DB) : result (list CoreIter) :=
  match cores with
  | [] => Ok []
  | core :: cores =>
      st ← statistics_store db;
      let '(item, it) := peek (peekable (get_statistics_iter st (Z.of_nat core) source time db)) in
      its ← open_cores cores source time db;
      Ok (match item with Some _ => it :: its | None => its end)
  end.

(** The loop over the sources; the vector of iterators is declared outside of
    it. *)
Fixpoint statistics_loop (sources : list string) (time : option TimeRange)
    (allowed : list RawEventKind) (stats_iters : list CoreIter) (db : DB) :
    result (list StatisticsRawEvent) :=
  match sources with
  | [] => Ok []
  | source :: sources =>
      its ← open_cores (seq 0 MAX_CORE_SIZE) source time db;
      r ← gen_statistics (stats_iters ++ its) source (bool_decide (time = None)) allowed;
      let '(stats, stats_iters) := r in
      rest ← statistics_loop sources time allowed stats_iters db;
      Ok (stats :: rest)
  end.

Fixpoint convert_all (protocols : list string) : result (list RawEventKind) :=
  match protocols with
  | [] => Ok []
  | proto :: protocols =>
      kind ← convert_to_stats_allowed_type proto;
      kinds ← convert_all protocols;
      Ok (kind :: kinds)
  end.

Definition statistics (time : option TimeRange) (sources : list string)
    (protocols : option (list string)) (db : DB) : result (list StatisticsRawEvent) :=
  raw_event_kinds ← match protocols with
                    | Some protocols => convert_all protocols
                    | None => Ok STATS_ALLOWED_KINDS
                    end;
  statistics_loop sources time raw_event_kinds [] db.
End query.
