(* ===== verification/StatisticsSpec.v ===== *)
(** * What the statistics query guarantees

    Theorems about [Statistics]: the merge of the cores terminates, reports
    every time stamp of the window once, newest first, with the totals of all
    cores; and what the iterators left over by one source do to the next. *)

From Stdlib Require Import ZArith Lia.
From Stdlib Require Import Floats.SpecFloat.
From S2P Require Import Prelude Bytes Externals StorageKey NetAddr GigantoClient Events.
From S2P Require Import Filters Storage StorageSpec Demo Statistics.

Notation Record := (bytes * Statistics)%type.
Definition ns (v : Record) : Z := key_nanos v.1.

(** ** The most recent value *)
Lemma latest_fold values v :
  good_key v.1 → Forall (λ w, good_key w.1) values →
  let m := foldl later_key v values in
  (∀ w, w ∈ v :: values → ns w ≤ ns m) ∧
  last (filter (λ w, key_nanos w.1 = ns m) (v :: values)) = Some m.
Proof.
  revert v. induction values as [|w values IH] using rev_ind; intros v Hv Hg.
  - cbn [foldl]. split; [intros x ->%list_elem_of_singleton; done|].
    by rewrite filter_cons_True.
  - rewrite Forall_app, Forall_singleton in Hg. destruct Hg as [Hg Hw].
    destruct (IH v Hv Hg) as [Hmax Hlast]. rewrite foldl_app. cbn [foldl].
    set (m := foldl later_key v values) in *.
    assert (good_key m.1) as Hm.
    { apply last_Some_elem_of, list_elem_of_filter in Hlast as [_ Hin].
      apply elem_of_cons in Hin as [->|Hin]; [done|].
      rewrite Forall_forall in Hg. by apply Hg. }
    unfold later_key. rewrite suffix_cmp by done. fold (ns w) (ns m).
    change (v :: values ++ [w]) with ((v :: values) ++ [w]).
    destruct (Z.compare_spec (ns w) (ns m)) as [E|E|E].
    + split; [intros x [Hx| ->%list_elem_of_singleton]%elem_of_app; [rewrite E; auto|done]|].
      by rewrite filter_app, (filter_cons_True _ w []), filter_nil, last_snoc.
    + split; [intros x [Hx| ->%list_elem_of_singleton]%elem_of_app; [auto|lia]|].
      rewrite filter_app, (filter_cons_False _ w []), filter_nil, app_nil_r; [done|].
      unfold ns in *. lia.
    + split; [intros x [Hx| ->%list_elem_of_singleton]%elem_of_app; [|done]|].
      * specialize (Hmax x Hx). lia.
      * by rewrite filter_app, (filter_cons_True _ w []), filter_nil, last_snoc.
Qed.

Lemma latest_spec values :
  values ≠ [] → Forall (λ w, good_key w.1) values →
  ∃ m, latest values = Some m ∧ (∀ w, w ∈ values → ns w ≤ ns m) ∧
    last (filter (λ w, key_nanos w.1 = ns m) values) = Some m.
Proof.
  destruct values as [|v values]; [done|]. intros _ [Hv Hg]%Forall_cons.
  exists (foldl later_key v values). split; [done|]. by apply latest_fold.
Qed.

(** ** One round *)
Section rounds.
Context {It : Type} `{IteratorLaws It Record}.
Implicit Types (its : list It) (values : list Record) (lanes : list (list Record)).

(** What the cores still offer: the value taken out, then the iterator. *)
Definition lanes_of its values : list (list Record) := zip_with (λ it v, v :: drain it) its values.

(** The lanes after the round of time stamp [ts]. *)
Fixpoint step_lanes (ts : Z) lanes : list (list Record) :=
  match lanes with
  | [] => []
  | (v :: (w :: l) as l') :: lanes =>
      (if decide (ns v = ts) then w :: l else v :: w :: l) :: step_lanes ts lanes
  | [v] :: lanes => if decide (ns v = ts) then step_lanes ts lanes else [v] :: step_lanes ts lanes
  | [] :: lanes => step_lanes ts lanes
  end.

Lemma candidates_cons ts v values :
  candidates ts (v :: values) =
    (if decide (ns v = ts) then [0%nat] else []) ++ (S <$> candidates ts values).
Proof.
  unfold candidates. cbn [length seq]. rewrite filter_cons. cbn [lookup list_lookup fmap option_fmap].
  rewrite <- fmap_S_seq.
  assert (∀ l, filter (λ idx, (key_nanos ∘ fst) <$> (v :: values) !! idx = Some ts) (S <$> l) =
    S <$> filter (λ idx, (key_nanos ∘ fst) <$> values !! idx = Some ts) l) as ->.
  { intros l. induction l as [|i l IH]; [done|].
    rewrite fmap_cons, !filter_cons, IH. cbn [lookup list_lookup].
    repeat case_decide; done. }
  unfold ns. repeat case_decide; naive_solver.
Qed.

Lemma advance_S it v its values i :
  advance (it :: its, v :: values) (S i) =
    (let '(its, values) := advance (its, values) i in (it :: its, v :: values)).
Proof.
  unfold advance. cbn [lookup list_lookup].
  destruct (its !! i) as [it'|]; [|done]. by destruct (next it') as [[item|] it''].
Qed.

Lemma foldl_advance_S it v idxs its values :
  foldl advance (it :: its, v :: values) (S <$> idxs) =
    (let '(its, values) := foldl advance (its, values) idxs in (it :: its, v :: values)).
Proof.
  revert its values. induction idxs as [|i idxs IH]; intros its values; [done|].
  rewrite fmap_cons. cbn [foldl]. rewrite advance_S.
  by destruct (advance (its, values) i).
Qed.

Lemma round_lanes ts its values its' values' :
  length its = length values →
  foldl advance (its, values) (reverse (candidates ts values)) = (its', values') →
  length its' = length values' ∧ lanes_of its' values' = step_lanes ts (lanes_of its values).
Proof.
  revert values its' values'. induction its as [|it its IH]; intros [|v values] its' values' Hl; try done.
  - by intros [= <- <-].
  - injection Hl as Hl. rewrite candidates_cons, reverse_app, foldl_app, <- fmap_reverse, foldl_advance_S.
    destruct (foldl advance (its, values) _) as [its1 values1] eqn:E1.
    apply IH in E1 as [Hl1 Hs1]; [|done]. cbn [lanes_of zip_with step_lanes].
    fold (lanes_of its values) (lanes_of its1 values1).
    rewrite (drain_unfold it). case_decide as Hv.
    + cbn [reverse rev_append foldl advance]. cbn [lookup list_lookup].
      destruct (next it) as [[item|] it'] eqn:En; intros [= <- <-];
        cbn [delete list_delete list_insert insert lanes_of zip_with length];
        fold (lanes_of its1 values1); rewrite Hs1; auto.
    + intros [= <- <-]. cbn [length lanes_of zip_with]. fold (lanes_of its1 values1).
      rewrite (drain_unfold it). rewrite Hs1. split; [by rewrite Hl1|].
      by destruct (next it) as [[item|] it'].
Qed.

Definition descending : list Record → Prop := StronglySorted (λ a b, ns b < ns a).

Lemma elem_of_heads its values v : v ∈ values → length its = length values →
  v ∈ concat (lanes_of its values).
Proof.
  revert values. induction its as [|it its IH]; intros [|w values] Hin Hl;
    try discriminate Hl; [by apply not_elem_of_nil in Hin|].
  - cbn. apply elem_of_cons in Hin as [->|Hin]; [left|].
    right. apply elem_of_app. right. apply IH; [done|]. by injection Hl.
Qed.

(** The newest record is the first of its lane. *)
Lemma heads_bound its values ts :
  length its = length values → Forall descending (lanes_of its values) →
  (∀ v, v ∈ values → ns v ≤ ts) → ∀ v, v ∈ concat (lanes_of its values) → ns v ≤ ts.
Proof.
  revert values. induction its as [|it its IH]; intros [|w values] Hl Hd Hv v; cbn;
    [by intros ?%not_elem_of_nil..|].
  apply Forall_cons in Hd as [Hw Hd]. apply StronglySorted_inv in Hw as [_ Hw].
  rewrite Forall_forall in Hw.
  assert (ns w ≤ ts) by (apply Hv; left).
  intros [->|[Hin|Hin]%elem_of_app]%elem_of_cons; [done| |].
  - specialize (Hw v Hin). cbn in Hw. lia.
  - eapply IH; [by injection Hl|done| |done]. intros x Hx. apply Hv. by right.
Qed.

Lemma filter_older ts (l : list Record) :
  Forall (λ v, ns v < ts) l → filter (λ v, ns v ≠ ts) l = l.
Proof. intros Hl. apply filter_true. eapply Forall_impl; [exact Hl|]. cbn. lia. Qed.

Lemma step_lanes_spec ts lanes :
  Forall descending lanes → Forall (λ v, ns v ≤ ts) (concat lanes) →
  concat (step_lanes ts lanes) = filter (λ v, ns v ≠ ts) (concat lanes) ∧
  Forall descending (step_lanes ts lanes).
Proof.
  induction lanes as [|l lanes IH]; [done|]. intros [Hl Hd]%Forall_cons Ht.
  cbn [concat] in *. rewrite Forall_app in Ht. destruct Ht as [Hlt Ht].
  destruct (IH Hd Ht) as [Hc Hs]. rewrite filter_app, <- Hc.
  destruct l as [|v l]; [done|].
  apply Forall_cons in Hlt as [Hv _]. pose proof Hl as [Hl' Hall]%StronglySorted_inv.
  assert (Forall (λ w, ns w < ts) l) as Hold
    by (eapply Forall_impl; [exact Hall|]; cbn; lia).
  rewrite filter_cons, (filter_older ts l) by done.
  destruct l as [|w l]; cbn [step_lanes]; repeat case_decide; try done;
    cbn [concat app]; split; auto.
Qed.

(** What is reported of a time stamp, given the records of all cores. *)
Definition info_at `{Client} `{HashOrder} (allowed : list RawEventKind) (all : list Record)
    (ts : Z) : StatisticsInfo :=
  let here := filter (λ v, key_nanos v.1 = ts) all in
  StatisticsInfo.mk ts
    (details (from_option (Statistics.period ∘ snd) 0 (last here))
       (foldl (add_stats allowed) [] here.*2)).

(** The time stamps of the records, each once, newest first. *)
Definition times_of (all : list Record) (times : list Z) : Prop :=
  StronglySorted (λ a b, b < a) times ∧ ∀ ts, ts ∈ times ↔ ∃ v, v ∈ all ∧ ns v = ts.

(** Only the first of each lane can have the greatest time stamp. *)
Lemma heads_filter its values ts :
  length its = length values → Forall descending (lanes_of its values) →
  (∀ v, v ∈ values → ns v ≤ ts) →
  filter (λ v, key_nanos v.1 = ts) (concat (lanes_of its values)) =
    filter (λ v, key_nanos v.1 = ts) values.
Proof.
  revert values. induction its as [|it its IH]; intros [|w values] Hl Hd Hv; try done.
  change (concat (lanes_of (it :: its) (w :: values)))
    with ((w :: drain it) ++ concat (lanes_of its values)).
  apply Forall_cons in Hd as [Hw Hd]. apply StronglySorted_inv in Hw as [_ Hw].
  assert (ns w ≤ ts) by (apply Hv; left).
  rewrite filter_app, (filter_cons _ w (drain it)), (filter_cons _ w values).
  rewrite IH by (done || (by injection Hl) || (intros x Hx; apply Hv; by right)).
  rewrite (proj2 (filter_nil_iff _ (drain it))); [by case_decide|].
  eapply Forall_impl; [exact Hw|]. unfold ns in *. cbn. lia.
Qed.

Lemma info_at_filter `{Client} `{HashOrder} allowed all ts ts' :
  ts' ≠ ts → info_at allowed (filter (λ v, ns v ≠ ts) all) ts' = info_at allowed all ts'.
Proof.
  intros Hne. unfold info_at. rewrite list_filter_filter.
  assert (filter (λ v : Record, key_nanos v.1 = ts' ∧ ns v ≠ ts) all =
    filter (λ v, key_nanos v.1 = ts') all) as ->; [|done].
  apply list_filter_iff. intros v. unfold ns. naive_solver.
Qed.

Lemma times_of_cons all ts times :
  (∃ v, v ∈ all ∧ ns v = ts) → (∀ v, v ∈ all → ns v ≤ ts) →
  times_of (filter (λ v, ns v ≠ ts) all) times → times_of all (ts :: times).
Proof.
  intros Hex Hmax [Hs Hin].
  assert (∀ t, t ∈ times ↔ ∃ v, v ∈ all ∧ ns v = t ∧ t ≠ ts) as Hin'.
  { intros t. rewrite Hin. split.
    - intros (v & [Hne Hv]%list_elem_of_filter & <-). eauto.
    - intros (v & Hv & <- & Hne). exists v. by rewrite list_elem_of_filter. }
  split.
  - constructor; [done|]. apply Forall_forall. intros t (v & Hv & <- & Hne)%Hin'.
    specialize (Hmax v Hv). lia.
  - intros t. rewrite elem_of_cons, Hin'. split; [naive_solver|].
    intros (v & Hv & <-). destruct (decide (ns v = ts)); naive_solver.
Qed.

(** What one round does to the records still to report. *)
Lemma gen_round_spec `{Client} `{HashOrder} allowed its values :
  length its = length values → values ≠ [] →
  Forall descending (lanes_of its values) →
  Forall (λ v, good_key v.1) (concat (lanes_of its values)) →
  let all := concat (lanes_of its values) in
  ∃ m its' values', latest values = Some m ∧
    gen_round allowed m (its, values) = (info_at allowed all (ns m), (its', values')) ∧
    length its' = length values' ∧
    Forall descending (lanes_of its' values') ∧
    concat (lanes_of its' values') = filter (λ v, ns v ≠ ns m) all ∧
    (∃ v, v ∈ all ∧ ns v = ns m) ∧ ∀ v, v ∈ all → ns v ≤ ns m.
Proof.
  intros Hl Hne Hd Hg. cbn zeta.
  destruct (latest_spec values) as (m & Hm & Hmax & Hlast); [done| |].
  { rewrite Forall_forall in *. intros v Hv. by apply Hg, elem_of_heads. }
  pose proof (heads_bound _ _ _ Hl Hd Hmax) as Hall.
  destruct (foldl advance (its, values) (reverse (candidates (ns m) values)))
    as [its' values'] eqn:Ef.
  destruct (round_lanes _ _ _ _ _ Hl Ef) as [Hl' Hs].
  destruct (step_lanes_spec (ns m) (lanes_of its values)) as [Hc Hd'];
    [done|by apply Forall_forall|].
  exists m, its', values'. split_and!; [done| |done|by rewrite Hs|by rewrite Hs, Hc| |done].
  - unfold gen_round. cbn [fst snd]. fold (ns m). rewrite Ef. f_equal.
    unfold info_of_round, info_at, same_time. rewrite heads_filter by done.
    by rewrite Hlast.
  - exists m. split; [|done]. apply elem_of_heads; [|done].
    by apply last_Some_elem_of, list_elem_of_filter in Hlast as [_ ?].
Qed.

Lemma gen_loop_spec `{Client} `{HashOrder} allowed fuel its values infos :
  length its = length values →
  Forall descending (lanes_of its values) →
  Forall (λ v, good_key v.1) (concat (lanes_of its values)) →
  (length (concat (lanes_of its values)) < fuel)%nat →
  ∃ times, times_of (concat (lanes_of its values)) times ∧
    gen_loop fuel false allowed infos (its, values) =
      Ok (infos ++ (info_at allowed (concat (lanes_of its values)) <$> times), []).
Proof.
  revert its values infos. induction fuel as [|fuel IH]; intros its values infos Hl Hd Hg Hf; [lia|].
  destruct (decide (values = [])) as [->|Hne].
  { apply nil_length_inv in Hl as ->. exists []. split; [|by rewrite fmap_nil, app_nil_r].
    split; [constructor|]. intros ts. split; [by intros ?%not_elem_of_nil|].
    by intros (v & ?%not_elem_of_nil & _). }
  destruct (gen_round_spec allowed its values Hl Hne Hd Hg)
    as (m & its' & values' & Hm & Hr & Hl' & Hd' & Hc & Hex & Hmax).
  set (all := concat (lanes_of its values)) in *.
  destruct (IH its' values' (infos ++ [info_at allowed all (ns m)]) Hl' Hd')
    as (times & Ht & Hloop).
  - rewrite Hc, Forall_forall in *. intros v [_ Hv]%list_elem_of_filter. by apply Hg.
  - rewrite Hc. destruct Hex as (v & Hv & Ev).
    assert (length (filter (λ v, ns v ≠ ns m) all) < length all)%nat; [|lia].
    eapply length_filter_lt; [exact Hv|]. intros Hnv. by apply Hnv.
  - rewrite Hc in Ht, Hloop. exists (ns m :: times).
    pose proof (times_of_cons _ _ _ Hex Hmax Ht) as Ht'. split; [done|].
    cbn [gen_loop snd]. rewrite Hm, Hr, Hloop, fmap_cons, <- app_assoc.
    do 3 f_equal. cbn. f_equal. apply list_fmap_ext. intros i t Hi.
    apply info_at_filter. apply list_elem_of_lookup_2, Ht in Hi as (v & Hv & <-).
    by apply list_elem_of_filter in Hv as [? _].
Qed.

Lemma length_drain (it : It) : (length (drain it) ≤ remaining it)%nat.
Proof.
  remember (remaining it) as n eqn:Hn. revert it Hn.
  induction (lt_wf n) as [n _ IH]; intros it ->. rewrite drain_unfold.
  destruct (next it) as [[x|] it'] eqn:E; cbn; [|lia].
  apply next_remaining in E. specialize (IH _ E it' eq_refl). lia.
Qed.

Lemma first_values_spec its its' values :
  Forall (λ it, drain it ≠ []) its → first_values its = (its', values) →
  length its' = length values ∧ lanes_of its' values = drain <$> its.
Proof.
  intros Hne. revert its' values. induction Hne as [|it its Hit _ IH]; intros its' values.
  - by intros [= <- <-].
  - cbn [first_values]. rewrite fmap_cons. rewrite drain_unfold in Hit |- *.
    destruct (next it) as [[item|] it'] eqn:En; [|done].
    destruct (first_values its) as [its1 values1]. intros [= <- <-].
    destruct (IH _ _ eq_refl) as [Hl Hs]. split; [cbn; by rewrite Hl|].
    cbn [lanes_of zip_with]. fold (lanes_of its1 values1). by rewrite Hs.
Qed.

Lemma length_lanes its values :
  (length (concat (lanes_of its values)) ≤ gen_measure its)%nat.
Proof.
  unfold gen_measure. revert values. induction its as [|it its IH]; intros [|v values]; cbn; try lia.
  rewrite length_app. specialize (IH values). pose proof (length_drain it).
  unfold lanes_of in IH. lia.
Qed.

(** The iterators of the cores: each starts with a record, the newest first. *)
Definition core_iters its : Prop :=
  Forall (λ it, drain it ≠ [] ∧ descending (drain it) ∧ Forall (λ v, good_key v.1) (drain it)) its.

Lemma core_iters_start its its' values :
  core_iters its → first_values its = (its', values) →
  length its' = length values ∧ lanes_of its' values = drain <$> its ∧
  Forall descending (lanes_of its' values) ∧
  Forall (λ v, good_key v.1) (concat (lanes_of its' values)).
Proof.
  intros Hc E. destruct (first_values_spec _ _ _ (Forall_impl _ _ _ Hc (λ it Hit, proj1 Hit)) E)
    as [Hl Hs].
  split_and!; [done..| |]; rewrite Hs.
  - rewrite Forall_fmap. eapply Forall_impl; [exact Hc|]. naive_solver.
  - apply Forall_concat. rewrite Forall_fmap. eapply Forall_impl; [exact Hc|]. naive_solver.
Qed.

Lemma gen_statistics_window `{Client} `{HashOrder} its source allowed :
  core_iters its →
  ∃ times, times_of (concat (drain <$> its)) times ∧
    gen_statistics its source false allowed =
      Ok (StatisticsRawEvent.mk source (info_at allowed (concat (drain <$> its)) <$> times), []).
Proof.
  intros Hc. unfold gen_statistics. destruct (first_values its) as [its' values] eqn:E.
  destruct (core_iters_start _ _ _ Hc E) as (Hl & Hs & Hd & Hg).
  destruct (gen_loop_spec allowed (S (gen_measure its')) its' values [] Hl Hd Hg)
    as (times & Ht & Hloop).
  - pose proof (length_lanes its' values). lia.
  - rewrite Hs in Ht, Hloop. exists times. split; [done|]. cbn [fst]. by rewrite Hloop.
Qed.

Lemma gen_statistics_latest `{Client} `{HashOrder} its source allowed :
  core_iters its → its ≠ [] →
  ∃ ts its', (∃ v, v ∈ concat (drain <$> its) ∧ ns v = ts) ∧
    (∀ v, v ∈ concat (drain <$> its) → ns v ≤ ts) ∧
    gen_statistics its source true allowed =
      Ok (StatisticsRawEvent.mk source [info_at allowed (concat (drain <$> its)) ts], its').
Proof.
  intros Hc Hne. unfold gen_statistics. destruct (first_values its) as [its' values] eqn:E.
  destruct (core_iters_start _ _ _ Hc E) as (Hl & Hs & Hd & Hg).
  destruct (gen_round_spec allowed its' values Hl) as (m & its1 & values1 & Hm & Hr & _ & _ & _ & Hex & Hmax).
  { intros ->. apply nil_length_inv in Hl as ->. destruct its; [done|]. discriminate Hs. }
  { done. }
  { done. }
  rewrite Hs in Hr, Hex, Hmax. exists (ns m), its1. split_and!; [done..|].
  cbn [fst gen_loop snd]. by rewrite Hm, Hr.
Qed.

(** *** Termination in general *)

(** The indices of a round, the greatest first. *)
Definition round_indices (n : nat) (idxs : list nat) : Prop :=
  StronglySorted (λ i j, (j < i)%nat) idxs ∧ Forall (λ i, (i < n)%nat) idxs.

Lemma candidates_indices ts values : round_indices (length values) (reverse (candidates ts values)).
Proof.
  unfold candidates. split.
  - apply (StronglySorted_flip_reverse lt), sorted_filter.
    generalize 0%nat. induction (length values) as [|n IH]; intros k; constructor; [done|].
    apply Forall_forall. intros i Hi%elem_of_seq. lia.
  - apply Forall_forall. intros i. rewrite elem_of_reverse, list_elem_of_filter, elem_of_seq. lia.
Qed.

Lemma gen_measure_app its1 its2 :
  gen_measure (its1 ++ its2) = (gen_measure its1 + gen_measure its2)%nat.
Proof. unfold gen_measure. induction its1 as [|it its1 IH]; cbn in *; lia. Qed.

Lemma advance_measure its values i :
  (i < length values)%nat → (length values ≤ length its)%nat →
  let '(its', values') := advance (its, values) i in
  (i ≤ length values' ≤ length its')%nat ∧ (S (gen_measure its') ≤ gen_measure its)%nat.
Proof.
  intros Hi Hl. destruct (lookup_lt_is_Some_2 its i) as [it Hit]; [lia|].
  destruct (lookup_lt_is_Some_2 values i Hi) as [v Hv].
  unfold advance. rewrite Hit.
  assert (gen_measure its = gen_measure (take i its ++ it :: drop (S i) its)) as ->
    by (by rewrite take_drop_middle).
  destruct (next it) as [[item|] it'] eqn:En.
  - rewrite !length_insert, insert_take_drop, !gen_measure_app by lia.
    apply next_remaining in En. split; [lia|]. unfold gen_measure. cbn. lia.
  - rewrite (length_delete values), (length_delete its), delete_take_drop, !gen_measure_app by done.
    split; [lia|]. unfold gen_measure. cbn. lia.
Qed.

Lemma foldl_advance_measure idxs its values :
  (length values ≤ length its)%nat → round_indices (length values) idxs →
  let '(its', values') := foldl advance (its, values) idxs in
  (length values' ≤ length its')%nat ∧ (gen_measure its' + length idxs ≤ gen_measure its)%nat.
Proof.
  revert its values. induction idxs as [|i idxs IH]; intros its values Hl [Hs Hb].
  { cbn. split; [done|lia]. }
  apply Forall_cons in Hb as [Hi Hb]. apply StronglySorted_inv in Hs as [Hs Hlt].
  pose proof (advance_measure its values i Hi Hl) as Hm. cbn [foldl].
  destruct (advance (its, values) i) as [its1 values1]. destruct Hm as [Hl1 Hm1].
  specialize (IH its1 values1).
  destruct (foldl advance (its1, values1) idxs) as [its2 values2].
  destruct IH as [Hl2 Hm2]; [lia| |cbn [length]; split; [done|lia]].
  split; [done|]. eapply Forall_impl; [exact Hlt|]. cbn. lia.
Qed.

Lemma latest_elem values m : latest values = Some m → m ∈ values.
Proof.
  destruct values as [|v values]; [done|]. intros [= <-].
  induction values as [|w values IH] using rev_ind; [left|].
  rewrite foldl_app. cbn [foldl]. unfold later_key at 1.
  change (v :: values ++ [w]) with ((v :: values) ++ [w]). rewrite elem_of_app.
  destruct (bytes_cmp _ _); [right; by left|by left|right; by left].
Qed.

Lemma candidates_nonempty values m :
  m ∈ values → (0 < length (candidates (ns m) values))%nat.
Proof.
  intros [i Hi]%list_elem_of_lookup. assert (i ∈ candidates (ns m) values) as Hin.
  { unfold candidates. rewrite list_elem_of_filter, elem_of_seq, Hi. split; [done|].
    apply lookup_lt_Some in Hi. lia. }
  destruct (candidates (ns m) values); [by apply not_elem_of_nil in Hin|cbn; lia].
Qed.

Lemma gen_loop_terminates `{Client} `{HashOrder} fuel latest_flag allowed infos its values :
  (length values ≤ length its)%nat → (gen_measure its < fuel)%nat →
  is_ok (gen_loop fuel latest_flag allowed infos (its, values)) = true.
Proof.
  revert infos its values. induction fuel as [|fuel IH]; intros infos its values Hl Hf; [lia|].
  cbn [gen_loop snd]. destruct (latest values) as [m|] eqn:Hm; [|done].
  unfold gen_round. cbn [snd]. fold (ns m).
  pose proof (foldl_advance_measure (reverse (candidates (ns m) values)) its values Hl
    (candidates_indices _ _)) as Hf'.
  destruct (foldl advance _ _) as [its' values']. destruct Hf' as [Hl' Hm'].
  destruct latest_flag; [done|]. apply IH; [done|].
  rewrite length_reverse in Hm'.
  pose proof (candidates_nonempty values m (latest_elem _ _ Hm)). lia.
Qed.

Lemma first_values_length its :
  (length (first_values its).2 ≤ length (first_values its).1)%nat.
Proof.
  induction its as [|it its IH]; [cbn; lia|]. cbn [first_values].
  destruct (next it) as [item it']. destruct (first_values its) as [its' values].
  cbn [fst snd] in *. destruct item; cbn [length]; lia.
Qed.
End rounds.

(** ** The totals *)
Definition kind_is (kind : RawEventKind) (r : RawEventKind * Z * Z) : Prop := r.1.1 = kind.
#[export] Instance kind_is_dec kind r : Decision (kind_is kind r).
Proof. unfold kind_is. apply _. Defined.

(** The counts and sizes the records of one time stamp give for a kind. *)
Definition contributions (kind : RawEventKind) (vs : list Statistics) :
    list (RawEventKind * Z * Z) :=
  filter (kind_is kind) (concat (Statistics.stats <$> vs)).

Definition sum_count (rs : list (RawEventKind * Z * Z)) : Z := foldr (λ r a, r.1.2 + a) 0 rs.
Definition sum_size (rs : list (RawEventKind * Z * Z)) : Z := foldr (λ r a, r.2 + a) 0 rs.

Fixpoint get_total (kind : RawEventKind) (totals : Totals) : option (Z * Z) :=
  match totals with
  | [] => None
  | (k, x) :: totals => if decide (k = kind) then Some x else get_total kind totals
  end.

Definition u64_record (r : RawEventKind * Z * Z) : Prop := 0 ≤ r.1.2 < 2 ^ 64 ∧ 0 ≤ r.2 < 2 ^ 64.

Definition plus_record (o : option (Z * Z)) (r : RawEventKind * Z * Z) : option (Z * Z) :=
  match o with
  | Some (c, s) => Some (wrap_u64 (c + r.1.2), wrap_u64 (s + r.2))
  | None => Some (r.1.2, r.2)
  end.

Lemma get_add_total kind record count size totals :
  get_total kind (add_total record count size totals) =
    if decide (record = kind) then plus_record (get_total kind totals) (record, count, size)
    else get_total kind totals.
Proof.
  induction totals as [|[k [c s]] totals IH]; cbn; [by repeat case_decide|].
  case_decide as Hk; repeat case_decide; simplify_eq; cbn; repeat case_decide; done.
Qed.

Lemma get_add_record allowed kind totals r :
  kind ∈ allowed →
  get_total kind (add_record allowed totals r) =
    if decide (kind_is kind r) then plus_record (get_total kind totals) r
    else get_total kind totals.
Proof.
  intros Hk. destruct r as [[record count] size]. unfold add_record, kind_is. cbn [fst].
  destruct (decide (record ∈ allowed)) as [Hr|Hr].
  - rewrite get_add_total. by repeat case_decide.
  - rewrite decide_False by (by intros ->). done.
Qed.

Lemma get_foldl_records allowed kind rs totals :
  kind ∈ allowed →
  get_total kind (foldl (add_record allowed) totals rs) =
    foldl plus_record (get_total kind totals) (filter (kind_is kind) rs).
Proof.
  intros Hk. revert totals. induction rs as [|r rs IH]; intros totals; [done|].
  cbn [foldl]. rewrite IH, get_add_record, filter_cons by done. by case_decide.
Qed.

Lemma foldl_add_stats allowed vs totals :
  foldl (add_stats allowed) totals vs =
    foldl (add_record allowed) totals (concat (Statistics.stats <$> vs)).
Proof.
  revert totals. induction vs as [|v vs IH]; intros totals; [done|].
  cbn. by rewrite IH, foldl_app.
Qed.

Lemma plus_records c s rs :
  foldl plus_record (Some (wrap_u64 c, wrap_u64 s)) rs =
    Some (wrap_u64 (c + sum_count rs), wrap_u64 (s + sum_size rs)).
Proof.
  revert c s. induction rs as [|r rs IH]; intros c s.
  - cbn. by rewrite !Z.add_0_r.
  - cbn [foldl plus_record sum_count sum_size foldr]. unfold wrap_u64 in *.
    rewrite !Zplus_mod_idemp_l, IH. cbn. by rewrite !Z.add_assoc.
Qed.

Lemma keys_add_total record count size totals :
  (add_total record count size totals).*1 =
    if decide (record ∈ totals.*1) then totals.*1 else totals.*1 ++ [record].
Proof.
  induction totals as [|[k [c s]] totals IH]; [done|]. cbn [add_total].
  destruct (decide (k = record)) as [->|Hne]; rewrite !fmap_cons; cbn [fst].
  - rewrite decide_True by left. done.
  - rewrite IH. repeat case_decide; set_solver.
Qed.

Lemma keys_nodup allowed vs totals :
  NoDup totals.*1 → NoDup (foldl (add_stats allowed) totals vs).*1.
Proof.
  rewrite foldl_add_stats. generalize (concat (Statistics.stats <$> vs)) as rs.
  intros rs. revert totals. induction rs as [|[[record count] size] rs IH]; intros totals Hn; [done|].
  cbn [foldl]. apply IH. unfold add_record. case_decide; [|done]. rewrite keys_add_total.
  case_decide; [done|]. apply NoDup_app. split_and!; [done|set_solver|apply NoDup_singleton].
Qed.

(** ** The records of a window *)
Section query.
Context `{RocksDBSpec} `{ChronoLaws} `{Client} `{HashOrder} `{!Bincode Statistics}.
Implicit Types (db : DB) (time : option TimeRange) (source : string).

(** An iterator that stops at the first item that does not decode. *)
Fixpoint decoded (items : list (result Record)) : list Record :=
  match items with
  | Ok v :: items => v :: decoded items
  | _ => []
  end.

Lemma drain_statistics_iter (i : BoundaryIter Statistics) :
  drain (mk_statistics_iter i) = decoded (drain i).
Proof.
  remember (remaining i) as n eqn:Hn. revert i Hn.
  induction (lt_wf n) as [n _ IH]; intros i ->.
  rewrite drain_unfold, (drain_unfold i). cbn [next statistics_iterator].
  unfold StatisticsIter_next. cbn [si_inner].
  destruct (next i) as [[[e|err]|] i'] eqn:E; [|done..]. cbn [decoded]. f_equal.
  eapply IH; [|done]. by eapply next_remaining.
Qed.

Lemma decoded_key l k x : (k, x) ∈ decoded (decode <$> l) → ∃ v, (k, v) ∈ l.
Proof.
  induction l as [|[k' v] l IH]; [by intros ?%not_elem_of_nil|].
  rewrite fmap_cons. unfold decode at 1. cbn [fst snd fmap result_fmap].
  destruct (bincode_deserialize v) as [y|]; cbn; [|by intros ?%not_elem_of_nil].
  intros [[= -> _]|Hin]%elem_of_cons; [exists v; left|].
  destruct (IH Hin) as [v' ?]. exists v'. by right.
Qed.

Lemma decoded_sorted (R : relation bytes) l :
  (∀ x y, x ∈ l → y ∈ l → key_lt y x → R x.1 y.1) → StronglySorted (flip key_lt) l →
  StronglySorted (λ a b : Record, R a.1 b.1) (decoded (decode <$> l)).
Proof.
  intros HR. induction 1 as [|[k v] l Hl IH Hall]; [constructor|].
  rewrite fmap_cons. unfold decode at 1. cbn [fst snd fmap result_fmap].
  destruct (bincode_deserialize v) as [y|]; cbn [decoded]; [|constructor].
  constructor; [apply IH; intros ????; apply HR; by right|].
  apply Forall_forall. intros [k' x'] Hin. apply decoded_key in Hin as [v' Hv'].
  rewrite Forall_forall in Hall.
  apply (HR (k, v) (k', v')); [left|by right|exact (Hall _ Hv')].
Qed.

Definition core_entries source time db (core : nat) : list (bytes * bytes) :=
  let p := builder |> start_key source |> mid_key (Some (be_bytes 4 (Z.of_nat core))) in
  entries_between (cf_view db "statistics") (lower_key p (range_of time).1)
    (upper_key p (range_of time).2).

(** The records one core has in the window, newest first. *)
Definition core_records source time db (core : nat) : list Record :=
  decoded (decode <$> reverse (core_entries source time db core)).

Definition source_records source time db : list Record :=
  concat (core_records source time db <$> seq 0 MAX_CORE_SIZE).

Definition statistics_keys_wf db : Prop :=
  ∀ k v, cf_view db "statistics" !! k = Some v →
    ∃ s c ts, no_nul s ∧ 0 ≤ ts ≤ i64_max ∧ k = event_key s (Some (be_bytes 4 c)) ts.

Lemma core_entry_key source time db core k v :
  statistics_keys_wf db → no_nul source → (k, v) ∈ core_entries source time db core →
  ∃ ts, 0 ≤ ts ≤ i64_max ∧ k = event_key source (Some (be_bytes 4 (Z.of_nat core))) ts.
Proof.
  intros Hwf Hns [Hb Hv]%elem_of_entries_between.
  destruct (Hwf k v Hv) as (s & c & ts & Hs & Hts & ->). exists ts. split; [done|].
  apply between_same_prefix in Hb as [-> Hc]; [congruence|done..|].
  left. by rewrite !length_be_bytes.
Qed.

Lemma core_records_sorted source time db core :
  statistics_keys_wf db → no_nul source → descending (core_records source time db core).
Proof.
  intros Hwf Hns.
  apply (decoded_sorted (λ a b, key_nanos b < key_nanos a));
    [|apply StronglySorted_flip_reverse, entries_between_sorted].
  intros [k1 v1] [k2 v2] H1' H2' Hlt. rewrite elem_of_reverse in H1', H2'.
  apply core_entry_key in H1' as (t1 & ? & ->); [|done..].
  apply core_entry_key in H2' as (t2 & ? & ->); [|done..].
  by apply event_key_order in Hlt.
Qed.

Lemma core_records_good source time db core :
  statistics_keys_wf db → no_nul source →
  Forall (λ v, good_key v.1) (core_records source time db core).
Proof.
  intros Hwf Hns. apply Forall_forall. intros [k x] Hin. apply decoded_key in Hin as [v Hv].
  rewrite elem_of_reverse in Hv. apply core_entry_key in Hv as (ts & ? & ->); [|done..].
  by apply good_event_key.
Qed.

Lemma open_cores_spec cores source time db :
  healthy db → statistics_keys_wf db → no_nul source →
  ∃ its, open_cores cores source time db = Ok its ∧ core_iters its ∧
    concat (drain <$> its) = concat (core_records source time db <$> cores).
Proof.
  intros [Hio Hop] Hwf Hns. assert (cf_handle db "statistics" = true) as Hcf.
  { apply Hop. known_cf. }
  induction cores as [|core cores (its & Ho & Hits & Hc)].
  { exists []. split_and!; [done|constructor|done]. }
  cbn [open_cores]. unfold statistics_store, raw_event_store. rewrite Hcf. cbn [mbind result_bind].
  pose proof (drain_statistics_iter) as Hd.
  set (it0 := get_statistics_iter _ _ _ _ _).
  assert (drain it0 = core_records source time db core) as Hit.
  { subst it0. unfold get_statistics_iter. rewrite (surjective_pairing (range_of time)), Hd.
    rewrite drain_boundary_iter by done. done. }
  pose proof (peek_drain it0) as Hp. pose proof (drain_peek it0) as Hdp.
  destruct (peek (peekable it0)) as [item it]. cbn [fst snd] in Hp, Hdp. rewrite Ho.
  cbn [mbind result_bind]. rewrite fmap_cons. cbn [concat]. rewrite Hit in Hp, Hdp.
  destruct item as [v|].
  - exists (it :: its). split_and!; [done| |by rewrite fmap_cons; cbn; rewrite Hdp, Hc].
    constructor; [|done]. rewrite Hdp. split_and!.
    + by intros E; rewrite E in Hp.
    + by apply core_records_sorted.
    + by apply core_records_good.
  - exists its. split_and!; [done..|]. by destruct (core_records source time db core).
Qed.

(** The kinds a request asks for. *)
Definition requested (protocols : option (list string)) : result (list RawEventKind) :=
  match protocols with
  | Some protocols => convert_all protocols
  | None => Ok STATS_ALLOWED_KINDS
  end.
End query.

(** ** Properties *)
Section properties.
Context `{RocksDBSpec} `{ChronoLaws} `{Client} `{HashOrder} `{!Bincode Statistics}.

(** What a source's event must be: one entry per time stamp at which some
    core has a record in the window, newest first, with the totals of all the
    records of that time. *)
Definition window_event (allowed : list RawEventKind) (time : option TimeRange) (db : DB)
    (source : string) (ev : StatisticsRawEvent) : Prop :=
  let records := source_records source time db in
  ∃ times, times_of records times ∧
    ev = StatisticsRawEvent.mk source (info_at allowed records <$> times).

Lemma statistics_loop_window allowed t sources db :
  healthy db → statistics_keys_wf db → Forall no_nul sources →
  ∃ evs, statistics_loop sources (Some t) allowed [] db = Ok evs ∧
    Forall2 (window_event allowed (Some t) db) sources evs.
Proof.
  intros Hh Hwf. induction 1 as [|source sources Hns _ (evs & Hl & Hf)].
  { exists []. by split. }
  destruct (open_cores_spec (seq 0 MAX_CORE_SIZE) source (Some t) db Hh Hwf Hns)
    as (its & Ho & Hits & Hc).
  destruct (gen_statistics_window its source allowed Hits) as (times & Ht & Hg).
  cbn [statistics_loop app bool_decide]. rewrite Ho. cbn [mbind result_bind app].
  change (bool_decide (Some t = None)) with false. rewrite Hg. cbn [mbind result_bind].
  rewrite Hl. cbn [mbind result_bind]. eexists. split; [done|]. constructor; [|done].
  rewrite Hc in Ht |- *. exists times. by split.
Qed.

(** C36: the statistics of a time window: for every source asked for there is
    one event, and it has one entry per time stamp at which any of the sixteen
    cores has a record, newest first, whose details are computed from the sum
    over all records of that time. *)
Theorem statistics_of_window t sources protocols allowed db :
  healthy db → statistics_keys_wf db → Forall no_nul sources → requested protocols = Ok allowed →
  ∃ evs, statistics (Some t) sources protocols db = Ok evs ∧
    Forall2 (window_event allowed (Some t) db) sources evs.
Proof.
  intros Hh Hwf Hns Hp. unfold statistics.
  change (match protocols with Some p => convert_all p | None => Ok STATS_ALLOWED_KINDS end)
    with (requested protocols).
  rewrite Hp. by apply statistics_loop_window.
Qed.

(** without a time window the query of one source reports the newest time
    stamp of all cores only, with the totals of the records of that time. *)
Theorem statistics_latest source protocols allowed db :
  healthy db → statistics_keys_wf db → no_nul source → requested protocols = Ok allowed →
  let records := source_records source None db in
  records ≠ [] →
  ∃ ts, (∃ v, v ∈ records ∧ key_nanos v.1 = ts) ∧ (∀ v, v ∈ records → key_nanos v.1 ≤ ts) ∧
    statistics None [source] protocols db =
      Ok [StatisticsRawEvent.mk source [info_at allowed records ts]].
Proof.
  intros Hh Hwf Hns Hp records Hne.
  destruct (open_cores_spec (seq 0 MAX_CORE_SIZE) source None db Hh Hwf Hns)
    as (its & Ho & Hits & Hc). fold (source_records source None db) records in Hc.
  destruct (gen_statistics_latest its source allowed Hits) as (ts & its' & Hex & Hmax & Hg).
  { intros ->. by rewrite <- Hc in Hne. }
  rewrite Hc in Hex, Hmax, Hg. exists ts. split_and!; [done..|].
  unfold statistics.
  change (match protocols with Some p => convert_all p | None => Ok STATS_ALLOWED_KINDS end)
    with (requested protocols).
  rewrite Hp. cbn [mbind result_bind statistics_loop]. rewrite Ho. cbn [mbind result_bind app].
  change (bool_decide ((None : option TimeRange) = None)) with true. by rewrite Hg.
Qed.

(** the merge of the cores ends for any iterators whatever they hold,
    those that one source leaves to the next included. *)
Theorem gen_statistics_terminates {It} `{IteratorLaws It Record} (its : list It) source
    latest_flag allowed :
  ∃ ev its', gen_statistics its source latest_flag allowed = Ok (ev, its').
Proof.
  unfold gen_statistics. pose proof (first_values_length its) as Hl.
  destruct (first_values its) as [its1 values]. cbn [fst snd] in *.
  pose proof (gen_loop_terminates (S (gen_measure its1)) latest_flag allowed [] its1 values Hl
    (Nat.lt_succ_diag_r _)) as Hok.
  destruct (gen_loop _ _ _ _ _) as [[infos its']|]; [|done]. cbn. eauto.
Qed.

(** the total of an allowed kind is the sum, in [u64] arithmetic, of the
    counts and of the sizes of all records of that kind, and every kind has
    one total at most. *)
Theorem totals_exact allowed vs kind :
  kind ∈ allowed → Forall u64_record (contributions kind vs) →
  get_total kind (foldl (add_stats allowed) [] vs) =
    match contributions kind vs with
    | [] => None
    | rs => Some (wrap_u64 (sum_count rs), wrap_u64 (sum_size rs))
    end ∧
  NoDup (foldl (add_stats allowed) [] vs).*1.
Proof.
  intros Hk Hu. split; [|apply keys_nodup, NoDup_nil_2].
  rewrite foldl_add_stats, get_foldl_records by done. fold (contributions kind vs).
  destruct (contributions kind vs) as [|r rs]; [done|].
  apply Forall_cons in Hu as [[Hc Hs] _]. cbn [foldl get_total plus_record].
  assert (∀ z, 0 ≤ z < 2 ^ 64 → z = wrap_u64 z) as Hw by (intros; unfold wrap_u64; by rewrite Z.mod_small).
  rewrite (Hw r.1.2 Hc), (Hw r.2 Hs), plus_records. done.
Qed.
End properties.

(** ** Witnesses: two cores of one source and one of another *)
#[local] Instance plain_order : HashOrder := λ l, l.
#[local] Instance plain_order_laws : HashOrderLaws.
Proof. by intros l. Qed.

(** One byte [n] is a record of [n] packets of 100 bytes in ten seconds. *)
#[local] Instance byte_statistics : Bincode Statistics := {|
  bincode_serialize x := Err "not encoded";
  bincode_deserialize b :=
    match b with
    | [n] => Ok (Statistics.mk 0 10
        [(RawEventKind.Statistics, Z.of_N (Byte.to_N n), 100 * Z.of_N (Byte.to_N n));
         (RawEventKind.Log, 1, 1)])
    | _ => Err "invalid data"
    end |}.

Definition stat_key (s : string) (core ts : Z) : bytes := event_key s (Some (be_bytes 4 core)) ts.
Definition stat_records : gmap bytes bytes :=
  list_to_map [
    (stat_key "a" 0 30, [Byte.x0a]); (stat_key "a" 0 20, [Byte.x14]); (stat_key "a" 0 10, [Byte.x1e]);
    (stat_key "a" 1 30, [Byte.x05]); (stat_key "b" 0 5, [Byte.x01])].
Definition stat_db : @DB mem_rocksdb := <["statistics" := stat_records]> empty_db : Mem.db.

Lemma stat_healthy : healthy stat_db.
Proof.
  split; [done|]. intros name Hn. apply bool_decide_eq_true_2. unfold stat_db.
  rewrite lookup_insert_is_Some'. right. by apply empty_db_opened.
Qed.

Lemma stat_db_wf : statistics_keys_wf stat_db.
Proof.
  intros k v Hk.
  assert (map_Forall (λ k (_ : bytes), bool_decide (k ∈ (λ '(s, c, ts), stat_key s c ts) <$>
    [("a", 0, 30); ("a", 0, 20); ("a", 0, 10); ("a", 1, 30); ("b", 0, 5)]) = true)
    (cf_view stat_db "statistics")) as Hall by (refine (bool_decide_unpack _ _); vm_compute; exact I).
  specialize (Hall k v Hk).
  apply bool_decide_eq_true_1, list_elem_of_fmap in Hall as ([[s c] ts] & -> & Hin).
  exists s, c, ts.
  assert (Forall (λ x : string * Z * Z, no_nul x.1.1 ∧ 0 ≤ x.2 ≤ i64_max)
    [("a", 0, 30); ("a", 0, 20); ("a", 0, 10); ("a", 1, 30); ("b", 0, 5)]) as Hr
    by (refine (bool_decide_unpack _ _); vm_compute; exact I).
  rewrite Forall_forall in Hr. destruct (Hr _ Hin). auto.
Qed.

(** The sources and time stamps of a response. *)
Definition reported (r : result (list StatisticsRawEvent)) : result (list (string * list Z)) :=
  map (λ ev, (StatisticsRawEvent.source ev,
    map StatisticsInfo.timestamp (StatisticsRawEvent.stats ev))) <$> r.

Definition stat_window : TimeRange :=
  mk_time_range (Some (timestamp_nanos 10)) (Some (timestamp_nanos 31)).

Lemma statistics_of_window_witness :
  ∃ evs, statistics (Some stat_window) ["b"; "a"] None stat_db = Ok evs ∧
    Forall2 (window_event STATS_ALLOWED_KINDS (Some stat_window) stat_db) ["b"; "a"] evs.
Proof.
  apply statistics_of_window; [apply stat_healthy|apply stat_db_wf| |reflexivity].
  repeat constructor; concrete.
Defined.

Example statistics_of_window_reported :
  reported (statistics (Some stat_window) ["b"; "a"] None stat_db) =
    Ok [("b", []); ("a", [30; 20; 10])].
Proof. vm_compute. reflexivity. Qed.

(** Fifteen packets of both cores in ten seconds: 1200 bits and 1.5 packets
    per second. *)
Definition latest_a : StatisticsRawEvent :=
  StatisticsRawEvent.mk "a" [StatisticsInfo.mk 30 [StatisticsDetail.mk "Statistics"
    (Some (f64_of_Z 1200)) (Some (f64_div (f64_of_Z 3) (f64_of_Z 2))) None]].

Definition records_a : list Record := [
  (stat_key "a" 0 30, Statistics.mk 0 10 [(RawEventKind.Statistics, 10, 1000); (RawEventKind.Log, 1, 1)]);
  (stat_key "a" 0 20, Statistics.mk 0 10 [(RawEventKind.Statistics, 20, 2000); (RawEventKind.Log, 1, 1)]);
  (stat_key "a" 0 10, Statistics.mk 0 10 [(RawEventKind.Statistics, 30, 3000); (RawEventKind.Log, 1, 1)]);
  (stat_key "a" 1 30, Statistics.mk 0 10 [(RawEventKind.Statistics, 5, 500); (RawEventKind.Log, 1, 1)])].

Lemma records_a_eq : source_records "a" None stat_db = records_a.
Proof. vm_compute. reflexivity. Qed.

Lemma statistics_latest_witness :
  statistics None ["a"] None stat_db = Ok [latest_a].
Proof.
  pose proof (statistics_latest "a" None STATS_ALLOWED_KINDS stat_db stat_healthy stat_db_wf) as Hx.
  cbn zeta in Hx. rewrite records_a_eq in Hx.
  assert (no_nul "a") as Hn by concrete. specialize (Hx Hn eq_refl).
  assert (Hne : records_a ≠ []) by (intros Hne; discriminate Hne).
  destruct (Hx Hne) as (ts & (v & Hv & Ets) & Hmax & Heq).
  etransitivity; [exact Heq|].
  assert (ts = 30) as ->; [|vm_compute; reflexivity].
  assert (Forall (λ v : Record, key_nanos v.1 ≤ 30) records_a) as Hle
    by (refine (bool_decide_unpack _ _); vm_compute; exact I).
  rewrite Forall_forall in Hle. pose proof (Hle v Hv).
  assert (30 ≤ ts); [|lia].
  apply (Hmax (stat_key "a" 0 30, Statistics.mk 0 10 [(RawEventKind.Statistics, 10, 1000);
    (RawEventKind.Log, 1, 1)])). left.
Defined.

Lemma gen_statistics_terminates_witness :
  ∃ ev its', gen_statistics (It := StatisticsIter Statistics)
    [get_statistics_iter (mk_store "statistics") 0 "a" None stat_db;
     get_statistics_iter (mk_store "statistics") 5 "a" None stat_db] "a" true [] = Ok (ev, its').
Proof. apply gen_statistics_terminates. Defined.

Lemma totals_exact_witness :
  get_total RawEventKind.Conn (foldl (add_stats STATS_ALLOWED_KINDS) []
    [Statistics.mk 0 1 [(RawEventKind.Conn, 2 ^ 64 - 1, 7)]; Statistics.mk 1 1 [(RawEventKind.Conn, 3, 8)]])
    = Some (2, 15).
Proof.
  destruct (totals_exact STATS_ALLOWED_KINDS [Statistics.mk 0 1 [(RawEventKind.Conn, 2 ^ 64 - 1, 7)];
    Statistics.mk 1 1 [(RawEventKind.Conn, 3, 8)]] RawEventKind.Conn) as [-> _].
  - concrete.
  - repeat constructor; concrete.
  - vm_compute. reflexivity.
Defined.

(** the iterators a source leaves behind are read again for the next
    source: when the latest statistics of two sources are asked for together,
    the second is reported with a time stamp (and totals) of the first, where
    asking for it alone gives its own. *)
Theorem latest_leaks_between_sources :
  reported (statistics None ["a"; "b"] None stat_db) = Ok [("a", [30]); ("b", [10])] ∧
  reported (statistics None ["b"] None stat_db) = Ok [("b", [5])].
Proof. split; vm_compute; reflexivity. Qed.
