(* ===== verification/Nodes.v ===== *)
(** * GraphQL nodes (src/src/graphql/network.rs, sysmon.rs, export/netflow.rs)

    The [SimpleObject] types a query returns and how a stored key and event are
    converted to them ([FromKeyValue]): the time stamp is read back from the
    key, addresses are shown as text, the other fields are copied.  The netflow
    nodes also show times and flags as text. *)

From Stdlib Require Import ZArith Lia Ascii.
From Stdlib Require Import Floats.SpecFloat.
From S2P Require Import Prelude Bytes Externals StorageKey NetAddr GigantoClient Pagination.

(** ** Text of the netflow fields (export/netflow.rs) *)
Module Netflow.
Definition milli_to_secs (millis : Z) : string :=
  dec (millis / 1000) +:+ "." +:+ dec (millis - millis / 1000 * 1000).

Definition TCP_FLAGS : list (Z * string) := [
  (0x01, "FIN"); (0x02, "SYN"); (0x04, "RST"); (0x08, "PSH");
  (0x10, "ACK"); (0x20, "URG"); (0x40, "ECE"); (0x08, "CWR")].

(** [res.pop()] *)
Definition pop (s : string) : string := String.substring 0 (String.length s - 1) s.
Definition ends_with_dash (s : string) : bool :=
  match last (String.list_ascii_of_string s) with
  | Some c => Ascii.eqb c "-"%char
  | None => false
  end.

Definition tcp_flags (b : Z) : string :=
  let res := foldl (λ res (e : Z * string),
    if Z.land b e.1 =? e.1 then res +:+ e.2 +:+ "-" else res) "" TCP_FLAGS in
  let res := if String.eqb res "" then res +:+ "None" else res in
  if ends_with_dash res then pop res else res.
End Netflow.

(** ** The nodes *)
Module ConnRawEvent.
Record t `{Chrono} := mk {
  timestamp : DateTime; orig_addr : string; orig_port : Z; resp_addr : string; resp_port : Z;
  proto : Z; duration : Z; service : string; orig_bytes : Z; resp_bytes : Z;
  orig_pkts : Z; resp_pkts : Z; }.

#[export] Instance convert `{Chrono} : FromKeyValue t Conn := λ k v,
  timestamp ← get_timestamp_from_key k;
  Ok (mk _ timestamp (ip_to_string (Conn.orig_addr v)) (Conn.orig_port v)
    (ip_to_string (Conn.resp_addr v)) (Conn.resp_port v) (Conn.proto v)
    (Conn.duration v) (Conn.service v) (Conn.orig_bytes v) (Conn.resp_bytes v)
    (Conn.orig_pkts v) (Conn.resp_pkts v)).
End ConnRawEvent.
Export (hints) ConnRawEvent.

Module DnsRawEvent.
Record t `{Chrono} := mk {
  timestamp : DateTime; orig_addr : string; orig_port : Z; resp_addr : string; resp_port : Z;
  proto : Z; last_time : Z; query : string; answer : list string;
  trans_id : Z; rtt : Z; qclass : Z; qtype : Z; rcode : Z; aa_flag : bool;
  tc_flag : bool; rd_flag : bool; ra_flag : bool; ttl : list Z; }.

#[export] Instance convert `{Chrono} : FromKeyValue t Dns := λ k v,
  timestamp ← get_timestamp_from_key k;
  Ok (mk _ timestamp (ip_to_string (Dns.orig_addr v)) (Dns.orig_port v)
    (ip_to_string (Dns.resp_addr v)) (Dns.resp_port v) (Dns.proto v)
    (Dns.last_time v) (Dns.query v) (Dns.answer v) (Dns.trans_id v)
    (Dns.rtt v) (Dns.qclass v) (Dns.qtype v) (Dns.rcode v) (Dns.aa_flag v)
    (Dns.tc_flag v) (Dns.rd_flag v) (Dns.ra_flag v) (Dns.ttl v)).
End DnsRawEvent.
Export (hints) DnsRawEvent.

Module HttpRawEvent.
Record t `{Chrono} := mk {
  timestamp : DateTime; orig_addr : string; orig_port : Z; resp_addr : string; resp_port : Z;
  proto : Z; last_time : Z; method : string; host : string; uri : string;
  referrer : string; version : string; user_agent : string; request_len : Z;
  response_len : Z; status_code : Z; status_msg : string; username : string;
  password : string; cookie : string; content_encoding : string;
  content_type : string; cache_control : string;
  orig_filenames : list string; orig_mime_types : list string;
  resp_filenames : list string; resp_mime_types : list string; }.

#[export] Instance convert `{Chrono} : FromKeyValue t Http := λ k v,
  timestamp ← get_timestamp_from_key k;
  Ok (mk _ timestamp (ip_to_string (Http.orig_addr v)) (Http.orig_port v)
    (ip_to_string (Http.resp_addr v)) (Http.resp_port v) (Http.proto v)
    (Http.last_time v) (Http.method v) (Http.host v) (Http.uri v)
    (Http.referrer v) (Http.version v) (Http.user_agent v)
    (Http.request_len v) (Http.response_len v) (Http.status_code v)
    (Http.status_msg v) (Http.username v) (Http.password v) (Http.cookie v)
    (Http.content_encoding v) (Http.content_type v) (Http.cache_control v)
    (Http.orig_filenames v) (Http.orig_mime_types v) (Http.resp_filenames v)
    (Http.resp_mime_types v)).
End HttpRawEvent.
Export (hints) HttpRawEvent.

Module RdpRawEvent.
Record t `{Chrono} := mk {
  timestamp : DateTime; orig_addr : string; orig_port : Z; resp_addr : string; resp_port : Z;
  proto : Z; last_time : Z; cookie : string; }.

#[export] Instance convert `{Chrono} : FromKeyValue t Rdp := λ k v,
  timestamp ← get_timestamp_from_key k;
  Ok (mk _ timestamp (ip_to_string (Rdp.orig_addr v)) (Rdp.orig_port v)
    (ip_to_string (Rdp.resp_addr v)) (Rdp.resp_port v) (Rdp.proto v)
    (Rdp.last_time v) (Rdp.cookie v)).
End RdpRawEvent.
Export (hints) RdpRawEvent.

Module SmtpRawEvent.
Record t `{Chrono} := mk {
  timestamp : DateTime; orig_addr : string; orig_port : Z; resp_addr : string; resp_port : Z;
  proto : Z; last_time : Z; mailfrom : string; date : string;
  from_ : string; to_ : string; subject : string; agent : string; }.

#[export] Instance convert `{Chrono} : FromKeyValue t Smtp := λ k v,
  timestamp ← get_timestamp_from_key k;
  Ok (mk _ timestamp (ip_to_string (Smtp.orig_addr v)) (Smtp.orig_port v)
    (ip_to_string (Smtp.resp_addr v)) (Smtp.resp_port v) (Smtp.proto v)
    (Smtp.last_time v) (Smtp.mailfrom v) (Smtp.date v) (Smtp.from_ v)
    (Smtp.to_ v) (Smtp.subject v) (Smtp.agent v)).
End SmtpRawEvent.
Export (hints) SmtpRawEvent.

Module NtlmRawEvent.
Record t `{Chrono} := mk {
  timestamp : DateTime; orig_addr : string; orig_port : Z; resp_addr : string; resp_port : Z;
  proto : Z; last_time : Z; username : string; hostname : string;
  domainname : string; server_nb_computer_name : string;
  server_dns_computer_name : string; server_tree_name : string;
  success : string; }.

#[export] Instance convert `{Chrono} : FromKeyValue t Ntlm := λ k v,
  timestamp ← get_timestamp_from_key k;
  Ok (mk _ timestamp (ip_to_string (Ntlm.orig_addr v)) (Ntlm.orig_port v)
    (ip_to_string (Ntlm.resp_addr v)) (Ntlm.resp_port v) (Ntlm.proto v)
    (Ntlm.last_time v) (Ntlm.username v) (Ntlm.hostname v) (Ntlm.domainname v)
    (Ntlm.server_nb_computer_name v) (Ntlm.server_dns_computer_name v)
    (Ntlm.server_tree_name v) (Ntlm.success v)).
End NtlmRawEvent.
Export (hints) NtlmRawEvent.

Module KerberosRawEvent.
Record t `{Chrono} := mk {
  timestamp : DateTime; orig_addr : string; orig_port : Z; resp_addr : string; resp_port : Z;
  proto : Z; last_time : Z; client_time : Z; server_time : Z;
  error_code : Z; client_realm : string; cname_type : Z;
  client_name : list string; realm : string; sname_type : Z;
  service_name : list string; }.

#[export] Instance convert `{Chrono} : FromKeyValue t Kerberos := λ k v,
  timestamp ← get_timestamp_from_key k;
  Ok (mk _ timestamp (ip_to_string (Kerberos.orig_addr v)) (Kerberos.orig_port v)
    (ip_to_string (Kerberos.resp_addr v)) (Kerberos.resp_port v)
    (Kerberos.proto v) (Kerberos.last_time v) (Kerberos.client_time v)
    (Kerberos.server_time v) (Kerberos.error_code v) (Kerberos.client_realm v)
    (Kerberos.cname_type v) (Kerberos.client_name v) (Kerberos.realm v)
    (Kerberos.sname_type v) (Kerberos.service_name v)).
End KerberosRawEvent.
Export (hints) KerberosRawEvent.

Module SshRawEvent.
Record t `{Chrono} := mk {
  timestamp : DateTime; orig_addr : string; orig_port : Z; resp_addr : string; resp_port : Z;
  proto : Z; last_time : Z; version : Z; auth_success : string;
  auth_attempts : Z; direction : string; client : string; server : string;
  cipher_alg : string; mac_alg : string; compression_alg : string;
  kex_alg : string; host_key_alg : string; host_key : string; }.

#[export] Instance convert `{Chrono} : FromKeyValue t Ssh := λ k v,
  timestamp ← get_timestamp_from_key k;
  Ok (mk _ timestamp (ip_to_string (Ssh.orig_addr v)) (Ssh.orig_port v)
    (ip_to_string (Ssh.resp_addr v)) (Ssh.resp_port v) (Ssh.proto v)
    (Ssh.last_time v) (Ssh.version v) (Ssh.auth_success v)
    (Ssh.auth_attempts v) (Ssh.direction v) (Ssh.client v) (Ssh.server v)
    (Ssh.cipher_alg v) (Ssh.mac_alg v) (Ssh.compression_alg v) (Ssh.kex_alg v)
    (Ssh.host_key_alg v) (Ssh.host_key v)).
End SshRawEvent.
Export (hints) SshRawEvent.

Module DceRpcRawEvent.
Record t `{Chrono} := mk {
  timestamp : DateTime; orig_addr : string; orig_port : Z; resp_addr : string; resp_port : Z;
  proto : Z; last_time : Z; rtt : Z; named_pipe : string; endpoint : string;
  operation : string; }.

#[export] Instance convert `{Chrono} : FromKeyValue t DceRpc := λ k v,
  timestamp ← get_timestamp_from_key k;
  Ok (mk _ timestamp (ip_to_string (DceRpc.orig_addr v)) (DceRpc.orig_port v)
    (ip_to_string (DceRpc.resp_addr v)) (DceRpc.resp_port v) (DceRpc.proto v)
    (DceRpc.last_time v) (DceRpc.rtt v) (DceRpc.named_pipe v)
    (DceRpc.endpoint v) (DceRpc.operation v)).
End DceRpcRawEvent.
Export (hints) DceRpcRawEvent.

Module FtpRawEvent.
Record t `{Chrono} := mk {
  timestamp : DateTime; orig_addr : string; orig_port : Z; resp_addr : string; resp_port : Z;
  proto : Z; last_time : Z; user : string; password : string;
  command : string; reply_code : string; reply_msg : string;
  data_passive : bool; data_orig_addr : string; data_resp_addr : string;
  data_resp_port : Z; file : string; file_size : Z; file_id : string; }.

#[export] Instance convert `{Chrono} : FromKeyValue t Ftp := λ k v,
  timestamp ← get_timestamp_from_key k;
  Ok (mk _ timestamp (ip_to_string (Ftp.orig_addr v)) (Ftp.orig_port v)
    (ip_to_string (Ftp.resp_addr v)) (Ftp.resp_port v) (Ftp.proto v)
    (Ftp.last_time v) (Ftp.user v) (Ftp.password v) (Ftp.command v)
    (Ftp.reply_code v) (Ftp.reply_msg v) (Ftp.data_passive v)
    (ip_to_string (Ftp.data_orig_addr v))
    (ip_to_string (Ftp.data_resp_addr v)) (Ftp.data_resp_port v) (Ftp.file v)
    (Ftp.file_size v) (Ftp.file_id v)).
End FtpRawEvent.
Export (hints) FtpRawEvent.

Module MqttRawEvent.
Record t `{Chrono} := mk {
  timestamp : DateTime; orig_addr : string; orig_port : Z; resp_addr : string; resp_port : Z;
  proto : Z; last_time : Z; protocol : string; version : Z;
  client_id : string; connack_reason : Z; subscribe : list string;
  suback_reason : list Z; }.

#[export] Instance convert `{Chrono} : FromKeyValue t Mqtt := λ k v,
  timestamp ← get_timestamp_from_key k;
  Ok (mk _ timestamp (ip_to_string (Mqtt.orig_addr v)) (Mqtt.orig_port v)
    (ip_to_string (Mqtt.resp_addr v)) (Mqtt.resp_port v) (Mqtt.proto v)
    (Mqtt.last_time v) (Mqtt.protocol v) (Mqtt.version v) (Mqtt.client_id v)
    (Mqtt.connack_reason v) (Mqtt.subscribe v) (Mqtt.suback_reason v)).
End MqttRawEvent.
Export (hints) MqttRawEvent.

Module LdapRawEvent.
Record t `{Chrono} := mk {
  timestamp : DateTime; orig_addr : string; orig_port : Z; resp_addr : string; resp_port : Z;
  proto : Z; last_time : Z; message_id : Z; version : Z;
  opcode : list string; result : list string;
  diagnostic_message : list string; object_ : list string;
  argument : list string; }.

#[export] Instance convert `{Chrono} : FromKeyValue t Ldap := λ k v,
  timestamp ← get_timestamp_from_key k;
  Ok (mk _ timestamp (ip_to_string (Ldap.orig_addr v)) (Ldap.orig_port v)
    (ip_to_string (Ldap.resp_addr v)) (Ldap.resp_port v) (Ldap.proto v)
    (Ldap.last_time v) (Ldap.message_id v) (Ldap.version v) (Ldap.opcode v)
    (Ldap.result v) (Ldap.diagnostic_message v) (Ldap.object_ v)
    (Ldap.argument v)).
End LdapRawEvent.
Export (hints) LdapRawEvent.

Module TlsRawEvent.
Record t `{Chrono} := mk {
  timestamp : DateTime; orig_addr : string; orig_port : Z; resp_addr : string; resp_port : Z;
  proto : Z; last_time : Z; server_name : string; alpn_protocol : string;
  ja3 : string; version : string; cipher : Z; ja3s : string;
  serial : string; subject_country : string; subject_org_name : string;
  subject_common_name : string; validity_not_before : Z;
  validity_not_after : Z; subject_alt_name : string;
  issuer_country : string; issuer_org_name : string;
  issuer_org_unit_name : string; issuer_common_name : string;
  last_alert : Z; }.

#[export] Instance convert `{Chrono} : FromKeyValue t Tls := λ k v,
  timestamp ← get_timestamp_from_key k;
  Ok (mk _ timestamp (ip_to_string (Tls.orig_addr v)) (Tls.orig_port v)
    (ip_to_string (Tls.resp_addr v)) (Tls.resp_port v) (Tls.proto v)
    (Tls.last_time v) (Tls.server_name v) (Tls.alpn_protocol v) (Tls.ja3 v)
    (Tls.version v) (Tls.cipher v) (Tls.ja3s v) (Tls.serial v)
    (Tls.subject_country v) (Tls.subject_org_name v)
    (Tls.subject_common_name v) (Tls.validity_not_before v)
    (Tls.validity_not_after v) (Tls.subject_alt_name v) (Tls.issuer_country v)
    (Tls.issuer_org_name v) (Tls.issuer_org_unit_name v)
    (Tls.issuer_common_name v) (Tls.last_alert v)).
End TlsRawEvent.
Export (hints) TlsRawEvent.

Module SmbRawEvent.
Record t `{Chrono} := mk {
  timestamp : DateTime; orig_addr : string; orig_port : Z; resp_addr : string; resp_port : Z;
  proto : Z; last_time : Z; command : Z; path : string; service : string;
  file_name : string; file_size : Z; resource_type : Z; fid : Z;
  create_time : Z; access_time : Z; write_time : Z; change_time : Z; }.

#[export] Instance convert `{Chrono} : FromKeyValue t Smb := λ k v,
  timestamp ← get_timestamp_from_key k;
  Ok (mk _ timestamp (ip_to_string (Smb.orig_addr v)) (Smb.orig_port v)
    (ip_to_string (Smb.resp_addr v)) (Smb.resp_port v) (Smb.proto v)
    (Smb.last_time v) (Smb.command v) (Smb.path v) (Smb.service v)
    (Smb.file_name v) (Smb.file_size v) (Smb.resource_type v) (Smb.fid v)
    (Smb.create_time v) (Smb.access_time v) (Smb.write_time v)
    (Smb.change_time v)).
End SmbRawEvent.
Export (hints) SmbRawEvent.

Module NfsRawEvent.
Record t `{Chrono} := mk {
  timestamp : DateTime; orig_addr : string; orig_port : Z; resp_addr : string; resp_port : Z;
  proto : Z; last_time : Z; read_files : list string;
  write_files : list string; }.

#[export] Instance convert `{Chrono} : FromKeyValue t Nfs := λ k v,
  timestamp ← get_timestamp_from_key k;
  Ok (mk _ timestamp (ip_to_string (Nfs.orig_addr v)) (Nfs.orig_port v)
    (ip_to_string (Nfs.resp_addr v)) (Nfs.resp_port v) (Nfs.proto v)
    (Nfs.last_time v) (Nfs.read_files v) (Nfs.write_files v)).
End NfsRawEvent.
Export (hints) NfsRawEvent.

Module Netflow5RawEvent.
Record t `{Chrono} := mk {
  timestamp : DateTime; srcaddr : string; dstaddr : string; nexthop : string; input : Z;
  output : Z; dpkts : Z; doctets : Z; first : string; last : string;
  srcport : Z; dstport : Z; tcp_flags : string; prot : Z; tos : string;
  src_as : Z; dst_as : Z; src_mask : Z; dst_mask : Z; sequence : Z;
  engine_type : Z; engine_id : Z; sampling_mode : string; sampling_rate : Z; }.

#[export] Instance convert `{Chrono} : FromKeyValue t Netflow5 := λ k v,
  timestamp ← get_timestamp_from_key k;
  Ok (mk _ timestamp (ip_to_string (Netflow5.srcaddr v)) (ip_to_string (Netflow5.dstaddr v))
    (ip_to_string (Netflow5.nexthop v)) (Netflow5.input v) (Netflow5.output v)
    (Netflow5.dpkts v) (Netflow5.doctets v) (Netflow.milli_to_secs (Netflow5.first v))
    (Netflow.milli_to_secs (Netflow5.last v)) (Netflow5.srcport v)
    (Netflow5.dstport v) (Netflow.tcp_flags (Netflow5.tcp_flags v)) (Netflow5.prot v)
    (hex (Netflow5.tos v)) (Netflow5.src_as v) (Netflow5.dst_as v)
    (Netflow5.src_mask v) (Netflow5.dst_mask v) (Netflow5.sequence v)
    (Netflow5.engine_type v) (Netflow5.engine_id v)
    (hex (Netflow5.sampling_mode v)) (Netflow5.sampling_rate v)).
End Netflow5RawEvent.
Export (hints) Netflow5RawEvent.

Module NetflowV9RawEvent.
Record t `{Chrono} := mk {
  timestamp : DateTime; sequence : Z; source_id : Z; template_id : Z; orig_addr : string;
  orig_port : Z; resp_addr : string; resp_port : Z; proto : Z;
  contents : string; }.

#[export] Instance convert `{Chrono} : FromKeyValue t Netflow9 := λ k v,
  timestamp ← get_timestamp_from_key k;
  Ok (mk _ timestamp (Netflow9.sequence v) (Netflow9.source_id v) (Netflow9.template_id v)
    (ip_to_string (Netflow9.orig_addr v)) (Netflow9.orig_port v)
    (ip_to_string (Netflow9.resp_addr v)) (Netflow9.resp_port v)
    (Netflow9.proto v) (Netflow9.contents v)).
End NetflowV9RawEvent.
Export (hints) NetflowV9RawEvent.

Module ProcessCreateEvent.
Record t `{Chrono} := mk {
  timestamp : DateTime; agent_name : string; agent_id : string; process_guid : string;
  process_id : Z; image : string; file_version : string;
  description : string; product : string; company : string;
  original_file_name : string; command_line : string;
  current_directory : string; user : string; logon_guid : string;
  logon_id : Z; terminal_session_id : Z; integrity_level : string;
  hashes : list string; parent_process_guid : string; parent_process_id : Z;
  parent_image : string; parent_command_line : string; parent_user : string; }.

#[export] Instance convert `{Chrono} : FromKeyValue t ProcessCreate := λ k v,
  timestamp ← get_timestamp_from_key k;
  Ok (mk _ timestamp (ProcessCreate.agent_name v) (ProcessCreate.agent_id v)
    (ProcessCreate.process_guid v) (ProcessCreate.process_id v)
    (ProcessCreate.image v) (ProcessCreate.file_version v)
    (ProcessCreate.description v) (ProcessCreate.product v)
    (ProcessCreate.company v) (ProcessCreate.original_file_name v)
    (ProcessCreate.command_line v) (ProcessCreate.current_directory v)
    (ProcessCreate.user v) (ProcessCreate.logon_guid v)
    (ProcessCreate.logon_id v) (ProcessCreate.terminal_session_id v)
    (ProcessCreate.integrity_level v) (ProcessCreate.hashes v)
    (ProcessCreate.parent_process_guid v) (ProcessCreate.parent_process_id v)
    (ProcessCreate.parent_image v) (ProcessCreate.parent_command_line v)
    (ProcessCreate.parent_user v)).
End ProcessCreateEvent.
Export (hints) ProcessCreateEvent.

Module FileCreationTimeChangedEvent.
Record t `{Chrono} := mk {
  timestamp : DateTime; agent_name : string; agent_id : string; process_guid : string;
  process_id : Z; image : string; target_filename : string;
  creation_utc_time : Z; previous_creation_utc_time : Z; user : string; }.

#[export] Instance convert `{Chrono} : FromKeyValue t FileCreationTimeChanged := λ k v,
  timestamp ← get_timestamp_from_key k;
  Ok (mk _ timestamp (FileCreationTimeChanged.agent_name v)
    (FileCreationTimeChanged.agent_id v)
    (FileCreationTimeChanged.process_guid v)
    (FileCreationTimeChanged.process_id v) (FileCreationTimeChanged.image v)
    (FileCreationTimeChanged.target_filename v)
    (FileCreationTimeChanged.creation_utc_time v)
    (FileCreationTimeChanged.previous_creation_utc_time v)
    (FileCreationTimeChanged.user v)).
End FileCreationTimeChangedEvent.
Export (hints) FileCreationTimeChangedEvent.

Module NetworkConnectionEvent.
Record t `{Chrono} := mk {
  timestamp : DateTime; agent_name : string; agent_id : string; process_guid : string;
  process_id : Z; image : string; user : string; protocol : string;
  initiated : bool; source_is_ipv6 : bool; source_ip : string;
  source_hostname : string; source_port : Z; source_port_name : string;
  destination_is_ipv6 : bool; destination_ip : string;
  destination_hostname : string; destination_port : Z;
  destination_port_name : string; }.

#[export] Instance convert `{Chrono} : FromKeyValue t NetworkConnection := λ k v,
  timestamp ← get_timestamp_from_key k;
  Ok (mk _ timestamp (NetworkConnection.agent_name v) (NetworkConnection.agent_id v)
    (NetworkConnection.process_guid v) (NetworkConnection.process_id v)
    (NetworkConnection.image v) (NetworkConnection.user v)
    (NetworkConnection.protocol v) (NetworkConnection.initiated v)
    (NetworkConnection.source_is_ipv6 v)
    (ip_to_string (NetworkConnection.source_ip v))
    (NetworkConnection.source_hostname v) (NetworkConnection.source_port v)
    (NetworkConnection.source_port_name v)
    (NetworkConnection.destination_is_ipv6 v)
    (ip_to_string (NetworkConnection.destination_ip v))
    (NetworkConnection.destination_hostname v)
    (NetworkConnection.destination_port v)
    (NetworkConnection.destination_port_name v)).
End NetworkConnectionEvent.
Export (hints) NetworkConnectionEvent.

Module ProcessTerminatedEvent.
Record t `{Chrono} := mk {
  timestamp : DateTime; agent_name : string; agent_id : string; process_guid : string;
  process_id : Z; image : string; user : string; }.

#[export] Instance convert `{Chrono} : FromKeyValue t ProcessTerminated := λ k v,
  timestamp ← get_timestamp_from_key k;
  Ok (mk _ timestamp (ProcessTerminated.agent_name v) (ProcessTerminated.agent_id v)
    (ProcessTerminated.process_guid v) (ProcessTerminated.process_id v)
    (ProcessTerminated.image v) (ProcessTerminated.user v)).
End ProcessTerminatedEvent.
Export (hints) ProcessTerminatedEvent.

Module ImageLoadedEvent.
Record t `{Chrono} := mk {
  timestamp : DateTime; agent_name : string; agent_id : string; process_guid : string;
  process_id : Z; image : string; image_loaded : string;
  file_version : string; description : string; product : string;
  company : string; original_file_name : string; hashes : list string;
  signed : bool; signature : string; signature_status : string;
  user : string; }.

#[export] Instance convert `{Chrono} : FromKeyValue t ImageLoaded := λ k v,
  timestamp ← get_timestamp_from_key k;
  Ok (mk _ timestamp (ImageLoaded.agent_name v) (ImageLoaded.agent_id v)
    (ImageLoaded.process_guid v) (ImageLoaded.process_id v)
    (ImageLoaded.image v) (ImageLoaded.image_loaded v)
    (ImageLoaded.file_version v) (ImageLoaded.description v)
    (ImageLoaded.product v) (ImageLoaded.company v)
    (ImageLoaded.original_file_name v) (ImageLoaded.hashes v)
    (ImageLoaded.signed v) (ImageLoaded.signature v)
    (ImageLoaded.signature_status v) (ImageLoaded.user v)).
End ImageLoadedEvent.
Export (hints) ImageLoadedEvent.

Module FileCreateEvent.
Record t `{Chrono} := mk {
  timestamp : DateTime; agent_name : string; agent_id : string; process_guid : string;
  process_id : Z; image : string; target_filename : string;
  creation_utc_time : Z; user : string; }.

#[export] Instance convert `{Chrono} : FromKeyValue t FileCreate := λ k v,
  timestamp ← get_timestamp_from_key k;
  Ok (mk _ timestamp (FileCreate.agent_name v) (FileCreate.agent_id v)
    (FileCreate.process_guid v) (FileCreate.process_id v) (FileCreate.image v)
    (FileCreate.target_filename v) (FileCreate.creation_utc_time v)
    (FileCreate.user v)).
End FileCreateEvent.
Export (hints) FileCreateEvent.

Module RegistryValueSetEvent.
Record t `{Chrono} := mk {
  timestamp : DateTime; agent_name : string; agent_id : string; event_type : string;
  process_guid : string; process_id : Z; image : string;
  target_object : string; details : string; user : string; }.

#[export] Instance convert `{Chrono} : FromKeyValue t RegistryValueSet := λ k v,
  timestamp ← get_timestamp_from_key k;
  Ok (mk _ timestamp (RegistryValueSet.agent_name v) (RegistryValueSet.agent_id v)
    (RegistryValueSet.event_type v) (RegistryValueSet.process_guid v)
    (RegistryValueSet.process_id v) (RegistryValueSet.image v)
    (RegistryValueSet.target_object v) (RegistryValueSet.details v)
    (RegistryValueSet.user v)).
End RegistryValueSetEvent.
Export (hints) RegistryValueSetEvent.

Module RegistryKeyValueRenameEvent.
Record t `{Chrono} := mk {
  timestamp : DateTime; agent_name : string; agent_id : string; event_type : string;
  process_guid : string; process_id : Z; image : string;
  target_object : string; new_name : string; user : string; }.

#[export] Instance convert `{Chrono} : FromKeyValue t RegistryKeyValueRename := λ k v,
  timestamp ← get_timestamp_from_key k;
  Ok (mk _ timestamp (RegistryKeyValueRename.agent_name v) (RegistryKeyValueRename.agent_id v)
    (RegistryKeyValueRename.event_type v)
    (RegistryKeyValueRename.process_guid v)
    (RegistryKeyValueRename.process_id v) (RegistryKeyValueRename.image v)
    (RegistryKeyValueRename.target_object v)
    (RegistryKeyValueRename.new_name v) (RegistryKeyValueRename.user v)).
End RegistryKeyValueRenameEvent.
Export (hints) RegistryKeyValueRenameEvent.

Module FileCreateStreamHashEvent.
Record t `{Chrono} := mk {
  timestamp : DateTime; agent_name : string; agent_id : string; process_guid : string;
  process_id : Z; image : string; target_filename : string;
  creation_utc_time : Z; hash : list string; contents : string;
  user : string; }.

#[export] Instance convert `{Chrono} : FromKeyValue t FileCreateStreamHash := λ k v,
  timestamp ← get_timestamp_from_key k;
  Ok (mk _ timestamp (FileCreateStreamHash.agent_name v) (FileCreateStreamHash.agent_id v)
    (FileCreateStreamHash.process_guid v) (FileCreateStreamHash.process_id v)
    (FileCreateStreamHash.image v) (FileCreateStreamHash.target_filename v)
    (FileCreateStreamHash.creation_utc_time v) (FileCreateStreamHash.hash v)
    (FileCreateStreamHash.contents v) (FileCreateStreamHash.user v)).
End FileCreateStreamHashEvent.
Export (hints) FileCreateStreamHashEvent.

Module PipeEventEvent.
Record t `{Chrono} := mk {
  timestamp : DateTime; agent_name : string; agent_id : string; event_type : string;
  process_guid : string; process_id : Z; pipe_name : string; image : string;
  user : string; }.

#[export] Instance convert `{Chrono} : FromKeyValue t PipeEvent := λ k v,
  timestamp ← get_timestamp_from_key k;
  Ok (mk _ timestamp (PipeEvent.agent_name v) (PipeEvent.agent_id v) (PipeEvent.event_type v)
    (PipeEvent.process_guid v) (PipeEvent.process_id v)
    (PipeEvent.pipe_name v) (PipeEvent.image v) (PipeEvent.user v)).
End PipeEventEvent.
Export (hints) PipeEventEvent.

Module DnsEventEvent.
Record t `{Chrono} := mk {
  timestamp : DateTime; agent_name : string; agent_id : string; process_guid : string;
  process_id : Z; query_name : string; query_status : Z;
  query_results : list string; image : string; user : string; }.

#[export] Instance convert `{Chrono} : FromKeyValue t DnsEvent := λ k v,
  timestamp ← get_timestamp_from_key k;
  Ok (mk _ timestamp (DnsEvent.agent_name v) (DnsEvent.agent_id v) (DnsEvent.process_guid v)
    (DnsEvent.process_id v) (DnsEvent.query_name v) (DnsEvent.query_status v)
    (DnsEvent.query_results v) (DnsEvent.image v) (DnsEvent.user v)).
End DnsEventEvent.
Export (hints) DnsEventEvent.

Module FileDeleteEvent.
Record t `{Chrono} := mk {
  timestamp : DateTime; agent_name : string; agent_id : string; process_guid : string;
  process_id : Z; user : string; image : string; target_filename : string;
  hashes : list string; is_executable : bool; archived : bool; }.

#[export] Instance convert `{Chrono} : FromKeyValue t FileDelete := λ k v,
  timestamp ← get_timestamp_from_key k;
  Ok (mk _ timestamp (FileDelete.agent_name v) (FileDelete.agent_id v)
    (FileDelete.process_guid v) (FileDelete.process_id v) (FileDelete.user v)
    (FileDelete.image v) (FileDelete.target_filename v) (FileDelete.hashes v)
    (FileDelete.is_executable v) (FileDelete.archived v)).
End FileDeleteEvent.
Export (hints) FileDeleteEvent.

Module ProcessTamperingEvent.
Record t `{Chrono} := mk {
  timestamp : DateTime; agent_name : string; agent_id : string; process_guid : string;
  process_id : Z; image : string; tamper_type : string; user : string; }.

#[export] Instance convert `{Chrono} : FromKeyValue t ProcessTampering := λ k v,
  timestamp ← get_timestamp_from_key k;
  Ok (mk _ timestamp (ProcessTampering.agent_name v) (ProcessTampering.agent_id v)
    (ProcessTampering.process_guid v) (ProcessTampering.process_id v)
    (ProcessTampering.image v) (ProcessTampering.tamper_type v)
    (ProcessTampering.user v)).
End ProcessTamperingEvent.
Export (hints) ProcessTamperingEvent.

Module FileDeleteDetectedEvent.
Record t `{Chrono} := mk {
  timestamp : DateTime; agent_name : string; agent_id : string; process_guid : string;
  process_id : Z; user : string; image : string; target_filename : string;
  hashes : list string; is_executable : bool; }.

#[export] Instance convert `{Chrono} : FromKeyValue t FileDeleteDetected := λ k v,
  timestamp ← get_timestamp_from_key k;
  Ok (mk _ timestamp (FileDeleteDetected.agent_name v) (FileDeleteDetected.agent_id v)
    (FileDeleteDetected.process_guid v) (FileDeleteDetected.process_id v)
    (FileDeleteDetected.user v) (FileDeleteDetected.image v)
    (FileDeleteDetected.target_filename v) (FileDeleteDetected.hashes v)
    (FileDeleteDetected.is_executable v)).
End FileDeleteDetectedEvent.
Export (hints) FileDeleteDetectedEvent.

(** ** Properties of the netflow texts *)

(** The names of the flags of a byte, in the order of the table. *)
Definition flag_names (b : Z) : list string :=
  (filter (λ e : Z * string, Z.land b e.1 = e.1) Netflow.TCP_FLAGS).*2.

Lemma byte_forall (P : Z → Prop) `{∀ b, Decision (P b)} :
  bool_decide (Forall P (seqZ 0 256)) = true → ∀ b, 0 ≤ b < 256 → P b.
Proof.
  intros Hall%bool_decide_eq_true_1 b Hb. rewrite Forall_forall in Hall.
  apply Hall, elem_of_seqZ. lia.
Qed.

(** The text of a netflow flags byte names the flags of the table whose
    bit is set, in order and joined by dashes, and is [None] when there are
    none. *)
Theorem tcp_flags_text b :
  0 ≤ b < 256 →
  Netflow.tcp_flags b =
    match flag_names b with [] => "None" | names => String.concat "-" names end.
Proof.
  apply (byte_forall (λ b, Netflow.tcp_flags b =
    match flag_names b with [] => "None" | names => String.concat "-" names end)).
  vm_compute. reflexivity.
Qed.

(** The congestion-window bit (0x80) is never shown, and [CWR] is shown
    whenever [PSH] is: the table gives both the mask 0x08. *)
Theorem tcp_flags_ignores_cwr_bit b :
  0 ≤ b < 128 → Netflow.tcp_flags (b + 128) = Netflow.tcp_flags b.
Proof.
  intros Hb. apply (byte_forall (λ b, b < 128 →
    Netflow.tcp_flags (b + 128) = Netflow.tcp_flags b)); [vm_compute; reflexivity|lia..].
Qed.

Lemma tcp_flags_text_witness : Netflow.tcp_flags 0x18 = "PSH-ACK-CWR".
Proof. rewrite tcp_flags_text; [vm_compute; reflexivity|lia]. Defined.

(** The milliseconds are not padded: 1005 ms is shown as 1.5 s. *)
Example milli_to_secs_unpadded : Netflow.milli_to_secs 1005 = "1.5".
Proof. vm_compute. reflexivity. Qed.
