(* ===== verification/ExportJson.v ===== *)
(** * The JSON records of the export (src/src/graphql/export.rs, export/netflow.rs)

    The [*JsonOutput] structures and how an event is converted to each
    ([JsonOutput]): the time stamp and source are those of the key, addresses
    and a few codes are shown as text, the other fields are copied. *)

From Stdlib Require Import ZArith Lia.
From Stdlib Require Import Floats.SpecFloat.
From S2P Require Import Prelude Bytes Externals StorageKey NetAddr GigantoClient Events Nodes.

(** [convert_json_output(&self, timestamp, source)] *)
Class JsonOutput (N T : Type) := convert_json_output : T → string → string → result N.

Definition to_string_or_empty {A} (show : A → string) (o : option A) : string :=
  match o with Some val => show val | None => "-" end.

(** [{}] of a signed integer *)
Definition dec_signed (z : Z) : string := if z <? 0 then "-" +:+ dec (- z) else dec z.

Definition to_vec_string (show : Z → string) (vec : list Z) : list string :=
  match vec with [] => ["-"] | _ => show <$> vec end.

Module ConnJsonOutput.
Record t := mk {
  timestamp : string; source : string; orig_addr : string; orig_port : Z;
  resp_addr : string; resp_port : Z; proto : Z; duration : Z;
  service : string; orig_bytes : Z; resp_bytes : Z; orig_pkts : Z;
  resp_pkts : Z; }.

#[export] Instance convert : JsonOutput t Conn := λ v timestamp source,
  Ok (mk timestamp source (ip_to_string (Conn.orig_addr v)) (Conn.orig_port v)
    (ip_to_string (Conn.resp_addr v)) (Conn.resp_port v) (Conn.proto v)
    (Conn.duration v) (Conn.service v) (Conn.orig_bytes v) (Conn.resp_bytes v)
    (Conn.orig_pkts v) (Conn.resp_pkts v)).
End ConnJsonOutput.
Notation ConnJsonOutput := ConnJsonOutput.t.
Export (hints) ConnJsonOutput.

Module DnsJsonOutput.
Record t := mk {
  timestamp : string; source : string; orig_addr : string; orig_port : Z;
  resp_addr : string; resp_port : Z; proto : Z; last_time : Z;
  query : string; answer : list string; trans_id : Z; rtt : Z;
  qclass : string; qtype : string; rcode : Z; aa_flag : bool;
  tc_flag : bool; rd_flag : bool; ra_flag : bool; ttl : list string; }.

#[export] Instance convert `{Client} : JsonOutput t Dns := λ v timestamp source,
  Ok (mk timestamp source (ip_to_string (Dns.orig_addr v)) (Dns.orig_port v)
    (ip_to_string (Dns.resp_addr v)) (Dns.resp_port v) (Dns.proto v)
    (Dns.last_time v) (Dns.query v) (Dns.answer v) (Dns.trans_id v)
    (Dns.rtt v) (qclass_str (Dns.qclass v)) (qtype_str (Dns.qtype v))
    (Dns.rcode v) (Dns.aa_flag v) (Dns.tc_flag v) (Dns.rd_flag v)
    (Dns.ra_flag v) (to_vec_string dec_signed (Dns.ttl v))).
End DnsJsonOutput.
Notation DnsJsonOutput := DnsJsonOutput.t.
Export (hints) DnsJsonOutput.

Module HttpJsonOutput.
Record t := mk {
  timestamp : string; source : string; orig_addr : string; orig_port : Z;
  resp_addr : string; resp_port : Z; proto : Z; last_time : Z;
  method : string; host : string; uri : string; referrer : string;
  version : string; user_agent : string; request_len : Z; response_len : Z;
  status_code : Z; status_msg : string; username : string;
  password : string; cookie : string; content_encoding : string;
  content_type : string; cache_control : string;
  orig_filenames : list string; orig_mime_types : list string;
  resp_filenames : list string; resp_mime_types : list string; }.

#[export] Instance convert : JsonOutput t Http := λ v timestamp source,
  Ok (mk timestamp source (ip_to_string (Http.orig_addr v)) (Http.orig_port v)
    (ip_to_string (Http.resp_addr v)) (Http.resp_port v) (Http.proto v)
    (Http.last_time v) (Http.method v) (Http.host v) (Http.uri v)
    (Http.referrer v) (Http.version v) (Http.user_agent v)
    (Http.request_len v) (Http.response_len v) (Http.status_code v)
    (Http.status_msg v) (Http.username v) (Http.password v) (Http.cookie v)
    (Http.content_encoding v) (Http.content_type v) (Http.cache_control v)
    (Http.orig_filenames v) (Http.orig_mime_types v) (Http.resp_filenames v)
    (Http.resp_mime_types v)).
End HttpJsonOutput.
Notation HttpJsonOutput := HttpJsonOutput.t.
Export (hints) HttpJsonOutput.

Module RdpJsonOutput.
Record t := mk {
  timestamp : string; source : string; orig_addr : string; orig_port : Z;
  resp_addr : string; resp_port : Z; proto : Z; last_time : Z;
  cookie : string; }.

#[export] Instance convert : JsonOutput t Rdp := λ v timestamp source,
  Ok (mk timestamp source (ip_to_string (Rdp.orig_addr v)) (Rdp.orig_port v)
    (ip_to_string (Rdp.resp_addr v)) (Rdp.resp_port v) (Rdp.proto v)
    (Rdp.last_time v) (Rdp.cookie v)).
End RdpJsonOutput.
Notation RdpJsonOutput := RdpJsonOutput.t.
Export (hints) RdpJsonOutput.

Module SmtpJsonOutput.
Record t := mk {
  timestamp : string; source : string; orig_addr : string; orig_port : Z;
  resp_addr : string; resp_port : Z; proto : Z; last_time : Z;
  mailfrom : string; date : string; from_ : string; to_ : string;
  subject : string; agent : string; }.

#[export] Instance convert : JsonOutput t Smtp := λ v timestamp source,
  Ok (mk timestamp source (ip_to_string (Smtp.orig_addr v)) (Smtp.orig_port v)
    (ip_to_string (Smtp.resp_addr v)) (Smtp.resp_port v) (Smtp.proto v)
    (Smtp.last_time v) (Smtp.mailfrom v) (Smtp.date v) (Smtp.from_ v)
    (Smtp.to_ v) (Smtp.subject v) (Smtp.agent v)).
End SmtpJsonOutput.
Notation SmtpJsonOutput := SmtpJsonOutput.t.
Export (hints) SmtpJsonOutput.

Module NtlmJsonOutput.
Record t := mk {
  timestamp : string; source : string; orig_addr : string; orig_port : Z;
  resp_addr : string; resp_port : Z; proto : Z; last_time : Z;
  username : string; hostname : string; domainname : string;
  server_nb_computer_name : string; server_dns_computer_name : string;
  server_tree_name : string; success : string; }.

#[export] Instance convert : JsonOutput t Ntlm := λ v timestamp source,
  Ok (mk timestamp source (ip_to_string (Ntlm.orig_addr v)) (Ntlm.orig_port v)
    (ip_to_string (Ntlm.resp_addr v)) (Ntlm.resp_port v) (Ntlm.proto v)
    (Ntlm.last_time v) (Ntlm.username v) (Ntlm.hostname v) (Ntlm.domainname v)
    (Ntlm.server_nb_computer_name v) (Ntlm.server_dns_computer_name v)
    (Ntlm.server_tree_name v) (Ntlm.success v)).
End NtlmJsonOutput.
Notation NtlmJsonOutput := NtlmJsonOutput.t.
Export (hints) NtlmJsonOutput.

Module KerberosJsonOutput.
Record t := mk {
  timestamp : string; source : string; orig_addr : string; orig_port : Z;
  resp_addr : string; resp_port : Z; proto : Z; last_time : Z;
  client_time : Z; server_time : Z; error_code : Z; client_realm : string;
  cname_type : Z; client_name : list string; realm : string; sname_type : Z;
  service_name : list string; }.

#[export] Instance convert : JsonOutput t Kerberos := λ v timestamp source,
  Ok (mk timestamp source (ip_to_string (Kerberos.orig_addr v))
    (Kerberos.orig_port v) (ip_to_string (Kerberos.resp_addr v))
    (Kerberos.resp_port v) (Kerberos.proto v) (Kerberos.last_time v)
    (Kerberos.client_time v) (Kerberos.server_time v) (Kerberos.error_code v)
    (Kerberos.client_realm v) (Kerberos.cname_type v) (Kerberos.client_name v)
    (Kerberos.realm v) (Kerberos.sname_type v) (Kerberos.service_name v)).
End KerberosJsonOutput.
Notation KerberosJsonOutput := KerberosJsonOutput.t.
Export (hints) KerberosJsonOutput.

Module SshJsonOutput.
Record t := mk {
  timestamp : string; source : string; orig_addr : string; orig_port : Z;
  resp_addr : string; resp_port : Z; proto : Z; last_time : Z; version : Z;
  auth_success : string; auth_attempts : Z; direction : string;
  client : string; server : string; cipher_alg : string; mac_alg : string;
  compression_alg : string; kex_alg : string; host_key_alg : string;
  host_key : string; }.

#[export] Instance convert : JsonOutput t Ssh := λ v timestamp source,
  Ok (mk timestamp source (ip_to_string (Ssh.orig_addr v)) (Ssh.orig_port v)
    (ip_to_string (Ssh.resp_addr v)) (Ssh.resp_port v) (Ssh.proto v)
    (Ssh.last_time v) (Ssh.version v) (Ssh.auth_success v)
    (Ssh.auth_attempts v) (Ssh.direction v) (Ssh.client v) (Ssh.server v)
    (Ssh.cipher_alg v) (Ssh.mac_alg v) (Ssh.compression_alg v) (Ssh.kex_alg v)
    (Ssh.host_key_alg v) (Ssh.host_key v)).
End SshJsonOutput.
Notation SshJsonOutput := SshJsonOutput.t.
Export (hints) SshJsonOutput.

Module DceRpcJsonOutput.
Record t := mk {
  timestamp : string; source : string; orig_addr : string; orig_port : Z;
  resp_addr : string; resp_port : Z; proto : Z; last_time : Z; rtt : Z;
  named_pipe : string; endpoint : string; operation : string; }.

#[export] Instance convert : JsonOutput t DceRpc := λ v timestamp source,
  Ok (mk timestamp source (ip_to_string (DceRpc.orig_addr v)) (DceRpc.orig_port v)
    (ip_to_string (DceRpc.resp_addr v)) (DceRpc.resp_port v) (DceRpc.proto v)
    (DceRpc.last_time v) (DceRpc.rtt v) (DceRpc.named_pipe v)
    (DceRpc.endpoint v) (DceRpc.operation v)).
End DceRpcJsonOutput.
Notation DceRpcJsonOutput := DceRpcJsonOutput.t.
Export (hints) DceRpcJsonOutput.

Module FtpJsonOutput.
Record t := mk {
  timestamp : string; source : string; orig_addr : string; orig_port : Z;
  resp_addr : string; resp_port : Z; proto : Z; last_time : Z;
  user : string; password : string; command : string; reply_code : string;
  reply_msg : string; data_passive : bool; data_orig_addr : string;
  data_resp_addr : string; data_resp_port : Z; file : string; file_size : Z;
  file_id : string; }.

#[export] Instance convert : JsonOutput t Ftp := λ v timestamp source,
  Ok (mk timestamp source (ip_to_string (Ftp.orig_addr v)) (Ftp.orig_port v)
    (ip_to_string (Ftp.resp_addr v)) (Ftp.resp_port v) (Ftp.proto v)
    (Ftp.last_time v) (Ftp.user v) (Ftp.password v) (Ftp.command v)
    (Ftp.reply_code v) (Ftp.reply_msg v) (Ftp.data_passive v)
    (ip_to_string (Ftp.data_orig_addr v))
    (ip_to_string (Ftp.data_resp_addr v)) (Ftp.data_resp_port v) (Ftp.file v)
    (Ftp.file_size v) (Ftp.file_id v)).
End FtpJsonOutput.
Notation FtpJsonOutput := FtpJsonOutput.t.
Export (hints) FtpJsonOutput.

Module MqttJsonOutput.
Record t := mk {
  timestamp : string; source : string; orig_addr : string; orig_port : Z;
  resp_addr : string; resp_port : Z; proto : Z; last_time : Z;
  protocol : string; version : Z; client_id : string; connack_reason : Z;
  subscribe : list string; suback_reason : list string; }.

#[export] Instance convert : JsonOutput t Mqtt := λ v timestamp source,
  Ok (mk timestamp source (ip_to_string (Mqtt.orig_addr v)) (Mqtt.orig_port v)
    (ip_to_string (Mqtt.resp_addr v)) (Mqtt.resp_port v) (Mqtt.proto v)
    (Mqtt.last_time v) (Mqtt.protocol v) (Mqtt.version v) (Mqtt.client_id v)
    (Mqtt.connack_reason v) (Mqtt.subscribe v)
    (to_vec_string dec (Mqtt.suback_reason v))).
End MqttJsonOutput.
Notation MqttJsonOutput := MqttJsonOutput.t.
Export (hints) MqttJsonOutput.

Module LdapJsonOutput.
Record t := mk {
  timestamp : string; source : string; orig_addr : string; orig_port : Z;
  resp_addr : string; resp_port : Z; proto : Z; last_time : Z;
  message_id : Z; version : Z; opcode : list string; result : list string;
  diagnostic_message : list string; object_ : list string;
  argument : list string; }.

#[export] Instance convert : JsonOutput t Ldap := λ v timestamp source,
  Ok (mk timestamp source (ip_to_string (Ldap.orig_addr v)) (Ldap.orig_port v)
    (ip_to_string (Ldap.resp_addr v)) (Ldap.resp_port v) (Ldap.proto v)
    (Ldap.last_time v) (Ldap.message_id v) (Ldap.version v) (Ldap.opcode v)
    (Ldap.result v) (Ldap.diagnostic_message v) (Ldap.object_ v)
    (Ldap.argument v)).
End LdapJsonOutput.
Notation LdapJsonOutput := LdapJsonOutput.t.
Export (hints) LdapJsonOutput.

Module TlsJsonOutput.
Record t := mk {
  timestamp : string; source : string; orig_addr : string; orig_port : Z;
  resp_addr : string; resp_port : Z; proto : Z; last_time : Z;
  server_name : string; alpn_protocol : string; ja3 : string;
  version : string; cipher : Z; ja3s : string; serial : string;
  subject_country : string; subject_org_name : string;
  subject_common_name : string; validity_not_before : Z;
  validity_not_after : Z; subject_alt_name : string;
  issuer_country : string; issuer_org_name : string;
  issuer_org_unit_name : string; issuer_common_name : string;
  last_alert : Z; }.

#[export] Instance convert : JsonOutput t Tls := λ v timestamp source,
  Ok (mk timestamp source (ip_to_string (Tls.orig_addr v)) (Tls.orig_port v)
    (ip_to_string (Tls.resp_addr v)) (Tls.resp_port v) (Tls.proto v)
    (Tls.last_time v) (Tls.server_name v) (Tls.alpn_protocol v) (Tls.ja3 v)
    (Tls.version v) (Tls.cipher v) (Tls.ja3s v) (Tls.serial v)
    (Tls.subject_country v) (Tls.subject_org_name v)
    (Tls.subject_common_name v) (Tls.validity_not_before v)
    (Tls.validity_not_after v) (Tls.subject_alt_name v) (Tls.issuer_country v)
    (Tls.issuer_org_name v) (Tls.issuer_org_unit_name v)
    (Tls.issuer_common_name v) (Tls.last_alert v)).
End TlsJsonOutput.
Notation TlsJsonOutput := TlsJsonOutput.t.
Export (hints) TlsJsonOutput.

Module SmbJsonOutput.
Record t := mk {
  timestamp : string; source : string; orig_addr : string; orig_port : Z;
  resp_addr : string; resp_port : Z; proto : Z; last_time : Z; command : Z;
  path : string; service : string; file_name : string; file_size : Z;
  resource_type : Z; fid : Z; create_time : Z; access_time : Z;
  write_time : Z; change_time : Z; }.

#[export] Instance convert : JsonOutput t Smb := λ v timestamp source,
  Ok (mk timestamp source (ip_to_string (Smb.orig_addr v)) (Smb.orig_port v)
    (ip_to_string (Smb.resp_addr v)) (Smb.resp_port v) (Smb.proto v)
    (Smb.last_time v) (Smb.command v) (Smb.path v) (Smb.service v)
    (Smb.file_name v) (Smb.file_size v) (Smb.resource_type v) (Smb.fid v)
    (Smb.create_time v) (Smb.access_time v) (Smb.write_time v)
    (Smb.change_time v)).
End SmbJsonOutput.
Notation SmbJsonOutput := SmbJsonOutput.t.
Export (hints) SmbJsonOutput.

Module NfsJsonOutput.
Record t := mk {
  timestamp : string; source : string; orig_addr : string; orig_port : Z;
  resp_addr : string; resp_port : Z; proto : Z; last_time : Z;
  read_files : list string; write_files : list string; }.

#[export] Instance convert : JsonOutput t Nfs := λ v timestamp source,
  Ok (mk timestamp source (ip_to_string (Nfs.orig_addr v)) (Nfs.orig_port v)
    (ip_to_string (Nfs.resp_addr v)) (Nfs.resp_port v) (Nfs.proto v)
    (Nfs.last_time v) (Nfs.read_files v) (Nfs.write_files v)).
End NfsJsonOutput.
Notation NfsJsonOutput := NfsJsonOutput.t.
Export (hints) NfsJsonOutput.

Module LogJsonOutput.
Record t := mk {
  timestamp : string; source : string; kind : string; log : string; }.

#[export] Instance convert : JsonOutput t Log := λ v timestamp source,
  Ok (mk timestamp source (Log.kind v)
    (String.string_of_list_byte (from_utf8_lossy (Log.log v)))).
End LogJsonOutput.
Notation LogJsonOutput := LogJsonOutput.t.
Export (hints) LogJsonOutput.

Module TimeSeriesJsonOutput.
Record t := mk {
  start : string; id : string; data : list spec_float; }.

#[export] Instance convert : JsonOutput t PeriodicTimeSeries := λ v timestamp source,
  Ok (mk timestamp source (PeriodicTimeSeries.data v)).
End TimeSeriesJsonOutput.
Notation TimeSeriesJsonOutput := TimeSeriesJsonOutput.t.
Export (hints) TimeSeriesJsonOutput.

Module OpLogJsonOutput.
Record t := mk {
  timestamp : string; agent_id : string; level : string; contents : string; }.

#[export] Instance convert : JsonOutput t OpLog := λ v timestamp source,
  Ok (mk timestamp source (default "-" (log_level v)) (OpLog.contents v)).
End OpLogJsonOutput.
Notation OpLogJsonOutput := OpLogJsonOutput.t.
Export (hints) OpLogJsonOutput.

Module SecuLogJsonOutput.
Record t := mk {
  timestamp : string; source : string; kind : string; orig_addr : string;
  orig_port : string; resp_addr : string; resp_port : string;
  proto : string; contents : string; }.

#[export] Instance convert : JsonOutput t SecuLog := λ v timestamp source,
  Ok (mk timestamp (SecuLog.source v) source
    (to_string_or_empty ip_to_string (SecuLog.orig_addr v))
    (to_string_or_empty dec (SecuLog.orig_port v))
    (to_string_or_empty ip_to_string (SecuLog.resp_addr v))
    (to_string_or_empty dec (SecuLog.resp_port v))
    (to_string_or_empty dec (SecuLog.proto v)) (SecuLog.contents v)).
End SecuLogJsonOutput.
Notation SecuLogJsonOutput := SecuLogJsonOutput.t.
Export (hints) SecuLogJsonOutput.

Module StatisticsJsonOutput.
Record t := mk {
  timestamp : string; source : string; core : Z; period : Z;
  stats : list (RawEventKind * Z * Z); }.

#[export] Instance convert : JsonOutput t Statistics := λ v timestamp source,
  Ok (mk timestamp source (Statistics.core v) (Statistics.period v)
    (Statistics.stats v)).
End StatisticsJsonOutput.
Notation StatisticsJsonOutput := StatisticsJsonOutput.t.
Export (hints) StatisticsJsonOutput.

Module ProcessCreateJsonOutput.
Record t := mk {
  timestamp : string; source : string; agent_name : string;
  agent_id : string; process_guid : string; process_id : Z; image : string;
  file_version : string; description : string; product : string;
  company : string; original_file_name : string; command_line : string;
  current_directory : string; user : string; logon_guid : string;
  logon_id : Z; terminal_session_id : Z; integrity_level : string;
  hashes : list string; parent_process_guid : string; parent_process_id : Z;
  parent_image : string; parent_command_line : string; parent_user : string; }.

#[export] Instance convert : JsonOutput t ProcessCreate := λ v timestamp source,
  Ok (mk timestamp source (ProcessCreate.agent_name v) (ProcessCreate.agent_id v)
    (ProcessCreate.process_guid v) (ProcessCreate.process_id v)
    (ProcessCreate.image v) (ProcessCreate.file_version v)
    (ProcessCreate.description v) (ProcessCreate.product v)
    (ProcessCreate.company v) (ProcessCreate.original_file_name v)
    (ProcessCreate.command_line v) (ProcessCreate.current_directory v)
    (ProcessCreate.user v) (ProcessCreate.logon_guid v)
    (ProcessCreate.logon_id v) (ProcessCreate.terminal_session_id v)
    (ProcessCreate.integrity_level v) (ProcessCreate.hashes v)
    (ProcessCreate.parent_process_guid v) (ProcessCreate.parent_process_id v)
    (ProcessCreate.parent_image v) (ProcessCreate.parent_command_line v)
    (ProcessCreate.user v)).
End ProcessCreateJsonOutput.
Notation ProcessCreateJsonOutput := ProcessCreateJsonOutput.t.
Export (hints) ProcessCreateJsonOutput.

Module FileCreateTimeJsonOutput.
Record t := mk {
  timestamp : string; source : string; agent_name : string;
  agent_id : string; process_guid : string; process_id : Z; image : string;
  target_filename : string; creation_utc_time : Z;
  previous_creation_utc_time : Z; user : string; }.

#[export] Instance convert : JsonOutput t FileCreationTimeChanged := λ v timestamp source,
  Ok (mk timestamp source (FileCreationTimeChanged.agent_name v)
    (FileCreationTimeChanged.agent_id v)
    (FileCreationTimeChanged.process_guid v)
    (FileCreationTimeChanged.process_id v) (FileCreationTimeChanged.image v)
    (FileCreationTimeChanged.target_filename v)
    (FileCreationTimeChanged.creation_utc_time v)
    (FileCreationTimeChanged.previous_creation_utc_time v)
    (FileCreationTimeChanged.user v)).
End FileCreateTimeJsonOutput.
Notation FileCreateTimeJsonOutput := FileCreateTimeJsonOutput.t.
Export (hints) FileCreateTimeJsonOutput.

Module NetworkConnectJsonOutput.
Record t := mk {
  timestamp : string; source : string; agent_name : string;
  agent_id : string; process_guid : string; process_id : Z; image : string;
  user : string; protocol : string; initiated : bool; source_is_ipv6 : bool;
  source_ip : string; source_hostname : string; source_port : Z;
  source_port_name : string; destination_is_ipv6 : bool;
  destination_ip : string; destination_hostname : string;
  destination_port : Z; destination_port_name : string; }.

#[export] Instance convert : JsonOutput t NetworkConnection := λ v timestamp source,
  Ok (mk timestamp source (NetworkConnection.agent_name v)
    (NetworkConnection.agent_id v) (NetworkConnection.process_guid v)
    (NetworkConnection.process_id v) (NetworkConnection.image v)
    (NetworkConnection.user v) (NetworkConnection.protocol v)
    (NetworkConnection.initiated v) (NetworkConnection.source_is_ipv6 v)
    (ip_to_string (NetworkConnection.source_ip v))
    (NetworkConnection.source_hostname v) (NetworkConnection.source_port v)
    (NetworkConnection.source_port_name v)
    (NetworkConnection.destination_is_ipv6 v)
    (ip_to_string (NetworkConnection.destination_ip v))
    (NetworkConnection.destination_hostname v)
    (NetworkConnection.destination_port v)
    (NetworkConnection.destination_port_name v)).
End NetworkConnectJsonOutput.
Notation NetworkConnectJsonOutput := NetworkConnectJsonOutput.t.
Export (hints) NetworkConnectJsonOutput.

Module ProcessTerminateJsonOutput.
Record t := mk {
  timestamp : string; source : string; agent_name : string;
  agent_id : string; process_guid : string; process_id : Z; image : string;
  user : string; }.

#[export] Instance convert : JsonOutput t ProcessTerminated := λ v timestamp source,
  Ok (mk timestamp source (ProcessTerminated.agent_name v)
    (ProcessTerminated.agent_id v) (ProcessTerminated.process_guid v)
    (ProcessTerminated.process_id v) (ProcessTerminated.image v)
    (ProcessTerminated.user v)).
End ProcessTerminateJsonOutput.
Notation ProcessTerminateJsonOutput := ProcessTerminateJsonOutput.t.
Export (hints) ProcessTerminateJsonOutput.

Module ImageLoadJsonOutput.
Record t := mk {
  timestamp : string; source : string; agent_name : string;
  agent_id : string; process_guid : string; process_id : Z; image : string;
  image_loaded : string; file_version : string; description : string;
  product : string; company : string; original_file_name : string;
  hashes : list string; signed : bool; signature : string;
  signature_status : string; user : string; }.

#[export] Instance convert : JsonOutput t ImageLoaded := λ v timestamp source,
  Ok (mk timestamp source (ImageLoaded.agent_name v) (ImageLoaded.agent_id v)
    (ImageLoaded.process_guid v) (ImageLoaded.process_id v)
    (ImageLoaded.image v) (ImageLoaded.image_loaded v)
    (ImageLoaded.file_version v) (ImageLoaded.description v)
    (ImageLoaded.product v) (ImageLoaded.company v)
    (ImageLoaded.original_file_name v) (ImageLoaded.hashes v)
    (ImageLoaded.signed v) (ImageLoaded.signature v)
    (ImageLoaded.signature_status v) (ImageLoaded.user v)).
End ImageLoadJsonOutput.
Notation ImageLoadJsonOutput := ImageLoadJsonOutput.t.
Export (hints) ImageLoadJsonOutput.

Module FileCreateJsonOutput.
Record t := mk {
  timestamp : string; source : string; agent_name : string;
  agent_id : string; process_guid : string; process_id : Z; image : string;
  target_filename : string; creation_utc_time : Z; user : string; }.

#[export] Instance convert : JsonOutput t FileCreate := λ v timestamp source,
  Ok (mk timestamp source (FileCreate.agent_name v) (FileCreate.agent_id v)
    (FileCreate.process_guid v) (FileCreate.process_id v) (FileCreate.image v)
    (FileCreate.target_filename v) (FileCreate.creation_utc_time v)
    (FileCreate.user v)).
End FileCreateJsonOutput.
Notation FileCreateJsonOutput := FileCreateJsonOutput.t.
Export (hints) FileCreateJsonOutput.

Module RegistryValueSetJsonOutput.
Record t := mk {
  timestamp : string; source : string; agent_name : string;
  agent_id : string; event_type : string; process_guid : string;
  process_id : Z; image : string; target_object : string; details : string;
  user : string; }.

#[export] Instance convert : JsonOutput t RegistryValueSet := λ v timestamp source,
  Ok (mk timestamp source (RegistryValueSet.agent_name v)
    (RegistryValueSet.agent_id v) (RegistryValueSet.event_type v)
    (RegistryValueSet.process_guid v) (RegistryValueSet.process_id v)
    (RegistryValueSet.image v) (RegistryValueSet.target_object v)
    (RegistryValueSet.details v) (RegistryValueSet.user v)).
End RegistryValueSetJsonOutput.
Notation RegistryValueSetJsonOutput := RegistryValueSetJsonOutput.t.
Export (hints) RegistryValueSetJsonOutput.

Module RegistryKeyRenameJsonOutput.
Record t := mk {
  timestamp : string; source : string; agent_name : string;
  agent_id : string; event_type : string; process_guid : string;
  process_id : Z; image : string; target_object : string; new_name : string;
  user : string; }.

#[export] Instance convert : JsonOutput t RegistryKeyValueRename := λ v timestamp source,
  Ok (mk timestamp source (RegistryKeyValueRename.agent_name v)
    (RegistryKeyValueRename.agent_id v) (RegistryKeyValueRename.event_type v)
    (RegistryKeyValueRename.process_guid v)
    (RegistryKeyValueRename.process_id v) (RegistryKeyValueRename.image v)
    (RegistryKeyValueRename.target_object v)
    (RegistryKeyValueRename.new_name v) (RegistryKeyValueRename.user v)).
End RegistryKeyRenameJsonOutput.
Notation RegistryKeyRenameJsonOutput := RegistryKeyRenameJsonOutput.t.
Export (hints) RegistryKeyRenameJsonOutput.

Module FileCreateStreamHashJsonOutput.
Record t := mk {
  timestamp : string; source : string; agent_name : string;
  agent_id : string; process_guid : string; process_id : Z; image : string;
  target_filename : string; creation_utc_time : Z; hash : list string;
  contents : string; user : string; }.

#[export] Instance convert : JsonOutput t FileCreateStreamHash := λ v timestamp source,
  Ok (mk timestamp source (FileCreateStreamHash.agent_name v)
    (FileCreateStreamHash.agent_id v) (FileCreateStreamHash.process_guid v)
    (FileCreateStreamHash.process_id v) (FileCreateStreamHash.image v)
    (FileCreateStreamHash.target_filename v)
    (FileCreateStreamHash.creation_utc_time v) (FileCreateStreamHash.hash v)
    (FileCreateStreamHash.contents v) (FileCreateStreamHash.user v)).
End FileCreateStreamHashJsonOutput.
Notation FileCreateStreamHashJsonOutput := FileCreateStreamHashJsonOutput.t.
Export (hints) FileCreateStreamHashJsonOutput.

Module PipeEventJsonOutput.
Record t := mk {
  timestamp : string; source : string; agent_name : string;
  agent_id : string; event_type : string; process_guid : string;
  process_id : Z; pipe_name : string; image : string; user : string; }.

#[export] Instance convert : JsonOutput t PipeEvent := λ v timestamp source,
  Ok (mk timestamp source (PipeEvent.agent_name v) (PipeEvent.agent_id v)
    (PipeEvent.event_type v) (PipeEvent.process_guid v)
    (PipeEvent.process_id v) (PipeEvent.pipe_name v) (PipeEvent.image v)
    (PipeEvent.user v)).
End PipeEventJsonOutput.
Notation PipeEventJsonOutput := PipeEventJsonOutput.t.
Export (hints) PipeEventJsonOutput.

Module DnsQueryJsonOutput.
Record t := mk {
  timestamp : string; source : string; agent_name : string;
  agent_id : string; process_guid : string; process_id : Z;
  query_name : string; query_status : Z; query_results : list string;
  image : string; user : string; }.

#[export] Instance convert : JsonOutput t DnsEvent := λ v timestamp source,
  Ok (mk timestamp source (DnsEvent.agent_name v) (DnsEvent.agent_id v)
    (DnsEvent.process_guid v) (DnsEvent.process_id v) (DnsEvent.query_name v)
    (DnsEvent.query_status v) (DnsEvent.query_results v) (DnsEvent.image v)
    (DnsEvent.user v)).
End DnsQueryJsonOutput.
Notation DnsQueryJsonOutput := DnsQueryJsonOutput.t.
Export (hints) DnsQueryJsonOutput.

Module FileDeleteJsonOutput.
Record t := mk {
  timestamp : string; source : string; agent_name : string;
  agent_id : string; process_guid : string; process_id : Z; user : string;
  image : string; target_filename : string; hashes : list string;
  is_executable : bool; archived : bool; }.

#[export] Instance convert : JsonOutput t FileDelete := λ v timestamp source,
  Ok (mk timestamp source (FileDelete.agent_name v) (FileDelete.agent_id v)
    (FileDelete.process_guid v) (FileDelete.process_id v) (FileDelete.user v)
    (FileDelete.image v) (FileDelete.target_filename v) (FileDelete.hashes v)
    (FileDelete.is_executable v) (FileDelete.archived v)).
End FileDeleteJsonOutput.
Notation FileDeleteJsonOutput := FileDeleteJsonOutput.t.
Export (hints) FileDeleteJsonOutput.

Module ProcessTamperJsonOutput.
Record t := mk {
  timestamp : string; source : string; agent_name : string;
  agent_id : string; process_guid : string; process_id : Z; image : string;
  tamper_type : string; user : string; }.

#[export] Instance convert : JsonOutput t ProcessTampering := λ v timestamp source,
  Ok (mk timestamp source (ProcessTampering.agent_name v)
    (ProcessTampering.agent_id v) (ProcessTampering.process_guid v)
    (ProcessTampering.process_id v) (ProcessTampering.image v)
    (ProcessTampering.tamper_type v) (ProcessTampering.user v)).
End ProcessTamperJsonOutput.
Notation ProcessTamperJsonOutput := ProcessTamperJsonOutput.t.
Export (hints) ProcessTamperJsonOutput.

Module FileDeleteDetectedJsonOutput.
Record t := mk {
  timestamp : string; source : string; agent_name : string;
  agent_id : string; process_guid : string; process_id : Z; user : string;
  image : string; target_filename : string; hashes : list string;
  is_executable : bool; }.

#[export] Instance convert : JsonOutput t FileDeleteDetected := λ v timestamp source,
  Ok (mk timestamp source (FileDeleteDetected.agent_name v)
    (FileDeleteDetected.agent_id v) (FileDeleteDetected.process_guid v)
    (FileDeleteDetected.process_id v) (FileDeleteDetected.user v)
    (FileDeleteDetected.image v) (FileDeleteDetected.target_filename v)
    (FileDeleteDetected.hashes v) (FileDeleteDetected.is_executable v)).
End FileDeleteDetectedJsonOutput.
Notation FileDeleteDetectedJsonOutput := FileDeleteDetectedJsonOutput.t.
Export (hints) FileDeleteDetectedJsonOutput.

Module Netflow5JsonOutput.
Record t := mk {
  timestamp : string; source : string; srcaddr : string; dstaddr : string;
  nexthop : string; input : Z; output : Z; dpkts : Z; doctets : Z;
  first : string; last : string; srcport : Z; dstport : Z;
  tcp_flags : string; prot : Z; tos : string; src_as : Z; dst_as : Z;
  src_mask : Z; dst_mask : Z; sequence : Z; engine_type : Z; engine_id : Z;
  sampling_mode : string; sampling_rate : Z; }.

#[export] Instance convert : JsonOutput t Netflow5 := λ v timestamp source,
  Ok (mk timestamp source (ip_to_string (Netflow5.srcaddr v))
    (ip_to_string (Netflow5.dstaddr v)) (ip_to_string (Netflow5.nexthop v))
    (Netflow5.input v) (Netflow5.output v) (Netflow5.dpkts v)
    (Netflow5.doctets v) (Netflow.milli_to_secs (Netflow5.first v))
    (Netflow.milli_to_secs (Netflow5.last v)) (Netflow5.srcport v)
    (Netflow5.dstport v) (Netflow.tcp_flags (Netflow5.tcp_flags v))
    (Netflow5.prot v) (hex (Netflow5.tos v)) (Netflow5.src_as v)
    (Netflow5.dst_as v) (Netflow5.src_mask v) (Netflow5.dst_mask v)
    (Netflow5.sequence v) (Netflow5.engine_type v) (Netflow5.engine_id v)
    (hex (Netflow5.sampling_mode v)) (Netflow5.sampling_rate v)).
End Netflow5JsonOutput.
Notation Netflow5JsonOutput := Netflow5JsonOutput.t.
Export (hints) Netflow5JsonOutput.

Module Netflow9JsonOutput.
Record t := mk {
  timestamp : string; source : string; sequence : Z; source_id : Z;
  template_id : Z; orig_addr : string; orig_port : Z; resp_addr : string;
  resp_port : Z; proto : Z; contents : string; }.

#[export] Instance convert : JsonOutput t Netflow9 := λ v timestamp source,
  Ok (mk timestamp source (Netflow9.sequence v) (Netflow9.source_id v)
    (Netflow9.template_id v) (ip_to_string (Netflow9.orig_addr v))
    (Netflow9.orig_port v) (ip_to_string (Netflow9.resp_addr v))
    (Netflow9.resp_port v) (Netflow9.proto v) (Netflow9.contents v)).
End Netflow9JsonOutput.
Notation Netflow9JsonOutput := Netflow9JsonOutput.t.
Export (hints) Netflow9JsonOutput.
