(* ===== verification/Export.v ===== *)
(** * The export query (src/src/graphql/export.rs)

    [export] checks the filter, chooses a file and spawns a task that writes
    the events of one store to it, one line per event: [process_export] for the
    plain stores, [process_statistics_export], which merges the cores, for the
    statistics.  A file is its text and the room left on the disk, in bytes; a
    panic ([expect], an index out of range) is an error. *)

From Stdlib Require Import ZArith Lia Ascii.
From S2P Require Import Prelude Bytes Externals StorageKey NetAddr GigantoClient Events.
From S2P Require Import Filters Storage Nodes ExportJson Statistics.

Definition NON_NETWORK : list string := [
  "log"; "periodic time series"; "op_log"; "statistics"; "sysmon"; "process create";
  "file create time"; "network connect"; "process terminate"; "image load";
  "file create"; "registry value set"; "registry key rename"; "file create stream hash";
  "pipe event"; "dns query"; "file delete"; "process tamper"; "file delete detected";
  "secu_log"].

(** ** Libraries *)

(** [Display] of an event of giganto-client *)
Class Display (T : Type) := display : T → string.
(** [serde_json::to_string] *)
Class ToJson (N : Type) := to_json : N → result string.

Class ExportText := {
  display_Conn :: Display Conn;
  display_Dns :: Display Dns;
  display_Log :: Display Log;
  display_Http :: Display Http;
  display_Rdp :: Display Rdp;
  display_PeriodicTimeSeries :: Display PeriodicTimeSeries;
  display_Smtp :: Display Smtp;
  display_Ntlm :: Display Ntlm;
  display_Kerberos :: Display Kerberos;
  display_Ssh :: Display Ssh;
  display_DceRpc :: Display DceRpc;
  display_Statistics :: Display Statistics;
  display_OpLog :: Display OpLog;
  display_Ftp :: Display Ftp;
  display_Mqtt :: Display Mqtt;
  display_Ldap :: Display Ldap;
  display_Tls :: Display Tls;
  display_Smb :: Display Smb;
  display_Nfs :: Display Nfs;
  display_ProcessCreate :: Display ProcessCreate;
  display_FileCreationTimeChanged :: Display FileCreationTimeChanged;
  display_NetworkConnection :: Display NetworkConnection;
  display_ProcessTerminated :: Display ProcessTerminated;
  display_ImageLoaded :: Display ImageLoaded;
  display_FileCreate :: Display FileCreate;
  display_RegistryValueSet :: Display RegistryValueSet;
  display_RegistryKeyValueRename :: Display RegistryKeyValueRename;
  display_FileCreateStreamHash :: Display FileCreateStreamHash;
  display_PipeEvent :: Display PipeEvent;
  display_DnsEvent :: Display DnsEvent;
  display_FileDelete :: Display FileDelete;
  display_ProcessTampering :: Display ProcessTampering;
  display_FileDeleteDetected :: Display FileDeleteDetected;
  display_Netflow5 :: Display Netflow5;
  display_Netflow9 :: Display Netflow9;
  display_SecuLog :: Display SecuLog;
  json_ConnJsonOutput :: ToJson ConnJsonOutput;
  json_DnsJsonOutput :: ToJson DnsJsonOutput;
  json_LogJsonOutput :: ToJson LogJsonOutput;
  json_HttpJsonOutput :: ToJson HttpJsonOutput;
  json_RdpJsonOutput :: ToJson RdpJsonOutput;
  json_TimeSeriesJsonOutput :: ToJson TimeSeriesJsonOutput;
  json_SmtpJsonOutput :: ToJson SmtpJsonOutput;
  json_NtlmJsonOutput :: ToJson NtlmJsonOutput;
  json_KerberosJsonOutput :: ToJson KerberosJsonOutput;
  json_SshJsonOutput :: ToJson SshJsonOutput;
  json_DceRpcJsonOutput :: ToJson DceRpcJsonOutput;
  json_StatisticsJsonOutput :: ToJson StatisticsJsonOutput;
  json_OpLogJsonOutput :: ToJson OpLogJsonOutput;
  json_FtpJsonOutput :: ToJson FtpJsonOutput;
  json_MqttJsonOutput :: ToJson MqttJsonOutput;
  json_LdapJsonOutput :: ToJson LdapJsonOutput;
  json_TlsJsonOutput :: ToJson TlsJsonOutput;
  json_SmbJsonOutput :: ToJson SmbJsonOutput;
  json_NfsJsonOutput :: ToJson NfsJsonOutput;
  json_ProcessCreateJsonOutput :: ToJson ProcessCreateJsonOutput;
  json_FileCreateTimeJsonOutput :: ToJson FileCreateTimeJsonOutput;
  json_NetworkConnectJsonOutput :: ToJson NetworkConnectJsonOutput;
  json_ProcessTerminateJsonOutput :: ToJson ProcessTerminateJsonOutput;
  json_ImageLoadJsonOutput :: ToJson ImageLoadJsonOutput;
  json_FileCreateJsonOutput :: ToJson FileCreateJsonOutput;
  json_RegistryValueSetJsonOutput :: ToJson RegistryValueSetJsonOutput;
  json_RegistryKeyRenameJsonOutput :: ToJson RegistryKeyRenameJsonOutput;
  json_FileCreateStreamHashJsonOutput :: ToJson FileCreateStreamHashJsonOutput;
  json_PipeEventJsonOutput :: ToJson PipeEventJsonOutput;
  json_DnsQueryJsonOutput :: ToJson DnsQueryJsonOutput;
  json_FileDeleteJsonOutput :: ToJson FileDeleteJsonOutput;
  json_ProcessTamperJsonOutput :: ToJson ProcessTamperJsonOutput;
  json_FileDeleteDetectedJsonOutput :: ToJson FileDeleteDetectedJsonOutput;
  json_Netflow5JsonOutput :: ToJson Netflow5JsonOutput;
  json_Netflow9JsonOutput :: ToJson Netflow9JsonOutput;
  json_SecuLogJsonOutput :: ToJson SecuLogJsonOutput;
}.

(** [NaiveDateTime::from_timestamp_opt(secs, nanosecs)] shown with [%s%.9f] *)
Class ChronoFormat := naive_format : Z → Z → option string.

Class ChronoFormatLaws `{ChronoFormat} : Prop :=
  naive_format_spec secs nanosecs :
    0 ≤ secs ≤ i64_max / 1000000000 → 0 ≤ nanosecs < 1000000000 →
    naive_format secs nanosecs = Some (dec secs +:+ "." +:+ pad 9 (dec nanosecs)).

(** ** The output file *)
Record File := mk_file { contents : string; room : option nat; }.

(** [writeln!]: the [File] has no buffer, so what fits of the line is written. *)
Definition writeln (line : string) : M File unit := λ f,
  let text := (line +:+ newline)%string in
  match room f with
  | None => (Ok tt, mk_file (contents f +:+ text) None)
  | Some n =>
      if (String.length text <=? n)%nat
      then (Ok tt, mk_file (contents f +:+ text) (Some (n - String.length text)%nat))
      else (Err "No space left on device", mk_file (contents f +:+ String.substring 0 n text) (Some O))
  end.

(** ** Writing events *)
Definition position_nul (key : bytes) : option nat :=
  fst <$> list_find (λ x, x = Byte.x00) key.

Definition parse_key (key : bytes) : result (bytes * Z) :=
  match position_nul key with
  | Some pos =>
      if (length key <? 8)%nat then Err "Invalid key"
      else Ok (from_utf8_lossy (take pos key), key_nanos key)
  | None => Err "Invalid key"
  end.

Section writing.
Context `{ChronoFormat}.

Definition timestamp_text (timestamp : Z) : result string :=
  let secs := Z.quot timestamp 1000000000 in
  let nanosecs := Z.rem timestamp 1000000000 in
  if nanosecs <? 0 then Err "< 1_000_000_000"
  else Ok (default "-" (naive_format secs nanosecs)).

Definition TAB : string := String (ascii_of_nat 9) "".

Context {F : Type} `{!RawEventFilter F}.
Context {N T : Type} `{!Bincode T} `{!EventFilter T} `{!JsonOutput N T} `{!Display T} `{!ToJson N}.

Definition write_filtered_data_to_file (filter : F) (export_type : string) (key : bytes)
    (value : T) : M File unit :=
  match check_event filter value with
  | Ok true =>
      parsed <-- m_lift (parse_key key) ;;
      timestamp <-- m_lift (timestamp_text parsed.2) ;;
      let source := String.string_of_list_byte parsed.1 in
      if decide (export_type = "csv") then
        writeln (timestamp +:+ TAB +:+ source +:+ TAB +:+ display value)
      else if decide (export_type = "json") then
        json_data <-- m_lift (convert_json_output value timestamp source) ;;
        json_data <-- m_lift (to_json (json_data : N)) ;;
        writeln json_data
      else m_ret tt
  | _ => m_ret tt
  end.

Definition write_item (filter : F) (export_type : string) (item : result (bytes * T)) :
    M File unit :=
  match item with
  | Err _ => m_ret tt
  | Ok (key, value) => write_filtered_data_to_file filter export_type key value
  end.

(** [created] is the result of [File::create(path)]. *)
Definition export_file (items : list (result (bytes * T))) (filter : F) (export_type : string)
    (created : result File) : result unit * option File :=
  match created with
  | Err e => (Err e, None)
  | Ok writer =>
      let '(r, writer) := m_iter (write_item filter export_type) items writer in
      (r, Some writer)
  end.

Definition export_builder `{Chrono} `{!KeyExtractor F} (filter : F) : StorageKeyBuilder :=
  builder |> start_key (get_start_key filter) |> mid_key (get_mid_key filter).

Definition process_export `{RocksDB} `{Chrono} `{!KeyExtractor F} (st : RawEventStore T)
    (filter : F) (export_type : string) (created : result File) (db : DB) :
    result unit * option File :=
  let key_builder := export_builder filter in
  let from_key := lower_key key_builder (get_range_end_key filter).1 in
  let to_key := upper_key key_builder (get_range_end_key filter).2 in
  export_file (drain (boundary_iter st from_key to_key Forward db)) filter export_type created.
End writing.

(** ** Statistics: merging the cores, the oldest record first *)
Section statistics_file.
Context {It : Type} `{Iterator It (result (bytes * Statistics))}.

(** [iter.next()] until a record that decodes: how many did not, the record. *)
Fixpoint next_valid_n (n : nat) (it : It) : option (bytes * Statistics) * It :=
  match n with
  | O => (None, it)
  | S n =>
      match next it with
      | (Some (Ok item), it) => (Some item, it)
      | (Some (Err _), it) => next_valid_n n it
      | (None, it) => (None, it)
      end
  end.
Definition next_valid (it : It) : option (bytes * Statistics) * It :=
  next_valid_n (S (remaining it)) it.

Fixpoint first_valid (its : list It) : list It * list (bytes * Statistics) :=
  match its with
  | [] => ([], [])
  | it :: its =>
      let '(item, it) := next_valid it in
      let '(its, values) := first_valid its in
      (it :: its, match item with Some item => item :: values | None => values end)
  end.

(** The first of the smallest: the fold over the enumerated values. *)
Fixpoint min_value (values : list (bytes * Statistics)) (index min_index : nat)
    (min : bytes * Statistics) : nat * (bytes * Statistics) :=
  match values with
  | [] => (min_index, min)
  | v :: values =>
      match bytes_cmp (key_suffix v.1) (key_suffix min.1) with
      | Lt => min_value values (S index) index v
      | _ => min_value values (S index) min_index min
      end
  end.

Definition replace_value (its : list It) (values : list (bytes * Statistics)) (idx : nat) :
    list It * list (bytes * Statistics) :=
  match its !! idx with
  | Some it =>
      match next_valid it with
      | (Some item, it) => (<[idx := it]> its, <[idx := item]> values)
      | (None, _) => (delete idx its, delete idx values)
      end
  | None => (its, values)
  end.

Section loop.
Variable write : bytes → Statistics → M File unit.

Fixpoint merge_values (fuel : nat) (its : list It) (values : list (bytes * Statistics)) :
    M File unit :=
  match fuel with
  | O => m_lift (Err "out of fuel")
  | S fuel =>
      match values with
      | [] => m_lift (Err "index out of bounds")
      | first :: _ =>
          let '(min_index, (key, value)) := min_value values 0 0 first in
          write key value ;;;
          let '(its, values) := replace_value its values min_index in
          match values with
          | [] => m_ret tt
          | _ => merge_values fuel its values
          end
      end
  end.
End loop.

Definition items_left (its : list It) : nat := sum_list ((λ it, S (remaining it)) <$> its).

Definition export_statistic_file `{ChronoFormat} `{!RawEventFilter F}
    `{!EventFilter Statistics, !JsonOutput StatisticsJsonOutput Statistics}
    `{!Display Statistics, !ToJson StatisticsJsonOutput}
    (its : list It) (filter : F) (export_type : string) (created : result File) :
    result unit * option File :=
  match created with
  | Err e => (Err e, None)
  | Ok writer =>
      let '(its, values) := first_valid its in
      let '(r, writer) :=
        merge_values (write_filtered_data_to_file filter export_type)
          (S (items_left its)) its values writer in
      (r, Some writer)
  end.
End statistics_file.

Section query.
Context `{RocksDB} `{Chrono} `{Client} `{Codecs} `{ChronoFormat} `{ExportText}.

Notation CoreIter := (Peekable (BoundaryIter Statistics) (result (bytes * Statistics))).

Fixpoint open_core_files (cores : list nat) (st : RawEventStore Statistics)
    (filter : ExportFilter) (db : DB) : list CoreIter :=
  match cores with
  | [] => []
  | core :: cores =>
      let key_builder :=
        builder |> start_key (get_start_key filter)
                |> mid_key (Some (be_bytes 4 (Z.of_nat core))) in
      let from_key := lower_key key_builder (get_range_end_key filter).1 in
      let to_key := upper_key key_builder (get_range_end_key filter).2 in
      let '(item, it) := peek (peekable (boundary_iter st from_key to_key Forward db)) in
      let its := open_core_files cores st filter db in
      match item with Some _ => it :: its | None => its end
  end.

Definition process_statistics_export (st : RawEventStore Statistics) (filter : ExportFilter)
    (export_type : string) (created : result File) (db : DB) : result unit * option File :=
  export_statistic_file (open_core_files (seq 0 MAX_CORE_SIZE) st filter db) filter
    export_type created.

(** ** The spawned tasks

    A task leaves the file it wrote, if it created one; errors are logged. *)
Section tasks.
Variables (filter : ExportFilter) (export_type : string) (created : result File) (db : DB).

Definition export_task {N T} `{!Bincode T} `{!EventFilter T} `{!JsonOutput N T}
    `{!Display T} `{!ToJson N} (st : result (RawEventStore T)) : option File :=
  match st with
  | Ok st => (process_export (N := N) st filter export_type created db).2
  | Err _ => None
  end.

Definition statistics_task (st : result (RawEventStore Statistics)) : option File :=
  match st with
  | Ok st => (process_statistics_export st filter export_type created db).2
  | Err _ => None
  end.

(** [export_by_protocol]: the arms of its match, in four groups *)
Definition export_by_protocol_d : result (option File) :=
  match ExportFilter.protocol filter with
  | "pipe_event" => Ok (export_task (pipe_event_store db))
  | "dns_query" => Ok (export_task (dns_query_store db))
  | "file_delete" => Ok (export_task (file_delete_store db))
  | "process_tamper" => Ok (export_task (process_tamper_store db))
  | "file_delete_detected" => Ok (export_task (file_delete_detected_store db))
  | "netflow5" => Ok (export_task (netflow5_store db))
  | "netflow9" => Ok (export_task (netflow9_store db))
  | "secu_log" => Ok (export_task (secu_log_store db))
  | _ => Err "Unknown protocol"
  end.
Definition export_by_protocol_c : result (option File) :=
  match ExportFilter.protocol filter with
  | "process_create" => Ok (export_task (process_create_store db))
  | "file_create_time" => Ok (export_task (file_create_time_store db))
  | "network_connect" => Ok (export_task (network_connect_store db))
  | "process_terminate" => Ok (export_task (process_terminate_store db))
  | "image_load" => Ok (export_task (image_load_store db))
  | "file_create" => Ok (export_task (file_create_store db))
  | "registry_value_set" => Ok (export_task (registry_value_set_store db))
  | "registry_key_rename" => Ok (export_task (registry_key_rename_store db))
  | "file_create_stream_hash" => Ok (export_task (file_create_stream_hash_store db))
  | _ => export_by_protocol_d
  end.
Definition export_by_protocol_b : result (option File) :=
  match ExportFilter.protocol filter with
  | "dce rpc" => Ok (export_task (dce_rpc_store db))
  | "op_log" => Ok (export_task (op_log_store db))
  | "ftp" => Ok (export_task (ftp_store db))
  | "mqtt" => Ok (export_task (mqtt_store db))
  | "ldap" => Ok (export_task (ldap_store db))
  | "tls" => Ok (export_task (tls_store db))
  | "smb" => Ok (export_task (smb_store db))
  | "nfs" => Ok (export_task (nfs_store db))
  | "statistics" => Ok (statistics_task (statistics_store db))
  | _ => export_by_protocol_c
  end.
Definition export_by_protocol : result (option File) :=
  match ExportFilter.protocol filter with
  | "conn" => Ok (export_task (conn_store db))
  | "dns" => Ok (export_task (dns_store db))
  | "http" => Ok (export_task (http_store db))
  | "log" => Ok (export_task (log_store db))
  | "rdp" => Ok (export_task (rdp_store db))
  | "smtp" => Ok (export_task (smtp_store db))
  | "periodic time series" => Ok (export_task (periodic_time_series_store db))
  | "ntlm" => Ok (export_task (ntlm_store db))
  | "kerberos" => Ok (export_task (kerberos_store db))
  | "ssh" => Ok (export_task (ssh_store db))
  | _ => export_by_protocol_b
  end.
End tasks.

Definition is_set {A} (o : option A) : bool := match o with Some _ => true | None => false end.

Definition check_filter (filter : ExportFilter) : result unit :=
  if decide (ExportFilter.protocol filter ∈ NON_NETWORK) then
    if is_set (ExportFilter.orig_addr filter) || is_set (ExportFilter.resp_addr filter) ||
       is_set (ExportFilter.orig_port filter) || is_set (ExportFilter.resp_port filter)
    then Err "Invalid ip/port input" else Ok tt
  else
    if is_set (ExportFilter.kind filter) || is_set (ExportFilter.agent_name filter) ||
       is_set (ExportFilter.agent_id filter)
    then Err "Invalid kind/agent_name/agent_id input" else Ok tt.

(** [filename.replace(' ', "")] *)
Definition without_spaces (s : string) : string :=
  String.string_of_list_ascii
    (filter (λ c, c ≠ " "%char) (String.list_ascii_of_string s)).

(** [path.join(filename)] *)
Definition starts_with_slash (s : string) : bool :=
  match s with String "/"%char _ => true | _ => false end.
Definition ends_with_slash (s : string) : bool :=
  match last (String.list_ascii_of_string s) with
  | Some c => Ascii.eqb c "/"%char
  | None => true
  end.
Definition join (path filename : string) : string :=
  if starts_with_slash filename then filename
  else if ends_with_slash path then path +:+ filename
  else path +:+ "/" +:+ filename.

(** The directory is there or could be made; [now] is the local time. *)
Definition export (export_type : string) (filter : ExportFilter) (path : string)
    (dir : result unit) (now : string) (created : result File) (db : DB) :
    result (string * option File) :=
  _ ← check_filter filter;
  if negb (bool_decide (export_type = "csv") || bool_decide (export_type = "json"))
  then Err "Invalid export file format"
  else
    _ ← dir;
    let filename := ExportFilter.protocol filter +:+ "_" +:+ now +:+ ".dump" in
    let export_path := join path (without_spaces filename) in
    file ← export_by_protocol filter export_type created db;
    Ok (export_path, file).
End query.
