(* ===== verification/ExportSpec.v ===== *)
(** * What an export writes

    Theorems about [Export]: the file holds one line per stored event of the
    window that passes the filter, in time order; for the statistics the cores
    are merged; a full disk leaves a prefix; and which filters are refused. *)

From Stdlib Require Import ZArith Lia.
From S2P Require Import Prelude Bytes Externals StorageKey NetAddr GigantoClient Events.
From S2P Require Import Filters Storage StorageSpec Demo Pagination PaginationSpec Nodes.
From S2P Require Import ExportJson Statistics Export.

(** ** Writing lines *)

(** The text of the lines up to the first that cannot be made, and whether there is
    one *)
Fixpoint lines_text (ls : list (result string)) : string * result unit :=
  match ls with
  | [] => ("", Ok tt)
  | Err e :: _ => ("", Err e)
  | Ok l :: ls => let '(text, r) := lines_text ls in ((l +:+ newline) +:+ text, r)%string
  end.

(** What is in the file in the end: the text, or as much of it as fits, and then the
    disk is full. *)
Definition write_text (text : string) (r : result unit) (f : File) : result unit * File :=
  match room f with
  | None => (r, mk_file (contents f +:+ text) None)
  | Some n =>
      if (String.length text <=? n)%nat
      then (r, mk_file (contents f +:+ text) (Some (n - String.length text)%nat))
      else (Err "No space left on device", mk_file (contents f +:+ String.substring 0 n text) (Some O))
  end.
Definition write_lines (ls : list (result string)) : M File unit :=
  write_text (lines_text ls).1 (lines_text ls).2.

Lemma write_text_nil r f : write_text "" r f = (r, f).
Proof. destruct f as [old [n|]]; unfold write_text; cbn; by rewrite string_app_nil_r, ?Nat.sub_0_r. Qed.

Lemma write_lines_cons l ls f :
  write_lines (Ok l :: ls) f = m_bind (writeln l) (λ _, write_lines ls) f.
Proof.
  unfold write_lines, m_bind, writeln. cbn [lines_text]. destruct (lines_text ls) as [text r]. cbn [fst snd].
  set (line := (l +:+ newline)%string).
  destruct f as [old [n|]]; unfold write_text; cbn [contents room]; [|by rewrite string_app_assoc].
  rewrite string_length_app. destruct (Nat.leb_spec (String.length line) n) as [Hl|Hl]; cbn [contents room].
  - assert (∃ m, n = (String.length line + m)%nat) as [m ->] by (exists (n - String.length line)%nat; lia).
    replace (String.length line + m - String.length line)%nat with m by lia.
    rewrite substring_app_r, !string_app_assoc.
    destruct (Nat.leb_spec (String.length text) m) as [Ht|Ht].
    + rewrite (proj2 (Nat.leb_le _ _)) by lia. do 3 f_equal. lia.
    + by rewrite (proj2 (Nat.leb_gt _ _)) by lia.
  - rewrite (proj2 (Nat.leb_gt _ _)) by lia. by rewrite substring_app_l by lia.
Qed.

(** ** Lines of events *)
Section lines.
Context `{ChronoFormatLaws}.

(** [secs.nanos] of a time stamp after the epoch *)
Definition stamp (ts : Z) : string :=
  dec (ts / 1000000000) +:+ "." +:+ pad 9 (dec (ts mod 1000000000)).

Lemma timestamp_text_stamp ts : 0 ≤ ts ≤ i64_max → timestamp_text ts = Ok (stamp ts).
Proof.
  intros Hts. unfold timestamp_text, stamp.
  rewrite Z.quot_div_nonneg, Z.rem_mod_nonneg by lia.
  pose proof (Z.mod_pos_bound ts 1000000000 ltac:(lia)).
  rewrite (proj2 (Z.ltb_ge _ _)) by lia.
  rewrite naive_format_spec; [done| |done].
  split; [apply Z.div_pos; lia|apply Z.div_le_mono; lia].
Qed.

Lemma position_nul_prefix (s r : bytes) :
  Byte.x00 ∉ s → position_nul (s ++ Byte.x00 :: r) = Some (length s).
Proof.
  intros Hs. unfold position_nul.
  assert (list_find (λ x, x = Byte.x00) (s ++ Byte.x00 :: r) = Some (length s, Byte.x00)) as ->; [|done].
  apply list_find_Some. split_and!.
  - by rewrite lookup_app_r, Nat.sub_diag by lia.
  - done.
  - intros j y Hj Hlt ->. rewrite lookup_app_l in Hj by done.
    apply Hs. by eapply list_elem_of_lookup_2.
Qed.

(** A source whose bytes are valid UTF-8 *)
Definition valid_utf8 (s : string) : Prop := from_utf8_lossy (as_bytes s) = as_bytes s.
#[export] Instance valid_utf8_dec s : Decision (valid_utf8 s).
Proof. unfold valid_utf8. apply _. Defined.

Lemma parse_event_key s m ts :
  no_nul s → valid_utf8 s → is_i64 ts → parse_key (event_key s m ts) = Ok (as_bytes s, ts).
Proof.
  intros Hs Hu Hts. unfold parse_key.
  assert (∃ r, event_key s m ts = as_bytes s ++ Byte.x00 :: r) as [r Hr].
  { rewrite event_key_eq, key_prefix_eq, <- !app_assoc. eexists. done. }
  assert (8 ≤ length (event_key s m ts))%nat as Hl.
  { rewrite event_key_eq, length_app, length_i64_to_be_bytes. lia. }
  rewrite (proj2 (Nat.ltb_ge _ _)) by lia.
  assert (key_nanos (event_key s m ts) = ts) as -> by (rewrite event_key_eq; by apply key_nanos_app).
  rewrite Hr, position_nul_prefix by done. rewrite take_app_length. by rewrite Hu.
Qed.

Context {N T : Type} `{!Bincode T} `{!EventFilter T} `{!JsonOutput N T} `{!Display T} `{!ToJson N}.
Context {F : Type} `{!RawEventFilter F}.

(** The line of an event in a file of the given type *)
Definition event_line (export_type source : string) (e : bytes * T) : result string :=
  let timestamp := stamp (key_nanos e.1) in
  if decide (export_type = "csv") then
    Ok (timestamp +:+ TAB +:+ source +:+ TAB +:+ display e.2)
  else json ← convert_json_output e.2 timestamp source; to_json (json : N).

Definition good_export_key (source : string) (k : bytes) : Prop :=
  ∃ m ts, 0 ≤ ts ≤ i64_max ∧ k = event_key source m ts.

Lemma write_event_skipped filter export_type (e : bytes * T) f :
  keeps filter e.2 = false →
  write_filtered_data_to_file (N := N) filter export_type e.1 e.2 f = (Ok tt, f).
Proof.
  unfold write_filtered_data_to_file, keeps. by destruct (check_event filter e.2) as [[|]|].
Qed.

Lemma write_event filter export_type source e f :
  export_type = "csv" ∨ export_type = "json" → no_nul source → valid_utf8 source →
  good_export_key source e.1 → keeps filter e.2 = true →
  write_filtered_data_to_file (N := N) filter export_type e.1 e.2 f =
    m_bind (m_lift (event_line export_type source e)) writeln f.
Proof.
  intros Ht Hs Hu (m & ts & Hts & Hk). unfold write_filtered_data_to_file, keeps.
  destruct (check_event filter e.2) as [[|]|]; intros Hkeep; [|done..].
  assert (is_i64 ts) as Hi by (unfold is_i64, i64_min; lia).
  unfold event_line. rewrite Hk in *.
  rewrite parse_event_key by done. unfold m_bind, m_lift. cbn [fst snd].
  rewrite timestamp_text_stamp by done. rewrite event_key_eq, key_nanos_app by done.
  rewrite String.string_of_list_byte_of_string.
  destruct Ht as [-> | ->].
  - by rewrite !decide_True by done.
  - rewrite decide_False, decide_True, decide_False by done. cbn [mbind result_bind].
    destruct (convert_json_output e.2 _ _) as [j|]; [|done]. cbn [mbind result_bind].
    by destruct (to_json j).
Qed.

(** Writing a list of items writes the lines of those that decode and pass. *)
Lemma write_items filter export_type source items f :
  export_type = "csv" ∨ export_type = "json" → no_nul source → valid_utf8 source →
  (∀ k x, Ok (k, x) ∈ items → good_export_key source k) →
  m_iter (write_item (N := N) filter export_type) items f =
    write_lines (event_line export_type source <$> omap (accept filter) items) f.
Proof.
  intros Ht Hs Hu. revert f. induction items as [|item items IH]; intros f Hg.
  { exact (eq_sym (write_text_nil (Ok tt) f)). }
  assert (∀ f, m_iter (write_item (N := N) filter export_type) items f =
    write_lines (event_line export_type source <$> omap (accept filter) items) f) as IH'.
  { intros f'. apply IH. intros k x Hin. apply (Hg k x). by right. }
  cbn [m_iter]. unfold m_bind at 1. destruct item as [[k x]|e]; [|by apply IH'].
  pose proof (Hg k x ltac:(left)) as Hk. cbn [write_item].
  cbn [omap list_omap]. unfold accept at 1. cbn [snd].
  change (list_omap _ _ (accept filter) items) with (omap (accept filter) items).
  destruct (keeps filter x) eqn:Hkeep.
  - pose proof (write_event filter export_type source (k, x) f Ht Hs Hu Hk Hkeep) as Hw.
    cbn [fst snd] in Hw. rewrite Hw, fmap_cons. unfold m_bind at 1, m_lift.
    destruct (event_line export_type source (k, x)) as [l|e];
      [|exact (eq_sym (write_text_nil (Err e) f))].
    rewrite write_lines_cons. unfold m_bind. destruct (writeln l f) as [[[]|e] f']; [by apply IH'|done].
  - pose proof (write_event_skipped filter export_type (k, x) f Hkeep) as Hw.
    cbn [fst snd] in Hw. rewrite Hw. by apply IH'.
Qed.
End lines.

(** ** Merging the cores *)
Notation Record := (bytes * Statistics)%type.

Section cores.
Context {It : Type} `{IteratorLaws It (result Record)}.
Implicit Types (its : list It) (values : list Record) (v w : Record).

Definition valid (it : It) : list Record := oks (drain it).

Lemma next_valid_n_spec n it :
  (remaining it < n)%nat →
  match next_valid_n n it with
  | (Some v, it') => valid it = v :: valid it' ∧ (remaining it' < remaining it)%nat
  | (None, _) => valid it = []
  end.
Proof.
  revert it. induction n as [|n IH]; intros it Hn; [lia|]. cbn [next_valid_n].
  unfold valid at 1 3. rewrite drain_unfold.
  destruct (next it) as [[[v|e]|] it'] eqn:E; [| |done].
  - apply next_remaining in E. done.
  - apply next_remaining in E. specialize (IH it' ltac:(lia)).
    change (oks (Err e :: drain it')) with (valid it').
    destruct (next_valid_n n it') as [[v|] it'']; [|done].
    split; [apply IH|]. destruct IH. lia.
Qed.

Lemma next_valid_spec it :
  match next_valid it with
  | (Some v, it') => valid it = v :: valid it' ∧ (remaining it' < remaining it)%nat
  | (None, _) => valid it = []
  end.
Proof. apply next_valid_n_spec. lia. Qed.

(** The records still to write: the values, then what the iterators hold. *)
Definition lanes_of its values : list (list Record) := zip_with (λ it v, v :: valid it) its values.

Lemma first_valid_spec its its' values :
  Forall (λ it, valid it ≠ []) its → first_valid its = (its', values) →
  length its' = length values ∧ lanes_of its' values = valid <$> its ∧
  (items_left its' ≤ items_left its)%nat.
Proof.
  intros Hne. revert its' values. induction Hne as [|it its Hit _ IH]; intros its' values.
  - by intros [= <- <-].
  - cbn [first_valid]. rewrite fmap_cons. pose proof (next_valid_spec it) as Hn.
    destruct (next_valid it) as [[v|] it']; [|done]. destruct Hn as [Hv Hr].
    destruct (first_valid its) as [its1 values1]. intros [= <- <-].
    destruct (IH _ _ eq_refl) as (Hl & Hs & Hi). split_and!; [cbn; by rewrite Hl| |].
    + cbn [lanes_of zip_with]. fold (lanes_of its1 values1). by rewrite Hs, Hv.
    + unfold items_left in *. cbn. lia.
Qed.

(** The value with the smallest suffix; [good_key]s compare as time stamps. *)
Lemma min_value_spec values index min_index min i m :
  min_value values index min_index min = (i, m) →
  ((i, m) = (min_index, min) ∨ ∃ j, i = (index + j)%nat ∧ values !! j = Some m) ∧
  bytes_le (key_suffix m.1) (key_suffix min.1) ∧
  ∀ w, w ∈ values → bytes_le (key_suffix m.1) (key_suffix w.1).
Proof.
  revert index min_index min. induction values as [|v values IH]; intros index min_index min.
  - intros [= <- <-]. split_and!; [by left|done|]. by intros w ?%not_elem_of_nil.
  - cbn [min_value]. destruct (bytes_cmp (key_suffix v.1) (key_suffix min.1)) eqn:Ec;
      intros E; apply IH in E as (Hor & Hle & Hall).
    1, 3: split_and!; [|done|];
      [destruct Hor as [?|(j & -> & Hj)]; [by left|right; exists (S j); split; [lia|done]]|].
    1, 2: intros w [->|Hw]%elem_of_cons; [|by apply Hall]; transitivity (key_suffix min.1); [done|];
      unfold bytes_le; rewrite bytes_cmp_antisym, Ec; done.
    assert (bytes_le (key_suffix v.1) (key_suffix min.1)) as Hv
      by (unfold bytes_le; by rewrite Ec).
    split_and!.
    + right. destruct Hor as [[= -> ->]|(j & -> & Hj)].
      * exists 0%nat. split; [lia|done].
      * exists (S j). split; [lia|done].
    + by transitivity (key_suffix v.1).
    + intros w [->|Hw]%elem_of_cons; auto.
Qed.

(** The order in which the merge writes. *)
Fixpoint write_order (fuel : nat) its values : list Record :=
  match fuel with
  | O => []
  | S fuel =>
      match values with
      | [] => []
      | first :: _ =>
          let '(min_index, v) := min_value values 0 0 first in
          let '(its, values) := replace_value its values min_index in
          v :: write_order fuel its values
      end
  end.

Lemma lanes_of_app its1 its2 values1 values2 :
  length its1 = length values1 →
  lanes_of (its1 ++ its2) (values1 ++ values2) = lanes_of its1 values1 ++ lanes_of its2 values2.
Proof. intros Hl. by apply zip_with_app. Qed.

Lemma items_left_app its1 its2 : items_left (its1 ++ its2) = (items_left its1 + items_left its2)%nat.
Proof. unfold items_left. induction its1 as [|it its1 IH]; cbn in *; lia. Qed.

Lemma lanes_delete its values i :
  lanes_of (delete i its) (delete i values) = delete i (lanes_of its values).
Proof.
  revert i values. induction its as [|it its IH]; intros [|i] [|v values]; try done.
  - by destruct its.
  - cbn. f_equal. apply IH.
Qed.

Lemma lanes_insert its values i it v :
  length its = length values →
  lanes_of (<[i := it]> its) (<[i := v]> values) = <[i := v :: valid it]> (lanes_of its values).
Proof.
  revert i values. induction its as [|it' its IH]; intros [|i] [|v' values] Hl; try done.
  cbn. f_equal. apply IH. by injection Hl.
Qed.
End cores.

Section order.
Context {It : Type} `{IteratorLaws It (result Record)}.
Implicit Types (its : list It) (values : list Record) (v w : Record).

Lemma concat_insert {A} (lanes : list (list A)) (i : nat) (x : A) (r : list A) :
  lanes !! i = Some (x :: r) → concat lanes ≡ₚ x :: concat (<[i := r]> lanes).
Proof.
  revert i. induction lanes as [|l lanes IH]; intros [|i] Hi; try done; cbn in *.
  - by injection Hi as ->.
  - rewrite (IH i Hi). symmetry. apply Permutation_middle.
Qed.

Lemma concat_insert_nil {A} (lanes : list (list A)) (i : nat) :
  (i < length lanes)%nat → concat (<[i := []]> lanes) = concat (delete i lanes).
Proof.
  revert i. induction lanes as [|l lanes IH]; intros [|i] Hi; cbn in *; [lia..|done|].
  f_equal. apply IH. lia.
Qed.

Lemma replace_value_spec its values i v its' values' :
  length its = length values → values !! i = Some v →
  replace_value its values i = (its', values') →
  length its' = length values' ∧ (items_left its' < items_left its)%nat ∧
  ∃ r, lanes_of its values !! i = Some (v :: r) ∧
    (lanes_of its' values' = <[i := r]> (lanes_of its values) ∨
     r = [] ∧ lanes_of its' values' = delete i (lanes_of its values)).
Proof.
  intros Hl Hv. destruct (lookup_lt_is_Some_2 its i) as [it Hit].
  { rewrite Hl. by eapply lookup_lt_Some. }
  assert (lanes_of its values !! i = Some (v :: valid it)) as Hlane
    by (unfold lanes_of; by rewrite lookup_zip_with, Hit, Hv).
  assert (items_left its = items_left (take i its) + S (remaining it) + items_left (drop (S i) its))%nat as
    Hleft.
  { rewrite <- (take_drop_middle its i it Hit) at 1. rewrite items_left_app. unfold items_left. cbn. lia. }
  pose proof (lookup_lt_Some _ _ _ Hit) as Hlt.
  unfold replace_value. rewrite Hit. pose proof (next_valid_spec it) as Hn.
  destruct (next_valid it) as [[v2|] it2]; intros [= <- <-].
  - destruct Hn as [Hn Hr]. split_and!; [by rewrite !length_insert| |].
    + rewrite insert_take_drop, items_left_app, Hleft by done. unfold items_left. cbn. lia.
    + exists (valid it). split; [done|]. left. rewrite lanes_insert by done. by rewrite Hn.
  - split_and!.
    + rewrite !length_delete by eauto. by rewrite Hl.
    + rewrite delete_take_drop, items_left_app, Hleft. lia.
    + exists []. rewrite Hlane, Hn. split; [done|]. right. split; [done|]. apply lanes_delete.
Qed.

Definition no_later (a b : Record) : Prop := bytes_le (key_suffix a.1) (key_suffix b.1).

Lemma Forall_delete {A} (P : A → Prop) (lanes : list A) (i : nat) :
  Forall P lanes → Forall P (delete i lanes).
Proof.
  rewrite !Forall_forall. intros HP x Hx. apply HP.
  eapply elem_of_submseteq; [exact Hx|]. apply sublist_submseteq, sublist_delete.
Qed.

(** One round: the written record is one of the smallest of the lanes. *)
Lemma merge_round its values first_v values' i v its1 values1 :
  length its = length values → values = first_v :: values' →
  min_value values 0 0 first_v = (i, v) → replace_value its values i = (its1, values1) →
  length its1 = length values1 ∧ (items_left its1 < items_left its)%nat ∧
  concat (lanes_of its values) ≡ₚ v :: concat (lanes_of its1 values1) ∧
  (Forall (StronglySorted no_later) (lanes_of its values) →
    Forall (StronglySorted no_later) (lanes_of its1 values1) ∧
    Forall (no_later v) (concat (lanes_of its1 values1))).
Proof.
  intros Hl Hv Hm Hr. destruct (min_value_spec _ _ _ _ _ _ Hm) as (Hor & _ & Hall).
  assert (values !! i = Some v) as Hi.
  { destruct Hor as [[= -> ->]|(j & -> & Hj)]; [by rewrite Hv|done]. }
  destruct (replace_value_spec _ _ _ _ _ _ Hl Hi Hr) as (Hl1 & Hleft & r & Hlane & Hor1).
  pose proof (lookup_lt_Some _ _ _ Hlane) as Hlt.
  assert (concat (lanes_of its1 values1) = concat (<[i := r]> (lanes_of its values))) as Hc.
  { destruct Hor1 as [->|[-> ->]]; [done|]. by rewrite concat_insert_nil. }
  split_and!; [done..|rewrite Hc; by apply concat_insert|].
  intros Hs. split.
  - destruct Hor1 as [->|[_ ->]]; [|by apply Forall_delete].
    apply Forall_insert; [done|]. rewrite Forall_lookup in Hs.
    by apply Hs, StronglySorted_inv in Hlane as [? _].
  - rewrite Hc. apply Forall_concat, Forall_insert.
    + apply Forall_lookup. intros j l Hj. rewrite Forall_lookup in Hs. pose proof (Hs _ _ Hj) as Hsl.
      unfold lanes_of in Hj. apply lookup_zip_with_Some in Hj as (it & w & -> & _ & Hw).
      assert (no_later v w) as Hvw by (apply Hall; by eapply list_elem_of_lookup_2).
      constructor; [done|]. apply StronglySorted_inv in Hsl as [_ Hsl].
      eapply Forall_impl; [exact Hsl|]. intros x Hx. unfold no_later in *. by etrans.
    + rewrite Forall_lookup in Hs. by apply Hs, StronglySorted_inv in Hlane as [_ ?].
Qed.

(** The merge writes the records of [write_order], all of them, and in time
    order when each lane is. *)
Lemma merge_values_order write fuel its values f :
  length its = length values → values ≠ [] → (items_left its < fuel)%nat →
  merge_values write fuel its values f =
    m_iter (λ v : Record, write v.1 v.2) (write_order fuel its values) f.
Proof.
  revert its values f. induction fuel as [|fuel IH]; intros its values f Hl Hne Hf; [lia|].
  destruct values as [|first_v values'] eqn:Ev; [done|].
  cbn [merge_values write_order]. rewrite <- Ev in *.
  destruct (min_value values 0 0 first_v) as [i [k x]] eqn:Em.
  destruct (replace_value its values i) as [its1 values1] eqn:Er.
  destruct (merge_round _ _ _ _ _ _ _ _ Hl Ev Em Er) as (Hl1 & Hleft & _).
  cbn [m_iter fst snd]. unfold m_bind. destruct (write k x f) as [[[]|e] f']; [|done].
  destruct values1 as [|v1 values2] eqn:Ev1.
  - destruct fuel as [|fuel]; [lia|]. done.
  - apply IH; [done|done|lia].
Qed.

Lemma write_order_spec fuel its values :
  length its = length values → (items_left its < fuel)%nat →
  write_order fuel its values ≡ₚ concat (lanes_of its values) ∧
  (Forall (StronglySorted no_later) (lanes_of its values) →
    StronglySorted no_later (write_order fuel its values)).
Proof.
  revert its values. induction fuel as [|fuel IH]; intros its values Hl Hf; [lia|].
  destruct values as [|first_v values'] eqn:Ev.
  { apply nil_length_inv in Hl as ->. split; [done|constructor]. }
  cbn [write_order]. rewrite <- Ev in *.
  destruct (min_value values 0 0 first_v) as [i v] eqn:Em.
  destruct (replace_value its values i) as [its1 values1] eqn:Er.
  destruct (merge_round _ _ _ _ _ _ _ _ Hl Ev Em Er) as (Hl1 & Hleft & Hc & Hs).
  destruct (IH its1 values1 Hl1) as [Hp Hsort]; [lia|]. split.
  - by rewrite Hp, Hc.
  - intros Hlanes. destruct (Hs Hlanes) as [Hs1 Hv]. constructor; [by apply Hsort|].
    by rewrite Hp.
Qed.
End order.

(** ** The records of a window *)
Section query.
Context `{RocksDBSpec} `{ChronoLaws} `{Client} `{Codecs} `{ChronoFormatLaws} `{ExportText}.
Implicit Types (db : DB) (filter : ExportFilter).

(** Keys of the exported store: a mid key of the width the filter asks for. *)
Definition export_keys_wf (mid : option bytes) (m : gmap bytes bytes) : Prop :=
  ∀ k v, m !! k = Some v →
    ∃ s m' ts, no_nul s ∧ mid_compat mid m' ∧ 0 ≤ ts ≤ i64_max ∧ k = event_key s m' ts.

Lemma window_key (source : string) (mid : option bytes) (m : gmap bytes bytes) start end_ k v :
  export_keys_wf mid m → no_nul source →
  (k, v) ∈ entries_between m (lower_key (builder |> start_key source |> mid_key mid) start)
    (upper_key (builder |> start_key source |> mid_key mid) end_) →
  ∃ ts, 0 ≤ ts ≤ i64_max ∧ k = event_key source mid ts.
Proof.
  intros Hwf Hns [Hb Hv]%elem_of_entries_between.
  destruct (Hwf k v Hv) as (s & m' & ts & Hs & Hm & Hts & ->). exists ts. split; [done|].
  by apply between_same_prefix in Hb as [-> ->].
Qed.

Definition core_builder (source : string) (core : nat) : StorageKeyBuilder :=
  builder |> start_key source |> mid_key (Some (be_bytes 4 (Z.of_nat core))).

(** The records of one core in the window of the filter, oldest first. *)
Definition core_entries filter db (core : nat) : list (bytes * bytes) :=
  entries_between (cf_view db "statistics")
    (lower_key (core_builder (get_start_key filter) core) (get_range_end_key filter).1)
    (upper_key (core_builder (get_start_key filter) core) (get_range_end_key filter).2).
Definition core_records filter db (core : nat) : list Record :=
  oks (decode (T := Statistics) <$> core_entries filter db core).

(** A core with entries has one that decodes. *)
Definition cores_decode filter db : Prop :=
  Forall (λ core, core_entries filter db core ≠ [] → core_records filter db core ≠ [])
    (seq 0 MAX_CORE_SIZE).

Lemma open_core_files_spec cores filter db :
  healthy db →
  let its := open_core_files cores (mk_store "statistics") filter db in
  Forall (λ core, core_entries filter db core ≠ [] → core_records filter db core ≠ []) cores →
  Forall (λ it, valid it ≠ []) its ∧
  concat (valid <$> its) = concat (core_records filter db <$> cores) ∧
  ∀ P : list Record → Prop,
    Forall P (core_records filter db <$> cores) → Forall P (valid <$> its).
Proof.
  intros [Hio Hop]. cbn zeta. assert (cf_handle db "statistics" = true) as Hcf by (apply Hop; known_cf).
  induction cores as [|core cores IH]; intros Hd; [by split_and!|].
  apply Forall_cons in Hd as [Hd Hds]. destruct (IH Hds) as (Hne & Hc & HP).
  cbn [open_core_files]. rewrite (surjective_pairing (get_range_end_key filter)).
  cbn [fst snd].
  set (it0 := boundary_iter (mk_store "statistics") _ _ Forward db).
  assert (drain it0 = decode <$> core_entries filter db core) as Hit
    by (subst it0; by rewrite drain_boundary_iter).
  pose proof (peek_drain it0) as Hp. pose proof (drain_peek it0) as Hdp.
  destruct (peek (peekable it0)) as [item it]. cbn [fst snd] in Hp, Hdp.
  assert (valid it = core_records filter db core) as Hv by (unfold valid; by rewrite Hdp, Hit).
  rewrite Hit in Hp. rewrite fmap_cons. cbn [concat].
  destruct item as [x|].
  - rewrite fmap_cons, Hv. cbn [concat]. split_and!.
    + constructor; [|done]. rewrite Hv. apply Hd. intros E. by rewrite E in Hp.
    + by rewrite Hc.
    + intros P [??]%Forall_cons. constructor; auto.
  - assert (core_records filter db core = []) as ->
      by (unfold core_records; by destruct (core_entries filter db core)).
    split_and!; [done..|]. intros P [??]%Forall_cons. auto.
Qed.
End query.

(** ** Properties *)
Section properties.
Context `{RocksDBSpec} `{ChronoLaws} `{Client} `{Codecs} `{ChronoFormatLaws} `{ExportText}.

(** C39: the file of an export has one line per stored event of the source in
    the time window that decodes and passes the filter, oldest first, with its
    time stamp, source and text (csv) or JSON form, up to the first event whose
    JSON form fails, with whose error the export ends; when the disk is full the
    file has as many bytes of this text as there was room for, so that its last
    line may be torn, and the export fails. *)
Theorem export_file_exact {N T} `{!Bincode T} `{!EventFilter T} `{!JsonOutput N T} `{!Display T}
    `{!ToJson N} (st : RawEventStore T) (filter : ExportFilter) export_type room db :
  io_ok db → cf_handle db (store_cf st) = true →
  export_type = "csv" ∨ export_type = "json" →
  no_nul (get_start_key filter) → valid_utf8 (get_start_key filter) →
  export_keys_wf (get_mid_key filter) (cf_view db (store_cf st)) →
  let '(text, r) := lines_text (event_line (N := N) export_type (get_start_key filter) <$> results st filter
    db) in
  process_export (N := N) st filter export_type (Ok (mk_file "" room)) db =
    match room with
    | None => (r, Some (mk_file text None))
    | Some n =>
        if (String.length text <=? n)%nat then (r, Some (mk_file text (Some (n - String.length text)%nat)))
        else (Err "No space left on device", Some (mk_file (String.substring 0 n text) (Some O)))
    end.
Proof.
  intros Hio Hcf Ht Hs Hu Hwf. unfold process_export, export_file.
  rewrite drain_boundary_iter by done. cbn [scan_between].
  change (entries_between _ _ _) with (window filter (cf_view db (store_cf st))).
  rewrite (write_items filter export_type (get_start_key filter)); [|done..|].
  - rewrite omap_accept_decode. unfold write_lines. fold (results st filter db).
    destruct (lines_text _) as [text r]. unfold write_text. cbn [fst snd contents Export.room].
    rewrite !string_app_nil. destruct room as [n|]; [|done]. by destruct (_ <=? _)%nat.
  - intros k x Hin. apply list_elem_of_fmap in Hin as ([k' v] & Hd & Hin).
    unfold decode in Hd. cbn [fst snd] in Hd.
    destruct (bincode_deserialize v) as [y|]; [|done]. injection Hd as -> _.
    apply window_key in Hin as (ts & Hts & ->); [|done..]. by exists (get_mid_key filter), ts.
Qed.

Lemma omap_accept_Ok {T} `{!EventFilter T} (f : ExportFilter) (l : list (bytes * T)) :
  omap (accept f) (Ok <$> l) = filter (λ e, keeps f e.2 = true) l.
Proof.
  induction l as [|e l IH]; [done|]. rewrite fmap_cons, filter_cons. cbn.
  change (list_omap _ _ (accept f) (Ok <$> l)) with (omap (accept f) (Ok <$> l)). rewrite IH.
  by destruct (keeps f e.2).
Qed.

Lemma m_iter_fmap {S A B} (g : A → B) (body : B → M S unit) l s :
  m_iter body (g <$> l) s = m_iter (λ x, body (g x)) l s.
Proof.
  revert s. induction l as [|x l IH]; intros s; [done|]. rewrite fmap_cons. cbn [m_iter].
  unfold m_bind. destruct (body (g x) s) as [[[]|e] s']; [apply IH|done].
Qed.

Lemma m_iter_ext {S A} (body body' : A → M S unit) l s :
  (∀ x s, body x s = body' x s) → m_iter body l s = m_iter body' l s.
Proof.
  intros Hb. revert s. induction l as [|x l IH]; intros s; [done|]. cbn [m_iter].
  unfold m_bind. rewrite Hb. destruct (body' x s) as [[[]|e] s']; [apply IH|done].
Qed.

Lemma oks_decode_cons k x l :
  oks (decode (T := Statistics) <$> (k, x) :: l) =
    match bincode_deserialize x with
    | Ok y => (k, y) :: oks (decode <$> l)
    | Err _ => oks (decode <$> l)
    end.
Proof.
  rewrite fmap_cons. unfold decode at 1. cbn [fst snd].
  by destruct (bincode_deserialize x).
Qed.

Lemma core_record_key filter db core v :
  export_keys_wf (Some (be_bytes 4 0)) (cf_view db "statistics") → no_nul (get_start_key filter) →
  v ∈ core_records filter db core →
  ∃ ts, 0 ≤ ts ≤ i64_max ∧
    v.1 = event_key (get_start_key filter) (Some (be_bytes 4 (Z.of_nat core))) ts ∧
    ∃ x, (v.1, x) ∈ core_entries filter db core.
Proof.
  intros Hwf Hns Hin. unfold core_records, oks in Hin.
  apply list_elem_of_omap in Hin as (r & Hr & Hv).
  apply list_elem_of_fmap in Hr as ([k x] & -> & Hin). unfold decode in Hv. cbn [fst snd] in Hv.
  destruct (bincode_deserialize x) as [y|]; [|done]. injection Hv as <-. cbn [fst].
  pose proof Hin as Hk. unfold core_entries, core_builder in Hk.
  apply window_key in Hk as (ts & Hts & ->); [by eauto 10| |done].
  intros k' v' Hk'. destruct (Hwf k' v' Hk') as (s & m' & ts & ? & Hm & ? & ->).
  exists s, m', ts. split; [done|]. split; [|by split]. destruct m' as [m'|]; [|done].
  destruct Hm as [Hm|[Hm _]]; [left; by rewrite length_be_bytes in *|].
  destruct Hm. vm_compute. left.
Qed.

Lemma export_core_sorted filter db core :
  export_keys_wf (Some (be_bytes 4 0)) (cf_view db "statistics") → no_nul (get_start_key filter) →
  StronglySorted no_later (core_records filter db core).
Proof.
  intros Hwf Hns. unfold core_records.
  pose proof (entries_between_sorted (cf_view db "statistics")
    (lower_key (core_builder (get_start_key filter) core) (get_range_end_key filter).1)
    (upper_key (core_builder (get_start_key filter) core) (get_range_end_key filter).2)) as Hs.
  fold (core_entries filter db core) in Hs.
  assert (∀ v, v ∈ oks (decode (T := Statistics) <$> core_entries filter db core) → good_key v.1 ∧
    ∃ ts, 0 ≤ ts ≤ i64_max ∧
      v.1 = event_key (get_start_key filter) (Some (be_bytes 4 (Z.of_nat core))) ts) as Hk.
  { intros v Hv. destruct (core_record_key filter db core v Hwf Hns Hv) as (ts & Hts & E & _).
    split; [|by eauto]. rewrite E. by apply good_event_key. }
  revert Hk. induction Hs as [|[k x] l Hl IH Hall]; [constructor|].
  rewrite oks_decode_cons. destruct (bincode_deserialize x) as [y|]; [|exact IH].
  intros Hk. constructor; [apply IH; intros v Hv; apply Hk; by right|].
  apply Forall_forall. intros v Hv. destruct (Hk (k, y)) as (Hg1 & t1 & Ht1 & E1); [left|].
  destruct (Hk v) as (Hg2 & t2 & Ht2 & E2); [by right|]. cbn [fst] in *.
  unfold no_later. unfold bytes_le. cbn [fst]. rewrite suffix_cmp by done.
  assert (bytes_lt k v.1) as Hlt.
  { unfold oks in Hv. apply list_elem_of_omap in Hv as (r & Hr & Hv).
    apply list_elem_of_fmap in Hr as ([k' x'] & -> & Hin). unfold decode in Hv. cbn [fst snd] in Hv.
    destruct (bincode_deserialize x') as [y'|]; [|done]. injection Hv as <-.
    rewrite Forall_forall in Hall. exact (Hall _ Hin). }
  rewrite E1, E2 in *. apply event_key_order in Hlt; [|done..].
  apply Z.compare_le_iff. lia.
Qed.

(** the export of the statistics merges the cores: the lines are those of
    all records of the window that decode and pass the filter, in the order of
    their time stamps, provided that every core with entries has one that
    decodes. *)
Theorem statistics_export_merges filter export_type room db :
  healthy db → export_type = "csv" ∨ export_type = "json" →
  no_nul (get_start_key filter) → valid_utf8 (get_start_key filter) →
  export_keys_wf (Some (be_bytes 4 0)) (cf_view db "statistics") →
  cores_decode filter db →
  let records := concat (core_records filter db <$> seq 0 MAX_CORE_SIZE) in
  records ≠ [] →
  ∃ order, order ≡ₚ records ∧
    StronglySorted (λ a b, key_nanos a.1 ≤ key_nanos b.1) order ∧
    process_statistics_export (mk_store "statistics") filter export_type (Ok (mk_file "" room)) db =
      (let '(r, f) := write_lines (event_line (N := StatisticsJsonOutput) export_type (get_start_key filter) <$>
          base.filter (λ e, keeps filter e.2 = true) order) (mk_file "" room) in (r, Some f)).
Proof.
  intros Hh Ht Hs Hu Hwf Hdec records Hne.
  destruct (open_core_files_spec (seq 0 MAX_CORE_SIZE) filter db Hh Hdec) as (Hits & Hc & HP).
  set (its := open_core_files _ _ _ _) in *.
  destruct (first_valid its) as [its1 values] eqn:Ef.
  destruct (first_valid_spec _ _ _ Hits Ef) as (Hl & Hlanes & Hleft).
  assert (items_left its1 < S (items_left its1))%nat as Hfuel by lia.
  destruct (write_order_spec (S (items_left its1)) its1 values Hl Hfuel) as [Hp Hsort].
  set (order := write_order _ its1 values) in *.
  rewrite Hlanes, Hc in Hp. fold records in Hp.
  assert (∀ v, v ∈ order → good_key v.1 ∧ good_export_key (get_start_key filter) v.1) as Hg.
  { intros v. rewrite Hp. unfold records. rewrite list_elem_of_In, in_concat.
    intros (l & Hl'%list_elem_of_In & Hv%list_elem_of_In).
    apply list_elem_of_fmap in Hl' as (core & -> & _).
    destruct (core_record_key filter db core v Hwf Hs Hv) as (ts & Hts & E & _). rewrite E.
    split; [by apply good_event_key|by eexists _, ts]. }
  exists order. split_and!; [done| |].
  - eapply StronglySorted_impl_elem; [|apply Hsort; rewrite Hlanes; apply HP].
    + intros a b Ha Hb Hab. unfold no_later, bytes_le in Hab.
      rewrite suffix_cmp in Hab by (by apply Hg). by apply Z.compare_le_iff.
    + apply Forall_fmap, Forall_forall. intros core _. by apply export_core_sorted.
  - unfold process_statistics_export, export_statistic_file. fold its. rewrite Ef.
    rewrite merge_values_order; [|done| |done].
    + fold order. rewrite (m_iter_ext _ (λ x, write_item filter export_type (Ok x)))
        by (by intros [k x] f).
      rewrite <- (m_iter_fmap Ok (write_item filter export_type)).
      rewrite (write_items filter export_type (get_start_key filter)); [by rewrite omap_accept_Ok|done..|].
      intros k x (v & [= <-] & Hv)%list_elem_of_fmap. by apply Hg in Hv as [_ ?].
    + intros ->. apply nil_length_inv in Hl as ->.
      apply Hne. unfold records. by rewrite <- Hc, <- Hlanes.
Qed.

(** exporting statistics when no core has a record in the window panics
    after the file was created: the task fails and leaves an empty file. *)
Theorem statistics_export_of_nothing filter export_type room db :
  healthy db →
  Forall (λ core, core_entries filter db core = []) (seq 0 MAX_CORE_SIZE) →
  process_statistics_export (mk_store "statistics") filter export_type (Ok (mk_file "" room)) db =
    (Err "index out of bounds", Some (mk_file "" room)).
Proof.
  intros Hh Hnone.
  destruct (open_core_files_spec (seq 0 MAX_CORE_SIZE) filter db Hh) as (Hne & Hc & _).
  { eapply Forall_impl; [exact Hnone|]. by intros core ->. }
  unfold process_statistics_export, export_statistic_file.
  assert (concat (core_records filter db <$> seq 0 MAX_CORE_SIZE) = []) as Hnil.
  { revert Hnone. generalize (seq 0 MAX_CORE_SIZE). intros cores.
    induction 1 as [|core cores Hcore _ IH]; [done|]. rewrite fmap_cons. cbn [concat].
    rewrite IH. unfold core_records. by rewrite Hcore. }
  rewrite Hnil in Hc. destruct (open_core_files _ _ _ _) as [|it its]; [done|].
  apply Forall_cons in Hne as [Hit _]. rewrite fmap_cons in Hc. cbn [concat] in Hc.
  by destruct (valid it).
Qed.

(** The names under which [export_by_protocol] exports sysmon events, and the
    names [NON_NETWORK] lists for them. *)
Definition SYSMON_PROTOCOLS : list string := [
  "process_create"; "file_create_time"; "network_connect"; "process_terminate"; "image_load";
  "file_create"; "registry_value_set"; "registry_key_rename"; "file_create_stream_hash";
  "pipe_event"; "dns_query"; "file_delete"; "process_tamper"; "file_delete_detected"].
Definition SYSMON_NAMES : list string := [
  "sysmon"; "process create"; "file create time"; "network connect"; "process terminate";
  "image load"; "file create"; "registry value set"; "registry key rename";
  "file create stream hash"; "pipe event"; "dns query"; "file delete"; "process tamper";
  "file delete detected"].

(** No name of the list [Hp] speaks of is that of an arm of the match. *)
Ltac no_arm name Hp :=
  revert Hp; generalize name; unfold SYSMON_NAMES; intros ? Hp;
  repeat (apply elem_of_cons in Hp as [->|Hp]; [reflexivity|]); by apply not_elem_of_nil in Hp.

(** sysmon events cannot be exported by agent: under the name the export
    knows them by, a filter with an agent or kind is refused as if it were for
    network events, and under the name the check knows them by, every export
    is refused as unknown. *)
Theorem sysmon_export_by_agent_refused export_type filter path dir now created db :
  (ExportFilter.protocol filter ∈ SYSMON_PROTOCOLS →
    is_Some (ExportFilter.agent_name filter) ∨ is_Some (ExportFilter.agent_id filter) ∨
    is_Some (ExportFilter.kind filter) →
    export export_type filter path dir now created db =
      Err "Invalid kind/agent_name/agent_id input") ∧
  (ExportFilter.protocol filter ∈ SYSMON_NAMES →
    is_ok (export export_type filter path dir now created db) = false).
Proof.
  split.
  - intros Hp Hset. unfold export, check_filter.
    assert (Forall (λ p, p ∉ NON_NETWORK) SYSMON_PROTOCOLS) as Hnot
      by (refine (bool_decide_unpack _ _); vm_compute; exact I).
    rewrite Forall_forall in Hnot. rewrite decide_False by (by apply Hnot).
    destruct Hset as [[a ->]|[[a ->]|[a ->]]]; cbn [is_set];
      by destruct (is_set _); [|destruct (is_set _)].
  - intros Hp. assert (is_ok (export_by_protocol filter export_type created db) = false) as Hu.
    { transitivity (is_ok (export_by_protocol_b filter export_type created db)).
      { unfold export_by_protocol. no_arm (ExportFilter.protocol filter) Hp. }
      transitivity (is_ok (export_by_protocol_c filter export_type created db)).
      { unfold export_by_protocol_b. no_arm (ExportFilter.protocol filter) Hp. }
      transitivity (is_ok (export_by_protocol_d filter export_type created db)).
      { unfold export_by_protocol_c. no_arm (ExportFilter.protocol filter) Hp. }
      unfold export_by_protocol_d. no_arm (ExportFilter.protocol filter) Hp. }
    unfold export. destruct (check_filter filter); [|done]. cbn [mbind result_bind].
    destruct (negb _); [done|]. destruct dir; [|done]. cbn [mbind result_bind].
    by destruct (export_by_protocol filter export_type created db).
Qed.

(** The JSON of a process creation shows the user as the user of the parent. *)
Lemma process_create_json_parent_user (v : ProcessCreate) timestamp source :
  ProcessCreateJsonOutput.parent_user <$>
    convert_json_output (N := ProcessCreateJsonOutput) v timestamp source =
  Ok (ProcessCreate.user v).
Proof. done. Qed.
End properties.

(** ** Witnesses *)
#[local] Instance plain_format : ChronoFormat := λ secs nanosecs,
  Some (dec secs +:+ "." +:+ pad 9 (dec nanosecs)).
#[local] Instance plain_format_laws : ChronoFormatLaws.
Proof. by intros secs nanosecs _ _. Qed.

#[local] Instance plain_text : ExportText.
Proof. constructor; first [exact (λ _, "text")|exact (λ _, Ok "json")]. Defined.
#[local] Instance blob_display : Display Blob := λ b, "blob" +:+ dec (be_val (blob b)).
#[local] Instance blob_json : JsonOutput string Blob := λ b timestamp source,
  Ok (timestamp +:+ source).
#[local] Instance string_json : ToJson string := λ s, Ok s.

#[local] Instance undecoded (T : Type) : Bincode T | 100 := {|
  bincode_serialize _ := Err "not encoded"; bincode_deserialize _ := Err "not decoded" |}.
#[local] Instance byte_statistics : Bincode Statistics := {|
  bincode_serialize _ := Err "not encoded";
  bincode_deserialize b :=
    match b with
    | [n] => Ok (Statistics.mk 0 10 [(RawEventKind.Statistics, Z.of_N (Byte.to_N n), 0)])
    | _ => Err "invalid data"
    end |}.
#[local] Instance export_codecs : Codecs.
Proof. constructor; first [exact byte_statistics|apply undecoded]. Defined.

Definition csv_filter (protocol source : string) : ExportFilter.t :=
  ExportFilter.mk nanos_chrono protocol source None None None None None None None None.

Definition demo_keys : list bytes := [
  event_key "src1" None 100000000000; event_key "src1" None 200000000000;
  event_key "src1" None 300000000000; event_key "src1" None 400000000000;
  event_key "src10" None 150000000000].

Lemma demo_export_keys : export_keys_wf None (cf_view demo_db "conn").
Proof.
  intros k v Hk.
  assert (map_Forall (λ k (_ : bytes), bool_decide (k ∈ demo_keys) = true) (cf_view demo_db "conn"))
    as Hall by (refine (bool_decide_unpack _ _); vm_compute; exact I).
  specialize (Hall k v Hk). apply bool_decide_eq_true_1 in Hall.
  assert (Forall (λ k, ∃ s m' ts, no_nul s ∧ mid_compat None m' ∧ 0 ≤ ts ≤ i64_max ∧
    k = event_key s m' ts) demo_keys) as Hkeys.
  { repeat apply Forall_cons_2; [..|by apply Forall_nil_2];
      (eexists _, None, _; split_and!; [..|reflexivity]); concrete. }
  rewrite Forall_forall in Hkeys. by apply Hkeys.
Qed.

(** Thirty bytes fit on the disk: the first line, of 25, and five of the second. *)
Lemma export_file_exact_witness :
  process_export (N := string) (T := Blob) demo_store (csv_filter "conn" "src1") "csv"
    (Ok (mk_file "" (Some 30%nat))) demo_db =
  (Err "No space left on device",
   Some (mk_file ("100.000000000" +:+ TAB +:+ "src1" +:+ TAB +:+ "blob1" +:+ newline +:+ "200.0") (Some
     0%nat))).
Proof.
  pose proof (export_file_exact (N := string) demo_store (csv_filter "conn" "src1") "csv" (Some 30%nat)
    demo_db) as He.
  assert (lines_text (event_line (N := string) "csv" (get_start_key (csv_filter "conn" "src1")) <$>
      results demo_store (csv_filter "conn" "src1") demo_db) =
    ("100.000000000" +:+ TAB +:+ "src1" +:+ TAB +:+ "blob1" +:+ newline +:+
     "200.000000000" +:+ TAB +:+ "src1" +:+ TAB +:+ "blob2" +:+ newline +:+
     "400.000000000" +:+ TAB +:+ "src1" +:+ TAB +:+ "blob4" +:+ newline, Ok tt)%string) as E
    by (vm_compute; reflexivity).
  rewrite E in He. rewrite He.
  - vm_compute. reflexivity.
  - concrete.
  - concrete.
  - by left.
  - concrete.
  - concrete.
  - apply demo_export_keys.
Defined.

Definition core_key (core ts : Z) : bytes := event_key "s" (Some (be_bytes 4 core)) ts.
Definition core_db (m : gmap bytes bytes) : @DB mem_rocksdb :=
  <["statistics" := m]> empty_db : Mem.db.

Lemma core_db_healthy m : healthy (core_db m).
Proof.
  split; [done|]. intros name Hn. apply bool_decide_eq_true_2. unfold core_db.
  rewrite lookup_insert_is_Some'. right. by apply empty_db_opened.
Qed.

Definition two_cores : gmap bytes bytes := list_to_map [
  (core_key 0 10, [Byte.x01]); (core_key 0 30, [Byte.x03]); (core_key 1 20, [Byte.x02])].

Lemma two_cores_keys : export_keys_wf (Some (be_bytes 4 0)) (cf_view (core_db two_cores) "statistics").
Proof.
  intros k v Hk.
  assert (map_Forall (λ k (_ : bytes), bool_decide (k ∈ [core_key 0 10; core_key 0 30; core_key 1 20]) = true)
    (cf_view (core_db two_cores) "statistics")) as Hall
    by (refine (bool_decide_unpack _ _); vm_compute; exact I).
  specialize (Hall k v Hk). apply bool_decide_eq_true_1 in Hall.
  assert (Forall (λ k, ∃ s m' ts, no_nul s ∧ mid_compat (Some (be_bytes 4 0)) m' ∧ 0 ≤ ts ≤ i64_max ∧
    k = event_key s m' ts) [core_key 0 10; core_key 0 30; core_key 1 20]) as Hkeys.
  { repeat apply Forall_cons_2; [..|by apply Forall_nil_2];
      (exists "s"; eexists (Some (be_bytes 4 _)), _; split_and!; [..|reflexivity]);
      try concrete; by left. }
  rewrite Forall_forall in Hkeys. by apply Hkeys.
Qed.

Lemma statistics_export_merges_witness :
  ∃ order : list Record,
    order ≡ₚ concat (core_records (csv_filter "statistics" "s") (core_db two_cores) <$> seq 0 MAX_CORE_SIZE) ∧
    StronglySorted (λ a b, key_nanos a.1 ≤ key_nanos b.1) order.
Proof.
  destruct (statistics_export_merges (csv_filter "statistics" "s") "csv" None (core_db two_cores))
    as (order & Hp & Hs & _).
  - apply core_db_healthy.
  - by left.
  - concrete.
  - concrete.
  - apply two_cores_keys.
  - unfold cores_decode. repeat constructor; vm_compute; intros Hne E;
      first [discriminate E|by apply Hne].
  - intros E%(f_equal length). vm_compute in E. discriminate E.
  - exists order. by split.
Defined.

Example statistics_export_lines :
  process_statistics_export (mk_store "statistics") (csv_filter "statistics" "s") "csv"
    (Ok (mk_file "" None)) (core_db two_cores) =
  (Ok tt, Some (mk_file (String.concat "" ((λ ts,
    "0." +:+ ts +:+ TAB +:+ "s" +:+ TAB +:+ "text" +:+ newline)%string <$>
    ["000000010"; "000000020"; "000000030"])) None)).
Proof. vm_compute. reflexivity. Qed.

Lemma statistics_export_of_nothing_witness :
  process_statistics_export (mk_store "statistics") (csv_filter "statistics" "other") "csv"
    (Ok (mk_file "" None)) (core_db two_cores) = (Err "index out of bounds", Some (mk_file "" None)).
Proof.
  apply statistics_export_of_nothing; [apply core_db_healthy|].
  repeat constructor; vm_compute; reflexivity.
Defined.

(** a core whose records in the window do not decode shifts the others: its
    iterator has no value but keeps its place, so the value of the next core is
    followed up in the wrong iterator and the rest of that core is not
    exported. *)
Theorem statistics_export_loses_records :
  process_statistics_export (mk_store "statistics") (csv_filter "statistics" "s") "csv"
    (Ok (mk_file "" None))
    (core_db (list_to_map [(core_key 0 10, []); (core_key 1 20, [Byte.x02]); (core_key 1 30, [Byte.x03])])) =
  (Ok tt, Some (mk_file ("0.000000020" +:+ TAB +:+ "s" +:+ TAB +:+ "text" +:+ newline) None)).
Proof. vm_compute. reflexivity. Qed.

Lemma sysmon_export_by_agent_refused_witness :
  export "csv" (ExportFilter.mk nanos_chrono "process_create" "src1" (Some "agent") None None None
    None None None None) "/tmp" (Ok tt) "20240101_000000" (Ok (mk_file "" None)) demo_db =
    Err "Invalid kind/agent_name/agent_id input" ∧
  is_ok (export "csv" (csv_filter "process create" "src1") "/tmp" (Ok tt) "20240101_000000"
    (Ok (mk_file "" None)) demo_db) = false.
Proof.
  split.
  - apply sysmon_export_by_agent_refused; [concrete|]. left. by eexists.
  - apply sysmon_export_by_agent_refused. concrete.
Defined.
