(* ===== verification/Merge.v ===== *)
(** * The merged network query (src/src/graphql/network.rs)

    [network_raw_events] opens one filtered iterator per network store, skips
    the cursor's entry in each, and [network_connection] merges them by time
    stamp into one page. *)

From Stdlib Require Import ZArith Lia.
From S2P Require Import Prelude Bytes Externals StorageKey NetAddr GigantoClient Events Filters.
From S2P Require Import Storage StorageSpec Demo Pagination Nodes.

Section merge.
Context `{Chrono}.

Inductive NetworkRawEvents :=
| NConn (e : ConnRawEvent.t)
| NDns (e : DnsRawEvent.t)
| NHttp (e : HttpRawEvent.t)
| NRdp (e : RdpRawEvent.t)
| NNtlm (e : NtlmRawEvent.t)
| NKerberos (e : KerberosRawEvent.t)
| NSsh (e : SshRawEvent.t)
| NDceRpc (e : DceRpcRawEvent.t)
| NFtp (e : FtpRawEvent.t)
| NMqtt (e : MqttRawEvent.t)
| NLdap (e : LdapRawEvent.t)
| NTls (e : TlsRawEvent.t)
| NSmb (e : SmbRawEvent.t)
| NNfs (e : NfsRawEvent.t)
| NNetflowV5 (e : Netflow5RawEvent.t)
| NNetflowV9 (e : NetflowV9RawEvent.t).

(** What one store still has to offer: [x_data] first, then [x_iter].  The
    conversion of an item is made when it is taken. *)
Notation Item := (bytes * result NetworkRawEvents)%type.
Notation Lane := (list Item).

Definition lane {N T} `{FromKeyValue N T} (wrap : N → NetworkRawEvents)
    (items : list (bytes * T)) : Lane :=
  (λ '(k, v), (k, wrap <$> from_key_value k v)) <$> items.

Definition min_max_time (is_forward : bool) : DateTime :=
  if is_forward then MAX_UTC else MIN_UTC.

(** [Ord::min] and [Ord::max] *)
Definition dt_min (a b : DateTime) : DateTime := match dt_cmp a b with Gt => b | _ => a end.
Definition dt_max (a b : DateTime) : DateTime := match dt_cmp a b with Gt => a | _ => b end.
Definition dt_eqb (a b : DateTime) : bool := match dt_cmp a b with Eq => true | _ => false end.

Definition lane_ts (is_forward : bool) (l : Lane) : result DateTime :=
  match l with
  | (k, _) :: _ => get_timestamp_from_key k
  | [] => Ok (min_max_time is_forward)
  end.

Fixpoint lanes_ts (is_forward : bool) (ls : list Lane) : result (list DateTime) :=
  match ls with
  | [] => Ok []
  | l :: ls =>
      ts ← lane_ts is_forward l;
      tss ← lanes_ts is_forward ls;
      Ok (ts :: tss)
  end.

(** [timestamp.min(dns_ts.min(conn_ts.min(..)))]: the order of the operands
    does not matter to which time stamp comes out, only the selection after it
    does. *)
Definition selected (is_forward : bool) (tss : list DateTime) : DateTime :=
  foldr (if is_forward then dt_min else dt_max) (min_max_time is_forward) tss.

(** The first lane whose time stamp is the selected one gives its next item. *)
Fixpoint take_selected (sel : DateTime) (tss : list DateTime) (ls : list Lane) :
    option Item * list Lane :=
  match tss, ls with
  | ts :: tss, l :: ls =>
      if dt_eqb sel ts then
        match l with
        | item :: l => (Some item, l :: ls)
        | [] => (None, l :: ls)
        end
      else let '(o, ls) := take_selected sel tss ls in (o, l :: ls)
  | _, _ => (None, ls)
  end.

Definition is_empty (l : Lane) : bool := match l with [] => true | _ => false end.

Section connection.
Context `{Base64}.

(** The loop; it returns the edges and [has_next_value]. *)
Fixpoint merge_loop (fuel : nat) (size : nat) (is_forward : bool)
    (acc : list (string * NetworkRawEvents)) (ls : list Lane) :
    result (list (string * NetworkRawEvents) * bool) :=
  match fuel with
  | O => Err "out of fuel"
  | S fuel =>
      tss ← lanes_ts is_forward ls;
      let '(o, ls) := take_selected (selected is_forward tss) tss ls in
      acc ←
        match o with
        | Some (k, node) => node ← node; Ok (acc ++ [(base64_encode k, node)])
        | None => Ok acc
        end;
      if (size <=? length acc)%nat || forallb is_empty ls
      then Ok (acc, negb (forallb is_empty ls))
      else merge_loop fuel size is_forward acc ls
  end.

Definition total (ls : list Lane) : nat := sum_list (length <$> ls).

Definition network_connection (ls : list Lane) (size : nat) (is_forward : bool) :
    result (Connection NetworkRawEvents) :=
  r ← merge_loop (S (total ls)) size is_forward [] ls;
  let '(edges, has_next_value) := r in
  Ok (if is_forward then mk_connection edges false has_next_value
      else mk_connection (reverse edges) has_next_value false).
End connection.
End merge.

(** ** Opening the stores *)
Section query.
Context `{RocksDB} `{Chrono} `{Base64} `{Client} `{Codecs}.

(** [if key.as_ref() == cursor { iter.next(); }] on a peekable iterator *)
Definition skip_equal {T} `{Bincode T} `{EventFilter T} (cursor : option bytes)
    (it : FilteredIter T) : Peekable (FilteredIter T) (bytes * T) :=
  match cursor with
  | None => peekable it
  | Some cursor =>
      let '(item, p) := peek (peekable it) in
      match item with
      | Some (k, _) => if decide (k = cursor) then (next p).2 else p
      | None => p
      end
  end.

Section lanes.
Variables (filter : NetworkFilter) (after before : option string) (first last : option nat).
Variable db : DB.

Definition open_lane {N T} `{FromKeyValue N T} `{Bincode T} `{EventFilter T}
    (wrap : N → NetworkRawEvents) (st : result (RawEventStore T)) :
    result (list (bytes * result NetworkRawEvents) * nat) :=
  st ← st;
  r ← get_filtered_iter st filter after before first last db;
  let '(it, cursor, size) := r in
  Ok (lane wrap (drain (skip_equal cursor it)), size).

Definition network_raw_events : result (Connection NetworkRawEvents) :=
  conn ← open_lane NConn (conn_store db);
  dns ← open_lane NDns (dns_store db);
  http ← open_lane NHttp (http_store db);
  rdp ← open_lane NRdp (rdp_store db);
  ntlm ← open_lane NNtlm (ntlm_store db);
  kerberos ← open_lane NKerberos (kerberos_store db);
  ssh ← open_lane NSsh (ssh_store db);
  dce_rpc ← open_lane NDceRpc (dce_rpc_store db);
  ftp ← open_lane NFtp (ftp_store db);
  mqtt ← open_lane NMqtt (mqtt_store db);
  ldap ← open_lane NLdap (ldap_store db);
  tls ← open_lane NTls (tls_store db);
  smb ← open_lane NSmb (smb_store db);
  nfs ← open_lane NNfs (nfs_store db);
  netflow5 ← open_lane NNetflowV5 (netflow5_store db);
  netflow9 ← open_lane NNetflowV9 (netflow9_store db);
  let is_forward := negb (bool_decide (is_Some before) || bool_decide (is_Some last)) in
  network_connection
    [conn.1; dns.1; http.1; rdp.1; ntlm.1; kerberos.1; ssh.1; dce_rpc.1; ftp.1; mqtt.1;
     ldap.1; tls.1; smb.1; nfs.1; netflow5.1; netflow9.1] conn.2 is_forward.
End lanes.
End query.
