(* ===== verification/MergeSpec.v ===== *)
(** * What the merged network query guarantees

    Theorems about [Merge]: a page is a prefix of one complete merge of the
    lanes; the merge is a permutation of the lanes' items and is ordered by
    time when each lane is; and what happens to events that share a key. *)

From Stdlib Require Import ZArith Lia.
From S2P Require Import Prelude Bytes Externals StorageKey NetAddr GigantoClient Events Filters.
From S2P Require Import Storage StorageSpec Demo Pagination Nodes Merge.

Section spec.
Context `{ChronoLaws}.
Notation Item := (bytes * result NetworkRawEvents)%type.
Notation Lane := (list Item).
Implicit Types (fwd : bool) (l : Lane) (ls : list Lane) (it : Item).

Definition item_ns it : Z := key_nanos it.1.

(** [a] comes no later than [b] in the direction of the query. *)
Definition no_later fwd (a b : Z) : Prop := if fwd then a ≤ b else b ≤ a.

(** Every key is longer than a time stamp. *)
Definition keys_ok ls : Prop := Forall (Forall (λ it, (TIMESTAMP_SIZE < length it.1)%nat)) ls.

Lemma key_nanos_i64 k : is_i64 (key_nanos k).
Proof. apply i64_from_be_bytes_range. Qed.

Definition lane_dt fwd l : DateTime :=
  match l with
  | it :: _ => timestamp_nanos (item_ns it)
  | [] => min_max_time fwd
  end.

Lemma lanes_ts_ok fwd ls : keys_ok ls → lanes_ts fwd ls = Ok (lane_dt fwd <$> ls).
Proof.
  induction 1 as [|l ls Hl Hls IH]; [done|]. cbn [lanes_ts]. rewrite IH.
  destruct l as [|[k n] l]; [done|]. cbn [lane_ts].
  apply Forall_cons in Hl as [Hk _]. cbn in Hk. unfold get_timestamp_from_key.
  by rewrite (proj2 (Nat.ltb_lt _ _) Hk).
Qed.

Lemma dt_cmp_minmax fwd n : is_i64 n →
  dt_cmp (timestamp_nanos n) (min_max_time fwd) = if fwd then Lt else Gt.
Proof.
  intros Hn. destruct fwd; cbn; [by apply dt_cmp_max|].
  by rewrite dt_cmp_antisym, dt_cmp_min.
Qed.

Lemma dt_eqb_nanos a b : is_i64 a → is_i64 b →
  dt_eqb (timestamp_nanos a) (timestamp_nanos b) = (a =? b).
Proof.
  intros Ha Hb. unfold dt_eqb. rewrite dt_cmp_nanos by done.
  rewrite Z.eqb_compare. by destruct (a ?= b).
Qed.

Lemma dt_eqb_minmax fwd n : is_i64 n → dt_eqb (timestamp_nanos n) (min_max_time fwd) = false.
Proof. intros Hn. unfold dt_eqb. rewrite dt_cmp_minmax by done. by destruct fwd. Qed.

Definition pick fwd (a b : DateTime) : DateTime := (if fwd then dt_min else dt_max) a b.

Lemma pick_nanos fwd a b : is_i64 a → is_i64 b →
  ∃ m, pick fwd (timestamp_nanos a) (timestamp_nanos b) = timestamp_nanos m ∧
    (m = a ∨ m = b) ∧ no_later fwd m a ∧ no_later fwd m b.
Proof.
  intros Ha Hb. unfold pick, dt_min, dt_max, no_later. destruct fwd;
    rewrite dt_cmp_nanos by done; destruct (Z.compare_spec a b);
    (exists a; split_and!; [done|by left|lia..]) || (exists b; split_and!; [done|by right|lia..]).
Qed.

Lemma pick_minmax_r fwd a : is_i64 a →
  pick fwd (timestamp_nanos a) (min_max_time fwd) = timestamp_nanos a.
Proof.
  intros Ha. unfold pick, dt_min, dt_max. destruct fwd;
    [rewrite (dt_cmp_minmax true) by done|rewrite (dt_cmp_minmax false) by done]; done.
Qed.

Lemma pick_minmax_l fwd a : is_i64 a →
  pick fwd (min_max_time fwd) (timestamp_nanos a) = timestamp_nanos a.
Proof.
  intros Ha. unfold pick, dt_min, dt_max. destruct fwd; rewrite dt_cmp_antisym;
    [rewrite (dt_cmp_minmax true) by done|rewrite (dt_cmp_minmax false) by done]; done.
Qed.

(** The heads of the lanes. *)
Definition heads ls : list Item := omap head ls.

Lemma pick_minmax_both fwd : pick fwd (min_max_time fwd) (min_max_time fwd) = min_max_time fwd.
Proof.
  unfold pick, dt_min, dt_max.
  destruct fwd; by destruct (dt_cmp _ _).
Qed.

Lemma selected_nil fwd ls :
  heads ls = [] → foldr (pick fwd) (min_max_time fwd) (lane_dt fwd <$> ls) = min_max_time fwd.
Proof.
  induction ls as [|[|it l] ls IH]; intros Hh; [done| |done].
  rewrite fmap_cons. cbn [foldr lane_dt]. rewrite IH by done. apply pick_minmax_both.
Qed.

Lemma selected_pick fwd ls :
  selected fwd (lane_dt fwd <$> ls) =
  foldr (pick fwd) (min_max_time fwd) (lane_dt fwd <$> ls).
Proof. by destruct fwd. Qed.

Lemma no_later_trans fwd a b c : no_later fwd a b → no_later fwd b c → no_later fwd a c.
Proof. unfold no_later. destruct fwd; lia. Qed.

Lemma no_later_refl fwd a : no_later fwd a a.
Proof. unfold no_later. destruct fwd; lia. Qed.

Lemma selected_spec fwd ls :
  heads ls ≠ [] →
  ∃ m, selected fwd (lane_dt fwd <$> ls) = timestamp_nanos m ∧
    (∃ it, it ∈ heads ls ∧ item_ns it = m) ∧
    ∀ it, it ∈ heads ls → no_later fwd m (item_ns it).
Proof.
  rewrite selected_pick. induction ls as [|[|it l] ls IH]; [done| |];
    rewrite fmap_cons; cbn [foldr lane_dt].
  - change (heads ([] :: ls)) with (heads ls). intros Hh.
    destruct (IH Hh) as (m & Hm & (it & Hin & <-) & Hall).
    exists (item_ns it). rewrite Hm. split_and!; [|by eauto|done].
    apply pick_minmax_l, key_nanos_i64.
  - intros _. change (heads ((it :: l) :: ls)) with (it :: heads ls).
    destruct (decide (heads ls = [])) as [Hnil|Hne].
    + rewrite selected_nil by done. exists (item_ns it). rewrite Hnil. split_and!.
      * apply pick_minmax_r, key_nanos_i64.
      * exists it. split; [left|done].
      * intros it' ->%list_elem_of_singleton. apply no_later_refl.
    + destruct (IH Hne) as (m & Hm & (it' & Hin & <-) & Hall).
      destruct (pick_nanos fwd (item_ns it) (item_ns it')) as (m & Hp & Hor & Hm1 & Hm2);
        [apply key_nanos_i64..|].
      exists m. rewrite Hm. split_and!; [done| |].
      * destruct Hor as [-> | ->]; [exists it; split; [left|done]|].
        exists it'. split; [by right|done].
      * intros x [->|Hx]%elem_of_cons; [done|]. eauto using no_later_trans.
Qed.

Lemma take_selected_spec fwd m ls :
  is_i64 m → (∃ it, it ∈ heads ls ∧ item_ns it = m) →
  ∃ ls1 it l ls2, ls = ls1 ++ (it :: l) :: ls2 ∧ item_ns it = m ∧
    take_selected (timestamp_nanos m) (lane_dt fwd <$> ls) ls = (Some it, ls1 ++ l :: ls2).
Proof.
  intros Hm. induction ls as [|l ls IH]; intros (it & Hin & Hit);
    [by apply not_elem_of_nil in Hin|].
  destruct l as [|it' l]; cbn [fmap list_fmap take_selected lane_dt].
  - rewrite dt_eqb_minmax by done. destruct IH as (ls1 & x & l & ls2 & -> & Hx & Ht).
    { exists it. split; [exact Hin|done]. }
    exists ([] :: ls1), x, l, ls2. split_and!; [done..|].
    change (list_fmap _ _ (lane_dt fwd) ?y) with (lane_dt fwd <$> y). by rewrite Ht.
  - rewrite dt_eqb_nanos by (done || apply key_nanos_i64).
    destruct (Z.eqb_spec m (item_ns it')) as [E|Hne].
    + by exists [], it', l, ls.
    + destruct IH as (ls1 & x & l' & ls2 & -> & Hx & Ht).
      { exists it. split; [|done]. change (heads ((it' :: l) :: ls)) with (it' :: heads ls) in Hin.
        apply elem_of_cons in Hin as [->|Hin]; [done|done]. }
      exists ((it' :: l) :: ls1), x, l', ls2. split_and!; [done..|].
      change (list_fmap _ _ (lane_dt fwd) ?y) with (lane_dt fwd <$> y). by rewrite Ht.
Qed.

(** *** One round of the loop *)
Definition round fwd ls : option Item * list Lane :=
  take_selected (selected fwd (lane_dt fwd <$> ls)) (lane_dt fwd <$> ls) ls.

Lemma heads_nil_total ls : heads ls = [] ↔ total ls = 0%nat.
Proof.
  unfold total. induction ls as [|[|it l] ls IH]; [done| |done].
  change (heads ([] :: ls)) with (heads ls). rewrite IH. cbn. lia.
Qed.

Lemma all_empty_total ls : forallb is_empty ls = (total ls =? 0)%nat.
Proof.
  unfold total. induction ls as [|[|it l] ls IH]; [done| |done]. cbn. by rewrite IH.
Qed.

Lemma round_spec fwd ls :
  total ls ≠ 0%nat →
  ∃ ls1 it l ls2, ls = ls1 ++ (it :: l) :: ls2 ∧ round fwd ls = (Some it, ls1 ++ l :: ls2) ∧
    ∀ x, x ∈ heads ls → no_later fwd (item_ns it) (item_ns x).
Proof.
  intros Ht. destruct (selected_spec fwd ls) as (m & Hm & Hex & Hall).
  { by rewrite heads_nil_total. }
  assert (is_i64 m) as Hi by (destruct Hex as (it & _ & <-); apply key_nanos_i64).
  destruct (take_selected_spec fwd m ls Hi Hex) as (ls1 & it & l & ls2 & El & Hit & Htk).
  exists ls1, it, l, ls2. split_and!; [done|unfold round; by rewrite Hm|]. by rewrite Hit.
Qed.

Lemma round_empty fwd ls : total ls = 0%nat → round fwd ls = (None, ls).
Proof.
  intros Ht%heads_nil_total. unfold round. generalize (selected fwd (lane_dt fwd <$> ls)).
  intros sel. revert Ht. induction ls as [|[|it l] ls IH]; intros Ht; [done| |done].
  cbn. destruct (dt_eqb _ _); [done|]. by rewrite IH.
Qed.

(** *** The complete merge *)
Fixpoint merged (n : nat) fwd ls : list Item :=
  match n with
  | O => []
  | S n =>
      match round fwd ls with
      | (Some it, ls) => it :: merged n fwd ls
      | (None, _) => []
      end
  end.

(** All items of the lanes, in the order the pages present them. *)
Definition merge fwd ls : list Item := merged (total ls) fwd ls.

Lemma total_mid ls1 it l ls2 :
  total (ls1 ++ (it :: l) :: ls2) = S (total (ls1 ++ l :: ls2)).
Proof. unfold total. induction ls1 as [|l1 ls1 IH]; cbn in *; lia. Qed.

Lemma merge_step fwd ls :
  total ls ≠ 0%nat →
  ∃ ls1 it l ls2, ls = ls1 ++ (it :: l) :: ls2 ∧
    round fwd ls = (Some it, ls1 ++ l :: ls2) ∧
    merge fwd ls = it :: merge fwd (ls1 ++ l :: ls2) ∧
    ∀ x, x ∈ heads ls → no_later fwd (item_ns it) (item_ns x).
Proof.
  intros Ht. destruct (round_spec fwd ls Ht) as (ls1 & it & l & ls2 & El & Hr & Hmin).
  exists ls1, it, l, ls2. split_and!; [done..| |done].
  unfold merge. rewrite El at 1. rewrite total_mid. cbn [merged]. by rewrite Hr.
Qed.

Lemma merge_nil fwd ls : total ls = 0%nat → merge fwd ls = [].
Proof. intros Ht. unfold merge. by rewrite Ht. Qed.

Lemma total_concat ls : total ls = length (concat ls).
Proof. unfold total. induction ls as [|l ls IH]; [done|]. cbn. rewrite length_app. by rewrite IH. Qed.

(** Induction along the merge. *)
Lemma merge_ind fwd (P : list Lane → list Item → Prop) :
  (∀ ls, total ls = 0%nat → P ls []) →
  (∀ ls1 it l ls2, let ls := ls1 ++ (it :: l) :: ls2 in
    round fwd ls = (Some it, ls1 ++ l :: ls2) →
    (∀ x, x ∈ heads ls → no_later fwd (item_ns it) (item_ns x)) →
    P (ls1 ++ l :: ls2) (merge fwd (ls1 ++ l :: ls2)) →
    P ls (it :: merge fwd (ls1 ++ l :: ls2))) →
  ∀ ls, P ls (merge fwd ls).
Proof.
  intros H0' HS ls. remember (total ls) as n eqn:Hn.
  revert ls Hn. induction n as [|n IH]; intros ls Hn.
  - rewrite merge_nil by done. by apply H0'.
  - destruct (merge_step fwd ls) as (ls1 & it & l & ls2 & El & Hr & Hm & Hmin); [lia|].
    rewrite Hm. subst ls. apply HS; [done..|]. apply IH. rewrite total_mid in Hn. lia.
Qed.

Lemma merge_permutation fwd ls : merge fwd ls ≡ₚ concat ls.
Proof.
  revert ls. apply (merge_ind fwd (λ ls m, m ≡ₚ concat ls)).
  - intros ls Ht. rewrite total_concat in Ht. apply nil_length_inv in Ht. by rewrite Ht.
  - intros ls1 it l ls2 ls _ _ IH. rewrite IH. subst ls.
    rewrite !concat_app. cbn. by rewrite <- Permutation_middle.
Qed.

Lemma length_merge fwd ls : length (merge fwd ls) = total ls.
Proof. rewrite total_concat. by rewrite merge_permutation. Qed.

Definition lane_sorted fwd : Lane → Prop :=
  StronglySorted (λ a b, no_later fwd (item_ns a) (item_ns b)).

Lemma heads_concat fwd ls (z : Z) :
  Forall (lane_sorted fwd) ls → (∀ x, x ∈ heads ls → no_later fwd z (item_ns x)) →
  ∀ x, x ∈ concat ls → no_later fwd z (item_ns x).
Proof.
  induction 1 as [|l ls Hl Hls IH]; [by intros _ x Hx%not_elem_of_nil|].
  intros Hh x. cbn. rewrite elem_of_app. destruct l as [|it l].
  - intros [Hx%not_elem_of_nil|Hx]; [done|]. by apply IH.
  - change (heads ((it :: l) :: ls)) with (it :: heads ls) in Hh.
    assert (no_later fwd z (item_ns it)) as Hz by (apply Hh; left).
    intros [[->|Hx]%elem_of_cons|Hx]; [done| |].
    + apply StronglySorted_inv in Hl as [_ Hall].
      eapply Forall_forall in Hall; [|exact Hx]. by eapply no_later_trans.
    + apply IH; [|done]. intros y Hy. apply Hh. by right.
Qed.

Lemma merge_sorted fwd ls :
  Forall (lane_sorted fwd) ls → lane_sorted fwd (merge fwd ls).
Proof.
  revert ls. apply (merge_ind fwd (λ ls m, Forall (lane_sorted fwd) ls → lane_sorted fwd m)).
  - intros; constructor.
  - intros ls1 it l ls2 ls _ Hmin IH Hs.
    assert (Forall (lane_sorted fwd) (ls1 ++ l :: ls2)) as Hs'.
    { subst ls. rewrite !Forall_app, !Forall_cons in *. destruct Hs as (? & Hit & ?).
      split_and!; [done| |done]. by apply StronglySorted_inv in Hit as [? _]. }
    constructor; [by apply IH|]. apply Forall_forall. intros x.
    rewrite merge_permutation. intros Hx.
    apply (heads_concat fwd ls); [done..|]. subst ls.
    rewrite concat_app in *. cbn in *. rewrite elem_of_app in *. set_solver.
Qed.

(** *** A page of the merge *)
Section page.
Context `{Base64}.

Definition edge_of it : result (string * NetworkRawEvents) := pair (base64_encode it.1) <$> it.2.

(** The conversions of a page, the first error first. *)
Fixpoint edges_of (items : list Item) : result (list (string * NetworkRawEvents)) :=
  match items with
  | [] => Ok []
  | it :: items => e ← edge_of it; es ← edges_of items; Ok (e :: es)
  end.

(** How many items the loop takes: it checks the size after it took one. *)
Definition taken (size : nat) : nat := Nat.max 1 size.

Lemma keys_ok_mid ls1 it l ls2 :
  keys_ok (ls1 ++ (it :: l) :: ls2) → keys_ok (ls1 ++ l :: ls2).
Proof. unfold keys_ok. rewrite !Forall_app, !Forall_cons. naive_solver. Qed.

Lemma merge_loop_spec fwd size fuel ls acc :
  keys_ok ls → (total ls < fuel)%nat →
  merge_loop fuel size fwd acc ls =
    (es ← edges_of (take (taken (size - length acc)) (merge fwd ls));
     Ok (acc ++ es, (taken (size - length acc) <? total ls)%nat)).
Proof.
  revert ls acc.
  induction fuel as [|fuel IH]; intros ls acc Hk Hf; [lia|].
  cbn [merge_loop]. rewrite lanes_ts_ok by done. cbn [mbind result_bind].
  fold (round fwd ls). destruct (decide (total ls = 0%nat)) as [Ht|Ht].
  - rewrite round_empty, merge_nil, take_nil by done. cbn.
    rewrite all_empty_total, Ht, orb_true_r, app_nil_r. cbn. do 2 f_equal.
  - destruct (merge_step fwd ls Ht) as (ls1 & it & l & ls2 & El & Hr & Hm & _).
    rewrite Hr, Hm. subst ls. apply keys_ok_mid in Hk. rewrite total_mid in *.
    destruct it as [k [node|e]]; unfold taken; [|by destruct (size - length acc)%nat].
    cbn [mbind result_bind]. rewrite all_empty_total, length_app. cbn [length].
    destruct (Nat.leb_spec size (length acc + 1)) as [Hs|Hs]; cbn [orb].
    + replace (1 `max` (size - length acc))%nat with 1%nat by lia. cbn. do 2 f_equal.
      destruct (total _); done.
    + replace (1 `max` (size - length acc))%nat with
        (S (taken (size - length (acc ++ [(base64_encode k, node)]))))
        by (unfold taken; rewrite length_app; cbn; lia).
      cbn [take edges_of edge_of fmap result_fmap mbind result_bind fst snd].
      destruct (Nat.eqb_spec (total (ls1 ++ l :: ls2)) 0) as [Ez|Hnz].
      * rewrite merge_nil, take_nil by done. rewrite Ez. done.
      * rewrite IH by (done || lia).
        destruct (edges_of _) as [es|]; [|done]. cbn. by rewrite <- app_assoc.
Qed.

Definition network_page fwd (size : nat) (items : list Item) : result (Connection NetworkRawEvents) :=
  es ← edges_of (take (taken size) items);
  let more := (taken size <? length items)%nat in
  Ok (if fwd then mk_connection es false more else mk_connection (reverse es) more false).

Lemma network_connection_page fwd size ls :
  keys_ok ls → network_connection ls size fwd = network_page fwd size (merge fwd ls).
Proof.
  intros Hk. unfold network_connection, network_page. rewrite merge_loop_spec by (done || lia).
  cbn [length]. rewrite Nat.sub_0_r, length_merge.
  by destruct (edges_of _).
Qed.
End page.
End spec.

(** ** The filtered iterators *)
Section filtered.
Context {T : Type} `{Bincode T} `{EventFilter T} `{RawEventFilter F}.

(** What [FilteredIter] yields: it ends at the first error. *)
Fixpoint accepted (f : F) (items : list (result (bytes * T))) : list (bytes * T) :=
  match items with
  | Ok e :: items => if keeps f e.2 then e :: accepted f items else accepted f items
  | _ => []
  end.

Lemma accepted_key f l k x :
  (k, x) ∈ accepted f (decode (T := T) <$> l) → ∃ v, (k, v) ∈ l.
Proof.
  induction l as [|[k' v] l IH]; [by intros ?%not_elem_of_nil|].
  rewrite fmap_cons. unfold decode at 1. cbn [fst snd fmap result_fmap].
  destruct (bincode_deserialize v) as [y|]; cbn; [|by intros ?%not_elem_of_nil].
  intros Hin. assert ((k, x) = (k', y) ∨ (k, x) ∈ accepted f (decode <$> l)) as [[= -> _]|Hin'].
  { destruct (keeps f y); [by apply elem_of_cons in Hin|by right]. }
  - exists v. left.
  - destruct (IH Hin') as [v' ?]. exists v'. by right.
Qed.

(** A relation between the keys of the entries holds of the events' keys. *)
Lemma accepted_sorted f (R : relation bytes) l :
  StronglySorted (λ a b, R a.1 b.1) l →
  StronglySorted (λ a b, R a.1 b.1) (accepted f (decode (T := T) <$> l)).
Proof.
  induction 1 as [|[k v] l Hl IH Hall]; [constructor|].
  rewrite fmap_cons. unfold decode at 1. cbn [fst snd fmap result_fmap].
  destruct (bincode_deserialize v) as [y|]; cbn; [|constructor].
  destruct (keeps f y); [|done]. constructor; [done|].
  apply Forall_forall. intros [k' x'] Hin. apply accepted_key in Hin as [v' Hv'].
  rewrite Forall_forall in Hall. exact (Hall _ Hv').
Qed.
End filtered.

Section filtered_drain.
Context {T : Type} `{Bincode T} `{EventFilter T} `{Chrono}.

Lemma filtered_next_drain (f : NetworkFilter) n (i : BoundaryIter T) :
  (remaining i < n)%nat →
  accepted f (drain i) =
    match filtered_next f n i with
    | (Some e, i') => e :: accepted f (drain i')
    | (None, _) => []
    end.
Proof.
  revert i. induction n as [|n IH]; intros i Hn; [lia|].
  rewrite drain_unfold. cbn [filtered_next].
  destruct (next i) as [[[e|err]|] i'] eqn:E; cbn [accepted]; [|done..].
  apply next_remaining in E. destruct (keeps f e.2); [done|]. apply IH. lia.
Qed.

Lemma drain_filtered (f : NetworkFilter) (i : BoundaryIter T) :
  drain (mk_filtered_iter i f) = accepted f (drain i).
Proof.
  remember (remaining i) as n eqn:Hn. revert i Hn.
  induction (lt_wf n) as [n _ IH]; intros i ->.
  rewrite drain_unfold. cbn [next filtered_iterator].
  unfold FilteredIter_next. cbn [fi_inner fi_filter].
  rewrite (filtered_next_drain f (S (remaining i)) i) by lia.
  destruct (filtered_next f (S (remaining i)) i) as [[e|] i'] eqn:E; [|done].
  cbn. f_equal. eapply IH; [|done]. by eapply filtered_next_remaining.
Qed.

Lemma drain_skip_equal (cursor : option bytes) (it : FilteredIter T) :
  drain (skip_equal cursor it) =
    match cursor, drain it with
    | Some c, (k, x) :: l => if decide (k = c) then l else (k, x) :: l
    | _, l => l
    end.
Proof.
  destruct cursor as [c|]; [|apply drain_peekable]. unfold skip_equal.
  pose proof (peek_drain it) as Hp. pose proof (drain_peek_next it) as Hn.
  pose proof (drain_peek it) as Hd. destruct (peek (peekable it)) as [o p].
  cbn [fst snd] in *. subst o. destruct (drain it) as [|[k x] l]; cbn [head]; [done|].
  case_decide; [|done]. by destruct Hn as [Hn|Hn].
Qed.
End filtered_drain.

(** ** The network query *)
Definition NETWORK_CFS : list string := [
  "conn"; "dns"; "http"; "rdp"; "ntlm"; "kerberos"; "ssh"; "dce rpc"; "ftp"; "mqtt"; "ldap";
  "tls"; "smb"; "nfs"; "netflow5"; "netflow9"].

(** The four requests for a page. *)
Inductive Page :=
| First (first : option nat)
| Last (last : nat)
| After (cursor : bytes) (first : option nat)
| Before (cursor : bytes) (last : option nat).

Definition page_forward (p : Page) : bool :=
  match p with First _ | After _ _ => true | _ => false end.
Definition page_limit (p : Page) : nat :=
  match p with
  | First n | After _ n | Before _ n => page_size n
  | Last n => page_size (Some n)
  end.
Definition page_cursor (p : Page) : option bytes :=
  match p with After c _ | Before c _ => Some c | _ => None end.

Section query.
Context `{RocksDBSpec} `{ChronoLaws} `{Base64Laws} `{Client} `{Codecs}.
Variable filter : NetworkFilter.

Definition range_lower : bytes :=
  lower_key (builder |> start_key (get_start_key filter)) (get_range_end_key filter).1.
Definition range_upper : bytes :=
  upper_key (builder |> start_key (get_start_key filter)) (get_range_end_key filter).2.
Definition range_upper_closed : bytes :=
  upper_closed_key (builder |> start_key (get_start_key filter)) (get_range_end_key filter).2.

Definition page_valid (p : Page) : Prop :=
  match p with
  | After c _ => bytes_cmp c range_lower ≠ Lt
  | Before c _ => bytes_cmp c range_upper_closed ≠ Gt
  | _ => True
  end.
#[export] Instance page_valid_dec p : Decision (page_valid p).
Proof. unfold page_valid. destruct p; apply _. Defined.

Definition page_query (p : Page) : DB → result (Connection NetworkRawEvents) :=
  match p with
  | First n => network_raw_events filter None None n None
  | Last n => network_raw_events filter None None None (Some n)
  | After c n => network_raw_events filter (Some (base64_encode c)) None n None
  | Before c n => network_raw_events filter None (Some (base64_encode c)) None n
  end.

(** The stored entries of a page's range, in the order they are read. *)
Definition page_entries (p : Page) (m : gmap bytes bytes) : list (bytes * bytes) :=
  match p with
  | First _ => entries_between m range_lower range_upper
  | Last _ => reverse (entries_between m range_lower range_upper)
  | After c _ => entries_between m c range_upper
  | Before c _ => reverse (entries_between m range_lower c)
  end.

(** The events one store contributes: those that pass the filter, up to the
    first that does not decode, without the one at the cursor. *)
Definition not_cursor {T} (p : Page) (e : bytes * T) : Prop := Some e.1 ≠ page_cursor p.
#[export] Instance not_cursor_dec {T} p (e : bytes * T) : Decision (not_cursor p e).
Proof. unfold not_cursor. apply _. Defined.

Definition store_events {T} `{Bincode T} `{EventFilter T} (p : Page) (m : gmap bytes bytes) :
    list (bytes * T) :=
  base.filter (not_cursor p) (accepted filter (decode (T := T) <$> page_entries p m)).

Variable db : DB.

Notation events p cf := (store_events p (cf_view db cf)).

Definition network_lanes (p : Page) : list (list (bytes * result NetworkRawEvents)) := [
  lane NConn (events p "conn"); lane NDns (events p "dns"); lane NHttp (events p "http");
  lane NRdp (events p "rdp"); lane NNtlm (events p "ntlm");
  lane NKerberos (events p "kerberos"); lane NSsh (events p "ssh");
  lane NDceRpc (events p "dce rpc"); lane NFtp (events p "ftp"); lane NMqtt (events p "mqtt");
  lane NLdap (events p "ldap"); lane NTls (events p "tls"); lane NSmb (events p "smb");
  lane NNfs (events p "nfs"); lane NNetflowV5 (events p "netflow5");
  lane NNetflowV9 (events p "netflow9")].

(** The order in which a page reads keys. *)
Definition page_lt (p : Page) (a b : bytes) : Prop :=
  if page_forward p then bytes_lt a b else bytes_lt b a.

Lemma page_lt_irrefl p a : ¬ page_lt p a a.
Proof. unfold page_lt. destruct (page_forward p); apply bytes_lt_irrefl. Qed.

Lemma page_lt_trans p a b c : page_lt p a b → page_lt p b c → page_lt p a c.
Proof. unfold page_lt. destruct (page_forward p); eauto using bytes_lt_trans. Qed.

Lemma page_entries_sorted p m :
  StronglySorted (λ a b, page_lt p a.1 b.1) (page_entries p m).
Proof.
  destruct p; cbn; try apply entries_between_sorted;
    apply (StronglySorted_flip_reverse key_lt), entries_between_sorted.
Qed.

Lemma page_entries_from_cursor p m c kv :
  page_cursor p = Some c → kv ∈ page_entries p m → c = kv.1 ∨ page_lt p c kv.1.
Proof.
  destruct kv as [k v]. unfold page_lt. destruct p; cbn; try done; intros [= ->];
    rewrite ?elem_of_reverse, elem_of_entries_between; intros [[Hl Hu] _].
  - apply bytes_le_lteq in Hl as [?| ->]; auto.
  - apply bytes_le_lteq in Hu as [?| ->]; auto.
Qed.

Lemma store_events_eq {T} `{Bincode T} `{EventFilter T} p m :
  match page_cursor p, accepted filter (decode (T := T) <$> page_entries p m) with
  | Some c, (k, x) :: l => if decide (k = c) then l else (k, x) :: l
  | _, l => l
  end = store_events p m.
Proof.
  unfold store_events.
  pose proof (accepted_sorted filter (page_lt p) _ (page_entries_sorted p m)) as Hs.
  assert (∀ c e, page_cursor p = Some c →
    e ∈ accepted filter (decode (T := T) <$> page_entries p m) → c = e.1 ∨ page_lt p c e.1) as Hc.
  { intros c [k x] Hc Hin. apply accepted_key in Hin as [v Hv].
    exact (page_entries_from_cursor p m c (k, v) Hc Hv). }
  revert Hs Hc. generalize (accepted filter (decode (T := T) <$> page_entries p m)) as l.
  intros l Hs Hc. destruct (page_cursor p) as [c|] eqn:Ec.
  2: { rewrite filter_true; [done|]. apply Forall_forall. intros e _. unfold not_cursor.
       by rewrite Ec. }
  destruct l as [|[k x] l]; [done|]. apply StronglySorted_inv in Hs as [Hs Hall].
  rewrite Forall_forall in Hall. case_decide as Hk.
  - subst k. rewrite filter_cons_False by (unfold not_cursor; rewrite Ec; naive_solver).
    rewrite filter_true; [done|]. apply Forall_forall. intros e He. unfold not_cursor.
    rewrite Ec. intros [= E]. specialize (Hall e He). cbn in Hall. rewrite E in Hall.
    by apply page_lt_irrefl in Hall.
  - rewrite filter_true; [done|]. apply Forall_forall. intros e He. unfold not_cursor.
    rewrite Ec. intros [= E].
    destruct (Hc c (k, x)) as [->|Hlt]; [done|left|done|]. cbn in Hlt.
    apply elem_of_cons in He as [-> |He]; [done|]. specialize (Hall e He). cbn in Hall.
    rewrite E in Hall. destruct (page_lt_irrefl p c). by eapply page_lt_trans.
Qed.

(** *** Opening the stores *)
Definition page_open {N T} `{FromKeyValue N T} `{Bincode T} `{EventFilter T} (p : Page)
    (wrap : N → NetworkRawEvents) (st : result (RawEventStore T)) :=
  match p with
  | First n => open_lane filter None None n None db wrap st
  | Last n => open_lane filter None None None (Some n) db wrap st
  | After c n => open_lane filter (Some (base64_encode c)) None n None db wrap st
  | Before c n => open_lane filter None (Some (base64_encode c)) None n db wrap st
  end.

Lemma open_lane_page {N T} `{FromKeyValue N T} `{Bincode T} `{EventFilter T} p
    (wrap : N → NetworkRawEvents) (st : RawEventStore T) :
  io_ok db → cf_handle db (store_cf st) = true → page_valid p →
  page_open p wrap (Ok st) = Ok (lane wrap (events p (store_cf st)), page_limit p).
Proof.
  intros Hio Hcf Hv. destruct p; unfold page_open, open_lane, get_filtered_iter;
    cbn [mbind result_bind page_valid page_limit] in *;
    rewrite ?base64_roundtrip; cbn [mbind result_bind]; rewrite ?decide_False by done;
    cbn [mbind result_bind]; rewrite drain_skip_equal, drain_filtered, drain_boundary_iter by done;
    rewrite <- store_events_eq; done.
Qed.

Lemma open_lane_opened {N T} `{FromKeyValue N T} `{Bincode T} `{EventFilter T} p
    (wrap : N → NetworkRawEvents) cf msg :
  healthy db → cf ∈ RAW_DATA_COLUMN_FAMILY_NAMES → page_valid p →
  page_open p wrap (raw_event_store T cf msg db) = Ok (lane wrap (events p cf), page_limit p).
Proof.
  intros [Hio Hop] Hcf Hv. unfold raw_event_store.
  assert (cf_handle db cf = true) as Hh by (apply Hop, elem_of_app; by left).
  rewrite Hh. by apply open_lane_page.
Qed.

Definition page_raw_events (p : Page) : result (Connection NetworkRawEvents) :=
  conn ← page_open p NConn (conn_store db);
  dns ← page_open p NDns (dns_store db);
  http ← page_open p NHttp (http_store db);
  rdp ← page_open p NRdp (rdp_store db);
  ntlm ← page_open p NNtlm (ntlm_store db);
  kerberos ← page_open p NKerberos (kerberos_store db);
  ssh ← page_open p NSsh (ssh_store db);
  dce_rpc ← page_open p NDceRpc (dce_rpc_store db);
  ftp ← page_open p NFtp (ftp_store db);
  mqtt ← page_open p NMqtt (mqtt_store db);
  ldap ← page_open p NLdap (ldap_store db);
  tls ← page_open p NTls (tls_store db);
  smb ← page_open p NSmb (smb_store db);
  nfs ← page_open p NNfs (nfs_store db);
  netflow5 ← page_open p NNetflowV5 (netflow5_store db);
  netflow9 ← page_open p NNetflowV9 (netflow9_store db);
  network_connection
    [conn.1; dns.1; http.1; rdp.1; ntlm.1; kerberos.1; ssh.1; dce_rpc.1; ftp.1; mqtt.1;
     ldap.1; tls.1; smb.1; nfs.1; netflow5.1; netflow9.1] conn.2 (page_forward p).

Lemma page_query_open p : page_query p db = page_raw_events p.
Proof. destruct p; reflexivity. Qed.

Lemma page_query_lanes p :
  healthy db → page_valid p →
  page_query p db = network_connection (network_lanes p) (page_limit p) (page_forward p).
Proof.
  intros Hh Hv. rewrite page_query_open. unfold page_raw_events.
  unfold conn_store, dns_store, http_store, rdp_store, ntlm_store, kerberos_store, ssh_store,
    dce_rpc_store, ftp_store, mqtt_store, ldap_store, tls_store, smb_store, nfs_store,
    netflow5_store, netflow9_store.
  repeat (rewrite open_lane_opened by
    (done || (apply (bool_decide_eq_true_1 _); vm_compute; reflexivity));
    cbn [mbind result_bind fst snd]).
  reflexivity.
Qed.

(** Network events are stored under their source and time stamp. *)
Definition network_keys_wf : Prop :=
  ∀ cf k v, cf ∈ NETWORK_CFS → cf_view db cf !! k = Some v →
    ∃ s ts, no_nul s ∧ 0 ≤ ts ≤ i64_max ∧ k = event_key s None ts.

Lemma event_key_length s m ts : (TIMESTAMP_SIZE < length (event_key s m ts))%nat.
Proof.
  rewrite event_key_eq, length_app, length_i64_to_be_bytes.
  pose proof (key_prefix_nonempty s m). destruct (key_prefix s m); [done|].
  unfold TIMESTAMP_SIZE. cbn. lia.
Qed.

Lemma page_entries_lookup p m k v : (k, v) ∈ page_entries p m → m !! k = Some v.
Proof.
  destruct p; cbn; rewrite ?elem_of_reverse; intros Hin;
    by apply elem_of_entries_between in Hin as [_ ?].
Qed.

Lemma store_events_lookup {T} `{Bincode T} `{EventFilter T} p m k (x : T) :
  (k, x) ∈ store_events p m → ∃ v, m !! k = Some v ∧ (k, v) ∈ page_entries p m.
Proof.
  unfold store_events. rewrite list_elem_of_filter. intros [_ Hin].
  apply accepted_key in Hin as [v Hv]. exists v. split; [|done]. by eapply page_entries_lookup.
Qed.

Lemma lane_keys {N T} `{FromKeyValue N T} (wrap : N → NetworkRawEvents) (P : bytes → Prop) l :
  (∀ e, e ∈ l → P e.1) → Forall (λ it, P it.1) (lane wrap l).
Proof.
  intros HP. unfold lane. rewrite Forall_fmap. apply Forall_forall. intros [k x] Hin.
  exact (HP _ Hin).
Qed.

Lemma network_lanes_forall p (P : list (bytes * result NetworkRawEvents) → Prop) :
  (∀ N T `{FromKeyValue N T} `{Bincode T} `{EventFilter T} (wrap : N → NetworkRawEvents) cf,
    cf ∈ NETWORK_CFS → P (lane wrap (events p cf))) → Forall P (network_lanes p).
Proof.
  intros HP. unfold network_lanes.
  repeat (apply Forall_cons_2; [apply HP, (bool_decide_unpack _); exact I|]). done.
Qed.

Lemma network_lanes_keys p : network_keys_wf → keys_ok (network_lanes p).
Proof.
  intros Hwf. apply network_lanes_forall. intros N T HF HB HE wrap cf Hcf.
  apply (lane_keys wrap (λ k, (TIMESTAMP_SIZE < length k)%nat)). intros [k x] Hin. apply store_events_lookup in Hin as (v & Hv & _).
  destruct (Hwf cf k v Hcf Hv) as (s & ts & _ & _ & ->). apply event_key_length.
Qed.

(** Two keys of the range that are in byte order are in time order. *)
Lemma range_keys_ordered s1 s2 t1 t2 :
  no_nul (get_start_key filter) → no_nul s1 → no_nul s2 →
  0 ≤ t1 ≤ i64_max → 0 ≤ t2 ≤ i64_max →
  between range_lower range_upper (event_key s1 None t1) →
  between range_lower range_upper (event_key s2 None t2) →
  bytes_lt (event_key s1 None t1) (event_key s2 None t2) →
  key_nanos (event_key s1 None t1) < key_nanos (event_key s2 None t2).
Proof.
  intros Hs Hs1 Hs2 Ht1 Ht2 Hb1 Hb2.
  apply (between_same_prefix _ None) in Hb1 as [-> _]; [|done..].
  apply (between_same_prefix _ None) in Hb2 as [-> _]; [|done..].
  by apply event_key_order.
Qed.

Lemma lane_sorted_fmap {N T} `{FromKeyValue N T} fwd (wrap : N → NetworkRawEvents)
    (l : list (bytes * T)) :
  StronglySorted (λ a b, no_later fwd (key_nanos a.1) (key_nanos b.1)) l →
  lane_sorted fwd (lane wrap l).
Proof.
  induction 1 as [|[k x] l Hl IH Hx]; [constructor|]. constructor; [exact IH|].
  rewrite Forall_forall in Hx.
  apply (lane_keys wrap (λ k', no_later fwd (key_nanos k) (key_nanos k'))).
  intros e Hin. exact (Hx _ Hin).
Qed.

Definition cursor_in_range (p : Page) : Prop :=
  match page_cursor p with Some c => between range_lower range_upper c | None => True end.

Lemma page_entries_between p m k v :
  cursor_in_range p → (k, v) ∈ page_entries p m → between range_lower range_upper k.
Proof.
  unfold cursor_in_range. destruct p; cbn; rewrite ?elem_of_reverse; intros Hc Hin;
    apply elem_of_entries_between in Hin as [Hb _]; [done..| |].
  - split; [|by apply Hb]. transitivity cursor; [apply Hc|apply Hb].
  - split; [by apply Hb|]. transitivity cursor; [apply Hb|apply Hc].
Qed.

Lemma store_events_sorted {T} `{Bincode T} `{EventFilter T} p cf :
  network_keys_wf → no_nul (get_start_key filter) → cursor_in_range p → cf ∈ NETWORK_CFS →
  StronglySorted (λ a b : bytes * T, no_later (page_forward p) (key_nanos a.1) (key_nanos b.1))
    (events p cf).
Proof.
  intros Hwf Hns Hc Hcf. unfold store_events.
  apply sorted_filter, (accepted_sorted filter
    (λ a b, no_later (page_forward p) (key_nanos a) (key_nanos b))).
  eapply StronglySorted_impl_elem; [|apply (page_entries_sorted p)].
  intros [k1 v1] [k2 v2] H1' H2' Hlt. cbn [fst] in *.
  pose proof (page_entries_between _ _ _ _ Hc H1') as Hb1.
  pose proof (page_entries_between _ _ _ _ Hc H2') as Hb2.
  apply page_entries_lookup in H1', H2'.
  destruct (Hwf cf k1 v1 Hcf H1') as (s1 & t1 & ? & ? & ->).
  destruct (Hwf cf k2 v2 Hcf H2') as (s2 & t2 & ? & ? & ->).
  unfold no_later. unfold page_lt in Hlt.
  destruct (page_forward p); apply range_keys_ordered in Hlt; done || lia.
Qed.
End query.

(** ** Properties *)
Section properties.
Context `{RocksDBSpec} `{ChronoLaws} `{Base64Laws} `{Client} `{Codecs}.

(** C26: a page of the merged network query, whichever of the four kinds, is
    the first [limit] items of the one complete merge of the sixteen stores
    (reversed when read backwards), with the first failed conversion on the
    page as its error, and says that more follows exactly when items are
    left. *)
Theorem network_page_exact filter p db :
  healthy db → network_keys_wf db → page_valid filter p →
  page_query filter p db =
    network_page (page_forward p) (page_limit p)
      (merge (page_forward p) (network_lanes filter db p)).
Proof.
  intros Hh Hwf Hv. rewrite page_query_lanes by done.
  by apply network_connection_page, network_lanes_keys.
Qed.

(** the merge loses and invents nothing and is in time order: it is a
    permutation of the events the stores contribute, oldest first when read
    forwards and newest first when read backwards. *)
Theorem network_merge_ordered filter p db :
  network_keys_wf db → no_nul (get_start_key filter) → cursor_in_range filter p →
  merge (page_forward p) (network_lanes filter db p) ≡ₚ concat (network_lanes filter db p) ∧
  StronglySorted (λ a b, no_later (page_forward p) (key_nanos a.1) (key_nanos b.1))
    (merge (page_forward p) (network_lanes filter db p)).
Proof.
  intros Hwf Hns Hc. split; [apply merge_permutation|]. apply merge_sorted.
  apply network_lanes_forall. intros N T HF HB HE wrap cf Hcf.
  apply lane_sorted_fmap. by apply store_events_sorted.
Qed.

(** the cursor skips its key in every store: an event that another store
    keeps under the key of the cursor is on no page after it, returned before
    or not. *)
Theorem cursor_key_skipped_everywhere filter p db c :
  page_cursor p = Some c →
  ∀ it, it ∈ merge (page_forward p) (network_lanes filter db p) → it.1 ≠ c.
Proof.
  intros Hc it. rewrite merge_permutation. revert it.
  apply Forall_forall, Forall_concat, network_lanes_forall. intros N T HF HB HE wrap cf _.
  apply (lane_keys wrap (λ k, k ≠ c)). intros [k x].
  unfold store_events. rewrite list_elem_of_filter. unfold not_cursor. rewrite Hc. naive_solver.
Qed.

(** A page of size zero is a page of size one: the loop looks at the size
    only after it took a record. *)
Theorem page_size_zero_is_one ls fwd :
  keys_ok ls → network_connection ls 0 fwd = network_connection ls 1 fwd.
Proof. intros Hk. by rewrite !network_connection_page. Qed.
End properties.

(** ** Witnesses: connections and DNS queries of one source *)
#[local] Instance undecoded (T : Type) : Bincode T | 100 := {|
  bincode_serialize _ := Err "not encoded"; bincode_deserialize _ := Err "not decoded" |}.
Definition demo_conn : Conn :=
  Conn.mk (V4 1) 1 (V4 2) 2 6 0 "service" 10 20 1 2.
Definition demo_dns : Dns :=
  Dns.mk (V4 1) 1 (V4 2) 2 17 0 "example.org" [] 1 0 1 1 0 false false true true [].
#[local] Instance network_codecs : Codecs.
Proof.
  constructor;
    first [ exact {| bincode_serialize _ := Err "not encoded";
                     bincode_deserialize _ := Ok demo_conn |}
          | exact {| bincode_serialize _ := Err "not encoded";
                     bincode_deserialize _ := Ok demo_dns |}
          | apply undecoded ].
Defined.

Definition demo_key (ts : Z) : bytes := event_key "src1" None ts.
Definition network_db : @DB mem_rocksdb :=
  <["conn" := list_to_map [(demo_key 100, [Byte.x01]); (demo_key 300, [Byte.x01])]]>
  (<["dns" := list_to_map [(demo_key 100, [Byte.x02]); (demo_key 200, [Byte.x02])]]> empty_db)
    : Mem.db.
Definition network_filter : NetworkFilter.t :=
  NetworkFilter.mk nanos_chrono None "src1" None None None None None None.

Lemma network_healthy : healthy network_db.
Proof.
  split; [done|]. intros name Hn. apply bool_decide_eq_true_2. unfold network_db.
  rewrite !lookup_insert_is_Some'. right. right. by apply empty_db_opened.
Qed.

Definition key_wf (k : bytes) : bool :=
  bool_decide (k ∈ demo_key <$> [100; 200; 300]).

Lemma network_db_wf : network_keys_wf network_db.
Proof.
  intros cf k v Hcf Hk.
  assert (Forall (λ cf, map_Forall (λ k (_ : bytes), key_wf k = true) (cf_view network_db cf))
    NETWORK_CFS) as Hall by (refine (bool_decide_unpack _ _); vm_compute; exact I).
  rewrite Forall_forall in Hall. specialize (Hall cf Hcf k v Hk).
  apply bool_decide_eq_true_1, list_elem_of_fmap in Hall as (ts & -> & Hts).
  exists "src1", ts. split; [concrete|]. split; [|done].
  assert (Forall (λ ts, 0 ≤ ts ≤ i64_max) [100; 200; 300]) as Hr by (repeat constructor; done).
  rewrite Forall_forall in Hr. by apply Hr.
Qed.

(** What a client sees of a page. *)
Definition seen (r : result (Connection NetworkRawEvents)) : result (list string * bool) :=
  c ← r; Ok ((edges _ c).*1, has_next_page _ c).

Lemma network_page_exact_witness :
  seen (page_query network_filter (First (Some 3%nat)) network_db) =
    Ok (base64_encode <$> [demo_key 100; demo_key 100; demo_key 200], true).
Proof.
  rewrite (network_page_exact network_filter (First (Some 3%nat)) network_db);
    [vm_compute; reflexivity|apply network_healthy|apply network_db_wf|exact I].
Defined.

Lemma network_merge_ordered_witness :
  StronglySorted (λ a b, no_later false (key_nanos a.1) (key_nanos b.1))
    (merge false (network_lanes network_filter network_db (Last 3))).
Proof. apply (network_merge_ordered network_filter (Last 3)); [apply network_db_wf|concrete|exact I]. Defined.

(** The DNS event that shares its key with the connection event of the first
    page is on neither page. *)
Lemma cursor_key_skipped_everywhere_witness :
  seen (page_query network_filter (First (Some 1%nat)) network_db) =
    Ok ([base64_encode (demo_key 100)], true) ∧
  seen (page_query network_filter (After (demo_key 100) (Some 5%nat)) network_db) =
    Ok (base64_encode <$> [demo_key 200; demo_key 300], false) ∧
  Forall (λ it, it.1 ≠ demo_key 100)
    (merge true (network_lanes network_filter network_db (After (demo_key 100) (Some 5%nat)))).
Proof.
  split; [vm_compute; reflexivity|]. split; [vm_compute; reflexivity|].
  apply Forall_forall.
  exact (cursor_key_skipped_everywhere network_filter (After (demo_key 100) (Some 5%nat))
    network_db (demo_key 100) eq_refl).
Defined.

Lemma page_size_zero_is_one_witness :
  seen (network_connection [lane NConn [(demo_key 7, demo_conn); (demo_key 8, demo_conn)]] 0 true)
    = Ok ([base64_encode (demo_key 7)], true).
Proof.
  rewrite page_size_zero_is_one; [vm_compute; reflexivity|]. repeat constructor; concrete.
Defined.
