(* ===== verification/MergeWalk.v ===== *)
(** * Following the cursors of the merged network query (graphql/network.rs)

    A client that asks for page after page, each after the last cursor of the
    page before, sees the whole merge of the sixteen stores, provided that no two
    stores have an event under the same key and that every event can be read:
    the cursor is skipped in every store, and a store ends at the first event
    that does not decode. *)

From Stdlib Require Import ZArith Lia.
From S2P Require Import Prelude Bytes Externals StorageKey NetAddr GigantoClient Events Filters.
From S2P Require Import Storage StorageSpec Demo Pagination PaginationSpec Nodes Merge MergeSpec.

(** ** The client *)
Section walk.
Context `{RocksDB} `{Chrono} `{Base64} `{Client} `{Codecs}.

Fixpoint network_walk (fuel size : nat) (filter : NetworkFilter) (after : option string) (db : DB) :
    result (list (string * NetworkRawEvents)) :=
  match fuel with
  | O => Err "out of fuel"
  | S fuel =>
      page ← network_raw_events filter after None (Some size) None db;
      match last (edges _ page), has_next_page _ page with
      | Some (cursor, _), true =>
          rest ← network_walk fuel size filter (Some cursor) db; Ok (edges _ page ++ rest)
      | _, _ => Ok (edges _ page)
      end
  end.
End walk.

(** ** What a store contributes after a cursor *)
Section store.
Context {T : Type} `{Bincode T} `{EventFilter T} `{Chrono}.

Definition decodes (v : bytes) : Prop := is_ok (bincode_deserialize (T := T) v) = true.

Lemma accepted_filter (f : NetworkFilter) (P : bytes → Prop) `{∀ k, Decision (P k)} l :
  Forall (λ kv, decodes kv.2) l →
  accepted f (decode (T := T) <$> filter (λ kv, P kv.1) l) =
    filter (λ e, P e.1) (accepted f (decode <$> l)).
Proof.
  induction 1 as [|[k v] l Hd Hl IH]; [done|]. unfold decodes in Hd. cbn in Hd.
  assert (∀ l, accepted f (decode (T := T) <$> (k, v) :: l) =
    match bincode_deserialize v with
    | Ok x => if keeps f x then (k, x) :: accepted f (decode <$> l) else accepted f (decode <$> l)
    | Err _ => []
    end) as Hcons.
  { intros l'. rewrite fmap_cons. unfold decode at 1. cbn. by destruct (bincode_deserialize v). }
  rewrite filter_cons. cbn [fst]. rewrite (Hcons l).
  destruct (bincode_deserialize v) as [x|] eqn:Hx; [|done]. case_decide as HP.
  - rewrite Hcons, IH. destruct (keeps f x); [|done]. rewrite filter_cons. cbn [fst].
    by rewrite decide_True.
  - rewrite IH. destruct (keeps f x); [|done]. rewrite filter_cons. cbn [fst]. by rewrite decide_False.
Qed.
End store.

Section walk_spec.
Context `{RocksDBSpec} `{ChronoLaws} `{Base64Laws} `{Client} `{Codecs}.
Variables (filter : NetworkFilter) (db : DB).

Notation lanes := (network_lanes filter db).
Notation events p cf := (store_events filter p (cf_view db cf)).

(** Every event of the sixteen stores can be read. *)
Definition store_decodes (T : Type) `{Bincode T} (cf : string) : Prop :=
  map_Forall (λ _ v, decodes (T := T) v) (cf_view db cf).
Definition network_decodes : Prop :=
  store_decodes Conn "conn" ∧ store_decodes Dns "dns" ∧ store_decodes Http "http" ∧
  store_decodes Rdp "rdp" ∧ store_decodes Ntlm "ntlm" ∧ store_decodes Kerberos "kerberos" ∧
  store_decodes Ssh "ssh" ∧ store_decodes DceRpc "dce rpc" ∧ store_decodes Ftp "ftp" ∧
  store_decodes Mqtt "mqtt" ∧ store_decodes Ldap "ldap" ∧ store_decodes Tls "tls" ∧
  store_decodes Smb "smb" ∧ store_decodes Nfs "nfs" ∧ store_decodes Netflow5 "netflow5" ∧
  store_decodes Netflow9 "netflow9".

(** The complete merge *)
Definition network_merge : list (bytes * result NetworkRawEvents) := merge true (lanes (First None)).

Lemma store_events_after {T} `{Bincode T} `{EventFilter T} k n cf :
  store_decodes T cf → bytes_le (range_lower filter) k →
  (events (After k n) cf : list (bytes * T)) =
    base.filter (λ e, bytes_lt k e.1) (events (First None) cf).
Proof.
  intros Hd Hk. unfold store_events. cbn [page_entries].
  rewrite (filter_true (not_cursor (First None))) by (by apply Forall_forall).
  assert (entries_between (cf_view db cf) k (range_upper filter) =
    base.filter (λ kv, bytes_le k kv.1)
      (entries_between (cf_view db cf) (range_lower filter) (range_upper filter))) as ->.
  { unfold entries_between. rewrite list_filter_filter. apply list_filter_iff. intros [k' v]. cbn.
    unfold between. split; [intros [? ?]|intros (? & ? & ?); done].
    split_and!; [done| |done]. by transitivity k. }
  rewrite (accepted_filter filter (bytes_le k)).
  - rewrite list_filter_filter. apply list_filter_iff. intros [k' x]. unfold not_cursor. cbn.
    rewrite bytes_le_lteq. split; [|intros Hlt; split; [|by left]].
    + intros [Hne [?| ->]]; [done|congruence].
    + intros [= ->]. by apply bytes_lt_irrefl in Hlt.
  - apply Forall_forall. intros [k' v] [_ Hv]%elem_of_entries_between. exact (Hd _ _ Hv).
Qed.

Lemma lane_filter {N T} `{FromKeyValue N T} (wrap : N → NetworkRawEvents) (P : bytes → Prop)
    `{∀ k, Decision (P k)} (l : list (bytes * T)) :
  lane wrap (base.filter (λ e, P e.1) l) = base.filter (λ it, P it.1) (lane wrap l).
Proof.
  unfold lane. induction l as [|[k x] l IH]; [done|]. rewrite fmap_cons, !filter_cons. cbn [fst].
  case_decide; [|done]. by rewrite fmap_cons, IH.
Qed.

Lemma lanes_after k n :
  network_decodes → bytes_le (range_lower filter) k →
  lanes (After k n) = base.filter (λ it, bytes_lt k it.1) <$> lanes (First None).
Proof.
  intros Hd Hk. unfold network_lanes, network_decodes in *. destruct_and!.
  cbn [fmap list_fmap]. rewrite !store_events_after by done.
  by rewrite !(lane_filter _ (bytes_lt k)).
Qed.

(** *** The merge after a cursor *)
Definition item_lt (a b : bytes * result NetworkRawEvents) : Prop := bytes_lt a.1 b.1.

#[local] Instance item_lt_antisymm : AntiSymm (=) item_lt.
Proof. intros a b Hab Hba. destruct (bytes_lt_irrefl a.1). by eapply bytes_lt_trans. Qed.

Hypotheses (Hh : healthy db) (Hwf : network_keys_wf db) (Hns : no_nul (get_start_key filter)).
Hypotheses (Hdec : network_decodes) (Hnd : NoDup network_merge.*1).

Lemma merge_key p it :
  cursor_in_range filter p → it ∈ merge true (lanes p) →
  between (range_lower filter) (range_upper filter) it.1 ∧
  ∃ ts, 0 ≤ ts ≤ i64_max ∧ it.1 = event_key (get_start_key filter) None ts.
Proof.
  intros Hc. rewrite merge_permutation. revert it.
  apply Forall_forall, Forall_concat, network_lanes_forall. intros N T HF HB HE wrap cf Hcf.
  apply (lane_keys wrap (λ k, between (range_lower filter) (range_upper filter) k ∧
    ∃ ts, 0 ≤ ts ≤ i64_max ∧ k = event_key (get_start_key filter) None ts)).
  intros [k x] (v & Hv & Hin)%store_events_lookup. cbn.
  pose proof (page_entries_between filter _ _ _ _ Hc Hin) as Hb. split; [done|].
  destruct (Hwf cf k v Hcf Hv) as (s & ts & Hs & Hts & ->). exists ts. split; [done|].
  by apply (between_same_prefix _ None) in Hb as [-> _].
Qed.

(** Without two events under one key the time order is the order of the keys. *)
Lemma merge_sorted_by_key p :
  page_forward p = true → cursor_in_range filter p → NoDup (merge true (lanes p)).*1 →
  StronglySorted item_lt (merge true (lanes p)).
Proof.
  intros Hf Hc Hkeys.
  assert (lane_sorted true (merge true (lanes p))) as Hs.
  { apply merge_sorted, network_lanes_forall. intros N T HF HB HE wrap cf Hcf.
    apply lane_sorted_fmap. rewrite <- Hf. by apply store_events_sorted. }
  assert (∀ it, it ∈ merge true (lanes p) →
    ∃ ts, 0 ≤ ts ≤ i64_max ∧ it.1 = event_key (get_start_key filter) None ts) as Hk
    by (intros it Hin; by apply (merge_key p it Hc Hin)).
  revert Hkeys Hs Hk. generalize (merge true (lanes p)). clear. intros l Hnd Hs Hk.
  induction Hs as [|a l Hs IH Hall]; [constructor|]. apply NoDup_cons in Hnd as [Hna Hnd].
  constructor; [apply IH; [done|]; intros it ?; apply Hk; by right|].
  apply Forall_forall. intros b Hb. rewrite Forall_forall in Hall. specialize (Hall b Hb).
  destruct (Hk a ltac:(left)) as (ta & Hta & Ea). destruct (Hk b ltac:(by right)) as (tb & Htb & Eb).
  unfold item_lt, no_later, item_ns in *. rewrite Ea, Eb in *.
  rewrite !event_key_eq, !key_nanos_app in Hall by (unfold is_i64, i64_min; lia).
  apply event_key_lt; [lia| |lia]. assert (ta ≠ tb); [|lia]. intros ->. destruct Hna.
  rewrite <- Eb. by apply list_elem_of_fmap_2.
Qed.

Lemma merge_after l1 k r l2 n :
  network_merge = l1 ++ (k, r) :: l2 →
  between (range_lower filter) (range_upper filter) k ∧ merge true (lanes (After k n)) = l2.
Proof.
  intros E. assert ((k, r) ∈ network_merge) as Hin by (rewrite E; apply elem_of_app; right; left).
  destruct (merge_key (First None) (k, r) I Hin) as [Hb _]. cbn in Hb. split; [done|].
  assert (StronglySorted item_lt network_merge) as Hs by (by apply merge_sorted_by_key).
  assert (base.filter (λ it, bytes_lt k it.1) network_merge = l2) as Hl2.
  { rewrite E in Hs |- *. rewrite filter_app, filter_cons. cbn [fst].
    rewrite decide_False by apply bytes_lt_irrefl. rewrite (proj2 (filter_nil_iff _ l1)).
    - apply filter_true. apply StronglySorted_app_1_r, StronglySorted_inv in Hs as [_ Hs]. exact Hs.
    - apply Forall_forall. intros a Ha Hlt.
      assert (item_lt a (k, r)) as Hak by (apply (StronglySorted_app_1_elem_of _ _ _ _ _ Hs); [done|left]).
      destruct (bytes_lt_irrefl k). by eapply bytes_lt_trans. }
  assert (merge true (lanes (After k n)) ≡ₚ l2) as Hperm.
  { rewrite merge_permutation, lanes_after by (done || apply Hb). rewrite <- Hl2.
    unfold network_merge. rewrite merge_permutation.
    generalize (lanes (First None)). intros ls. induction ls as [|l ls IH]; [done|].
    cbn. by rewrite filter_app, IH. }
  apply (StronglySorted_unique item_lt); [|rewrite E in Hs; by apply StronglySorted_app_1_r, StronglySorted_inv in Hs as [? _]|done].
  apply merge_sorted_by_key; [done|done|]. rewrite Hperm. rewrite E, fmap_app in Hnd.
  by apply NoDup_app in Hnd as (_ & _ & [_ ?]%NoDup_cons).
Qed.

(** *** The pages *)
Hypothesis (Hok : Forall (λ it, is_ok it.2 = true) network_merge).

Lemma edges_of_app (l1 l2 : list (bytes * result NetworkRawEvents)) :
  edges_of (l1 ++ l2) = (es1 ← edges_of l1; es2 ← edges_of l2; Ok (es1 ++ es2)).
Proof.
  induction l1 as [|it l1 IH]; [by cbn; destruct (edges_of l2)|]. cbn [app edges_of].
  destruct (edge_of it); [|done]. cbn. rewrite IH. destruct (edges_of l1); [|done]. cbn.
  by destruct (edges_of l2).
Qed.

Lemma edges_of_some (l : list (bytes * result NetworkRawEvents)) :
  Forall (λ it, is_ok it.2 = true) l → ∃ es, edges_of l = Ok es ∧ es.*1 = base64_encode <$> l.*1.
Proof.
  induction 1 as [|[k r] l Hr _ (es & Hes & Hk)]; [by exists []|]. cbn in Hr.
  destruct r as [node|]; [|done]. exists ((base64_encode k, node) :: es).
  split; [cbn; by rewrite Hes|]. cbn. by rewrite Hk.
Qed.

(** A walk whose next page is the first items of [items] sees all of them, if it
    does so from every later item. *)
Lemma network_walk_page fuel size after n items :
  (0 < n)%nat → Forall (λ it, is_ok it.2 = true) items →
  network_raw_events filter after None (Some size) None db =
    (es ← edges_of (take n items); Ok (mk_connection es false (n <? length items)%nat)) →
  (∀ l1 k r l2, items = l1 ++ (k, r) :: l2 →
    network_walk fuel size filter (Some (base64_encode k)) db = edges_of l2) →
  network_walk (S fuel) size filter after db = edges_of items.
Proof.
  intros Hn Hall Hpage Hnext. cbn [network_walk]. rewrite Hpage. clear Hpage.
  destruct (Nat.ltb_spec n (length items)) as [Hlt|Hge].
  - destruct (take_split_last n items) as (l1 & [k r] & Et & El); [lia|].
    rewrite Et. rewrite El in Hall. rewrite cons_middle, app_assoc in Hall. apply Forall_app in Hall as [Hall _].
    destruct (edges_of_some _ Hall) as (es & Hes & Hk). rewrite Hes. cbn [mbind result_bind edges has_next_page].
    rewrite fmap_app, fmap_app in Hk. cbn in Hk.
    destruct es as [|[cursor node] es _] using rev_ind; [by destruct (base64_encode <$> l1.*1)|].
    rewrite fmap_app in Hk. apply app_inj_tail in Hk as [_ Hk]. cbn in Hk. subst cursor.
    rewrite last_snoc, (Hnext l1 k r (drop n items) El).
    transitivity (edges_of ((l1 ++ [(k, r)]) ++ drop n items)); [by rewrite edges_of_app, Hes|].
    f_equal. rewrite <- app_assoc. exact (eq_sym El).
  - rewrite take_ge by lia. destruct (edges_of items) as [es|]; [|done].
    cbn. by destruct (last es) as [[? ?]|].
Qed.

Lemma network_query_page p :
  page_valid filter p → page_forward p = true →
  page_query filter p db = (es ← edges_of (take (taken (page_limit p)) (merge true (lanes p)));
    Ok (mk_connection es false (taken (page_limit p) <? length (merge true (lanes p)))%nat)).
Proof.
  intros Hv Hf. rewrite page_query_lanes, Hf by done.
  by rewrite network_connection_page by (by apply network_lanes_keys).
Qed.

Lemma taken_pos n : (0 < taken n)%nat.
Proof. unfold taken. lia. Qed.

Lemma network_walk_after size fuel l1 k r l2 :
  network_merge = l1 ++ (k, r) :: l2 → (length l2 < fuel)%nat →
  network_walk fuel size filter (Some (base64_encode k)) db = edges_of l2.
Proof.
  revert l1 k r l2. induction fuel as [|fuel IH]; intros l1 k r l2 E Hl; [lia|].
  destruct (merge_after l1 k r l2 (Some size) E) as [Hb Hm].
  pose proof (network_query_page (After k (Some size))) as Hq. rewrite Hm in Hq.
  eapply network_walk_page; [apply taken_pos| |apply Hq; [exact (proj2 (bytes_nlt _ _) (proj1 Hb))|done]|].
  - rewrite E in Hok. by apply Forall_app in Hok as [_ [_ ?]%Forall_cons].
  - intros l3 k' r' l4 E'. apply (IH (l1 ++ (k, r) :: l3) k' r').
    + by rewrite E, E', <- app_assoc.
    + rewrite E', length_app in Hl. cbn in Hl. lia.
Qed.

(** C27: A client that follows the after-cursors of the merged network query sees
    every event of the sixteen stores that passes the filter exactly once and in
    the order of the merge, whatever the page size, and the walk ends: if every
    event can be read and no two stores have an event under the same key. *)
Theorem network_pages_enumerate size :
  network_walk (S (length network_merge)) size filter None db = edges_of network_merge.
Proof.
  pose proof (network_query_page (First (Some size)) I eq_refl) as Hq.
  eapply network_walk_page; [apply taken_pos|exact Hok|exact Hq|].
  intros l1 k r l2 E. eapply network_walk_after; [exact E|].
  change (merge true (lanes (First (Some size)))) with network_merge.
  rewrite E, length_app. cbn. lia.
Qed.
End walk_spec.

(** ** Witness: three events in two stores, one a page *)
#[local] Existing Instance undecoded | 100.
#[local] Existing Instance network_codecs.

Definition walk_db : @DB mem_rocksdb :=
  <["conn" := list_to_map [(demo_key 100, [Byte.x01]); (demo_key 300, [Byte.x01])]]>
  (<["dns" := list_to_map [(demo_key 200, [Byte.x02])]]> empty_db) : Mem.db.

Lemma walk_healthy : healthy walk_db.
Proof.
  split; [done|]. intros name Hn. apply bool_decide_eq_true_2. unfold walk_db.
  rewrite !lookup_insert_is_Some'. right. right. by apply empty_db_opened.
Qed.

Lemma walk_db_wf : network_keys_wf walk_db.
Proof.
  intros cf k v Hcf Hk.
  assert (Forall (λ cf, map_Forall (λ k (_ : bytes), key_wf k = true) (cf_view walk_db cf))
    NETWORK_CFS) as Hall by (refine (bool_decide_unpack _ _); vm_compute; exact I).
  rewrite Forall_forall in Hall. specialize (Hall cf Hcf k v Hk).
  apply bool_decide_eq_true_1, list_elem_of_fmap in Hall as (ts & -> & Hts).
  exists "src1"%string, ts. split; [concrete|]. split; [|done].
  assert (Forall (λ ts, 0 ≤ ts ≤ i64_max) [100; 200; 300]) as Hr by (repeat constructor; done).
  rewrite Forall_forall in Hr. by apply Hr.
Qed.

Lemma walk_db_decodes : network_decodes walk_db.
Proof.
  unfold network_decodes, store_decodes, decodes.
  repeat split; refine (bool_decide_unpack _ _); vm_compute; exact I.
Qed.

Lemma network_pages_enumerate_witness :
  (λ es : list (string * NetworkRawEvents), es.*1) <$>
    network_walk 4 1 network_filter None walk_db = Ok (base64_encode <$> [demo_key 100; demo_key 200; demo_key 300]).
Proof.
  assert (length (network_merge network_filter walk_db) = 3%nat) as Hl by (vm_compute; reflexivity).
  pose proof (network_pages_enumerate network_filter walk_db walk_healthy walk_db_wf) as Hw.
  rewrite Hl in Hw. rewrite Hw.
  - vm_compute. reflexivity.
  - concrete.
  - exact walk_db_decodes.
  - refine (bool_decide_unpack _ _). vm_compute. exact I.
  - refine (bool_decide_unpack _ _). vm_compute. exact I.
Defined.
