(* ===== verification/SocketAddr.v ===== *)
(** * [std::net::SocketAddr]

    Socket addresses with their [Display] and [FromStr], on top of the parser of
    [NetAddr].  The text of an address parses back to the address: the peers of
    the configuration file and the peer service exchange addresses as text. *)

From Stdlib Require Import ZArith Lia Ascii.
From S2P Require Import Prelude NetAddr.

(** [V4(ip, port)], [V6(ip, port, flowinfo, scope_id)] *)
Inductive SocketAddr :=
| SV4 (ip port : Z)
| SV6 (ip port flowinfo scope_id : Z).

#[export] Instance SocketAddr_eq_dec : EqDecision SocketAddr.
Proof. solve_decision. Defined.
#[export] Instance SocketAddr_countable : Countable SocketAddr.
Proof.
  refine (inj_countable'
    (λ a, match a with SV4 i p => inl (i, p) | SV6 i p f s => inr (i, p, f, s) end)
    (λ x, match x with inl (i, p) => SV4 i p | inr (i, p, f, s) => SV6 i p f s end) _).
  by intros [].
Defined.

(** [addr.ip()] *)
Definition socket_ip (a : SocketAddr) : IpAddr :=
  match a with SV4 ip _ => V4 ip | SV6 ip _ _ _ => V6 ip end.

(** ** [Display] *)
Definition socket_to_string (a : SocketAddr) : string :=
  match a with
  | SV4 ip port => v4_to_string ip +:+ ":" +:+ dec port
  | SV6 ip port _ scope_id =>
      if scope_id =? 0 then "[" +:+ v6_to_string ip +:+ "]:" +:+ dec port
      else "[" +:+ v6_to_string ip +:+ "%" +:+ dec scope_id +:+ "]:" +:+ dec port
  end.

(** ** [FromStr] *)

(** [read_number(10, None, true)]: any number of digits *)
Definition read_unsigned (bound : Z) : parser Z := λ s,
  read_number 10 (Z.of_nat (length s)) bound true s.

Definition read_port : parser Z := λ s, read_given_char ":" s ≫= read_unsigned 65535.
Definition read_scope_id : parser Z := λ s,
  read_given_char "%" s ≫= read_unsigned 4294967295.

Definition read_socket_addr_v4 : parser SocketAddr := λ s,
  '(ip, s) ← read_ipv4_addr s;
  '(port, s) ← read_port s;
  Some (SV4 ip port, s).

Definition read_socket_addr_v6 : parser SocketAddr := λ s,
  s ← read_given_char "[" s;
  '(ip, s) ← read_ipv6_addr s;
  let '(scope_id, s) := default (0, s) (read_scope_id s) in
  s ← read_given_char "]" s;
  '(port, s) ← read_port s;
  Some (SV6 ip port 0 scope_id, s).

Definition read_socket_addr : parser SocketAddr := λ s,
  match read_socket_addr_v4 s with
  | Some r => Some r
  | None => read_socket_addr_v6 s
  end.

Definition parse_socket_addr (s : string) : result SocketAddr :=
  match read_socket_addr (String.list_ascii_of_string s) with
  | Some (a, []) => Ok a
  | _ => Err "invalid socket address syntax"
  end.

Example parse_socket_v4 : parse_socket_addr "100.101.102.2:38383" = Ok (SV4 1684366850 38383).
Proof. reflexivity. Qed.
Example parse_socket_any : parse_socket_addr "[::]:38370" = Ok (SV6 0 38370 0 0).
Proof. reflexivity. Qed.
Example parse_socket_scope : parse_socket_addr "[fe80::1%3]:80" = Ok (SV6 (0xfe80 * 2 ^ 112 + 1) 80 0 3).
Proof. reflexivity. Qed.
Example parse_socket_no_port : is_ok (parse_socket_addr "100.101.102.2") = false.
Proof. reflexivity. Qed.
Example parse_socket_big_port : is_ok (parse_socket_addr "1.1.1.1:65536") = false.
Proof. reflexivity. Qed.

(** ** Numerals *)
Section numerals.
Implicit Types (s rest : chars) (z a c : Z).

Notation chars_of := String.list_ascii_of_string.

Lemma chars_app (x y : string) : chars_of (x +:+ y) = chars_of x ++ chars_of y.
Proof. induction x as [|k x IH]; [done|]. rewrite string_app_cons. cbn. by rewrite IH. Qed.

(** The digit of a value below the radix, as [digits] writes it *)
Definition digit_char (d : Z) : ascii :=
  ascii_of_nat (Z.to_nat (if d <? 10 then 48 + d else 87 + d)).

Lemma to_digit_char radix d :
  radix = 10 ∨ radix = 16 → 0 ≤ d < radix → to_digit radix (digit_char d) = Some d.
Proof.
  intros Hr Hd.
  assert (d ∈ seqZ 0 16) as Hin by (apply elem_of_seqZ; lia).
  assert (Forall (λ d, to_digit 16 (digit_char d) = Some d ∧
    (d < 10 → to_digit 10 (digit_char d) = Some d)) (seqZ 0 16)) as Hall.
  { vm_compute. repeat constructor; intros; done. }
  rewrite Forall_forall in Hall. destruct (Hall d Hin) as [H16 H10].
  destruct Hr as [-> | ->]; [apply H10; lia|done].
Qed.

(** How many digits [digits] writes *)
Fixpoint digit_count (fuel : nat) (radix z : Z) : nat :=
  match fuel with
  | O => O
  | S fuel => if z <? radix then 1 else S (digit_count fuel radix (z / radix))
  end.

Lemma digit_count_pos fuel radix z : (fuel ≠ 0)%nat → (1 ≤ digit_count fuel radix z)%nat.
Proof. destruct fuel; [done|]. cbn. case_match; lia. Qed.

Lemma digit_count_bound fuel radix z (k : nat) :
  1 < radix → (k ≠ 0)%nat → 0 ≤ z < radix ^ Z.of_nat k → (digit_count fuel radix z ≤ k)%nat.
Proof.
  intros Hr. revert z k. induction fuel as [|fuel IH]; intros z k Hk Hz; cbn; [lia|].
  destruct (Z.ltb_spec z radix); [lia|].
  destruct k as [|k]; [done|]. destruct (decide (k = 0)%nat) as [->|Hk0].
  - change (Z.of_nat 1) with 1 in Hz. lia.
  - apply le_n_S, IH; [done|]. rewrite Nat2Z.inj_succ, Z.pow_succ_r in Hz by lia.
    split; [apply Z.div_pos; lia|]. apply Z.div_lt_upper_bound; lia.
Qed.

(** Reading what [digits] wrote accumulates its value. *)
Lemma read_digits_digits radix maxd bound fuel z acc a c :
  radix = 10 ∨ radix = 16 → 0 ≤ z < radix ^ Z.of_nat fuel → (fuel ≠ 0)%nat → 0 ≤ a →
  let n := digit_count fuel radix z in
  a * radix ^ Z.of_nat n + z ≤ bound → c + Z.of_nat n ≤ maxd →
  read_digits radix maxd bound a c (chars_of (digits fuel radix z acc)) =
  read_digits radix maxd bound (a * radix ^ Z.of_nat n + z) (c + Z.of_nat n) (chars_of acc).
Proof.
  intros Hr. revert z acc. induction fuel as [|fuel IH]; intros z acc Hz Hf Ha n Hb Hm; [done|].
  subst n. cbn [digits digit_count] in *. fold (digit_char (z mod radix)).
  assert (0 ≤ z mod radix < radix) as Hmod by (apply Z.mod_pos_bound; lia).
  destruct (Z.ltb_spec z radix) as [Hlt|Hge].
  - rewrite Z.mod_small by lia. cbn [String.list_ascii_of_string read_digits].
    rewrite to_digit_char by lia. change (Z.of_nat 1) with 1 in *.
    rewrite Z.pow_1_r in *.
    destruct (Z.ltb_spec bound (a * radix + z)); [lia|].
    by destruct (Z.ltb_spec maxd (c + 1)); [lia|].
  - set (n := digit_count fuel radix (z / radix)) in *.
    assert (fuel ≠ 0)%nat as Hf'.
    { intros ->. change (Z.of_nat 1) with 1 in Hz. lia. }
    pose proof (Z.div_mod z radix ltac:(lia)) as Hdm.
    assert (0 ≤ z / radix) by (apply Z.div_pos; lia).
    assert (0 < radix ^ Z.of_nat n) by (apply Z.pow_pos_nonneg; lia).
    rewrite Nat2Z.inj_succ, Z.pow_succ_r in Hb by lia.
    rewrite Nat2Z.inj_succ, Z.pow_succ_r in Hz by lia.
    rewrite IH; [|split; [done|apply Z.div_lt_upper_bound; lia]|done|done| |]; fold n.
    + cbn [String.list_ascii_of_string read_digits]. rewrite to_digit_char by lia.
      rewrite Nat2Z.inj_succ, Z.pow_succ_r by lia.
      replace ((a * radix ^ Z.of_nat n + z / radix) * radix + z mod radix)
        with (a * (radix * radix ^ Z.of_nat n) + z) by lia.
      destruct (Z.ltb_spec bound (a * (radix * radix ^ Z.of_nat n) + z)); [lia|].
      replace (c + Z.of_nat n + 1) with (c + Z.succ (Z.of_nat n)) by lia.
      by destruct (Z.ltb_spec maxd (c + Z.succ (Z.of_nat n))); [lia|].
    + nia.
    + lia.
Qed.

Definition no_digit (radix : Z) (s : chars) : Prop :=
  match s with c :: _ => to_digit radix c = None | [] => True end.

Lemma read_digits_stop radix maxd bound a c s :
  no_digit radix s → read_digits radix maxd bound a c s = Some (a, c, s).
Proof. destruct s as [|k s]; [done|]. cbn. by intros ->. Qed.

Lemma digits_app fuel radix z acc :
  chars_of (digits fuel radix z acc) = chars_of (digits fuel radix z "") ++ chars_of acc.
Proof.
  revert z acc. induction fuel as [|fuel IH]; intros z acc; [done|].
  cbn [digits]. case_match; [done|].
  rewrite IH, (IH _ (String _ "")). cbn. by rewrite <- app_assoc.
Qed.

Lemma digits_length fuel radix z :
  length (chars_of (digits fuel radix z "")) = digit_count fuel radix z.
Proof.
  revert z. induction fuel as [|fuel IH]; intros z; [done|].
  cbn [digits digit_count]. case_match; [done|].
  rewrite digits_app, length_app, IH. cbn. lia.
Qed.

(** [read_number] on a numeral that is not followed by a digit *)
Lemma read_number_digits radix maxd bound allow z rest :
  radix = 10 ∨ radix = 16 → 0 ≤ z ≤ bound → z < radix ^ 40 →
  Z.of_nat (digit_count 40 radix z) ≤ maxd → no_digit radix rest →
  (allow = true ∨
    (head (chars_of (digits 40 radix z "")) = Some "0"%char → digit_count 40 radix z = 1%nat)) →
  read_number radix maxd bound allow (chars_of (digits 40 radix z "") ++ rest) = Some (z, rest).
Proof.
  intros Hr Hz H40 Hm Hrest Hlead. unfold read_number.
  pose proof (digit_count_pos 40 radix z ltac:(done)) as Hpos.
  rewrite <- (String.list_ascii_of_string_of_list_ascii rest) in Hrest |- *.
  set (r := String.string_of_list_ascii rest) in *.
  rewrite <- digits_app, read_digits_digits;
    [|done|change (Z.of_nat 40) with 40; lia|done|lia|lia|lia].
  rewrite read_digits_stop by done.
  destruct (Z.eqb_spec (0 + Z.of_nat (digit_count 40 radix z)) 0); [lia|].
  rewrite Z.mul_0_l, !Z.add_0_l.
  pose proof (digits_length 40 radix z) as Hlen.
  destruct allow; [done|].
  destruct Hlead as [|Hlead]; [done|]. rewrite digits_app.
  destruct (chars_of (digits 40 radix z "")) as [|k l]; [cbn [length] in Hlen; lia|].
  cbn [app negb andb]. destruct (Ascii.eqb_spec k "0"%char) as [->|_]; [|done].
  by rewrite Hlead.
Qed.

Lemma read_octet_digits o rest :
  0 ≤ o < 256 → no_digit 10 rest →
  read_number 10 3 255 false (chars_of (dec o) ++ rest) = Some (o, rest).
Proof.
  intros Ho Hrest. apply read_number_digits; [by left|lia|lia| |done|].
  - pose proof (digit_count_bound 40 10 o 3 ltac:(lia) ltac:(done)). lia.
  - right.
    assert (o ∈ seqZ 0 256) as Hin by (apply elem_of_seqZ; lia).
    assert (Forall (λ o, head (chars_of (digits 40 10 o "")) = Some "0"%char →
      digit_count 40 10 o = 1%nat) (seqZ 0 256)) as Hall.
    { refine (bool_decide_unpack _ _). vm_compute. exact I. }
    rewrite Forall_forall in Hall. by apply Hall.
Qed.

Lemma read_unsigned_dec bound z rest :
  0 ≤ z ≤ bound → bound < 10 ^ 40 → no_digit 10 rest →
  read_unsigned bound (chars_of (dec z) ++ rest) = Some (z, rest).
Proof.
  intros Hz Hb Hrest. apply read_number_digits; [by left|lia|lia| |done|by left].
  rewrite length_app. unfold dec. rewrite digits_length. lia.
Qed.

Lemma read_group_hex g rest :
  0 ≤ g < 65536 → no_digit 16 rest →
  read_number 16 4 65535 true (chars_of (hex g) ++ rest) = Some (g, rest).
Proof.
  intros Hg Hrest. apply read_number_digits; [by right|lia|lia| |done|by left].
  pose proof (digit_count_bound 40 16 g 4 ltac:(lia) ltac:(done)). lia.
Qed.
End numerals.

(** ** IPv4 *)
Section v4.
Notation chars_of := String.list_ascii_of_string.

Lemma octets_join a :
  0 ≤ a < 2 ^ 32 →
  ((a / 2 ^ 24 * 256 + a / 2 ^ 16 mod 256) * 256 + a / 2 ^ 8 mod 256) * 256 + a mod 256 = a.
Proof.
  intros Ha.
  pose proof (Z.div_mod (a / 2 ^ 16) 256 ltac:(lia)) as H1.
  pose proof (Z.div_mod (a / 2 ^ 8) 256 ltac:(lia)) as H2.
  pose proof (Z.div_mod a 256 ltac:(lia)) as H3.
  rewrite Z.div_div in H1, H2 by lia.
  change (2 ^ 16 * 256) with (2 ^ 24) in H1. change (2 ^ 8 * 256) with (2 ^ 16) in H2.
  change (2 ^ 8) with 256 in *. lia.
Qed.

Lemma read_separator_S {A} sep (i : nat) (inner : parser A) (s : chars) :
  read_separator sep (S i) inner (sep :: s) = inner s.
Proof. unfold read_separator. cbn. by rewrite Ascii.eqb_refl. Qed.

Lemma read_octets_step (i n : nat) acc (s s' : chars) o :
  read_separator "." i (read_number 10 3 255 false) s = Some (o, s') →
  read_octets i (S n) acc s = read_octets (S i) n (acc * 256 + o) s'.
Proof. cbn [read_octets]. by intros ->. Qed.

Lemma read_ipv4_text (a : Z) (rest : chars) :
  0 ≤ a < 2 ^ 32 → no_digit 10 rest →
  read_ipv4_addr (chars_of (v4_to_string a) ++ rest) = Some (a, rest).
Proof.
  intros Ha Hrest. unfold read_ipv4_addr, v4_to_string.
  rewrite !chars_app, <- !app_assoc.
  assert (0 ≤ a / 2 ^ 24 < 256).
  { split; [apply Z.div_pos; lia|apply Z.div_lt_upper_bound; lia]. }
  assert (∀ x, 0 ≤ x mod 256 < 256) by (intros; apply Z.mod_pos_bound; lia).
  erewrite read_octets_step by (by apply read_octet_digits).
  do 3 (erewrite read_octets_step by
    (change (chars_of "." ++ ?x) with ("."%char :: x); rewrite read_separator_S;
     by apply read_octet_digits)).
  cbn [read_octets]. by rewrite Z.mul_0_l, Z.add_0_l, octets_join.
Qed.
End v4.

(** ** IPv6 *)
Section v6.
Notation chars_of := String.list_ascii_of_string.
Implicit Types (rest : chars) (gs : list Z).

Definition no_dot (s : chars) : Prop := head s ≠ Some "."%char.
(** What may follow a group in a text *)
Definition after_group (s : chars) : Prop := no_digit 10 s ∧ no_digit 16 s ∧ no_dot s.
Definition group (g : Z) : Prop := 0 ≤ g < 65536.

Lemma hex_chars z : 0 ≤ z → Forall (λ k, k ≠ "."%char) (chars_of (hex z)).
Proof.
  unfold hex. generalize 40%nat. intros n. revert z. induction n as [|n IH]; intros z Hz; [constructor|].
  assert (digit_char (z mod 16) ≠ "."%char) as Hd.
  { assert (Forall (λ d, digit_char d ≠ "."%char) (seqZ 0 16)) as Hall.
    { refine (bool_decide_unpack _ _). vm_compute. exact I. }
    rewrite Forall_forall in Hall. apply Hall, elem_of_seqZ.
    pose proof (Z.mod_pos_bound z 16). lia. }
  cbn [digits]. fold (digit_char (z mod 16)). case_match.
  - by repeat constructor.
  - rewrite digits_app, Forall_app. split; [apply IH, Z.div_pos; lia|by repeat constructor].
Qed.

(** The decimal prefix of a group is not followed by a dot. *)
Lemma read_digits_no_dot maxd bound (h : chars) rest a c v n (s : chars) :
  Forall (λ k, k ≠ "."%char) h → no_digit 10 rest → no_dot rest →
  read_digits 10 maxd bound a c (h ++ rest) = Some (v, n, s) → no_dot s.
Proof.
  intros Hh Hr Hd. revert a c. induction Hh as [|k h Hk Hh IH]; intros a c; cbn [app].
  - rewrite read_digits_stop by done. by intros [= <- <- <-].
  - cbn [read_digits]. destruct (to_digit 10 k) as [d|].
    + repeat case_match; try done. apply IH.
    + intros [= <- <- <-]. unfold no_dot. cbn. congruence.
Qed.

Lemma read_ipv4_group g rest :
  group g → after_group rest → read_ipv4_addr (chars_of (hex g) ++ rest) = None.
Proof.
  intros Hg (Hr & _ & Hd). unfold read_ipv4_addr.
  change (read_octets 0 4 0 ?s) with
    (match read_number 10 3 255 false s with
     | Some (o, s') => read_octets 1 3 (0 * 256 + o) s' | None => None end).
  unfold read_number.
  destruct (read_digits _ _ _ _ _ _) as [[[v n] s]|] eqn:E; [|done].
  apply read_digits_no_dot in E; [|apply hex_chars; unfold group in Hg; lia|done|done].
  destruct (_ =? _); [done|]. destruct (_ && _); [done|].
  cbn [read_octets]. unfold read_separator. cbn [Nat.ltb Nat.leb].
  destruct s as [|k s]; [done|]. cbn [read_given_char].
  destruct (Ascii.eqb_spec "." k) as [<-|]; [by destruct E|done].
Qed.

(** The groups as [read_groups] meets them from its [i]-th round on *)
Definition tail_text gs : chars := gs ≫= λ g, ":"%char :: chars_of (hex g).
Definition groups_text (i : nat) gs : chars :=
  match i, gs with
  | O, g :: gs => chars_of (hex g) ++ tail_text gs
  | _, _ => tail_text gs
  end.

Lemma fmt_segments_text gs : chars_of (fmt_segments gs) = groups_text 0 gs.
Proof.
  destruct gs as [|g gs]; [done|]. cbn [groups_text]. unfold fmt_segments.
  revert g. induction gs as [|g' gs IH]; intros g.
  - cbn. by rewrite app_nil_r.
  - rewrite fmap_cons. specialize (IH g'). rewrite fmap_cons in IH |- *.
    change (String.concat ":" (hex g :: ?l)) with (hex g +:+ ":" +:+ String.concat ":" l).
    rewrite !chars_app. by rewrite IH.
Qed.

Lemma after_group_tail gs rest : after_group rest → after_group (tail_text gs ++ rest).
Proof. by destruct gs. Qed.

Lemma groups_text_sep (i : nat) g gs rest (A : Type) (inner : parser A) :
  read_separator ":" i inner (groups_text i (g :: gs) ++ rest) =
  inner (chars_of (hex g) ++ groups_text (S i) gs ++ rest).
Proof.
  destruct i as [|i]; cbn [groups_text].
  - rewrite <- app_assoc. done.
  - cbn [tail_text mbind list_bind app]. rewrite <- app_assoc. apply read_separator_S.
Qed.

(** [rest] holds no further group. *)
Definition stops (i : nat) rest : Prop :=
  read_separator ":" i (read_number 16 4 65535 true) rest = None ∧
  read_separator ":" i read_ipv4_addr rest = None.

Lemma read_groups_text gs (i n : nat) rest :
  Forall group gs → after_group rest →
  length gs = n ∨ (length gs < n)%nat ∧ stops (i + length gs) rest →
  read_groups i n (groups_text i gs ++ rest) = (gs, false, rest).
Proof.
  intros Hgs Hrest. revert i n. induction Hgs as [|g gs Hg Hgs IH]; intros i n Hn.
  - replace (groups_text i [] ++ rest) with rest by (by destruct i).
    destruct n as [|n]; [done|]. cbn [length] in Hn. rewrite Nat.add_0_r in Hn.
    destruct Hn as [|[_ [Hs1 Hs2]]]; [done|]. cbn [read_groups].
    rewrite Hs1, Hs2. by destruct n.
  - cbn [length] in Hn. destruct n as [|n]; [lia|]. cbn [read_groups].
    assert (after_group (groups_text (S i) gs ++ rest)) as Ha by (by apply after_group_tail).
    rewrite !groups_text_sep. rewrite read_ipv4_group by done.
    rewrite read_group_hex by (apply Ha || done).
    rewrite IH; [by destruct n|].
    destruct Hn as [|[? Hs]]; [left; lia|right].
    rewrite <- Nat.add_succ_comm in Hs. split; [lia|done].
Qed.

(** *** The value and the segments of an address *)
Definition is_u128 (a : Z) : Prop := 0 ≤ a < 2 ^ 128.

Lemma segments_group a : Forall group (segments a).
Proof. apply Forall_fmap, Forall_forall. intros i _. apply Z.mod_pos_bound. lia. Qed.

Lemma ipv6_of_segments a : is_u128 a → ipv6_of_groups (segments a) = a.
Proof.
  intros Ha. unfold is_u128 in Ha.
  assert (∀ k, 0 ≤ k → a / 2 ^ (k + 16) * 65536 + a / 2 ^ k mod 65536 = a / 2 ^ k) as Hstep.
  { intros k Hk. rewrite Z.pow_add_r by lia. rewrite <- Z.div_div by lia.
    change (2 ^ 16) with 65536. pose proof (Z.div_mod (a / 2 ^ k) 65536). lia. }
  pose proof (Hstep 0) as H0. pose proof (Hstep 16) as H1. pose proof (Hstep 32) as H2.
  pose proof (Hstep 48) as H3. pose proof (Hstep 64) as H4. pose proof (Hstep 80) as H5.
  pose proof (Hstep 96) as H6. pose proof (Hstep 112) as H7.
  change (segments a) with
    [a / 2 ^ 112 mod 65536; a / 2 ^ 96 mod 65536; a / 2 ^ 80 mod 65536; a / 2 ^ 64 mod 65536;
     a / 2 ^ 48 mod 65536; a / 2 ^ 32 mod 65536; a / 2 ^ 16 mod 65536; a / 2 ^ 0 mod 65536].
  assert (a / 2 ^ (112 + 16) = 0) as Htop by (apply Z.div_small; done).
  unfold ipv6_of_groups. cbn [foldl].
  change (0 + 16) with 16 in *. change (16 + 16) with 32 in *. change (32 + 16) with 48 in *.
  change (48 + 16) with 64 in *. change (64 + 16) with 80 in *. change (80 + 16) with 96 in *.
  change (96 + 16) with 112 in *. change (112 + 16) with 128 in *.
  rewrite Htop in H7. rewrite H7, H6, H5, H4, H3, H2, H1, H0 by lia.
  apply Z.div_1_r.
Qed.

(** *** The run of zeros [Display] compresses *)
Definition zero_run (l : list Z) (r : nat * nat) : Prop :=
  take r.2 (drop r.1 l) = replicate r.2 0.

Lemma zero_run_extend l (s n : nat) :
  zero_run l (s, n) → l !! (s + n)%nat = Some 0 → zero_run l (s, S n).
Proof.
  unfold zero_run. cbn [fst snd]. intros Hr Hl.
  rewrite (take_S_r _ _ 0) by (by rewrite lookup_drop). by rewrite Hr, replicate_S_end.
Qed.

Lemma longest_zeros_run l segs (i : nat) longest current :
  drop i l = segs → zero_run l longest → zero_run l current →
  (current.2 = 0 ∨ current.1 + current.2 = i)%nat →
  zero_run l (longest_zeros segs i longest current).
Proof.
  revert i longest current. induction segs as [|g segs IH]; intros i lo [cs cn] Hi Hl Hc He; [done|].
  assert (l !! i = Some g) as Hg.
  { rewrite <- (Nat.add_0_r i), <- lookup_drop, Hi. done. }
  assert (drop (S i) l = segs) as Hi'.
  { rewrite <- Nat.add_1_r, <- drop_drop, Hi. done. }
  cbn [longest_zeros fst snd] in *. destruct (Z.eqb_spec g 0) as [->|_].
  - assert (zero_run l (if (cn =? 0)%nat then i else cs, S cn)) as Hc'.
    { destruct (Nat.eqb_spec cn 0) as [->|].
      - by apply zero_run_extend; [|rewrite Nat.add_0_r].
      - apply zero_run_extend; [done|]. destruct He as [?| ->]; done. }
    apply IH; [done| |done|].
    + by destruct (lo.2 <? S cn)%nat.
    + right. cbn. destruct (Nat.eqb_spec cn 0); lia.
  - apply IH; [done|done|done|by left].
Qed.

Lemma zero_run_split l (s n : nat) :
  zero_run l (s, n) → l = take s l ++ replicate n 0 ++ drop (s + n) l.
Proof.
  intros Hr. unfold zero_run in Hr. cbn in Hr.
  rewrite <- Hr, <- drop_drop, take_drop, take_drop. done.
Qed.

Lemma zero_run_length l (s n : nat) :
  zero_run l (s, n) → (0 < n)%nat → (s + n ≤ length l)%nat.
Proof.
  intros Hr%(f_equal length) Hn. rewrite length_replicate, length_take, length_drop in Hr.
  cbn in Hr. lia.
Qed.

(** *** Where the parser stops *)
Lemma read_number_none radix maxd bound allow rest :
  no_digit radix rest → read_number radix maxd bound allow rest = None.
Proof. intros Hr. unfold read_number. by rewrite read_digits_stop. Qed.

Lemma read_ipv4_none rest : no_digit 10 rest → read_ipv4_addr rest = None.
Proof.
  intros Hr. unfold read_ipv4_addr. cbn [read_octets]. unfold read_separator. cbn [Nat.ltb Nat.leb].
  by rewrite read_number_none.
Qed.

(** What may follow an address *)
Definition after_addr (s : chars) : Prop := after_group s ∧ head s ≠ Some ":"%char.

Lemma after_addr_stops rest (i : nat) : after_addr rest → stops i rest.
Proof.
  intros [(H10 & H16 & _) Hc]. destruct i as [|i].
  - split; [by apply read_number_none|by apply read_ipv4_none].
  - split; unfold read_separator; cbn; destruct rest as [|k rest]; try done;
      unfold read_given_char; destruct (Ascii.eqb_spec ":" k) as [<-|?]; done.
Qed.

Lemma double_colon_stops rest (i : nat) : stops i (":"%char :: ":"%char :: rest).
Proof.
  destruct i as [|i]; (split; [by apply read_number_none|by apply read_ipv4_none]).
Qed.

(** *** The text of an address is read back *)
Lemma read_ipv6_mapped a rest :
  0 ≤ a < 2 ^ 32 → after_addr rest →
  read_ipv6_addr (chars_of ("::ffff:" +:+ v4_to_string a) ++ rest) =
  Some (65535 * 2 ^ 32 + a, rest).
Proof.
  intros Ha Hr. rewrite chars_app, <- app_assoc. set (t := chars_of (v4_to_string a) ++ rest).
  change (chars_of "::ffff:" ++ t) with
    (groups_text 0 [] ++ ":"%char :: ":"%char :: chars_of (hex 65535) ++ ":"%char :: t).
  unfold read_ipv6_addr. rewrite (read_groups_text []);
    [|constructor|done|right; split; [cbn; lia|apply double_colon_stops]].
  change (read_given_char ":" _ ≫= _) with (Some (chars_of (hex 65535) ++ ":"%char :: t)).
  cbn [length Nat.eqb Nat.sub Nat.add].
  assert (read_groups 0 7 (chars_of (hex 65535) ++ ":"%char :: t) =
    ([65535; a / 65536; a mod 65536], true, rest)) as ->.
  { change (chars_of (hex 65535) ++ ":"%char :: t) with (groups_text 0 [65535] ++ ":"%char :: t).
    cbn [read_groups]. rewrite !groups_text_sep.
    change (groups_text 1 [] ++ ?x) with x.
    rewrite read_ipv4_group by (unfold group; done || lia).
    rewrite read_group_hex by (done || lia). rewrite read_separator_S.
    subst t. rewrite read_ipv4_text; [done|lia|apply Hr]. }
  cbn [length Nat.sub replicate app ipv6_of_groups foldl]. do 2 f_equal.
  pose proof (Z.div_mod a 65536). lia.
Qed.

Lemma read_ipv6_text a rest :
  is_u128 a → after_addr rest →
  read_ipv6_addr (chars_of (v6_to_string a) ++ rest) = Some (a, rest).
Proof.
  intros Ha Hrest. unfold v6_to_string.
  destruct (Z.eqb_spec (a / 2 ^ 32) 65535) as [Hmap|_].
  { pose proof (Z.div_mod a (2 ^ 32) ltac:(lia)). pose proof (Z.mod_pos_bound a (2 ^ 32) ltac:(lia)).
    rewrite read_ipv6_mapped by done. do 2 f_equal. lia. }
  pose proof (segments_group a) as Hg.
  assert (length (segments a) = 8%nat) as Hlen by done.
  pose proof (longest_zeros_run (segments a) (segments a) 0 (0%nat, 0%nat) (0%nat, 0%nat)
    eq_refl eq_refl eq_refl (or_introl eq_refl)) as Hrun.
  rewrite <- (f_equal (λ v, Some (v, rest)) (ipv6_of_segments a Ha)).
  revert Hg Hlen Hrun. generalize (segments a) as segs. intros segs Hg Hlen.
  destruct (longest_zeros _ _ _ _) as [start len]. intros Hrun.
  destruct (Nat.ltb_spec 1 len) as [Hl|_].
  - pose proof (zero_run_length _ _ _ Hrun ltac:(lia)) as Hb. rewrite Hlen in Hb.
    rewrite (f_equal ipv6_of_groups (zero_run_split _ _ _ Hrun)).
    rewrite (zero_run_split _ _ _ Hrun) in Hg.
    rewrite !Forall_app in Hg. destruct Hg as (Hg1 & _ & Hg2).
    rewrite !chars_app, !fmt_segments_text, <- !app_assoc.
    assert (length (take start segs) = start) as Hl1 by (rewrite length_take; lia).
    assert (length (drop (start + len) segs) = 8 - (start + len))%nat as Hl2
      by (rewrite length_drop; lia).
    revert Hg1 Hg2 Hl1 Hl2. generalize (take start segs) as l1.
    generalize (drop (start + len) segs) as l2. intros l2 l1 Hg1 Hg2 Hl1 Hl2.
    unfold read_ipv6_addr.
    change (chars_of "::" ++ ?x) with (":"%char :: ":"%char :: x).
    rewrite read_groups_text; [|done|done|right; split; [lia|apply double_colon_stops]].
    rewrite Hl1. destruct (Nat.eqb_spec start 8); [lia|].
    change (read_given_char ":" _ ≫= _) with (Some (groups_text 0 l2 ++ rest)). cbn iota.
    rewrite read_groups_text; [|done|apply Hrest|right; split; [lia|by apply after_addr_stops]].
    rewrite Hl2. by replace (8 - start - (8 - (start + len)))%nat with len by lia.
  - rewrite fmt_segments_text. unfold read_ipv6_addr.
    rewrite read_groups_text; [|done|apply Hrest|left; done]. by rewrite Hlen.
Qed.
End v6.

(** ** The round trips *)
Definition is_ip (a : IpAddr) : Prop :=
  match a with V4 a => 0 ≤ a < 2 ^ 32 | V6 a => is_u128 a end.
(** A socket address its text determines: [flowinfo] is not shown. *)
Definition is_socket (a : SocketAddr) : Prop :=
  is_ip (socket_ip a) ∧
  match a with
  | SV4 _ port => 0 ≤ port < 65536
  | SV6 _ port flowinfo scope_id => 0 ≤ port < 65536 ∧ flowinfo = 0 ∧ 0 ≤ scope_id < 2 ^ 32
  end.

Section roundtrip.
Notation chars_of := String.list_ascii_of_string.

Lemma v6_text_not_v4 (a : Z) (rest : chars) :
  is_u128 a → after_addr rest → read_ipv4_addr (chars_of (v6_to_string a) ++ rest) = None.
Proof.
  intros Ha Hrest. unfold v6_to_string.
  case_match; [by apply read_ipv4_none|].
  pose proof (segments_group a) as Hg. revert Hg.
  assert (segments a ≠ []) as Hne by done. revert Hne. generalize (segments a). intros segs Hne Hg.
  destruct (longest_zeros _ _ _ _) as [start len]. case_match.
  - rewrite !chars_app, !fmt_segments_text, <- !app_assoc.
    assert (Forall group (take start segs)) as Ht by (by apply Forall_take).
    destruct (take start segs) as [|g gs]; [by apply read_ipv4_none|].
    apply Forall_cons in Ht as [Hg0 _]. cbn [groups_text]. rewrite <- app_assoc.
    apply read_ipv4_group; [done|]. by apply after_group_tail.
  - destruct segs as [|g gs]; [done|]. apply Forall_cons in Hg as [Hg0 _].
    rewrite fmt_segments_text. cbn [groups_text]. rewrite <- app_assoc.
    apply read_ipv4_group; [done|]. apply after_group_tail, Hrest.
Qed.

(** [IpAddr::from_str(&addr.to_string())] *)
Lemma ip_text_roundtrip a : is_ip a → parse_ip (ip_to_string a) = Ok a.
Proof.
  intros Ha. unfold parse_ip, read_ip_addr.
  assert (after_addr []) as Hnil by done. assert (no_digit 10 []) as Hnil' by done.
  rewrite <- (app_nil_r (chars_of (ip_to_string a))).
  destruct a as [a|a]; cbn [ip_to_string is_ip] in *.
  - by rewrite read_ipv4_text.
  - rewrite v6_text_not_v4, read_ipv6_text by done. done.
Qed.

Lemma ip_to_string_inj a b :
  is_ip a → is_ip b → ip_to_string a = ip_to_string b → a = b.
Proof.
  intros Ha Hb E. apply (inj Ok). by rewrite <- (ip_text_roundtrip a), <- (ip_text_roundtrip b), E.
Qed.

Lemma read_port_dec port :
  0 ≤ port < 65536 → read_port (":"%char :: chars_of (dec port)) = Some (port, []).
Proof.
  intros Hp. change (read_port (":"%char :: ?x)) with (read_unsigned 65535 x).
  rewrite <- (app_nil_r (chars_of (dec port))). apply read_unsigned_dec; [lia|done|done].
Qed.

(** [SocketAddr::from_str(&addr.to_string())] *)
Lemma socket_text_roundtrip a : is_socket a → parse_socket_addr (socket_to_string a) = Ok a.
Proof.
  unfold parse_socket_addr, read_socket_addr, read_socket_addr_v4, read_socket_addr_v6.
  intros [Hip Hp]. destruct a as [ip port|ip port flow scope]; cbn [socket_ip is_ip] in *.
  - unfold socket_to_string. rewrite !chars_app.
    change (chars_of ":" ++ ?x) with (":"%char :: x).
    rewrite read_ipv4_text by done. cbn [mbind option_bind]. by rewrite read_port_dec.
  - destruct Hp as (Hp & -> & Hs). unfold socket_to_string.
    rewrite read_ipv4_none by (by case_match). cbn [mbind option_bind].
    destruct (Z.eqb_spec scope 0) as [->|Hne]; rewrite !chars_app;
      change (chars_of "[" ++ ?x) with ("["%char :: x);
      change (read_given_char "[" ("["%char :: ?x)) with (Some x); cbn [mbind option_bind];
      rewrite read_ipv6_text by done; cbn [mbind option_bind].
    + change (chars_of "]:" ++ ?x) with ("]"%char :: ":"%char :: x).
      change (read_scope_id ("]"%char :: ?x)) with (@None (Z * chars)). cbn [default id].
      change (read_given_char "]" ("]"%char :: ?x)) with (Some x). cbn [mbind option_bind].
      by rewrite read_port_dec.
    + change (chars_of "%" ++ ?x) with ("%"%char :: x).
      change (read_scope_id ("%"%char :: ?x)) with (read_unsigned 4294967295 x).
      rewrite read_unsigned_dec by (done || lia). cbn [default id].
      change (chars_of "]:" ++ ?x) with ("]"%char :: ":"%char :: x).
      change (read_given_char "]" ("]"%char :: ?x)) with (Some x). cbn [mbind option_bind].
      by rewrite read_port_dec.
Qed.
End roundtrip.
