(* ===== verification/Config.v ===== *)
(** * The configuration file (src/src/graphql/status.rs, src/src/settings.rs)

    The queries that read and change the TOML configuration file, and the
    helpers the peer service uses to save its peers in the same file.  The
    library [toml_edit] is the class [TomlEdit]: what a document shows is
    preserved by printing and parsing, its layout is not, so documents are
    compared by the equivalence [doc_equiv]. *)

From Stdlib Require Import ZArith Lia.
From S2P Require Import Prelude NetAddr SocketAddr.

(** ** [toml_edit] *)
Class TomlEdit := {
  Document : Type;
  Item : Type;
  InlineTable : Type;
  toml_parse : string → result Document;
  toml_to_string : Document → string;
  doc_get : Document → string → option Item;
  (** [doc[key] = item], and the effect of a change made in place *)
  doc_set : string → Item → Document → Document;
  as_str : Item → option string;
  as_array : Item → option (list Item);
  as_inline_table : Item → option InlineTable;
  as_value : Item → option Item;
  value : string → Item;
  table_new : InlineTable;
  table_get : InlineTable → string → option Item;
  table_insert : string → Item → InlineTable → InlineTable;
  array_clear : Item → Item;
  array_push : InlineTable → Item → Item;
}.

Class TomlEditLaws `{TomlEdit} := {
  item_equiv : relation Item;
  table_equiv (t u : InlineTable) : Prop :=
    ∀ k, option_Forall2 item_equiv (table_get t k) (table_get u k);
  as_str_equiv a b : item_equiv a b → as_str a = as_str b;
  as_array_equiv a b : item_equiv a b →
    option_Forall2 (Forall2 item_equiv) (as_array a) (as_array b);
  as_inline_table_equiv a b : item_equiv a b →
    option_Forall2 table_equiv (as_inline_table a) (as_inline_table b);
  item_equiv_refl : Reflexive item_equiv;
  (** A document printed, and ended by a new line, parses to what it shows. *)
  toml_roundtrip d : ∃ d', toml_parse (toml_to_string d +:+ newline) = Ok d' ∧
    ∀ k, option_Forall2 item_equiv (doc_get d k) (doc_get d' k);
  doc_get_set k a d : doc_get (doc_set k a d) k = Some a;
  doc_get_set_ne k k' a d : k ≠ k' → doc_get (doc_set k a d) k' = doc_get d k';
  as_str_value s : as_str (value s) = Some s;
  as_value_value s : as_value (value s) = Some (value s);
  table_get_insert k a t : table_get (table_insert k a t) k = Some a;
  table_get_insert_ne k k' a t : k ≠ k' → table_get (table_insert k a t) k' = table_get t k';
  as_array_clear a l : as_array a = Some l → as_array (array_clear a) = Some [];
  as_array_push t a l : as_array a = Some l →
    ∃ v t', as_array (array_push t a) = Some (l ++ [v]) ∧
      as_inline_table v = Some t' ∧ table_equiv t t';
}.
#[export] Existing Instance item_equiv_refl.

(** ** Files *)

(** The content of the files, those that cannot be opened for writing, and the
    room on the disk ([None]: enough). *)
Record Fs := mk_fs {
  fs_files : gmap string string;
  fs_readonly : gset string;
  fs_room : option nat;
}.

(** [fs::read_to_string(path)] *)
Definition fs_read_to_string (fs : Fs) (path : string) : result string :=
  match fs_files fs !! path with
  | Some s => Ok s
  | None => Err "No such file or directory"
  end.

(** [OpenOptions::new().write(true).truncate(true).open(path)] *)
Definition fs_open_truncate (path : string) : M Fs unit := λ fs,
  match fs_files fs !! path with
  | None => (Err "No such file or directory", fs)
  | Some _ =>
      if bool_decide (path ∈ fs_readonly fs) then (Err "Permission denied", fs)
      else (Ok tt, mk_fs (<[path := ""]> (fs_files fs)) (fs_readonly fs) (fs_room fs))
  end.

(** [write!] to the file just truncated: what does not fit is not written. *)
Definition fs_write (path output : string) : M Fs unit := λ fs,
  let put s := mk_fs (<[path := s]> (fs_files fs)) (fs_readonly fs) in
  match fs_room fs with
  | None => (Ok tt, put output None)
  | Some n =>
      if (String.length output <=? n)%nat then (Ok tt, put output (Some (n - String.length output)%nat))
      else (Err "No space left on device", put (String.substring 0 n output) (Some O))
  end.

(** ** The options *)
Definition CONFIG_INGEST_ADDRESS : string := "ingest_address".
Definition CONFIG_PUBLISH_ADDRESS : string := "publish_address".
Definition CONFIG_GRAPHQL_ADDRESS : string := "graphql_address".
Definition CONFIG_RETENTION : string := "retention".
Definition CONFIG_MAX_OPEN_FILES : string := "max_open_files".
Definition CONFIG_MAX_MB_OF_LEVEL_BASE : string := "max_mb_of_level_base".
Definition CONFIG_PEER_ADDRESS : string := "peer_address".

(** [trait TomlPeers] *)
Class TomlPeers (T : Type) := {
  get_host_name : T → string;
  get_address : T → string;
}.

Module PeerList.
Record t := mk { address : string; host_name : string }.
End PeerList.
Notation PeerList := PeerList.t.
#[export] Instance PeerList_eq_dec : EqDecision PeerList.
Proof. solve_decision. Defined.

#[export] Instance PeerList_toml : TomlPeers PeerList := {|
  get_host_name := PeerList.host_name;
  get_address := PeerList.address;
|}.

Module GigantoConfig.
Record t := mk {
  ingest_address : string; publish_address : string; graphql_address : string;
  retention : string; max_open_files : string; max_mb_of_level_base : string;
  peer_address : string; peer_list : list PeerList }.
End GigantoConfig.
Notation GigantoConfig := GigantoConfig.t.
#[export] Instance GigantoConfig_eq_dec : EqDecision GigantoConfig.
Proof. solve_decision. Defined.

Module UserConfig.
Record t := mk {
  ingest_address : option string; publish_address : option string;
  graphql_address : option string; retention : option string;
  max_open_files : option string; max_mb_of_level_base : option string;
  peer_address : option string; peer_list : option (list PeerList) }.
End UserConfig.
Notation UserConfig := UserConfig.t.

(** ** Reading and writing the file *)
Section config.
Context `{TomlEdit}.

Definition read_toml_file (fs : Fs) (path : string) : result Document :=
  toml ← map_err "toml not found" (fs_read_to_string fs path);
  toml_parse toml.

Definition write_toml_file (doc : Document) (path : string) : M Fs unit :=
  let output := toml_to_string doc in
  fs_open_truncate path ;;;
  fs_write path (output +:+ newline).

Definition parse_toml_element (key : string) (doc : Document) : result string :=
  match doc_get doc key with
  | None => Err (key +:+ " not found.")
  | Some item =>
      match as_str item with
      | None => Err ("parse failed: " +:+ key +:+ "'s format is not available.")
      | Some value => Ok value
      end
  end.

Definition insert_toml_element (key : string) (input : option string) (doc : Document) : Document :=
  match input with
  | Some element => doc_set key (value element) doc
  | None => doc
  end.

(** One round of the loop over the peers: [array.push(table)] *)
Definition push_toml_peer {T} `{TomlPeers T} (peer : T) : M Document unit := λ doc,
  match as_value (value (get_address peer)), as_value (value (get_host_name peer)) with
  | Some address, Some host_name =>
      let table := table_insert "host_name" host_name (table_insert "address" address table_new) in
      (Ok tt, match doc_get doc "peers" with
              | Some array => doc_set "peers" (array_push table array) doc
              | None => doc
              end)
  | _, _ => (Err "insert failed: peer's address/hostname option not found.", doc)
  end.

Definition insert_toml_peers {T} `{TomlPeers T} (input : option (list T)) : M Document unit := λ doc,
  match input with
  | None => (Ok tt, doc)
  | Some peer_list =>
      match doc_get doc "peers" with
      | None => (Err "insert failed: peers option not found", doc)
      | Some item =>
          match as_array item with
          | None => (Err "insert failed: peers option not found", doc)
          | Some _ => m_iter push_toml_peer peer_list (doc_set "peers" (array_clear item) doc)
          end
      end
  end.

(** ** [giganto_config] *)

(** One element of [peers]; what is not an inline table is passed over. *)
Definition read_peer (peer : Item) : result (option PeerList) :=
  match as_inline_table peer with
  | None => Ok None
  | Some peer_data =>
      match table_get peer_data "address", table_get peer_data "host_name" with
      | Some address_val, Some host_name_val =>
          match as_str address_val, as_str host_name_val with
          | Some address, Some host_name => Ok (Some (PeerList.mk address host_name))
          | _, _ => Err "Invalid address/hostname String format"
          end
      | _, _ => Err "Invalid address/hostname Value format"
      end
  end.

Fixpoint read_peers (peers_value : list Item) : result (list PeerList) :=
  match peers_value with
  | [] => Ok []
  | peer :: rest =>
      o ← read_peer peer;
      l ← read_peers rest;
      Ok (match o with Some p => p :: l | None => l end)
  end.

Definition config_of_doc (doc : Document) : result GigantoConfig :=
  ingest_address ← parse_toml_element CONFIG_INGEST_ADDRESS doc;
  publish_address ← parse_toml_element CONFIG_PUBLISH_ADDRESS doc;
  graphql_address ← parse_toml_element CONFIG_GRAPHQL_ADDRESS doc;
  retention ← parse_toml_element CONFIG_RETENTION doc;
  max_open_files ← parse_toml_element CONFIG_MAX_OPEN_FILES doc;
  max_mb_of_level_base ← parse_toml_element CONFIG_MAX_MB_OF_LEVEL_BASE doc;
  peer_address ← parse_toml_element CONFIG_PEER_ADDRESS doc;
  peers ← context "peers not found" (doc_get doc "peers");
  peers_value ← context "invalid peers format" (as_array peers);
  peer_list ← read_peers peers_value;
  Ok (GigantoConfig.mk ingest_address publish_address graphql_address retention
        max_open_files max_mb_of_level_base peer_address peer_list).

Definition giganto_config (cfg_path : string) (fs : Fs) : result GigantoConfig :=
  doc ← read_toml_file fs cfg_path;
  config_of_doc doc.

(** ** [set_giganto_config] *)

(** The files and how many reloads ([config_reload.notify_one()]) are under way. *)
Record ConfigState := mk_config_state { cs_fs : Fs; cs_reloads : nat }.

Definition on_fs {A} (m : M Fs A) : M ConfigState A := λ s,
  let '(r, fs) := m (cs_fs s) in (r, mk_config_state fs (cs_reloads s)).

Definition insert_toml_elements (field : UserConfig) (doc : Document) : Document :=
  let doc := insert_toml_element CONFIG_INGEST_ADDRESS (UserConfig.ingest_address field) doc in
  let doc := insert_toml_element CONFIG_PUBLISH_ADDRESS (UserConfig.publish_address field) doc in
  let doc := insert_toml_element CONFIG_GRAPHQL_ADDRESS (UserConfig.graphql_address field) doc in
  let doc := insert_toml_element CONFIG_RETENTION (UserConfig.retention field) doc in
  let doc := insert_toml_element CONFIG_MAX_OPEN_FILES (UserConfig.max_open_files field) doc in
  let doc := insert_toml_element CONFIG_MAX_MB_OF_LEVEL_BASE
    (UserConfig.max_mb_of_level_base field) doc in
  insert_toml_element CONFIG_PEER_ADDRESS (UserConfig.peer_address field) doc.

Definition set_giganto_config (cfg_path : string) (field : UserConfig) : M ConfigState string :=
  doc <-- (λ s, (read_toml_file (cs_fs s) cfg_path, s)) ;;
  let '(r, doc) := insert_toml_peers (UserConfig.peer_list field) (insert_toml_elements field doc) in
  m_lift r ;;;
  on_fs (write_toml_file doc cfg_path) ;;;
  λ s, (Ok "Done", mk_config_state (cs_fs s) (S (cs_reloads s))).
End config.

(** ** [Settings] (settings.rs) *)
Definition DEFAULT_INGEST_ADDRESS : string := "[::]:38370".
Definition DEFAULT_PUBLISH_ADDRESS : string := "[::]:38371".
Definition DEFAULT_GRAPHQL_ADDRESS : string := "[::]:8443".
Definition DEFAULT_INVALID_PEER_ADDRESS : string := "254.254.254.254:38383".

Definition deserialize_socket_addr (addr : string) : result SocketAddr :=
  match parse_socket_addr addr with
  | Ok a => Ok a
  | Err e => Err ("invalid address " +:+ addr +:+ ": " +:+ e)
  end.

Definition deserialize_peer_addr (addr : option string) : result (option SocketAddr) :=
  match addr with
  | None => Ok None
  | Some addr =>
      if bool_decide (addr = DEFAULT_INVALID_PEER_ADDRESS) || bool_decide (addr = "") then Ok None
      else Some <$> deserialize_socket_addr addr
  end.

(** The fields of [Settings] that are not options, and the keys for which the
    builder has a default. *)
Definition settings_fields : list string :=
  ["cert"; "key"; "roots"; "ingest_address"; "publish_address"; "data_dir"; "retention";
   "graphql_address"; "log_dir"; "export_dir"; "max_open_files"; "max_mb_of_level_base";
   "cfg_path"; "peer_address"].
Definition default_keys : list string :=
  ["cert"; "key"; "ingest_address"; "publish_address"; "graphql_address"; "data_dir";
   "retention"; "log_path"; "export_path"; "max_open_files"; "max_mb_of_level_base";
   "cfg_path"; "peer_address"].
(** What the configuration file has to define *)
Definition required_keys : list string := filter (λ k, k ∉ default_keys) settings_fields.
