(* ===== verification/ConfigSpec.v ===== *)
(** * What the configuration queries guarantee

    A changed option is read back, the other options stay; a change that fails
    leaves the file as it was, unless the disk is full.  The instance
    [tree_toml] meets the laws of [TomlEdit]. *)

From Stdlib Require Import ZArith Lia Ascii.
From S2P Require Import Prelude NetAddr SocketAddr Config.

Lemma result_bind_ext {A B} (r r' : result A) (f f' : A → result B) :
  r = r' → (∀ a, f a = f' a) → r ≫= f = r' ≫= f'.
Proof. intros -> Hf. destruct r'; [apply Hf|done]. Qed.

(** ** Documents that show the same *)
Section equiv.
Context `{TomlEditLaws}.

Definition doc_equiv (d d' : Document) : Prop :=
  ∀ k, option_Forall2 item_equiv (doc_get d k) (doc_get d' k).

#[export] Instance doc_equiv_refl : Reflexive doc_equiv.
Proof. intros d k. destruct (doc_get d k); by constructor. Qed.

#[export] Instance parse_toml_element_proper key :
  Proper (doc_equiv ==> (=)) (parse_toml_element key).
Proof.
  intros d d' Hd. unfold parse_toml_element. destruct (Hd key) as [a b Hab|]; [|done].
  by rewrite (as_str_equiv a b Hab).
Qed.

Lemma table_str_equiv t u k :
  table_equiv t u → option_Forall2 item_equiv (table_get t k) (table_get u k).
Proof. intros Ht. apply Ht. Qed.

Lemma read_peer_tables t u a b :
  as_inline_table a = Some t → as_inline_table b = Some u → table_equiv t u →
  read_peer a = read_peer b.
Proof.
  intros Ha Hb Ht. unfold read_peer. rewrite Ha, Hb.
  destruct (Ht "address") as [x y Hxy|]; [|done].
  destruct (Ht "host_name") as [v w Hvw|]; [|done].
  by rewrite (as_str_equiv x y Hxy), (as_str_equiv v w Hvw).
Qed.

#[export] Instance read_peer_proper : Proper (item_equiv ==> (=)) read_peer.
Proof.
  intros a b Hab. pose proof (as_inline_table_equiv a b Hab) as Ht.
  destruct (as_inline_table a) as [t|] eqn:Ea, (as_inline_table b) as [u|] eqn:Eb; inversion Ht; subst.
  - by eapply read_peer_tables.
  - unfold read_peer. by rewrite Ea, Eb.
Qed.

#[export] Instance read_peers_proper : Proper (Forall2 item_equiv ==> (=)) read_peers.
Proof.
  intros l l' Hl. induction Hl as [|a b l l' Hab Hl IH]; [done|].
  cbn [read_peers]. by rewrite Hab, IH.
Qed.

#[export] Instance config_of_doc_proper : Proper (doc_equiv ==> (=)) config_of_doc.
Proof.
  intros d d' Hd. unfold config_of_doc.
  do 7 (apply result_bind_ext; [by apply parse_toml_element_proper|intros ?]).
  destruct (Hd "peers") as [x y Hab|]; [|done]. cbn [context mbind result_bind].
  destruct (as_array_equiv x y Hab) as [l l' Hl|]; [|done]. cbn [context mbind result_bind].
  by rewrite (read_peers_proper _ _ Hl).
Qed.
End equiv.

(** ** What an insertion does to the options *)
Section insert.
Context `{TomlEditLaws}.

Lemma insert_element_get key k input doc :
  key ≠ k → doc_get (insert_toml_element key input doc) k = doc_get doc k.
Proof. intros Hk. destruct input; [by apply doc_get_set_ne|done]. Qed.

Lemma parse_of_get key (d d' : Document) :
  doc_get d key = doc_get d' key → parse_toml_element key d = parse_toml_element key d'.
Proof. intros E. unfold parse_toml_element. by rewrite E. Qed.

Lemma insert_element_parse key input doc :
  parse_toml_element key (insert_toml_element key input doc) =
  match input with Some e => Ok e | None => parse_toml_element key doc end.
Proof.
  destruct input as [e|]; [|done]. unfold parse_toml_element. cbn.
  by rewrite doc_get_set, as_str_value.
Qed.

Lemma insert_element_parse_ne key key' input doc :
  key' ≠ key →
  parse_toml_element key (insert_toml_element key' input doc) = parse_toml_element key doc.
Proof. intros Hk. by apply parse_of_get, insert_element_get. Qed.

Definition peer_entry {T} `{TomlPeers T} (p : T) : PeerList :=
  PeerList.mk (get_address p) (get_host_name p).

(** An element of the array [peers] that shows a peer *)
Definition shows_peer (p : PeerList) (v : Item) : Prop :=
  ∃ t x y, as_inline_table v = Some t ∧ table_get t "address" = Some x ∧ table_get t "host_name" = Some y ∧
    as_str x = Some (PeerList.address p) ∧ as_str y = Some (PeerList.host_name p).

#[export] Instance shows_peer_proper p : Proper (item_equiv ==> impl) (shows_peer p).
Proof.
  intros v v' Hv (t & x & y & Ht & Hx & Hy & Hax & Hay).
  pose proof (as_inline_table_equiv v v' Hv) as E. rewrite Ht in E.
  destruct (as_inline_table v') as [t'|] eqn:Ht'; inversion E as [? ? Heq|]; subst.
  pose proof (Heq "address") as Ex. pose proof (Heq "host_name") as Ey. rewrite Hx in Ex. rewrite Hy in Ey.
  inversion Ex as [? x' Hxx Ex1 Ex2|]; inversion Ey as [? y' Hyy Ey1 Ey2|]; subst.
  exists t', x', y'. by rewrite <- (as_str_equiv _ _ Hxx), <- (as_str_equiv _ _ Hyy).
Qed.
Lemma shows_peers_equiv ps l l' :
  Forall2 item_equiv l l' → Forall2 shows_peer ps l → Forall2 shows_peer ps l'.
Proof.
  intros Hl Hs. revert l' Hl. induction Hs as [|p v ps l Hp Hs IH]; intros l' Hl; inversion Hl; subst; [done|].
  constructor; [by eapply shows_peer_proper|by apply IH].
Qed.
Lemma shown_peers_read ps l : Forall2 shows_peer ps l → read_peers l = Ok ps.
Proof.
  induction 1 as [|p v ps l (t & x & y & Ht & Hx & Hy & Hax & Hay) _ IH]; [done|]. cbn [read_peers].
  unfold read_peer. rewrite Ht, Hx, Hy, Hax, Hay, IH. by destruct p.
Qed.

(** What [peers] shows after some peers have been pushed *)
Definition peers_are (doc0 : Document) (ps : list PeerList) (doc : Document) : Prop :=
  (∀ k, k ≠ "peers" → doc_get doc k = doc_get doc0 k) ∧
  ∃ a l, doc_get doc "peers" = Some a ∧ as_array a = Some l ∧ Forall2 shows_peer ps l.

Lemma push_toml_peer_ok {T} `{TomlPeers T} (p : T) doc0 ps doc :
  peers_are doc0 ps doc →
  ∃ doc', push_toml_peer p doc = (Ok tt, doc') ∧ peers_are doc0 (ps ++ [peer_entry p]) doc'.
Proof.
  intros (Hfr & a & l & Ha & Hl & Hr). unfold push_toml_peer.
  rewrite !as_value_value, Ha. eexists. split; [done|]. split.
  { intros k Hk. rewrite doc_get_set_ne by done. by apply Hfr. }
  set (t := table_insert "host_name" _ _).
  destruct (as_array_push t a l Hl) as (v & t' & Hpush & Hv & Ht).
  eexists _, _. split; [apply doc_get_set|]. split; [exact Hpush|].
  apply Forall2_app; [done|]. constructor; [|done].
  assert (table_get t "address" = Some (value (get_address p))) as Haddr
    by (unfold t; rewrite table_get_insert_ne, table_get_insert by done; done).
  assert (table_get t "host_name" = Some (value (get_host_name p))) as Hhost
    by (apply table_get_insert).
  pose proof (Ht "address") as E1. pose proof (Ht "host_name") as E2.
  rewrite Haddr in E1. rewrite Hhost in E2. inversion E1 as [? x Hx|]; inversion E2 as [? y Hy|].
  exists t', x, y. by rewrite <- (as_str_equiv _ _ Hx), <- (as_str_equiv _ _ Hy), !as_str_value.
Qed.

Lemma insert_toml_peers_ok {T} `{TomlPeers T} (ps : list T) doc a l :
  doc_get doc "peers" = Some a → as_array a = Some l →
  ∃ doc', insert_toml_peers (Some ps) doc = (Ok tt, doc') ∧
    peers_are doc (peer_entry <$> ps) doc'.
Proof.
  intros Ha Hl. unfold insert_toml_peers. rewrite Ha, Hl.
  apply (m_iter_inv _ (λ done, peers_are doc (peer_entry <$> done))).
  - intros done_ p rest s _ Hs. rewrite fmap_app. by apply push_toml_peer_ok.
  - split; [intros k Hk; by apply doc_get_set_ne|].
    eexists _, _. split; [apply doc_get_set|]. split; [by eapply as_array_clear|constructor].
Qed.

(** What a peer list leaves in the document when it is inserted *)
Lemma insert_toml_peers_done ps doc doc' :
  insert_toml_peers (Some ps) doc = (Ok tt, doc') → peers_are doc ps doc'.
Proof.
  intros Hi. assert (peer_entry <$> ps = ps) as Hps
    by (clear Hi; induction ps as [|[a h] l IH]; [done|]; by rewrite fmap_cons, IH).
  pose proof Hi as Hi'. unfold insert_toml_peers in Hi'.
  destruct (doc_get doc "peers") as [a|] eqn:Ha; [|done]. destruct (as_array a) as [l|] eqn:Hl; [|done].
  destruct (insert_toml_peers_ok ps doc a l Ha Hl) as (doc1 & Hi1 & Hp). rewrite Hi in Hi1.
  injection Hi1 as <-. by rewrite Hps in Hp.
Qed.
End insert.

(** ** Reading and writing *)
Section file.
Context `{TomlEditLaws}.

Lemma config_of_doc_ok (doc : Document) c :
  config_of_doc doc = Ok c ↔
  parse_toml_element CONFIG_INGEST_ADDRESS doc = Ok (GigantoConfig.ingest_address c) ∧
  parse_toml_element CONFIG_PUBLISH_ADDRESS doc = Ok (GigantoConfig.publish_address c) ∧
  parse_toml_element CONFIG_GRAPHQL_ADDRESS doc = Ok (GigantoConfig.graphql_address c) ∧
  parse_toml_element CONFIG_RETENTION doc = Ok (GigantoConfig.retention c) ∧
  parse_toml_element CONFIG_MAX_OPEN_FILES doc = Ok (GigantoConfig.max_open_files c) ∧
  parse_toml_element CONFIG_MAX_MB_OF_LEVEL_BASE doc = Ok (GigantoConfig.max_mb_of_level_base c) ∧
  parse_toml_element CONFIG_PEER_ADDRESS doc = Ok (GigantoConfig.peer_address c) ∧
  ∃ a l, doc_get doc "peers" = Some a ∧ as_array a = Some l ∧
    read_peers l = Ok (GigantoConfig.peer_list c).
Proof.
  unfold config_of_doc. split.
  - intros Hc.
    do 7 (match type of Hc with (?r ≫= _) = _ => destruct r eqn:?; [|done] end;
          cbn [mbind result_bind] in Hc).
    destruct (doc_get doc "peers") as [item|]; [|done]. cbn [context mbind result_bind] in Hc.
    destruct (as_array item) as [l|] eqn:Hl; [|done]. cbn [context mbind result_bind] in Hc.
    destruct (read_peers l) as [ps|] eqn:Hps; [|done]. cbn [mbind result_bind] in Hc.
    injection Hc as <-. naive_solver.
  - intros (-> & -> & -> & -> & -> & -> & -> & a & l & -> & Hl & Hr).
    cbn [context mbind result_bind]. rewrite Hl. cbn [context mbind result_bind]. rewrite Hr.
    by destruct c.
Qed.

Lemma write_toml_file_ok doc path fs :
  is_Some (fs_files fs !! path) → path ∉ fs_readonly fs → fs_room fs = None →
  write_toml_file doc path fs =
    (Ok tt, mk_fs (<[path := toml_to_string doc +:+ newline]> (fs_files fs)) (fs_readonly fs) None).
Proof.
  intros [x Hx] Hro Hroom. unfold write_toml_file, m_bind, fs_open_truncate.
  rewrite Hx, bool_decide_eq_false_2 by done. unfold fs_write. cbn.
  by rewrite Hroom, insert_insert_eq.
Qed.

(** A failed write changes nothing, or the disk is full. *)
Lemma write_toml_file_err doc path fs e fs' :
  write_toml_file doc path fs = (Err e, fs') →
  fs' = fs ∨ ∃ n, fs_room fs = Some n ∧ (n < String.length (toml_to_string doc +:+ newline))%nat ∧
    fs_files fs' = <[path := String.substring 0 n (toml_to_string doc +:+ newline)]> (fs_files fs).
Proof.
  unfold write_toml_file, m_bind, fs_open_truncate.
  destruct (fs_files fs !! path) as [x|]; [|naive_solver].
  case_bool_decide; [naive_solver|]. unfold fs_write. cbn [fs_room fs_files fs_readonly].
  destruct (fs_room fs) as [n|]; [|done].
  destruct (Nat.leb_spec (String.length (toml_to_string doc +:+ newline)) n); [done|].
  intros [= _ <-]. right. exists n. cbn. by rewrite insert_insert_eq.
Qed.

(** What was written is read back, up to the layout. *)
Lemma read_written doc path fs fs' :
  write_toml_file doc path fs = (Ok tt, fs') → fs_room fs = None →
  ∃ doc', read_toml_file fs' path = Ok doc' ∧ doc_equiv doc doc'.
Proof.
  unfold write_toml_file, m_bind, fs_open_truncate. intros Hw Hroom. revert Hw.
  destruct (fs_files fs !! path) as [x|]; [|done]. case_bool_decide; [done|].
  unfold fs_write. cbn [fs_room fs_files]. rewrite Hroom. intros [= <-].
  destruct (toml_roundtrip doc) as (d' & Hp & Heq). exists d'. split; [|done].
  unfold read_toml_file, fs_read_to_string. cbn [fs_files]. by rewrite lookup_insert_eq.
Qed.

(** *** The options of the user over those of the file *)
Definition apply_user_config (field : UserConfig) (c : GigantoConfig) : GigantoConfig :=
  GigantoConfig.mk
    (default (GigantoConfig.ingest_address c) (UserConfig.ingest_address field))
    (default (GigantoConfig.publish_address c) (UserConfig.publish_address field))
    (default (GigantoConfig.graphql_address c) (UserConfig.graphql_address field))
    (default (GigantoConfig.retention c) (UserConfig.retention field))
    (default (GigantoConfig.max_open_files c) (UserConfig.max_open_files field))
    (default (GigantoConfig.max_mb_of_level_base c) (UserConfig.max_mb_of_level_base field))
    (default (GigantoConfig.peer_address c) (UserConfig.peer_address field))
    (default (GigantoConfig.peer_list c) (UserConfig.peer_list field)).

Lemma insert_elements_get field k doc :
  k ∉ [CONFIG_INGEST_ADDRESS; CONFIG_PUBLISH_ADDRESS; CONFIG_GRAPHQL_ADDRESS; CONFIG_RETENTION;
       CONFIG_MAX_OPEN_FILES; CONFIG_MAX_MB_OF_LEVEL_BASE; CONFIG_PEER_ADDRESS] →
  doc_get (insert_toml_elements field doc) k = doc_get doc k.
Proof.
  intros Hk. repeat (apply not_elem_of_cons in Hk as [? Hk]).
  unfold insert_toml_elements. by rewrite !insert_element_get by done.
Qed.

(** The changed document shows the changed options. *)
Lemma insert_config doc c field :
  config_of_doc doc = Ok c →
  ∃ doc', insert_toml_peers (UserConfig.peer_list field) (insert_toml_elements field doc) = (Ok tt, doc') ∧
    config_of_doc doc' = Ok (apply_user_config field c).
Proof.
  intros Hc. apply config_of_doc_ok in Hc as (H1 & H2 & H3 & H4 & H5 & H6 & H7 & a & l & Ha & Hl & Hr).
  set (doc1 := insert_toml_elements field doc).
  assert (doc_get doc1 "peers" = Some a) as Ha1.
  { unfold doc1. rewrite insert_elements_get; [done|]. apply (bool_decide_unpack _). by vm_compute. }
  assert (∃ doc', insert_toml_peers (UserConfig.peer_list field) doc1 = (Ok tt, doc') ∧
    (∀ k, k ≠ "peers" → doc_get doc' k = doc_get doc1 k) ∧
    ∃ a l, doc_get doc' "peers" = Some a ∧ as_array a = Some l ∧
      read_peers l = Ok (default (GigantoConfig.peer_list c) (UserConfig.peer_list field)))
    as (doc' & Hins & Hfr & Hpeers).
  { destruct (UserConfig.peer_list field) as [ps|]; cbn [default].
    - destruct (insert_toml_peers_ok ps doc1 a l Ha1 Hl) as (doc' & Hi & _). exists doc'. split; [done|].
      destruct (insert_toml_peers_done ps doc1 doc' Hi) as (Hfr & a' & l' & ? & ? & ?%shown_peers_read).
      split; [done|]. by exists a', l'.
    - exists doc1. split; [done|]. split; [done|]. eauto. }
  exists doc'. split; [done|]. apply config_of_doc_ok.
  repeat match goal with |- _ ∧ _ => split end; [..|exact Hpeers];
    (etrans; [apply parse_of_get, Hfr; done|]); unfold doc1, insert_toml_elements;
    repeat (rewrite insert_element_parse_ne by done); rewrite insert_element_parse;
    repeat (rewrite insert_element_parse_ne by done); cbn [apply_user_config
      GigantoConfig.ingest_address GigantoConfig.publish_address GigantoConfig.graphql_address
      GigantoConfig.retention GigantoConfig.max_open_files GigantoConfig.max_mb_of_level_base
      GigantoConfig.peer_address]; case_match; done.
Qed.
End file.

(** ** An instance: documents as trees *)
Module Tree.
Notation tree := (gen_tree string).

(** A table is the list of its keys and values; an array is a node tagged 0, an
    inline table one tagged 1, any other tag is a value of another type. *)
Fixpoint get (l : list tree) (k : string) : option tree :=
  match l with
  | GenLeaf k' :: v :: l => if String.eqb k k' then Some v else get l k
  | _ => None
  end.

Fixpoint bits (p : positive) : string :=
  match p with
  | xH => ""
  | xO p => String "0"%char (bits p)
  | xI p => String "1"%char (bits p)
  end.
Fixpoint of_bits (s : string) : positive :=
  match s with
  | String "0"%char s => xO (of_bits s)
  | String "1"%char s => xI (of_bits s)
  | _ => xH
  end.

Lemma of_bits_bits p : of_bits (bits p +:+ newline) = p.
Proof.
  induction p as [p IH|p IH|].
  - change (xI (of_bits (bits p +:+ newline)) = xI p). by rewrite IH.
  - change (xO (of_bits (bits p +:+ newline)) = xO p). by rewrite IH.
  - done.
Qed.

Definition parse (s : string) : result (list tree) := context "TOML parse error" (decode (of_bits s)).
End Tree.

#[export] Instance tree_toml : TomlEdit := {|
  Document := list (gen_tree string);
  Item := gen_tree string;
  InlineTable := list (gen_tree string);
  toml_parse := Tree.parse;
  toml_to_string d := Tree.bits (encode d);
  doc_get := Tree.get;
  doc_set k v d := GenLeaf k :: v :: d;
  as_str v := match v with GenLeaf s => Some s | _ => None end;
  as_array v := match v with GenNode 0 l => Some l | _ => None end;
  as_inline_table v := match v with GenNode 1 l => Some l | _ => None end;
  as_value := Some;
  value := GenLeaf;
  table_new := [];
  table_get := Tree.get;
  table_insert k v t := GenLeaf k :: v :: t;
  array_clear v := match v with GenNode 0 _ => GenNode 0 [] | _ => v end;
  array_push t v := match v with GenNode 0 l => GenNode 0 (l ++ [GenNode 1 t]) | _ => v end;
|}.

#[export] Program Instance tree_toml_laws : TomlEditLaws := {| item_equiv := (=) |}.
Next Obligation. by intros a b ->. Qed.
Next Obligation. intros a b ->. destruct (as_array b); by constructor. Qed.
Next Obligation.
  intros a b ->. destruct (as_inline_table b); constructor. intros k.
  destruct (table_get _ k); by constructor.
Qed.
Next Obligation.
  intros d. exists d. split.
  - cbn. unfold Tree.parse. by rewrite Tree.of_bits_bits, decode_encode.
  - intros k. destruct (doc_get d k); by constructor.
Qed.
Next Obligation. intros k a d. cbn. by rewrite String.eqb_refl. Qed.
Next Obligation. intros k k' a d Hk. cbn. by destruct (String.eqb_spec k' k) as [->|]. Qed.
Next Obligation. done. Qed.
Next Obligation. done. Qed.
Next Obligation. intros k a d. cbn. by rewrite String.eqb_refl. Qed.
Next Obligation. intros k k' a d Hk. cbn. by destruct (String.eqb_spec k' k) as [->|]. Qed.
Next Obligation. by intros [?|[|?] ?] l0. Qed.
Next Obligation.
  intros t [?|[|?] ?] l0 [= <-]. cbn. eexists _, t. split; [done|]. split; [done|].
  intros k. destruct (Tree.get t k); by constructor.
Qed.

(** A configuration file *)
Definition demo_doc : Document (TomlEdit := tree_toml) :=
  [GenLeaf "ingest_address"; GenLeaf "0.0.0.0:38370"; GenLeaf "publish_address";
   GenLeaf "0.0.0.0:38371"; GenLeaf "graphql_address"; GenLeaf "127.0.0.1:8443";
   GenLeaf "retention"; GenLeaf "100d"; GenLeaf "max_open_files"; GenLeaf "8000";
   GenLeaf "max_mb_of_level_base"; GenLeaf "512"; GenLeaf "peer_address"; GenLeaf "";
   GenLeaf "peers"; GenNode 0 []].
Definition demo_config : GigantoConfig :=
  GigantoConfig.mk "0.0.0.0:38370" "0.0.0.0:38371" "127.0.0.1:8443" "100d" "8000" "512" "" [].
Definition demo_fs : Fs :=
  mk_fs {[ "config.toml" := toml_to_string (TomlEdit := tree_toml) demo_doc +:+ newline ]} ∅ None.
Definition demo_field : UserConfig :=
  UserConfig.mk None None None (Some "30d") None None (Some "10.0.0.1:38383")
    (Some [PeerList.mk "10.0.0.2:38383" "node2"]).

(** The README writes [max_open_files] as a number. *)
Definition readme_doc : Document (TomlEdit := tree_toml) :=
  GenLeaf "max_open_files" :: GenNode 2 [] :: demo_doc.

Example demo_config_read : giganto_config "config.toml" demo_fs = Ok demo_config.
Proof. vm_compute. reflexivity. Qed.

(** ** The properties *)
Section properties.
Context `{TomlEditLaws}.

(** On a configuration that can be read, and written, the query succeeds. *)
Lemma set_config_done path field s c :
  giganto_config path (cs_fs s) = Ok c →
  path ∉ fs_readonly (cs_fs s) → fs_room (cs_fs s) = None →
  ∃ doc', config_of_doc doc' = Ok (apply_user_config field c) ∧
    write_toml_file doc' path (cs_fs s) =
      (Ok tt, mk_fs (<[path := toml_to_string doc' +:+ newline]> (fs_files (cs_fs s)))
        (fs_readonly (cs_fs s)) None) ∧
    set_giganto_config path field s = (Ok "Done", mk_config_state
      (mk_fs (<[path := toml_to_string doc' +:+ newline]> (fs_files (cs_fs s)))
        (fs_readonly (cs_fs s)) None) (S (cs_reloads s))).
Proof.
  unfold giganto_config. intros Hc Hro Hroom.
  destruct (read_toml_file (cs_fs s) path) as [doc|] eqn:Hread; [|done].
  cbn [mbind result_bind] in Hc.
  destruct (insert_config doc c field Hc) as (doc' & Hins & Hc').
  assert (is_Some (fs_files (cs_fs s) !! path)) as Hex.
  { revert Hread. unfold read_toml_file, fs_read_to_string.
    destruct (fs_files (cs_fs s) !! path); [eauto|done]. }
  pose proof (write_toml_file_ok doc' path (cs_fs s) Hex Hro Hroom) as Hw.
  exists doc'. split; [done|]. split; [done|].
  unfold set_giganto_config, m_bind. rewrite Hread, Hins. unfold m_lift, on_fs. by rewrite Hw.
Qed.

(** C22: After [set_giganto_config] the query [giganto_config] returns the
    configuration it returned before with exactly the given options replaced,
    the peer list included; no other file changes and one reload is
    scheduled. *)
Theorem config_set_get path field s c :
  giganto_config path (cs_fs s) = Ok c →
  path ∉ fs_readonly (cs_fs s) → fs_room (cs_fs s) = None →
  ∃ s', set_giganto_config path field s = (Ok "Done", s') ∧
    giganto_config path (cs_fs s') = Ok (apply_user_config field c) ∧
    cs_reloads s' = S (cs_reloads s) ∧
    ∀ p, p ≠ path → fs_files (cs_fs s') !! p = fs_files (cs_fs s) !! p.
Proof.
  intros Hc Hro Hroom. destruct (set_config_done path field s c Hc Hro Hroom) as (doc' & Hc' & Hw & Hset).
  eexists. split; [exact Hset|]. cbn [cs_fs cs_reloads fs_files]. split_and!; [|done|].
  - destruct (read_written _ _ _ _ Hw Hroom) as (doc'' & Hr & Heq). unfold giganto_config. rewrite Hr.
    cbn [mbind result_bind]. by rewrite <- (config_of_doc_proper _ _ Heq).
  - intros p Hp. by rewrite lookup_insert_ne.
Qed.

(** C38: When [set_giganto_config] fails no reload is scheduled and every file
    is as it was; the one exception is a full disk, which leaves the truncated
    configuration file with the part of the new text that fits. *)
Theorem config_set_error path field s e s' :
  set_giganto_config path field s = (Err e, s') →
  cs_reloads s' = cs_reloads s ∧
  (cs_fs s' = cs_fs s ∨
   ∃ n out, fs_room (cs_fs s) = Some n ∧ (n < String.length out)%nat ∧
     fs_files (cs_fs s') = <[path := String.substring 0 n out]> (fs_files (cs_fs s))).
Proof.
  unfold set_giganto_config, m_bind.
  destruct (read_toml_file (cs_fs s) path) as [doc|]; [|intros [= _ <-]; auto].
  destruct (insert_toml_peers _ _) as [[[]|e1] doc']; unfold m_lift; [|intros [= _ <-]; auto].
  unfold on_fs. destruct (write_toml_file doc' path (cs_fs s)) as [[[]|e1] fs'] eqn:Hw; [done|].
  intros [= _ <-]. cbn. split; [done|].
  destruct (write_toml_file_err _ _ _ _ _ Hw) as [->|(n & ? & ? & ?)]; [by left|].
  right. by eexists n, _.
Qed.

(** A configuration file in which [max_open_files] is a number, as in the
    README and in tests/config.toml, cannot be queried. *)
Theorem config_number_refused path fs doc item :
  read_toml_file fs path = Ok doc →
  doc_get doc CONFIG_MAX_OPEN_FILES = Some item → as_str item = None →
  ∃ e, giganto_config path fs = Err e.
Proof.
  intros Hr Hg Hs. unfold giganto_config. rewrite Hr. cbn [mbind result_bind].
  destruct (config_of_doc doc) as [c|e] eqn:Hc; [|by exists e].
  apply config_of_doc_ok in Hc as (_ & _ & _ & _ & H5 & _).
  unfold parse_toml_element in H5. by rewrite Hg, Hs in H5.
Qed.
End properties.

Lemma config_set_get_witness :
  ∃ s', set_giganto_config "config.toml" demo_field (mk_config_state demo_fs 0) = (Ok "Done", s') ∧
    giganto_config "config.toml" (cs_fs s') = Ok (apply_user_config demo_field demo_config).
Proof.
  destruct (config_set_get "config.toml" demo_field (mk_config_state demo_fs 0) demo_config)
    as (s' & Hs & Hc & _); [vm_compute; reflexivity|concrete|reflexivity|].
  exists s'. split; [exact Hs|exact Hc].
Defined.

Definition full_disk : ConfigState :=
  mk_config_state (mk_fs (fs_files demo_fs) ∅ (Some 10%nat)) 0.
Lemma config_set_error_witness :
  cs_reloads (set_giganto_config "config.toml" demo_field full_disk).2 = 0%nat.
Proof.
  destruct (set_giganto_config "config.toml" demo_field full_disk) as [[x|e] s'] eqn:E.
  - exfalso. revert E. vm_compute. intros E. discriminate E.
  - exact (proj1 (config_set_error "config.toml" demo_field full_disk e s' E)).
Defined.

Lemma config_number_refused_witness :
  ∃ e, giganto_config "config.toml"
    (mk_fs {[ "config.toml" := toml_to_string (TomlEdit := tree_toml) readme_doc ]} ∅ None) = Err e.
Proof.
  apply (config_number_refused "config.toml" _ readme_doc (GenNode 2 [] : Item (TomlEdit := tree_toml)));
    [vm_compute; reflexivity|reflexivity|reflexivity].
Defined.
