(* ===== verification/Peer.v ===== *)
(** * The peer service (src/src/peer.rs)

    The nodes of a cluster keep a QUIC connection to each other, exchange the
    lists of peers and of the sources each collects from, dial the peers they
    learn of and save them in the configuration file.  This file translates the
    operations; [PeerRun] interleaves them as tasks. *)

From Stdlib Require Import ZArith Lia.
From S2P Require Import Prelude Bytes Externals NetAddr SocketAddr Config.

(** ** Data *)
Module PeerCode.
Inductive t := UpdatePeerList | UpdateSourceList.
End PeerCode.
Notation PeerCode := PeerCode.t.
#[export] Instance PeerCode_eq_dec : EqDecision PeerCode.
Proof. solve_decision. Defined.

(** [IntoPrimitive], [TryFromPrimitive] *)
Definition peer_code_u32 (c : PeerCode) : Z :=
  match c with PeerCode.UpdatePeerList => 0 | PeerCode.UpdateSourceList => 1 end.
Definition peer_code_try_from (n : Z) : option PeerCode :=
  if n =? 0 then Some PeerCode.UpdatePeerList
  else if n =? 1 then Some PeerCode.UpdateSourceList
  else None.

Module PeerInfo.
Record t := mk { address : SocketAddr; host_name : string }.
End PeerInfo.
Notation PeerInfo := PeerInfo.t.
#[export] Instance PeerInfo_eq_dec : EqDecision PeerInfo.
Proof. solve_decision. Defined.
#[export] Instance PeerInfo_countable : Countable PeerInfo.
Proof.
  refine (inj_countable' (λ p, (PeerInfo.address p, PeerInfo.host_name p))
    (λ x, PeerInfo.mk x.1 x.2) _).
  by intros [].
Defined.

#[export] Instance PeerInfo_toml : TomlPeers PeerInfo := {|
  get_host_name := PeerInfo.host_name;
  get_address p := socket_to_string (PeerInfo.address p);
|}.

(** The order in which a [HashSet] is iterated *)
Class HashOrder := { hash_iter : ∀ {A : Type} `{Countable A}, gset A → list A }.
Class HashOrderLaws `{HashOrder} : Prop := {
  hash_iter_perm : ∀ {A : Type} `{Countable A} (s : gset A), hash_iter s ≡ₚ elements s }.
#[export] Instance elements_order : HashOrder := {| hash_iter A _ _ s := elements s |}.
#[export] Instance elements_order_laws : HashOrderLaws.
Proof. split. by intros A ?? s. Qed.

(** giganto-client's [frame::send_raw] and [frame::recv_raw]: a payload with its
    length; [recv_raw] returns the payload and the rest of the stream. *)
Class Frame := {
  frame_raw : bytes → result bytes;
  recv_raw : bytes → result (bytes * bytes);
}.
Class FrameLaws `{Frame} : Prop :=
  frame_roundtrip b f rest : frame_raw b = Ok f → recv_raw (f ++ rest) = Ok (b, rest).

(** A QUIC connection: its number, the remote IP address and the common name of
    the remote certificate, which may be missing or invalid. *)
Record Connection := mk_connection {
  conn_id : nat;
  conn_ip : IpAddr;
  conn_subject : result string;
}.

#[export] Instance Connection_eq_dec : EqDecision Connection.
Proof. solve_decision. Defined.

(** What is sent by a spawned [update_peer_info] *)
Inductive PeerUpdate :=
| PeersUpdate (peers : gset PeerInfo)
| SourcesUpdate (sources : gset string).

(** [PeerConnInfo]: the tables the tasks of the service share.  The channel of
    [peer_sender] holds the peers to dial; it is closed once [Peer::run] has
    returned.  [n_closed] are the connections closed by this node, [n_spawned]
    the updates sent to connected peers. *)
Record Node := mk_node {
  n_peer_conn : gmap string Connection;
  n_peer_list : gset PeerInfo;
  n_sources : gset string;
  n_peer_sources : gmap string (gset string);
  n_peer_sender : list PeerInfo;
  n_receiver_open : bool;
  n_fs : Fs;
  n_closed : list nat;
  n_spawned : list (Connection * PeerUpdate);
}.

Definition set_peer_conn (m : gmap string Connection) (n : Node) : Node :=
  mk_node m (n_peer_list n) (n_sources n) (n_peer_sources n) (n_peer_sender n)
    (n_receiver_open n) (n_fs n) (n_closed n) (n_spawned n).
Definition set_peer_list (l : gset PeerInfo) (n : Node) : Node :=
  mk_node (n_peer_conn n) l (n_sources n) (n_peer_sources n) (n_peer_sender n)
    (n_receiver_open n) (n_fs n) (n_closed n) (n_spawned n).
Definition set_peer_sources (m : gmap string (gset string)) (n : Node) : Node :=
  mk_node (n_peer_conn n) (n_peer_list n) (n_sources n) m (n_peer_sender n)
    (n_receiver_open n) (n_fs n) (n_closed n) (n_spawned n).
Definition set_peer_sender (q : list PeerInfo) (n : Node) : Node :=
  mk_node (n_peer_conn n) (n_peer_list n) (n_sources n) (n_peer_sources n) q
    (n_receiver_open n) (n_fs n) (n_closed n) (n_spawned n).
Definition set_fs (fs : Fs) (n : Node) : Node :=
  mk_node (n_peer_conn n) (n_peer_list n) (n_sources n) (n_peer_sources n) (n_peer_sender n)
    (n_receiver_open n) fs (n_closed n) (n_spawned n).
Definition add_closed (id : nat) (n : Node) : Node :=
  mk_node (n_peer_conn n) (n_peer_list n) (n_sources n) (n_peer_sources n) (n_peer_sender n)
    (n_receiver_open n) (n_fs n) (n_closed n ++ [id]) (n_spawned n).
Definition spawn_updates (u : PeerUpdate) (n : Node) : Node :=
  mk_node (n_peer_conn n) (n_peer_list n) (n_sources n) (n_peer_sources n) (n_peer_sender n)
    (n_receiver_open n) (n_fs n) (n_closed n)
    (n_spawned n ++ ((λ conn, (conn, u)) <$> (map_to_list (n_peer_conn n)).*2)).

(** ** Streams *)

(** The bytes sent and how many more calls succeed ([None]: all); the bytes that
    can still be read. *)
Record Stream := mk_stream { st_sent : bytes; st_left : option nat; st_in : bytes }.

(** [frame::send_bytes] *)
Definition send_bytes (b : bytes) : M Stream unit := λ s,
  match st_left s with
  | None => (Ok tt, mk_stream (st_sent s ++ b) None (st_in s))
  | Some (S n) => (Ok tt, mk_stream (st_sent s ++ b) (Some n) (st_in s))
  | Some O => (Err "connection lost", s)
  end.

(** [frame::recv_bytes] into a buffer of [len] bytes *)
Definition recv_bytes (len : nat) : M Stream bytes := λ s,
  if (length (st_in s) <? len)%nat then (Err "stream finished early", s)
  else (Ok (take len (st_in s)), mk_stream (st_sent s) (st_left s) (drop len (st_in s))).

Section wire.
Context `{Frame}.

Definition recv_frame : M Stream bytes := λ s,
  match recv_raw (st_in s) with
  | Ok (b, rest) => (Ok b, mk_stream (st_sent s) (st_left s) rest)
  | Err e => (Err e, s)
  end.

Definition send_peer_data {T} `{Bincode T} (msg : PeerCode) (update_data : T) : M Stream unit :=
  send_bytes (u32_to_le_bytes (peer_code_u32 msg)) ;;;
  buf <-- m_lift (bincode_serialize update_data) ;;
  frame <-- m_lift (frame_raw buf) ;;
  send_bytes frame.

Definition receive_peer_data : M Stream (PeerCode * bytes) :=
  buf <-- recv_bytes 4 ;;
  msg_type <-- m_lift (context "unknown peer code" (peer_code_try_from (u32_from_le_bytes buf))) ;;
  buf <-- recv_frame ;;
  m_ret (msg_type, buf).

Definition request_init_info {T} `{Bincode T} (init_type : PeerCode) (init_data : T) : M Stream T :=
  send_peer_data init_type init_data ;;;
  received <-- receive_peer_data ;;
  m_lift (bincode_deserialize received.2).

Definition response_init_info {T} `{Bincode T} (init_type : PeerCode) (init_data : T) : M Stream T :=
  received <-- receive_peer_data ;;
  recv_init_data <-- m_lift (bincode_deserialize received.2) ;;
  send_peer_data init_type init_data ;;;
  m_ret recv_init_data.

(** On the stream [connection.open_bi()] gives, if it gives one *)
Definition update_peer_info {T} `{Bincode T} (opened : bool) (msg_type : PeerCode) (peer_data : T) :
    M Stream unit :=
  if opened then send_peer_data msg_type peer_data else m_lift (Err "Failed to send peer data").
End wire.

(** ** The tables *)

(** [certificate_info] (server.rs) on the common name: [agent@host] *)
Fixpoint split_at_sign (s : string) : string * option string :=
  match s with
  | EmptyString => (""%string, None)
  | String c s' =>
      if Ascii.eqb c (Ascii.ascii_of_nat 64) then (""%string, Some s')
      else let '(a, b) := split_at_sign s' in (String c a, b)
  end.
Definition certificate_info (subject : result string) : result (string * string) :=
  subject ← subject;
  match split_at_sign subject with
  | (agent, Some rest) => Ok (agent, (split_at_sign rest).1)
  | (_, None) => Err "the subject of the certificate is not valid"
  end.

Definition check_for_duplicate_connections (connection : Connection) : M Node (string * string) :=
  λ n,
    let remote_addr := ip_to_string (conn_ip connection) in
    match certificate_info (conn_subject connection) with
    | Err e => (Err e, n)
    | Ok (_, remote_host_name) =>
        match n_peer_conn n !! remote_host_name with
        | Some _ => (Err "Duplicated connection close", add_closed (conn_id connection) n)
        | None => (Ok (remote_addr, remote_host_name), n)
        end
    end.

Definition update_to_new_source_list (recv_source_list : gset string) (remote_addr : string)
    (n : Node) : Node :=
  set_peer_sources (<[remote_addr := recv_source_list]> (n_peer_sources n)) n.

(** What every task of the service has a copy of *)
Class PeerEnv `{TomlEdit} := {
  local_address : SocketAddr;
  local_host_name : string;
  (** the configuration file when the service was started *)
  config_doc : Document;
  config_path : string;
}.

Section tables.
Context `{PeerEnv} `{HashOrder}.

(** The condition under which a received peer is new *)
Definition is_new_peer (n : Node) (p : PeerInfo) : bool :=
  negb (bool_decide (socket_ip local_address = socket_ip (PeerInfo.address p)))
  && negb (bool_decide (p ∈ n_peer_list n)).

Definition insert_peer (p : PeerInfo) (n : Node) : Node :=
  set_peer_list ({[ p ]} ∪ n_peer_list n) n.

(** [sender.send(peer).await?] *)
Definition send_peer (p : PeerInfo) : M Node unit := λ n,
  if n_receiver_open n then (Ok tt, set_peer_sender (n_peer_sender n ++ [p]) n)
  else (Err "channel closed", n).

(** The loop over the received peers; the result tells if one was new. *)
Fixpoint learn_peers (recv_peer_list : list PeerInfo) (is_change : bool) : M Node bool :=
  match recv_peer_list with
  | [] => m_ret is_change
  | p :: rest => λ n,
      if is_new_peer n p then (send_peer p ;;; learn_peers rest true) (insert_peer p n)
      else learn_peers rest is_change n
  end.

(** The document that is written, and writing it; errors are logged. *)
Definition peers_doc (data : list PeerInfo) : Document :=
  (insert_toml_peers (Some data) config_doc).2.
Definition write_peers (data : list PeerInfo) (n : Node) : Node :=
  set_fs (write_toml_file (peers_doc data) config_path (n_fs n)).2 n.
Definition save_peers (n : Node) : Node := write_peers (hash_iter (n_peer_list n)) n.

Definition update_to_new_peer_list (recv_peer_list : gset PeerInfo) : M Node unit :=
  is_change <-- learn_peers (hash_iter recv_peer_list) false ;;
  if is_change then (λ n, (Ok tt, save_peers n)) else m_ret tt.

(** ** Requests of a connected peer *)
Context `{Frame} `{Bincode (gset PeerInfo)} `{Bincode (gset string)}
  `{Bincode (gset PeerInfo * gset string)}.

Definition handle_request (stream : Stream) (remote_addr : string) : M Node unit :=
  received <-- m_lift (receive_peer_data stream).1 ;;
  match received with
  | (PeerCode.UpdatePeerList, msg_buf) =>
      update_peer_list <-- m_lift (map_err "Failed to deserialize peer list"
        (bincode_deserialize (T := gset PeerInfo) msg_buf)) ;;
      update_to_new_peer_list update_peer_list
  | (PeerCode.UpdateSourceList, msg_buf) =>
      update_source_list <-- m_lift (map_err "Failed to deserialize source list"
        (bincode_deserialize (T := gset string) msg_buf)) ;;
      λ n, (Ok tt, update_to_new_source_list update_source_list remote_addr n)
  end.

(** ** Connections *)

(** The tables and the stream of the initial exchange *)
Record Session := mk_session { se_node : Node; se_stream : Stream }.

Definition on_node {A} (m : M Node A) : M Session A := λ s,
  let '(r, n) := m (se_node s) in (r, mk_session n (se_stream s)).
Definition on_stream {A} (m : M Stream A) : M Session A := λ s,
  let '(r, st) := m (se_stream s) in (r, mk_session (se_node s) st).
Definition node_do (f : Node → Node) : M Session unit := λ s,
  (Ok tt, mk_session (f (se_node s)) (se_stream s)).

(** Shares the peer list with the connected peers. *)
Definition share_peer_list (n : Node) : Node := spawn_updates (PeersUpdate (n_peer_list n)) n.
Definition insert_conn (host : string) (connection : Connection) (n : Node) : Node :=
  set_peer_conn (<[host := connection]> (n_peer_conn n)) n.

(** How a connection task goes on *)
Inductive Outcome :=
| Serving (remote_addr remote_host_name : string)
| Ended (r : result unit).

Definition own_info : PeerInfo := PeerInfo.mk local_address local_host_name.

(** [client_connection] from the established connection to its service loop *)
Definition client_connected (connection : Connection) : M Session Outcome := λ s,
  match check_for_duplicate_connections connection (se_node s) with
  | (Err _, n) => (Ok (Ended (Ok tt)), mk_session n (se_stream s))
  | (Ok (remote_addr, remote_host_name), _) =>
      (let send_source_list := n_sources (se_node s) in
       let send_peer_list := {[ own_info ]} ∪ n_peer_list (se_node s) in
       received <-- on_stream (request_init_info PeerCode.UpdatePeerList
         (send_peer_list, send_source_list)) ;;
       node_do (update_to_new_source_list received.2 remote_addr) ;;;
       on_node (update_to_new_peer_list received.1) ;;;
       node_do share_peer_list ;;;
       node_do (insert_conn remote_host_name connection) ;;;
       m_ret (Serving remote_addr remote_host_name)) s
  end.

(** [server_connection], after the handshake *)
Definition server_connected (connection : Connection) : M Session Outcome := λ s,
  match check_for_duplicate_connections connection (se_node s) with
  | (Err _, n) => (Ok (Ended (Ok tt)), mk_session n (se_stream s))
  | (Ok (remote_addr, remote_host_name), _) =>
      (let source_list := n_sources (se_node s) in
       received <-- on_stream (response_init_info PeerCode.UpdatePeerList
         (n_peer_list (se_node s), source_list)) ;;
       node_do (update_to_new_source_list received.2 remote_addr) ;;;
       on_node (update_to_new_peer_list received.1) ;;;
       node_do share_peer_list ;;;
       node_do (insert_conn remote_host_name connection) ;;;
       m_ret (Serving remote_addr remote_host_name)) s
  end.

(** *** The service loop *)

(** [connection.accept_bi()] fails. *)
Definition remove_conn (remote_addr remote_host_name : string) (n : Node) : Node :=
  set_peer_sources (delete remote_addr (n_peer_sources n))
    (set_peer_conn (delete remote_host_name (n_peer_conn n)) n).

(** What a client does next: [None] is [continue 'connection]. *)
Definition client_closed (application_closed : bool) : option (result unit) :=
  if application_closed then Some (Ok tt) else None.
Definition server_closed (application_closed : bool) : result unit :=
  if application_closed then Ok tt else Err "connection error".

(** [notify_source.notified()] *)
Definition broadcast_sources (n : Node) : Node := spawn_updates (SourcesUpdate (n_sources n)) n.

(** *** Dialing *)
Inductive ConnectError :=
| ConnectionClosed | ApplicationClosed | Reset | TimedOut
| OtherConnectionError
| NotAConnectionError.
Inductive DialNext := RetryAfter (seconds : Z) | RetryNow | GiveUp.

Definition PEER_RETRY_INTERVAL : Z := 5.
Definition connect_failed (e : ConnectError) : DialNext :=
  match e with
  | ConnectionClosed | ApplicationClosed | Reset | TimedOut => RetryAfter PEER_RETRY_INTERVAL
  | OtherConnectionError => RetryNow
  | NotAConnectionError => GiveUp
  end.
End tables.
