(* ===== verification/PeerSpec.v ===== *)
(** * What the operations of the peer service do

    The wire format round trips; a received list adds exactly the new peers and
    queues each once; the saved configuration file is read back; two nodes that
    connect learn each other's peers and sources. *)

From Stdlib Require Import ZArith Lia Ascii.
From S2P Require Import Prelude Bytes Externals NetAddr SocketAddr Config ConfigSpec Peer.

(** ** Laws of the encodings *)

(** [bincode] writes the IP address and the port of a socket address. *)
Definition wire_addr (a : SocketAddr) : SocketAddr :=
  match a with SV4 ip port => SV4 ip port | SV6 ip port _ _ => SV6 ip port 0 0 end.
Definition wire_peer (p : PeerInfo) : PeerInfo :=
  PeerInfo.mk (wire_addr (PeerInfo.address p)) (PeerInfo.host_name p).
Definition wire_peers (s : gset PeerInfo) : gset PeerInfo := set_map wire_peer s.

Class PeerCodecLaws `{Bincode (gset PeerInfo)} `{Bincode (gset PeerInfo * gset string)} : Prop := {
  peers_roundtrip (s : gset PeerInfo) b :
    bincode_serialize s = Ok b → bincode_deserialize b = Ok (wire_peers s);
  lists_roundtrip (s : gset PeerInfo) (t : gset string) b :
    bincode_serialize (s, t) = Ok b → bincode_deserialize b = Ok (wire_peers s, t);
}.

Lemma wire_peer_ip p : socket_ip (PeerInfo.address (wire_peer p)) = socket_ip (PeerInfo.address p).
Proof. by destruct p as [[] ?]. Qed.

(** ** The wire *)
Section wire.
Context `{FrameLaws}.

(** What [send_peer_data] puts on the stream *)
Definition peer_message (code : PeerCode) (f : bytes) : bytes :=
  u32_to_le_bytes (peer_code_u32 code) ++ f.

Lemma peer_code_roundtrip code : peer_code_try_from (peer_code_u32 code) = Some code.
Proof. by destruct code. Qed.

Lemma peer_code_range code : 0 ≤ peer_code_u32 code < 2 ^ 32.
Proof. by destruct code. Qed.

Lemma send_peer_data_ok {T} `{Bincode T} code (x : T) b f sent inp :
  bincode_serialize x = Ok b → frame_raw b = Ok f →
  send_peer_data code x (mk_stream sent None inp) =
    (Ok tt, mk_stream (sent ++ peer_message code f) None inp).
Proof.
  intros Hb Hf. unfold send_peer_data, m_bind, send_bytes, m_lift. cbn [st_left st_sent st_in].
  rewrite Hb, Hf. unfold peer_message. by rewrite app_assoc.
Qed.

Lemma receive_peer_data_ok code b f sent left rest :
  frame_raw b = Ok f →
  receive_peer_data (mk_stream sent left (peer_message code f ++ rest)) =
    (Ok (code, b), mk_stream sent left rest).
Proof.
  intros Hf. unfold receive_peer_data, recv_bytes, m_bind, peer_message. cbn [st_in st_sent st_left].
  pose proof (length_u32_to_le_bytes (peer_code_u32 code)) as Hlen.
  rewrite !length_app, Hlen.
  destruct (Nat.ltb_spec (4 + length f + length rest) 4); [lia|].
  rewrite <- app_assoc, <- Hlen, take_app_length, drop_app_length. unfold m_lift.
  rewrite u32_from_to_le_bytes, peer_code_roundtrip by apply peer_code_range.
  cbn [context]. unfold recv_frame. cbn [st_in st_sent st_left].
  by rewrite (frame_roundtrip b f rest Hf).
Qed.

(** What [send_peer_data] puts on a stream [receive_peer_data] takes off it
    again, the kind of the message and the encoded data, and leaves what
    follows; a message of an unknown kind is refused with nothing but its code
    read. *)
Theorem peer_data_roundtrip {T} `{Bincode T} code (x : T) b f s rest :
  bincode_serialize x = Ok b → frame_raw b = Ok f → st_left s = None →
  ∃ w, send_peer_data code x s = (Ok tt, mk_stream (st_sent s ++ w) None (st_in s)) ∧
    (∀ r, st_in r = w ++ rest →
       receive_peer_data r = (Ok (code, b), mk_stream (st_sent r) (st_left r) rest)) ∧
    (∀ r n, 2 ≤ n < 2 ^ 32 → st_in r = u32_to_le_bytes n ++ rest →
       receive_peer_data r = (Err "unknown peer code", mk_stream (st_sent r) (st_left r) rest)).
Proof.
  intros Hb Hf Hl. exists (peer_message code f). split_and!.
  - destruct s as [sent left inp]. cbn in Hl. subst left. by apply (send_peer_data_ok code x b f).
  - intros [sent left inp]. cbn. intros ->. by apply receive_peer_data_ok.
  - intros [sent left inp] n Hn. cbn [st_in st_sent st_left]. intros ->.
    unfold receive_peer_data, recv_bytes, m_bind. cbn [st_in st_sent st_left].
    pose proof (length_u32_to_le_bytes n) as Hlen. rewrite length_app, Hlen.
    destruct (Nat.ltb_spec (4 + length rest) 4); [lia|].
    rewrite <- Hlen at 1. rewrite take_app_length. rewrite <- Hlen, drop_app_length. unfold m_lift.
    rewrite u32_from_to_le_bytes by lia. unfold peer_code_try_from.
    destruct (Z.eqb_spec n 0); [lia|]. by destruct (Z.eqb_spec n 1); [lia|].
Qed.
End wire.

Lemma filter_ext_in {A} (P Q : A → Prop) `{∀ x, Decision (P x)} `{∀ x, Decision (Q x)} (l : list A) :
  (∀ x, x ∈ l → P x ↔ Q x) → filter P l = filter Q l.
Proof.
  induction l as [|x l IH]; intros Hpq; [done|]. rewrite !filter_cons.
  rewrite (decide_ext (P x) (Q x)) by (apply Hpq; left).
  rewrite IH by (intros y Hy; apply Hpq; by right). done.
Qed.

(** ** Received peers *)
Section learn.
Context `{PeerEnv} `{HashOrderLaws}.
Implicit Types (n : Node) (p : PeerInfo).

(** Peers at the local IP address are never taken over. *)
Definition foreign (p : PeerInfo) : Prop :=
  socket_ip (PeerInfo.address p) ≠ socket_ip local_address.
#[export] Instance foreign_dec p : Decision (foreign p).
Proof. unfold foreign. apply _. Defined.

Lemma is_new_peer_spec n p : is_new_peer n p = true ↔ foreign p ∧ p ∉ n_peer_list n.
Proof.
  unfold is_new_peer, foreign. rewrite andb_true_iff, !negb_true_iff, !bool_decide_eq_false.
  naive_solver.
Qed.

(** The tables a received list leaves alone *)
Definition same_tables (n n' : Node) : Prop :=
  n_peer_conn n' = n_peer_conn n ∧ n_sources n' = n_sources n ∧
  n_peer_sources n' = n_peer_sources n ∧ n_receiver_open n' = n_receiver_open n ∧
  n_closed n' = n_closed n ∧ n_spawned n' = n_spawned n.
#[export] Instance same_tables_trans : Transitive same_tables.
Proof. unfold same_tables. intros n1 n2 n3. naive_solver congruence. Qed.

Definition news (l : list PeerInfo) n : list PeerInfo := filter (λ p, is_new_peer n p = true) l.

Lemma learn_peers_ok l ch n :
  n_receiver_open n = true → NoDup l →
  ∃ n', learn_peers l ch n = (Ok (ch || negb (bool_decide (news l n = []))), n') ∧
    n_peer_list n' = list_to_set (news l n) ∪ n_peer_list n ∧
    n_peer_sender n' = n_peer_sender n ++ news l n ∧
    n_fs n' = n_fs n ∧ same_tables n n'.
Proof.
  intros Hopen Hnd. revert ch n Hopen. induction Hnd as [|p l Hp Hnd IH]; intros ch n Hopen.
  - exists n. cbn. rewrite orb_false_r, app_nil_r. split_and!; [done|set_solver|done|done|].
    unfold same_tables. naive_solver.
  - cbn [learn_peers]. unfold news. rewrite filter_cons.
    destruct (is_new_peer n p) eqn:Hnew.
    + rewrite decide_True by done.
      set (n1 := set_peer_sender (n_peer_sender n ++ [p]) (insert_peer p n)).
      assert (filter (λ q, is_new_peer n q = true) l = news l n1) as ->.
      { apply filter_ext_in. intros q Hq. rewrite !is_new_peer_spec. cbn.
        assert (q ≠ p) by (intros ->; done). set_solver. }
      destruct (IH true n1) as (n' & Hl & Hpl & Hs & Hfs & Ht); [done|].
      exists n'. unfold m_bind, send_peer. cbn. rewrite Hopen. fold n1. rewrite Hl.
      split_and!.
      * by rewrite orb_true_r.
      * rewrite Hpl. cbn. set_solver.
      * rewrite Hs. cbn. by rewrite <- app_assoc.
      * by rewrite Hfs.
      * etrans; [|exact Ht]. done.
    + rewrite decide_False by congruence. by apply IH.
Qed.
End learn.

Section update.
Context `{PeerEnv} `{HashOrderLaws}.
Implicit Types (n : Node) (p : PeerInfo).

Lemma hash_iter_NoDup (s : gset PeerInfo) : NoDup (hash_iter s).
Proof. rewrite hash_iter_perm. apply NoDup_elements. Qed.
Lemma elem_of_hash_iter (s : gset PeerInfo) p : p ∈ hash_iter s ↔ p ∈ s.
Proof. rewrite hash_iter_perm. apply elem_of_elements. Qed.

(** The received peers that are new, in the order they are handled *)
Definition new_peers (recv : gset PeerInfo) n : list PeerInfo := news (hash_iter recv) n.

Lemma elem_of_new_peers recv n p :
  p ∈ new_peers recv n ↔ p ∈ recv ∧ foreign p ∧ p ∉ n_peer_list n.
Proof.
  unfold new_peers, news. rewrite list_elem_of_filter, is_new_peer_spec, elem_of_hash_iter. tauto.
Qed.

(** The state a received list leads to *)
Definition learned (recv : gset PeerInfo) n : Node :=
  let n1 := set_peer_sender (n_peer_sender n ++ new_peers recv n)
    (set_peer_list (list_to_set (new_peers recv n) ∪ n_peer_list n) n) in
  if bool_decide (new_peers recv n = []) then n1 else save_peers n1.

Lemma update_peers_ok recv n :
  n_receiver_open n = true →
  update_to_new_peer_list recv n = (Ok tt, learned recv n).
Proof.
  intros Hopen. unfold update_to_new_peer_list, m_bind, learned, new_peers.
  destruct (learn_peers_ok (hash_iter recv) false n Hopen (hash_iter_NoDup recv))
    as (n' & -> & Hl & Hs & Hfs & (Hc & Hso & Hps & Ho & Hcl & Hsp)).
  assert (n' = set_peer_sender (n_peer_sender n ++ news (hash_iter recv) n)
    (set_peer_list (list_to_set (news (hash_iter recv) n) ∪ n_peer_list n) n)) as ->.
  { destruct n', n; cbn in *. by subst. }
  cbn [orb]. by case_bool_decide.
Qed.

Lemma learned_list recv n :
  n_peer_list (learned recv n) = n_peer_list n ∪ filter foreign recv.
Proof.
  assert (n_peer_list (learned recv n) = list_to_set (new_peers recv n) ∪ n_peer_list n) as ->
    by (unfold learned; by case_bool_decide).
  apply set_eq. intros p. rewrite elem_of_union, elem_of_list_to_set, elem_of_new_peers,
    elem_of_union, elem_of_filter. destruct (decide (p ∈ n_peer_list n)); tauto.
Qed.

Lemma learned_sender recv n :
  n_peer_sender (learned recv n) = n_peer_sender n ++ new_peers recv n.
Proof. unfold learned. by case_bool_decide. Qed.

Lemma learned_tables recv n : same_tables n (learned recv n).
Proof. unfold learned, same_tables. by case_bool_decide. Qed.

(** A received list of peers adds to the peer list exactly the peers at
    other IP addresses, queues each of them that was not known once for
    dialing, and touches neither the connections nor the sources; when it holds
    no new peer nothing changes. *)
Theorem update_peer_list_spec recv n :
  n_receiver_open n = true →
  ∃ n' added, update_to_new_peer_list recv n = (Ok tt, n') ∧
    n_peer_list n' = n_peer_list n ∪ filter foreign recv ∧
    n_peer_sender n' = n_peer_sender n ++ added ∧ NoDup added ∧
    (∀ p, p ∈ added ↔ p ∈ recv ∧ foreign p ∧ p ∉ n_peer_list n) ∧
    same_tables n n' ∧ (added = [] → n' = n).
Proof.
  intros Hopen. exists (learned recv n), (new_peers recv n). split_and!.
  - by apply update_peers_ok.
  - apply learned_list.
  - apply learned_sender.
  - apply NoDup_filter, hash_iter_NoDup.
  - intros p. apply elem_of_new_peers.
  - apply learned_tables.
  - intros Hn. unfold learned. rewrite Hn, bool_decide_eq_true_2 by done.
    rewrite app_nil_r, list_to_set_nil, (left_id_L ∅ (∪)). by destruct n.
Qed.

(** *** The saved configuration *)
Context `{!TomlEditLaws}.

Definition shown (p : PeerInfo) : PeerList :=
  PeerList.mk (socket_to_string (PeerInfo.address p)) (PeerInfo.host_name p).

(** The configuration read after a list of peers has been written *)
Lemma write_peers_read data n c :
  config_of_doc config_doc = Ok c →
  is_Some (fs_files (n_fs n) !! config_path) → config_path ∉ fs_readonly (n_fs n) →
  fs_room (n_fs n) = None →
  giganto_config config_path (n_fs (write_peers data n)) =
    Ok (apply_user_config (UserConfig.mk None None None None None None None
          (Some (shown <$> data))) c).
Proof.
  intros Hc Hex Hro Hroom. unfold write_peers, peers_doc.
  apply config_of_doc_ok in Hc as (E1 & E2 & E3 & E4 & E5 & E6 & E7 & a & l & Ha & Hl & Hr).
  destruct (insert_toml_peers_ok data config_doc a l Ha Hl)
    as (doc' & -> & Hfr & a' & l' & Ha' & Hl' & Hpeers%shown_peers_read). cbn [snd n_fs set_fs].
  pose proof (write_toml_file_ok doc' config_path (n_fs n) Hex Hro Hroom) as Hw.
  unfold giganto_config.
  destruct (read_written _ _ _ _ Hw Hroom) as (doc'' & Hrd & Heq).
  rewrite Hw. cbn [snd]. rewrite Hrd. cbn [mbind result_bind].
  rewrite <- (config_of_doc_proper _ _ Heq). apply config_of_doc_ok.
  repeat match goal with |- _ ∧ _ => split end; [..|by exists a', l'];
    (etrans; [apply parse_of_get, Hfr; done|done]).
Qed.

Lemma written_fs data n :
  is_Some (fs_files (n_fs n) !! config_path) → config_path ∉ fs_readonly (n_fs n) →
  fs_room (n_fs n) = None →
  is_Some (fs_files (n_fs (write_peers data n)) !! config_path) ∧
  config_path ∉ fs_readonly (n_fs (write_peers data n)) ∧
  fs_room (n_fs (write_peers data n)) = None.
Proof.
  intros Hex Hro Hroom. unfold write_peers. cbn [n_fs set_fs].
  rewrite write_toml_file_ok by done. cbn. by rewrite lookup_insert_eq.
Qed.


(** C37: After new peers have been learnt the configuration file, read again,
    shows exactly the peer list, and the text of every address parses back to
    the address; its other options are those of the time the service was
    started, whatever the file held since. *)
Theorem learned_peers_saved recv n c :
  n_receiver_open n = true → new_peers recv n ≠ [] →
  config_of_doc config_doc = Ok c →
  is_Some (fs_files (n_fs n) !! config_path) → config_path ∉ fs_readonly (n_fs n) →
  fs_room (n_fs n) = None →
  (∀ p, p ∈ n_peer_list n ∪ recv → is_socket (PeerInfo.address p)) →
  ∃ n' c', update_to_new_peer_list recv n = (Ok tt, n') ∧
    giganto_config config_path (n_fs n') = Ok c' ∧
    GigantoConfig.peer_list c' ≡ₚ shown <$> elements (n_peer_list n') ∧
    (∀ p, p ∈ n_peer_list n' → parse_socket_addr (PeerList.address (shown p)) = Ok (PeerInfo.address p)) ∧
    GigantoConfig.retention c' = GigantoConfig.retention c ∧
    GigantoConfig.peer_address c' = GigantoConfig.peer_address c.
Proof.
  intros Hopen Hnew Hc Hex Hro Hroom Hsock.
  exists (learned recv n). eexists. split_and!; [by apply update_peers_ok|..].
  - unfold learned. rewrite bool_decide_eq_false_2 by done. by apply write_peers_read.
  - cbn [GigantoConfig.peer_list apply_user_config UserConfig.peer_list default].
    unfold learned. rewrite bool_decide_eq_false_2 by done. cbn. by rewrite hash_iter_perm.
  - intros p Hp. apply socket_text_roundtrip, Hsock. rewrite learned_list in Hp. set_solver.
  - done.
  - done.
Qed.

(** Once the receiver of the channel is gone, a new peer is remembered but the
    update fails and the configuration file is not written. *)
Lemma update_peers_closed recv n p rest :
  n_receiver_open n = false → hash_iter recv = p :: rest → is_new_peer n p = true →
  update_to_new_peer_list recv n = (Err "channel closed", insert_peer p n).
Proof.
  intros Hopen Hl Hp. unfold update_to_new_peer_list, m_bind. rewrite Hl. cbn [learn_peers].
  rewrite Hp. unfold m_bind, send_peer. cbn. by rewrite Hopen.
Qed.
End update.

(** ** Connections *)
Section connect.
Context `{PeerEnv} `{HashOrderLaws} `{FrameLaws}
  `{Bincode (gset PeerInfo)} `{Bincode (gset string)} `{Bincode (gset PeerInfo * gset string)}.
Implicit Types (n : Node) (p : PeerInfo).

(** A node after the lists of a new connection have been taken over *)
Definition joined (recv : gset PeerInfo) (srcs : gset string) (addr host : string)
    (conn : Connection) n : Node :=
  insert_conn host conn (share_peer_list (learned recv (update_to_new_source_list srcs addr n))).

Lemma check_ok conn n agent host :
  certificate_info (conn_subject conn) = Ok (agent, host) → n_peer_conn n !! host = None →
  check_for_duplicate_connections conn n = (Ok (ip_to_string (conn_ip conn), host), n).
Proof. intros Hs Hn. unfold check_for_duplicate_connections. by rewrite Hs, Hn. Qed.

Section joins.
Context (n : Node) (conn : Connection) (agent host : string).
Context (recv : gset PeerInfo) (srcs : gset string) (b f bs fs rest : bytes).
Hypothesis Hhost : certificate_info (conn_subject conn) = Ok (agent, host).
Hypothesis Hfresh : n_peer_conn n !! host = None.
Hypothesis Hopen : n_receiver_open n = true.
Hypothesis Hframe : frame_raw b = Ok f.
Hypothesis Hrecv : bincode_deserialize b = Ok (recv, srcs).
Hypothesis Hframe' : frame_raw bs = Ok fs.

Lemma client_connected_ok code :
  bincode_serialize ({[ own_info ]} ∪ n_peer_list n, n_sources n) = Ok bs →
  client_connected conn (mk_session n (mk_stream [] None (peer_message code f ++ rest))) =
    (Ok (Serving (ip_to_string (conn_ip conn)) host),
     mk_session (joined recv srcs (ip_to_string (conn_ip conn)) host conn n)
       (mk_stream (peer_message PeerCode.UpdatePeerList fs) None rest)).
Proof using All.
  intros Hser. unfold client_connected. cbn [se_node].
  rewrite (check_ok conn n agent host) by done.
  unfold m_bind, on_stream, request_init_info, m_bind. cbn [se_stream se_node].
  rewrite (send_peer_data_ok _ _ bs fs), (receive_peer_data_ok _ b) by done.
  unfold m_lift. cbn [snd app]. rewrite Hrecv. unfold node_do, on_node. cbn [se_node se_stream fst snd].
  by rewrite update_peers_ok.
Qed.

Lemma server_connected_ok code :
  bincode_serialize (n_peer_list n, n_sources n) = Ok bs →
  server_connected conn (mk_session n (mk_stream [] None (peer_message code f ++ rest))) =
    (Ok (Serving (ip_to_string (conn_ip conn)) host),
     mk_session (joined recv srcs (ip_to_string (conn_ip conn)) host conn n)
       (mk_stream (peer_message PeerCode.UpdatePeerList fs) None rest)).
Proof using All.
  intros Hser. unfold server_connected. cbn [se_node].
  rewrite (check_ok conn n agent host) by done.
  unfold m_bind, on_stream, response_init_info, m_bind. cbn [se_stream se_node].
  rewrite (receive_peer_data_ok _ b) by done. unfold m_lift. cbn [snd]. rewrite Hrecv.
  rewrite (send_peer_data_ok _ _ bs fs) by done.
  unfold m_ret, node_do, on_node. cbn [app se_node se_stream fst snd].
  by rewrite update_peers_ok.
Qed.
End joins.

Lemma joined_tables recv srcs addr host conn n :
  n_peer_list (joined recv srcs addr host conn n) = n_peer_list n ∪ filter foreign recv ∧
  n_peer_sources (joined recv srcs addr host conn n) = <[addr := srcs]> (n_peer_sources n) ∧
  n_peer_conn (joined recv srcs addr host conn n) = <[host := conn]> (n_peer_conn n) ∧
  n_spawned (joined recv srcs addr host conn n) =
    n_spawned n ++ ((λ c, (c, PeersUpdate (n_peer_list n ∪ filter foreign recv)))
                      <$> (map_to_list (n_peer_conn n)).*2).
Proof.
  unfold joined. set (n1 := update_to_new_source_list srcs addr n).
  destruct (learned_tables recv n1) as (Hc & _ & Hps & _ & _ & Hsp).
  pose proof (learned_list recv n1) as Hl.
  unfold insert_conn, share_peer_list, spawn_updates. cbn.
  rewrite Hc, Hps, Hsp, Hl. done.
Qed.

(** A second connection of a host that is already connected, or one without
    a valid certificate name, is refused: nothing is sent or read, no table
    changes, and the duplicate is closed. *)
Theorem duplicate_refused conn s host other agent :
  certificate_info (conn_subject conn) = Ok (agent, host) →
  n_peer_conn (se_node s) !! host = Some other →
  client_connected conn s =
    (Ok (Ended (Ok tt)), mk_session (add_closed (conn_id conn) (se_node s)) (se_stream s)) ∧
  server_connected conn s = client_connected conn s.
Proof.
  intros Hs Ho. unfold client_connected, server_connected, check_for_duplicate_connections.
  by rewrite Hs, Ho.
Qed.
End connect.

(** ** Two nodes *)
Section two_nodes.
Context `{HashOrderLaws} `{TomlEditLaws} `{FrameLaws}
  `{Bincode (gset PeerInfo)} `{Bincode (gset string)} `{Bincode (gset PeerInfo * gset string)}
  `{!PeerCodecLaws}.
(** The node that dials and the one that accepts *)
Context (A B : PeerEnv).
Implicit Types a b : Node.

Definition peer_info_of (E : PeerEnv) : PeerInfo := @own_info _ E.
Definition foreign_to (E : PeerEnv) (p : PeerInfo) : Prop := @foreign _ E p.
#[export] Instance foreign_to_dec E p : Decision (foreign_to E p).
Proof. unfold foreign_to. apply _. Defined.

(** C30: When node A dials node B over a working stream, both ends reach their
    service loop: each registers the other under the host name of its
    certificate, stores the other's sources under its IP address, and takes
    over the peers of the other at IP addresses other than its own; A tells B
    of itself as well. *)
Theorem nodes_exchange a b ca cb agentA hostA agentB hostB xa fa xb fb :
  certificate_info (conn_subject ca) = Ok (agentB, hostB) → n_peer_conn a !! hostB = None →
  certificate_info (conn_subject cb) = Ok (agentA, hostA) → n_peer_conn b !! hostA = None →
  n_receiver_open a = true → n_receiver_open b = true →
  bincode_serialize ({[ peer_info_of A ]} ∪ n_peer_list a, n_sources a) = Ok xa → frame_raw xa = Ok fa →
  bincode_serialize (n_peer_list b, n_sources b) = Ok xb → frame_raw xb = Ok fb →
  ∃ a' b' wireA wireB,
    client_connected (H0 := A) ca (mk_session a (mk_stream [] None wireB)) =
      (Ok (Serving (ip_to_string (conn_ip ca)) hostB), mk_session a' (mk_stream wireA None [])) ∧
    server_connected (H0 := B) cb (mk_session b (mk_stream [] None wireA)) =
      (Ok (Serving (ip_to_string (conn_ip cb)) hostA), mk_session b' (mk_stream wireB None [])) ∧
    n_peer_list a' = n_peer_list a ∪ filter (foreign_to A) (wire_peers (n_peer_list b)) ∧
    n_peer_list b' = n_peer_list b ∪
      filter (foreign_to B) (wire_peers ({[ peer_info_of A ]} ∪ n_peer_list a)) ∧
    n_peer_sources a' = <[ip_to_string (conn_ip ca) := n_sources b]> (n_peer_sources a) ∧
    n_peer_sources b' = <[ip_to_string (conn_ip cb) := n_sources a]> (n_peer_sources b) ∧
    n_peer_conn a' = <[hostB := ca]> (n_peer_conn a) ∧
    n_peer_conn b' = <[hostA := cb]> (n_peer_conn b).
Proof.
  intros HA HfA HB HfB HoA HoB HxA HfrA HxB HfrB.
  pose proof (lists_roundtrip _ _ _ HxA) as HdA. pose proof (lists_roundtrip _ _ _ HxB) as HdB.
  pose proof (client_connected_ok (H0 := A) a ca agentB hostB _ _ xb fb xa fa [] HA HfA HoA HfrB HdB HfrA
    PeerCode.UpdatePeerList HxA) as Hc.
  pose proof (server_connected_ok (H0 := B) b cb agentA hostA _ _ xa fa xb fb [] HB HfB HoB HfrA HdA HfrB
    PeerCode.UpdatePeerList HxB) as Hs.
  rewrite app_nil_r in Hc, Hs. eexists _, _, _, _. split; [exact Hc|]. split; [exact Hs|].
  destruct (joined_tables (H0 := A) (wire_peers (n_peer_list b)) (n_sources b)
    (ip_to_string (conn_ip ca)) hostB ca a) as (-> & -> & -> & _).
  by destruct (joined_tables (H0 := B) (wire_peers ({[ peer_info_of A ]} ∪ n_peer_list a)) (n_sources a)
    (ip_to_string (conn_ip cb)) hostA cb b) as (-> & -> & -> & _).
Qed.
End two_nodes.
