(* ===== verification/PeerRun.v ===== *)
(** * The tasks of the peer service, interleaved (src/src/peer.rs)

    [Peer::run] spawns a task for every connection, and each connection a task
    for every request.  They share the tables of [Peer.Node] and take their
    locks one at a time, so between two accesses any other task may run.  A
    [Task] is a position in [client_connection], [server_connection] or
    [handle_request]; a step is one access to the shared tables.  Run on its
    own a task does what the functions of [Peer] do. *)

From Stdlib Require Import ZArith Lia.
From S2P Require Import Prelude Bytes Externals NetAddr SocketAddr Config Peer PeerSpec.

(** A connection with the address and the host name its task computed *)
Record Link := mk_link { link_conn : Connection; link_addr : string; link_host : string }.

#[export] Instance Link_eq_dec : EqDecision Link.
Proof. solve_decision. Defined.

(** Where a task stands: what it does next.  The link of a learning task is that
    of the connection it goes on with; a request has none.  [Sharing] reads the list
    once for all connections; the code reads it again for each, so that a list that
    grows meanwhile may go to some of them in its longer form. *)
Inductive Task :=
| Checking (conn : Connection)
| Exchanging (l : Link)
| Storing (recv : gset PeerInfo) (srcs : gset string) (l : Link)
| Learning (todo : list PeerInfo) (is_change : bool) (k : option Link)
| Inserting (p : PeerInfo) (todo : list PeerInfo) (k : option Link)
| Sending (p : PeerInfo) (todo : list PeerInfo) (k : option Link)
| Reading (k : option Link)
| Writing (data : list PeerInfo) (k : option Link)
| Sharing (l : Link)
| Registering (l : Link)
| InLoop (l : Link)
| Removing (l : Link)
| Forgetting (l : Link)
| StoringSources (srcs : gset string) (addr : string)
| Finished.
#[export] Instance Task_eq_dec : EqDecision Task.
Proof. solve_decision. Defined.

(** [channel(100)] *)
Definition PEER_CHANNEL : nat := 100.

Section run.
Context `{PeerEnv} `{HashOrder}.

Definition continue_with (k : option Link) : Task :=
  match k with Some l => Sharing l | None => Finished end.

(** One access of a task to the tables; [None]: it waits. *)
Definition task_step (t : Task) (n : Node) : option (Task * Node) :=
  match t with
  | Checking conn =>
      match check_for_duplicate_connections conn n with
      | (Err _, n) => Some (Finished, n)
      | (Ok (addr, host), n) => Some (Exchanging (mk_link conn addr host), n)
      end
  | Exchanging _ => None
  | Storing recv srcs l =>
      Some (Learning (hash_iter recv) false (Some l), update_to_new_source_list srcs (link_addr l) n)
  | Learning [] false k => Some (continue_with k, n)
  | Learning [] true k => Some (Reading k, n)
  | Learning (p :: todo) is_change k =>
      if is_new_peer n p then Some (Inserting p todo k, n) else Some (Learning todo is_change k, n)
  | Inserting p todo k => Some (Sending p todo k, insert_peer p n)
  | Sending p todo k =>
      if (length (n_peer_sender n) <? PEER_CHANNEL)%nat then
        match send_peer p n with
        | (Ok _, n) => Some (Learning todo true k, n)
        | (Err _, n) => Some (Finished, n)
        end
      else None
  | Reading k => Some (Writing (hash_iter (n_peer_list n)) k, n)
  | Writing data k => Some (continue_with k, write_peers data n)
  | Sharing l => Some (Registering l, share_peer_list n)
  | Registering l => Some (InLoop l, insert_conn (link_host l) (link_conn l) n)
  | InLoop _ => None
  | Removing l => Some (Forgetting l, set_peer_conn (delete (link_host l) (n_peer_conn n)) n)
  | Forgetting l => Some (Finished, set_peer_sources (delete (link_addr l) (n_peer_sources n)) n)
  | StoringSources srcs addr => Some (Finished, update_to_new_source_list srcs addr n)
  | Finished => None
  end.

(** The service: the tables, the tasks and the peers taken from the channel to
    be dialed *)
Record Service := mk_service { sv_node : Node; sv_tasks : list Task; sv_dialed : list PeerInfo }.

Definition set_sources (srcs : gset string) (n : Node) : Node :=
  mk_node (n_peer_conn n) (n_peer_list n) srcs (n_peer_sources n) (n_peer_sender n)
    (n_receiver_open n) (n_fs n) (n_closed n) (n_spawned n).

(** A task with a request of the peer of [l] *)
Inductive Request :=
| UpdatePeers (peers : gset PeerInfo)
| UpdateSources (sources : gset string).
Definition request_task (l : Link) (r : Request) : Task :=
  match r with
  | UpdatePeers peers => Learning (hash_iter peers) false None
  | UpdateSources sources => StoringSources sources (link_addr l)
  end.

Inductive Step : Service → Service → Prop :=
| StepTask i t t' n n' ts d :
    ts !! i = Some t → task_step t n = Some (t', n') →
    Step (mk_service n ts d) (mk_service n' (<[i := t']> ts) d)
| StepConnected conn n ts d :
    Step (mk_service n ts d) (mk_service n (ts ++ [Checking conn]) d)
| StepExchanged i l recv srcs n ts d :
    ts !! i = Some (Exchanging l) →
    Step (mk_service n ts d) (mk_service n (<[i := Storing recv srcs l]> ts) d)
| StepExchangeFailed i l n ts d :
    ts !! i = Some (Exchanging l) →
    Step (mk_service n ts d) (mk_service n (<[i := Finished]> ts) d)
| StepRequest i l r n ts d :
    ts !! i = Some (InLoop l) →
    Step (mk_service n ts d) (mk_service n (ts ++ [request_task l r]) d)
| StepNotified i l n ts d :
    ts !! i = Some (InLoop l) →
    Step (mk_service n ts d) (mk_service (broadcast_sources n) ts d)
| StepClosed i l n ts d :
    ts !! i = Some (InLoop l) →
    Step (mk_service n ts d) (mk_service n (<[i := Removing l]> ts) d)
| StepDial p q n ts d :
    n_peer_sender n = p :: q →
    Step (mk_service n ts d) (mk_service (set_peer_sender q n) ts (d ++ [p]))
| StepSources srcs n ts d :
    Step (mk_service n ts d) (mk_service (set_sources srcs n) ts d).

(** The service when [Peer::run] starts, with the peers of the configuration *)
Definition start (n : Node) : Service := mk_service n [] [].

(** A task run without interruption for at most [fuel] steps *)
Fixpoint run_alone (fuel : nat) (t : Task) (n : Node) : Task * Node :=
  match fuel with
  | O => (t, n)
  | S fuel =>
      match task_step t n with
      | Some (t', n') => run_alone fuel t' n'
      | None => (t, n)
      end
  end.
End run.

(** ** A task on its own *)
Section alone.
Context `{PeerEnv} `{HashOrderLaws}.
Implicit Types (n : Node) (t : Task) (l : Link).

Definition reaches t n t' n' : Prop := ∃ k, run_alone k t n = (t', n').

Lemma reaches_refl t n : reaches t n t n.
Proof. by exists O. Qed.
Lemma reaches_step t n t1 n1 t' n' :
  task_step t n = Some (t1, n1) → reaches t1 n1 t' n' → reaches t n t' n'.
Proof. intros Hs [k Hk]. exists (S k). cbn. by rewrite Hs. Qed.

Lemma learning_alone todo ch k n t' n' :
  n_receiver_open n = true →
  (length (n_peer_sender n) + length todo ≤ PEER_CHANNEL)%nat →
  (∀ ch' n1, learn_peers todo ch n = (Ok ch', n1) →
    reaches (Learning [] ch' k) n1 t' n') →
  reaches (Learning todo ch k) n t' n'.
Proof.
  revert ch n. induction todo as [|p todo IH]; intros ch n Hopen Hcap Hk.
  - by apply Hk.
  - cbn [length] in Hcap. cbn [learn_peers] in Hk. destruct (is_new_peer n p) eqn:Hnew.
    + eapply reaches_step; [cbn; by rewrite Hnew|]. eapply reaches_step; [done|].
      eapply reaches_step.
      { unfold task_step. destruct (Nat.ltb_spec (length (n_peer_sender (insert_peer p n))) PEER_CHANNEL) as [_|Hge];
          [|cbn in Hge; lia].
        unfold send_peer. cbn. rewrite Hopen. done. }
      apply IH; [done|cbn; rewrite length_app; cbn; lia|].
      intros ch' n1 Hl. apply Hk. unfold m_bind, send_peer. cbn. by rewrite Hopen.
    + eapply reaches_step; [cbn; by rewrite Hnew|]. apply IH; [done|lia|done].
Qed.

(** A connection task that runs without interruption from the received lists
    on, with room in the channel, does what [client_connected] and
    [server_connected] do to the tables, and then serves the connection. *)
Lemma connection_alone recv srcs l n :
  n_receiver_open n = true →
  (length (n_peer_sender n) + size recv ≤ PEER_CHANNEL)%nat →
  reaches (Storing recv srcs l) n (InLoop l)
    (joined recv srcs (link_addr l) (link_host l) (link_conn l) n).
Proof.
  intros Hopen Hcap. eapply reaches_step; [done|].
  set (n1 := update_to_new_source_list srcs (link_addr l) n).
  apply learning_alone; [done| |].
  { rewrite hash_iter_perm. exact Hcap. }
  intros ch' n2 Hl. pose proof (update_peers_ok recv n1 Hopen) as Hu.
  unfold update_to_new_peer_list, m_bind in Hu. rewrite Hl in Hu. unfold joined. fold n1.
  assert (reaches (Sharing l) (learned recv n1) (InLoop l)
    (insert_conn (link_host l) (link_conn l) (share_peer_list (learned recv n1)))) as Hend.
  { do 2 (eapply reaches_step; [done|]). apply reaches_refl. }
  destruct ch'; injection Hu as Hu; rewrite <- Hu in Hend |- *.
  - do 3 (eapply reaches_step; [done|]). exact Hend.
  - eapply reaches_step; [done|]. exact Hend.
Qed.
End alone.

(** ** Invariants of every interleaving *)
Section peers.
Context `{PeerEnv} `{HashOrderLaws}.
Implicit Types (n : Node) (ts : list Task) (t : Task) (p : PeerInfo) (initial : gset PeerInfo).

Record peers_inv initial (s : Service) : Prop := {
  pi_open : n_receiver_open (sv_node s) = true;
  pi_cap : (length (n_peer_sender (sv_node s)) ≤ PEER_CHANNEL)%nat;
  pi_start : initial ⊆ n_peer_list (sv_node s);
  pi_foreign p : p ∈ n_peer_list (sv_node s) → p ∈ initial ∨ foreign p;
  pi_inserting p todo k : Inserting p todo k ∈ sv_tasks s → foreign p;
  pi_sending p todo k : Sending p todo k ∈ sv_tasks s → p ∈ n_peer_list (sv_node s);
  pi_known p : p ∈ n_peer_sender (sv_node s) ++ sv_dialed s → p ∈ n_peer_list (sv_node s);
  pi_kept p : p ∈ n_peer_list (sv_node s) →
    p ∈ initial ∨ p ∈ n_peer_sender (sv_node s) ++ sv_dialed s ∨
    ∃ todo k, Sending p todo k ∈ sv_tasks s;
}.

(** The tables the invariant is about *)
Definition same_peers n n' : Prop :=
  n_receiver_open n' = n_receiver_open n ∧ n_peer_list n' = n_peer_list n ∧
  n_peer_sender n' = n_peer_sender n.

(** Tasks that are about to change the peer list or the channel *)
Definition is_sending t : Prop := match t with Sending _ _ _ => True | _ => False end.
Definition peer_task t : Prop := match t with Inserting p _ _ => foreign p | _ => True end.

Lemma peers_frame initial n n' ts ts' d :
  peers_inv initial (mk_service n ts d) → same_peers n n' →
  (∀ t, t ∈ ts' → t ∈ ts ∨ (peer_task t ∧ ¬ is_sending t)) →
  (∀ t, t ∈ ts → is_sending t → t ∈ ts') →
  peers_inv initial (mk_service n' ts' d).
Proof.
  intros [Ho Hc Hs Hf Hi Hse Hk Hkept] (E1 & E2 & E3) Hold Hkeep.
  cbn [sv_node sv_tasks sv_dialed] in *.
  split; cbn [sv_node sv_tasks sv_dialed]; rewrite ?E1, ?E2, ?E3; try done.
  - intros p todo k [Hin|[Hp _]]%Hold; [by eapply Hi|done].
  - intros p todo k [Hin|[_ Hp]]%Hold; [by eapply Hse|by destruct Hp].
  - intros p [?|[?|(todo & k & Hin)]]%Hkept; [by left|by right; left|].
    right; right. exists todo, k. by apply Hkeep.
Qed.

(** The steps that do not touch the peer list or the channel *)
Lemma task_step_frame t n t' n' :
  task_step t n = Some (t', n') →
  (∃ p todo k, t = Inserting p todo k ∧ t' = Sending p todo k ∧ n' = insert_peer p n) ∨
  (∃ p todo k, t = Sending p todo k ∧
     (length (n_peer_sender n) < PEER_CHANNEL)%nat ∧ (t', n') =
     (if n_receiver_open n then (Learning todo true k, set_peer_sender (n_peer_sender n ++ [p]) n)
      else (Finished, n))) ∨
  (same_peers n n' ∧ peer_task t' ∧ ¬ is_sending t' ∧ ¬ is_sending t).
Proof.
  destruct t; cbn [task_step]; try (intros [= <- <-]; right; right; unfold same_peers; naive_solver).
  - unfold check_for_duplicate_connections. repeat case_match; simplify_eq;
      intros [= <- <-]; right; right; unfold same_peers; naive_solver.
  - destruct todo as [|p todo].
    + destruct is_change; intros [= <- <-]; right; right; (split; [by unfold same_peers|]);
        [naive_solver|]. destruct k; naive_solver.
    + destruct (is_new_peer n p) eqn:Hnew; intros [= <- <-]; right; right; (split; [by unfold same_peers|]).
      * apply is_new_peer_spec in Hnew as [? _]. naive_solver.
      * naive_solver.
  - intros [= <- <-]. left. naive_solver.
  - destruct (Nat.ltb_spec (length (n_peer_sender n)) PEER_CHANNEL) as [Hlt|]; [|done].
    unfold send_peer. destruct (n_receiver_open n) eqn:Ho; intros [= <- <-]; right; left;
      exists p, todo, k; done.
  - intros [= <- <-]. right; right. split; [by unfold same_peers|]. destruct k; naive_solver.
Qed.

Lemma peers_inv_task initial i t t' n n' ts d :
  ts !! i = Some t → task_step t n = Some (t', n') →
  peers_inv initial (mk_service n ts d) → peers_inv initial (mk_service n' (<[i := t']> ts) d).
Proof.
  intros Hi Hstep Hinv. pose proof Hinv as [Ho Hc Hs Hf Hins Hse Hk Hkept].
  cbn [sv_node sv_tasks sv_dialed] in *.
  assert (t ∈ ts) as Ht by (by eapply list_elem_of_lookup_2).
  destruct (task_step_frame _ _ _ _ Hstep)
    as [(p & todo & k & -> & -> & ->)|[(p & todo & k & -> & Hlt & E)|(Hsame & Hp & Hns & Hns0)]].
  - split; cbn [sv_node sv_tasks sv_dialed insert_peer set_peer_list n_receiver_open n_peer_sender
      n_peer_list]; try done.
    + set_solver.
    + intros q. rewrite elem_of_union, elem_of_singleton. intros [->|?]; [|auto].
      right. by eapply Hins.
    + intros q todo' k' [?|?]%elem_of_insert_inv; [done|by eapply Hins].
    + intros q todo' k' [?|?]%elem_of_insert_inv; [simplify_eq; set_solver|].
      apply elem_of_union_r. by eapply Hse.
    + intros q Hq. apply elem_of_union_r. by apply Hk.
    + intros q. rewrite elem_of_union, elem_of_singleton. intros [->|Hq].
      * right; right. exists todo, k. by eapply insert_elem_new.
      * destruct (Hkept q Hq) as [?|[?|(todo' & k' & ?)]]; [by left|by right; left|].
        right; right. exists todo', k'. by eapply insert_elem_kept.
  - rewrite Ho in E. injection E as -> ->.
    split; cbn [sv_node sv_tasks sv_dialed set_peer_sender n_receiver_open n_peer_sender n_peer_list];
      try done.
    + rewrite length_app. cbn. lia.
    + intros q todo' k' [?|?]%elem_of_insert_inv; [done|by eapply Hins].
    + intros q todo' k' [?|?]%elem_of_insert_inv; [done|by eapply Hse].
    + intros q Hq. rewrite !elem_of_app, list_elem_of_singleton in Hq.
      destruct Hq as [[?| ->]|?]; [| |]; [apply Hk, elem_of_app; by left|by eapply Hse|].
      apply Hk, elem_of_app. by right.
    + intros q Hq. rewrite !elem_of_app, list_elem_of_singleton.
      destruct (decide (q = p)) as [->|Hne]; [tauto|].
      destruct (Hkept q Hq) as [?|[Hq'|(todo' & k' & ?)]]; [by left| |].
      * rewrite elem_of_app in Hq'. tauto.
      * right; right. exists todo', k'. eapply insert_elem_kept; [done|done|]. congruence.
  - eapply peers_frame; [exact Hinv|done| |].
    + intros t1 [->|?]%elem_of_insert_inv; [by right|by left].
    + intros t1 Ht1 Hs1. eapply insert_elem_kept; [done|done|]. by intros ->.
Qed.

Lemma peers_inv_step initial s s' : Step s s' → peers_inv initial s → peers_inv initial s'.
Proof.
  destruct 1; intros Hinv; try (eapply peers_frame; [exact Hinv|done|..]).
  - by eapply peers_inv_task.
  - intros t. rewrite elem_of_app, list_elem_of_singleton. intros [?| ->]; [by left|right; by split; [|intros []]].
  - intros t ??. apply elem_of_app. by left.
  - intros t [->|?]%elem_of_insert_inv; [right; by split; [|intros []]|by left].
  - intros t ? Hs. eapply insert_elem_kept; [done|done|]. by intros ->.
  - intros t [->|?]%elem_of_insert_inv; [right; by split; [|intros []]|by left].
  - intros t ? Hs. eapply insert_elem_kept; [done|done|]. by intros ->.
  - intros t. rewrite elem_of_app, list_elem_of_singleton. intros [?| ->]; [by left|right]. by destruct r; split; [|intros []| |intros []].
  - intros t ??. apply elem_of_app. by left.
  - auto.
  - auto.
  - intros t [->|?]%elem_of_insert_inv; [right; by split; [|intros []]|by left].
  - intros t ? Hs. eapply insert_elem_kept; [done|done|]. by intros ->.
  - destruct Hinv as [Ho Hc Hs Hf Hins Hse Hk Hkept]. cbn in *.
    assert (∀ x, x ∈ n_peer_sender n ++ d ↔ x ∈ q ++ d ++ [p]) as Heq.
    { intros x. rewrite H3, !elem_of_app, elem_of_cons, list_elem_of_singleton. tauto. }
    split; cbn; try done.
    + rewrite H3 in Hc. cbn in Hc. lia.
    + intros x Hx. by apply Hk, Heq.
    + intros x Hx. rewrite <- Heq. by apply Hkept.
  - auto.
  - auto.
Qed.

Lemma peers_inv_start n :
  n_receiver_open n = true → n_peer_sender n = [] → peers_inv (n_peer_list n) (start n).
Proof.
  intros Ho Hs. split; cbn; rewrite ?Hs; cbn [app length]; try done; try lia; try set_solver.
Qed.

(** C11: In every interleaving of the tasks of the service: no peer is forgotten
    and none at the node's own IP address is taken over; each peer learnt
    since the start has been dialed, waits in the channel, or is being sent
    to it by a task; only known peers are dialed; the channel holds at most
    100 peers. *)
Theorem peers_safe n s p :
  n_receiver_open n = true → n_peer_sender n = [] →
  rtc Step (start n) s →
  n_peer_list n ⊆ n_peer_list (sv_node s) ∧
  (length (n_peer_sender (sv_node s)) ≤ PEER_CHANNEL)%nat ∧
  (p ∈ n_peer_sender (sv_node s) ++ sv_dialed s → p ∈ n_peer_list (sv_node s)) ∧
  (p ∈ n_peer_list (sv_node s) → p ∉ n_peer_list n →
   foreign p ∧ (p ∈ n_peer_sender (sv_node s) ++ sv_dialed s ∨
                ∃ todo k, Sending p todo k ∈ sv_tasks s)).
Proof.
  intros Ho Hs Hrun.
  assert (peers_inv (n_peer_list n) s) as [_ Hc Hl Hf _ _ Hk Hkept].
  { pose proof (peers_inv_start n Ho Hs) as Hinv. revert Hinv.
    generalize (n_peer_list n). intros initial. induction Hrun; [done|].
    intros Hinv. by eauto using peers_inv_step. }
  split_and!; [done|done|by apply Hk|].
  intros Hp Hnew. destruct (Hf p Hp); [done|]. destruct (Hkept p Hp) as [|]; [done|]. done.
Qed.
End peers.

Section conns.
Context `{PeerEnv} `{HashOrderLaws}.
Implicit Types (n : Node) (ts : list Task) (t : Task) (l : Link).

(** The link a task works for *)
Definition task_link t : option Link :=
  match t with
  | Exchanging l | Storing _ _ l | Sharing l | Registering l | InLoop l | Removing l
  | Forgetting l => Some l
  | Learning _ _ k | Inserting _ _ k | Sending _ _ k | Reading k | Writing _ k => k
  | Checking _ | StoringSources _ _ | Finished => None
  end.

(** The address and the host name are those of the connection. *)
Definition good_link l : Prop :=
  link_addr l = ip_to_string (conn_ip (link_conn l)) ∧
  ∃ agent, certificate_info (conn_subject (link_conn l)) = Ok (agent, link_host l).

(** A task that will remove the entry of its link when the connection ends *)
Definition serves l ts : Prop := InLoop l ∈ ts ∨ Removing l ∈ ts.

Record conns_inv (s : Service) : Prop := {
  ci_links t l : t ∈ sv_tasks s → task_link t = Some l → good_link l;
  ci_conn h c : n_peer_conn (sv_node s) !! h = Some c →
    ∃ l, link_conn l = c ∧ link_host l = h ∧ serves l (sv_tasks s);
}.

(** The link of a task stays what it is; a new one comes from the check. *)
Lemma task_step_link t n t' n' l :
  task_step t n = Some (t', n') → task_link t' = Some l → task_link t = Some l ∨ good_link l.
Proof.
  destruct t; cbn [task_step]; try (intros [= <- <-]; cbn; by auto); try done.
  - unfold check_for_duplicate_connections.
    destruct (certificate_info _) as [[agent host]|] eqn:Hs; [|intros [= <- <-]; done].
    destruct (n_peer_conn n !! host); intros [= <- <-]; [done|]. intros [= <-]. right.
    split; [done|]. by exists agent.
  - destruct todo as [|p todo].
    + destruct is_change; intros [= <- <-]; [by left|]. destruct k; [by left|done].
    + destruct (is_new_peer n p); intros [= <- <-]; by left.
  - destruct (_ <? _)%nat; [|done]. unfold send_peer.
    destruct (n_receiver_open n); intros [= <- <-]; [by left|done].
  - intros [= <- <-]. destruct k; [by left|done].
Qed.

(** Only two steps change the table of connections. *)
Lemma task_step_conn t n t' n' :
  task_step t n = Some (t', n') →
  (∃ l, t = Registering l ∧ t' = InLoop l ∧
     n_peer_conn n' = <[link_host l := link_conn l]> (n_peer_conn n)) ∨
  (∃ l, t = Removing l ∧ n_peer_conn n' = delete (link_host l) (n_peer_conn n)) ∨
  (n_peer_conn n' = n_peer_conn n ∧ ∀ l, t ≠ InLoop l ∧ t ≠ Removing l).
Proof.
  destruct t; cbn [task_step]; try (intros [= <- <-]; naive_solver); try done.
  - unfold check_for_duplicate_connections. repeat case_match; simplify_eq; intros [= <- <-]; naive_solver.
  - destruct todo as [|p todo]; [destruct is_change|destruct (is_new_peer n p)];
      intros [= <- <-]; naive_solver.
  - destruct (_ <? _)%nat; [|done]. unfold send_peer.
    destruct (n_receiver_open n); intros [= <- <-]; naive_solver.
Qed.

Lemma serves_kept l ts i t t' :
  ts !! i = Some t → serves l ts → t ≠ InLoop l → t ≠ Removing l → serves l (<[i := t']> ts).
Proof.
  intros Hi [?|?] ??; [left|right]; (eapply insert_elem_kept; [done|done|congruence]).
Qed.

Lemma conns_inv_task i t t' n n' ts d :
  ts !! i = Some t → task_step t n = Some (t', n') →
  conns_inv (mk_service n ts d) → conns_inv (mk_service n' (<[i := t']> ts) d).
Proof.
  intros Hi Hstep [Hl Hc]. cbn [sv_node sv_tasks] in *.
  assert (t ∈ ts) as Ht by (by eapply list_elem_of_lookup_2).
  split; cbn [sv_node sv_tasks].
  - intros t1 l [->|?]%elem_of_insert_inv Hlink; [|by eapply Hl].
    destruct (task_step_link _ _ _ _ _ Hstep Hlink); [by eapply Hl|done].
  - intros h c. destruct (task_step_conn _ _ _ _ Hstep)
      as [(l & -> & -> & ->)|[(l & -> & ->)|[-> Hne]]].
    + destruct (decide (h = link_host l)) as [->|Hh].
      * rewrite lookup_insert_eq. intros [= <-]. exists l. split_and!; [done|done|].
        left. by eapply insert_elem_new.
      * rewrite lookup_insert_ne by done. intros (l' & ? & ? & ?)%Hc. exists l'.
        split_and!; [done|done|]. by eapply serves_kept.
    + intros [Hh (l' & ? & <- & ?)%Hc]%lookup_delete_Some. exists l'. split_and!; [done|done|].
      eapply serves_kept; [done|done|done|congruence].
    + intros (l' & ? & ? & ?)%Hc. exists l'. split_and!; [done|done|].
      eapply serves_kept; [done|done|apply Hne|apply Hne].
Qed.

(** Steps that keep the table and replace a task by one with the same link *)
Lemma conns_frame n n' ts ts' d d' :
  conns_inv (mk_service n ts d) → n_peer_conn n' = n_peer_conn n →
  (∀ t, t ∈ ts' → t ∈ ts ∨ task_link t = None ∨
     ∃ t0, t0 ∈ ts ∧ task_link t0 = task_link t) →
  (∀ l, serves l ts → serves l ts') →
  conns_inv (mk_service n' ts' d').
Proof.
  intros [Hl Hc] E Hold Hserve. split; cbn [sv_node sv_tasks] in *.
  - intros t l Hin Hlink. destruct (Hold t Hin) as [?|[?|(t0 & ? & E0)]];
      [by eapply Hl|congruence|]. eapply Hl; [done|congruence].
  - intros h c. rewrite E. intros (l & ? & ? & ?)%Hc. exists l. auto.
Qed.

Lemma conns_inv_step s s' : Step s s' → conns_inv s → conns_inv s'.
Proof.
  destruct 1 as [| | | | |i l n ts d Hi|i l n ts d Hi| |]; intros Hinv;
    [by eapply conns_inv_task|..]; (eapply conns_frame; [exact Hinv|done|..]).
  - intros t. rewrite elem_of_app, list_elem_of_singleton. intros [?| ->]; auto.
  - intros l [?|?]; [left|right]; apply elem_of_app; by left.
  - intros t [->|?]%elem_of_insert_inv; [right; right|by left].
    eexists; split; [by eapply list_elem_of_lookup_2|done].
  - intros l' ?. by eapply serves_kept.
  - intros t [->|?]%elem_of_insert_inv; [right; by left|by left].
  - intros l' ?. by eapply serves_kept.
  - intros t. rewrite elem_of_app, list_elem_of_singleton.
    intros [?| ->]; [by left|]. right; left. by destruct r.
  - intros l' [?|?]; [left|right]; apply elem_of_app; by left.
  - auto.
  - auto.
  - intros t [->|?]%elem_of_insert_inv; [right; right|by left].
    eexists; split; [by eapply list_elem_of_lookup_2|done].
  - intros l' Hs. destruct (decide (l' = l)) as [->|Hne].
    + right. by eapply insert_elem_new.
    + eapply serves_kept; [done|done|congruence|congruence].
  - auto.
  - auto.
  - auto.
  - auto.
Qed.

(** C35: In every interleaving each entry of the table of connections is keyed
    by the host name in the certificate of its connection, and a task is
    serving the connection or about to remove the entry: no entry outlives its
    connection. *)
Theorem connections_served n s h c :
  n_peer_conn n = ∅ → rtc Step (start n) s →
  n_peer_conn (sv_node s) !! h = Some c →
  (∃ agent, certificate_info (conn_subject c) = Ok (agent, h)) ∧
  ∃ l, link_conn l = c ∧ link_host l = h ∧ link_addr l = ip_to_string (conn_ip c) ∧
    (InLoop l ∈ sv_tasks s ∨ Removing l ∈ sv_tasks s).
Proof.
  intros He Hrun Hlook.
  assert (conns_inv s) as [Hl Hc].
  { assert (conns_inv (start n)) as Hinv.
    { split; cbn; [by intros t l ?%elem_of_nil|]. by rewrite He. }
    revert Hinv. clear Hlook. induction Hrun; [done|]. eauto using conns_inv_step. }
  destruct (Hc h c Hlook) as (l & <- & <- & Hs).
  assert (good_link l) as [Ha Hg] by (destruct Hs as [Hs|Hs]; by apply (Hl _ l Hs)).
  split; [done|]. by exists l.
Qed.
End conns.
