(* ===== verification/PeerRaces.v ===== *)
(** * What interleavings of the peer service allow, and concrete nodes

    The tasks take the locks of the shared tables one at a time.  The theorems
    here show what this lets happen: an older peer list overwrites a newer one
    in the configuration file, two connections of one host are both accepted,
    and closing one of them removes what belongs to the other.  The second part
    has the concrete nodes that meet the hypotheses of the theorems about the
    service. *)

From Stdlib Require Import ZArith Lia.
From S2P Require Import Prelude Bytes Externals NetAddr SocketAddr Config ConfigSpec.
From S2P Require Import Peer PeerSpec PeerRun.

Section races.
Context `{PeerEnv} `{HashOrderLaws}.
Implicit Types (n : Node) (p q : PeerInfo) (l : Link).

(** Steps of the service given by the positions of the tasks that move *)
Fixpoint run_schedule (moves : list nat) (s : Service) : option Service :=
  match moves with
  | [] => Some s
  | i :: moves =>
      t ← sv_tasks s !! i;
      '(t', n') ← task_step t (sv_node s);
      run_schedule moves (mk_service n' (<[i := t']> (sv_tasks s)) (sv_dialed s))
  end.

Lemma run_schedule_rtc moves s s' : run_schedule moves s = Some s' → rtc Step s s'.
Proof.
  revert s. induction moves as [|i moves IH]; intros s; cbn [run_schedule].
  - intros [= ->]. done.
  - destruct (sv_tasks s !! i) as [t|] eqn:Hi; [|done]. cbn [mbind option_bind].
    destruct (task_step t (sv_node s)) as [[t' n']|] eqn:Ht; [|done]. cbn [mbind option_bind].
    intros Hrun%IH. eapply rtc_l; [|exact Hrun]. destruct s as [n ts d]. by eapply StepTask.
Qed.

Lemma is_new_peer_true n p : foreign p → p ∉ n_peer_list n → is_new_peer n p = true.
Proof. intros. by apply is_new_peer_spec. Qed.

Lemma run_schedule_step i moves t t' n n' ts d :
  ts !! i = Some t → task_step t n = Some (t', n') →
  run_schedule (i :: moves) (mk_service n ts d) =
  run_schedule moves (mk_service n' (<[i := t']> ts) d).
Proof. intros Hi Ht. cbn. rewrite Hi. cbn. by rewrite Ht. Qed.

(** A task that learns one new peer, up to the point where it writes the file *)
Definition after_learning p n : Node :=
  set_peer_sender (n_peer_sender n ++ [p]) (insert_peer p n).

Lemma learn_one i moves p n ts d :
  ts !! i = Some (Learning [p] false None) → foreign p → p ∉ n_peer_list n →
  n_receiver_open n = true → (length (n_peer_sender n) < PEER_CHANNEL)%nat →
  run_schedule (i :: i :: i :: i :: i :: moves) (mk_service n ts d) =
  run_schedule moves (mk_service (after_learning p n)
    (<[i := Writing (hash_iter (n_peer_list (after_learning p n))) None]> ts) d).
Proof.
  intros Hi Hf Hn Ho Hcap. pose proof (lookup_lt_Some _ _ _ Hi) as Hlt.
  erewrite run_schedule_step; [|exact Hi|cbn; by rewrite is_new_peer_true].
  erewrite run_schedule_step; [|by apply list_lookup_insert_eq|done]. rewrite list_insert_insert_eq.
  erewrite run_schedule_step; [|by apply list_lookup_insert_eq|]; cycle 1.
  { unfold task_step. cbn [insert_peer set_peer_list n_peer_sender].
    rewrite (proj2 (Nat.ltb_lt _ _) Hcap). unfold send_peer. cbn. rewrite Ho. reflexivity. }
  rewrite list_insert_insert_eq. fold (after_learning p n).
  erewrite run_schedule_step; [|by apply list_lookup_insert_eq|done]. rewrite list_insert_insert_eq.
  erewrite run_schedule_step; [|by apply list_lookup_insert_eq|done]. by rewrite list_insert_insert_eq.
Qed.

Context `{!TomlEditLaws}.

(** Two requests that each bring one new peer can finish with both peers in
    the peer list and in the channel, and a configuration file that shows only
    the first: the list read before the other request was handled is written
    last. *)
Theorem save_race n p q l1 l2 c :
  foreign p → foreign q → p ∉ n_peer_list n → q ∉ n_peer_list n → p ≠ q →
  n_receiver_open n = true → (length (n_peer_sender n) + 2 ≤ PEER_CHANNEL)%nat →
  config_of_doc config_doc = Ok c →
  is_Some (fs_files (n_fs n) !! config_path) → config_path ∉ fs_readonly (n_fs n) →
  fs_room (n_fs n) = None →
  ∃ n' c', rtc Step (mk_service n [InLoop l1; InLoop l2] [])
      (mk_service n' [InLoop l1; InLoop l2; Finished; Finished] []) ∧
    n_peer_list n' = {[ q ]} ∪ ({[ p ]} ∪ n_peer_list n) ∧
    n_peer_sender n' = n_peer_sender n ++ [p; q] ∧
    giganto_config config_path (n_fs n') = Ok c' ∧
    GigantoConfig.peer_list c' ≡ₚ shown <$> elements ({[ p ]} ∪ n_peer_list n).
Proof.
  intros Hp Hq Hpn Hqn Hpq Ho Hcap Hc Hex Hro Hroom.
  assert (∀ r : PeerInfo, hash_iter ({[ r ]} : gset PeerInfo) = [r]) as Hsing.
  { intros r. apply Permutation_singleton_r. by rewrite hash_iter_perm, elements_singleton. }
  set (n1 := after_learning p n). set (n2 := after_learning q n1).
  set (n3 := write_peers (hash_iter (n_peer_list n2)) n2).
  set (n4 := write_peers (hash_iter (n_peer_list n1)) n3).
  assert (∃ c', giganto_config config_path (n_fs n4) = Ok c' ∧
    GigantoConfig.peer_list c' ≡ₚ shown <$> elements (n_peer_list n1)) as (c' & Hc' & Hpl).
  { destruct (written_fs (hash_iter (n_peer_list n2)) n2) as (Hf & Hr & Hm); [done..|].
    eexists. split; [by apply (write_peers_read _ n3 c)|]. cbn. by rewrite hash_iter_perm. }
  exists n4, c'. split_and!; [|done| |done|done].
  - eapply rtc_l; [by eapply (StepRequest 0 l1 (UpdatePeers {[ p ]}))|].
    eapply rtc_l; [by eapply (StepRequest 0 l1 (UpdatePeers {[ q ]}))|].
    cbn [app request_task]. rewrite !Hsing.
    apply (run_schedule_rtc [2; 2; 2; 2; 2; 3; 3; 3; 3; 3; 3; 2]%nat).
    rewrite (learn_one 2 _ p) by (done || lia). fold n1. cbn [insert list_insert].
    rewrite (learn_one 3 _ q); [|done|done|cbn; set_solver|done|cbn; rewrite length_app; cbn; lia].
    fold n2. cbn [insert list_insert].
    do 2 (erewrite run_schedule_step; [|done|done]). done.
  - cbn. by rewrite <- app_assoc.
Qed.

(** *** Connections *)

(** A connection whose lists arrive, without a peer, until it is registered *)
Definition join_empty srcs l n : Node :=
  insert_conn (link_host l) (link_conn l)
    (share_peer_list (update_to_new_source_list srcs (link_addr l) n)).

Lemma join_one i moves srcs l n ts d :
  ts !! i = Some (Storing ∅ srcs l) →
  run_schedule (i :: i :: i :: i :: moves) (mk_service n ts d) =
  run_schedule moves (mk_service (join_empty srcs l n) (<[i := InLoop l]> ts) d).
Proof.
  intros Hi. pose proof (lookup_lt_Some _ _ _ Hi) as Hlt.
  assert (hash_iter (∅ : gset PeerInfo) = []) as He.
  { apply Permutation_nil_r. by rewrite hash_iter_perm, elements_empty. }
  erewrite run_schedule_step; [|exact Hi|done]. rewrite He.
  do 3 (erewrite run_schedule_step; [|by apply list_lookup_insert_eq|done];
        rewrite list_insert_insert_eq). done.
Qed.

(** Removing the entries of the first of two connections *)
Lemma close_first l1 t n d :
  run_schedule [0; 0]%nat (mk_service n [Removing l1; t] d) =
  Some (mk_service (remove_conn (link_addr l1) (link_host l1) n) [Finished; t] d).
Proof. done. Qed.

(** Two connections: each checked, then each joined, then the first closed *)
Lemma two_connections n c1 c2 l1 l2 srcs1 srcs2 :
  task_step (Checking c1) n = Some (Exchanging l1, n) →
  task_step (Checking c2) n = Some (Exchanging l2, n) →
  let n2 := join_empty srcs2 l2 (join_empty srcs1 l1 n) in
  rtc Step (mk_service n [Checking c1; Checking c2] []) (mk_service n2 [InLoop l1; InLoop l2] []) ∧
  rtc Step (mk_service n2 [InLoop l1; InLoop l2] [])
    (mk_service (remove_conn (link_addr l1) (link_host l1) n2) [Finished; InLoop l2] []).
Proof.
  intros H1' H2'. split.
  - etrans.
    { apply (run_schedule_rtc [0; 1]%nat). do 2 (erewrite run_schedule_step; [|done|done]). done. }
    eapply rtc_l; [by eapply (StepExchanged 0 l1 ∅ srcs1)|].
    eapply rtc_l; [by eapply (StepExchanged 1 l2 ∅ srcs2)|].
    apply (run_schedule_rtc [0; 0; 0; 0; 1; 1; 1; 1]%nat). cbn [insert list_insert].
    rewrite (join_one 0 _ srcs1 l1) by done. cbn [insert list_insert].
    by rewrite (join_one 1 _ srcs2 l2).
  - eapply rtc_l; [by eapply (StepClosed 0 l1)|].
    apply (run_schedule_rtc [0; 0]%nat). apply close_first.
Qed.

Lemma checking_passes c n agent h :
  certificate_info (conn_subject c) = Ok (agent, h) → n_peer_conn n !! h = None →
  task_step (Checking c) n = Some (Exchanging (mk_link c (ip_to_string (conn_ip c)) h), n).
Proof. intros Hc Hn. cbn [task_step]. by rewrite (check_ok c n agent h). Qed.

(** Two connections of one host that pass the duplicate check before either
    is registered, as when two nodes dial each other, are both served; when the
    first is closed the host has no entry any more, neither of connection nor
    of sources, though the second is still served. *)
Theorem duplicate_race n c1 c2 agent h (srcs1 srcs2 : gset string) :
  certificate_info (conn_subject c1) = Ok (agent, h) →
  certificate_info (conn_subject c2) = Ok (agent, h) →
  conn_ip c1 = conn_ip c2 → n_peer_conn n !! h = None →
  let l c := mk_link c (ip_to_string (conn_ip c)) h in
  ∃ n2 n3,
    rtc Step (mk_service n [Checking c1; Checking c2] [])
      (mk_service n2 [InLoop (l c1); InLoop (l c2)] []) ∧
    n_peer_conn n2 !! h = Some c2 ∧
    n_peer_sources n2 !! ip_to_string (conn_ip c2) = Some srcs2 ∧
    rtc Step (mk_service n2 [InLoop (l c1); InLoop (l c2)] [])
      (mk_service n3 [Finished; InLoop (l c2)] []) ∧
    n_peer_conn n3 !! h = None ∧ n_peer_sources n3 !! ip_to_string (conn_ip c2) = None.
Proof.
  intros Hc1 Hc2 Hip Hn l.
  destruct (two_connections n c1 c2 (l c1) (l c2) srcs1 srcs2) as [Hrun Hclose];
    [by eapply checking_passes|by eapply checking_passes|].
  eexists _, _. split; [exact Hrun|]. split; [cbn; by rewrite lookup_insert_eq|].
  split; [cbn; by rewrite lookup_insert_eq|]. split; [exact Hclose|].
  cbn. rewrite Hip. by rewrite !lookup_delete_eq.
Qed.

(** The sources of the peers are kept by IP address: of two hosts behind one
    address only the last list is kept, and when the connection of the first is
    closed the list of the second is removed though it is still connected. *)
Theorem shared_address n c1 c2 agent1 agent2 h1 h2 (srcs1 srcs2 : gset string) :
  certificate_info (conn_subject c1) = Ok (agent1, h1) →
  certificate_info (conn_subject c2) = Ok (agent2, h2) →
  conn_ip c1 = conn_ip c2 → h1 ≠ h2 → n_peer_conn n !! h1 = None → n_peer_conn n !! h2 = None →
  let l c h := mk_link c (ip_to_string (conn_ip c)) h in
  ∃ n2 n3,
    rtc Step (mk_service n [Checking c1; Checking c2] [])
      (mk_service n2 [InLoop (l c1 h1); InLoop (l c2 h2)] []) ∧
    n_peer_conn n2 !! h1 = Some c1 ∧
    n_peer_sources n2 !! ip_to_string (conn_ip c1) = Some srcs2 ∧
    rtc Step (mk_service n2 [InLoop (l c1 h1); InLoop (l c2 h2)] [])
      (mk_service n3 [Finished; InLoop (l c2 h2)] []) ∧
    n_peer_conn n3 !! h2 = Some c2 ∧ n_peer_sources n3 !! ip_to_string (conn_ip c2) = None.
Proof.
  intros Hc1 Hc2 Hip Hne Hn1 Hn2 l.
  destruct (two_connections n c1 c2 (l c1 h1) (l c2 h2) srcs1 srcs2) as [Hrun Hclose];
    [by eapply checking_passes|by eapply checking_passes|].
  eexists _, _. split; [exact Hrun|]. split; [cbn|].
  { rewrite lookup_insert_ne by done. by rewrite lookup_insert_eq. }
  split; [cbn; rewrite Hip; by rewrite lookup_insert_eq|]. split; [exact Hclose|].
  cbn. rewrite lookup_delete_ne by done. rewrite lookup_insert_eq. split; [done|].
  rewrite Hip. by rewrite lookup_delete_eq.
Qed.
End races.
