(* ===== verification/PeerDial.v ===== *)
(** * Dialing the peers (src/src/peer.rs)

    [Peer::run], [client_run] and the outer loop of [client_connection] over the
    tasks of [PeerRun]: a dialer is started for each peer of the configuration
    and for each peer taken from the channel; it connects, hands the connection
    to a task of the service, and when this has ended connects again or gives
    up.  The steps of the service are those of [PeerRun], so what is shown there
    holds here. *)

From Stdlib Require Import ZArith Lia.
From S2P Require Import Prelude Bytes Externals NetAddr SocketAddr Config Peer PeerSpec PeerRun.

(** Where [client_connection] stands: it awaits [connect]; it sleeps before it
    tries again; the task of its connection runs; this task has left its loop
    since the connection was lost, by the peer's own close or in another way; it
    has returned. *)
Inductive DialPc :=
| Connecting
| Sleeping (seconds : Z)
| Attached (task : nat)
| Leaving (task : nat) (application_closed : bool)
| Returned.

Record Dialer := mk_dialer { dl_peer : PeerInfo; dl_pc : DialPc }.

(** The service with its dialers; [pn_started]: [client_run] has run. *)
Record PeerNet := mk_net {
  pn_service : Service;
  pn_dialers : list Dialer;
  pn_started : bool;
}.

Section dial.
Context `{PeerEnv} `{HashOrder}.

Definition set_dialer (j : nat) (pc : DialPc) (x : PeerNet) : PeerNet :=
  mk_net (pn_service x)
    (alter (λ d, mk_dialer (dl_peer d) pc) j (pn_dialers x)) (pn_started x).
Definition set_service (s : Service) (x : PeerNet) : PeerNet :=
  mk_net s (pn_dialers x) (pn_started x).
Definition add_dialers (ps : list PeerInfo) (x : PeerNet) : PeerNet :=
  mk_net (pn_service x) (pn_dialers x ++ ((λ p, mk_dialer p Connecting) <$> ps)) (pn_started x).

(** A dialer for every peer of the list there is when it runs *)
Definition client_run (x : PeerNet) : PeerNet :=
  mk_net (pn_service x)
    (pn_dialers (add_dialers (hash_iter (n_peer_list (sv_node (pn_service x)))) x)) true.

(** [Peer::run] to its loop: the configuration file is read once. *)
Definition peer_run_start (fs : Fs) (config_path : string) : result Document :=
  map_err "Failed to open/read config's toml file" (read_toml_file fs config_path).

(** After [connect] has failed *)
Definition after_failure (e : ConnectError) : DialPc :=
  match connect_failed e with
  | RetryAfter seconds => Sleeping seconds
  | RetryNow => Connecting
  | GiveUp => Returned
  end.

(** After the connection was lost *)
Definition after_close (application_closed : bool) : DialPc :=
  match client_closed application_closed with
  | Some _ => Returned
  | None => Connecting
  end.

(** A task a dialer waits for *)
Definition is_attached (x : PeerNet) (i : nat) : Prop :=
  ∃ d, d ∈ pn_dialers x ∧ dl_pc d = Attached i.

Definition in_loop (s : Service) (i : nat) : Prop := ∃ l, sv_tasks s !! i = Some (InLoop l).

(** A step of the service, but for taking a peer from the channel and for the loss
    of a connection a dialer waits for: these are steps of the dialers. *)
Definition service_step (x : PeerNet) (s : Service) : Prop :=
  PeerRun.Step (pn_service x) s ∧ sv_dialed s = sv_dialed (pn_service x) ∧
  ∀ i, is_attached x i → in_loop (pn_service x) i → in_loop s i.

Inductive Step : PeerNet → PeerNet → Prop :=
| DService s x : service_step x s → Step x (set_service s x)
| DClientRun x :
    pn_started x = false →
    Step x (client_run x)
| DDial p q n ts d x :
    pn_service x = mk_service n ts d → n_peer_sender n = p :: q →
    Step x (add_dialers [p] (set_service (mk_service (set_peer_sender q n) ts (d ++ [p])) x))
| DConnected j p conn n ts d x :
    pn_dialers x !! j = Some (mk_dialer p Connecting) → pn_service x = mk_service n ts d →
    Step x (set_dialer j (Attached (length ts)) (set_service (mk_service n (ts ++ [Checking conn]) d) x))
| DFailed j p e x :
    pn_dialers x !! j = Some (mk_dialer p Connecting) →
    Step x (set_dialer j (after_failure e) x)
| DWakes j p seconds x :
    pn_dialers x !! j = Some (mk_dialer p (Sleeping seconds)) →
    Step x (set_dialer j Connecting x)
| DLost j p i l application_closed n ts d x :
    pn_dialers x !! j = Some (mk_dialer p (Attached i)) → pn_service x = mk_service n ts d →
    ts !! i = Some (InLoop l) →
    Step x (set_dialer j (Leaving i application_closed)
      (set_service (mk_service n (<[i := Removing l]> ts) d) x))
| DLeft j p i application_closed x :
    pn_dialers x !! j = Some (mk_dialer p (Leaving i application_closed)) →
    sv_tasks (pn_service x) !! i = Some Finished →
    Step x (set_dialer j (after_close application_closed) x)
| DEnded j p i x :
    pn_dialers x !! j = Some (mk_dialer p (Attached i)) →
    sv_tasks (pn_service x) !! i = Some Finished →
    Step x (set_dialer j Returned x).

(** [Peer::run] when it starts its loop *)
Definition start_net (n : Node) : PeerNet := mk_net (start n) [] false.
End dial.

(** ** The service underneath *)
Section refinement.
Context `{PeerEnv} `{HashOrder}.
Implicit Types (x y : PeerNet) (d : Dialer).

Lemma dial_step_service x y :
  Step x y → pn_service y = pn_service x ∨ PeerRun.Step (pn_service x) (pn_service y).
Proof.
  destruct 1 as [s x (Hs & _)|x Hs|p q n ts d x Hx Hq|j p conn n ts d x Hj Hx|j p e x Hj|j p s x Hj
    |j p i l ac n ts d x Hj Hx Hi|j p i ac x Hj Hi|j p i x Hj Hi];
    try (by left); right; [done|..]; cbn; rewrite Hx.
  - by eapply StepDial.
  - apply StepConnected.
  - by eapply StepClosed.
Qed.

Lemma dial_runs_service x y :
  rtc Step x y → rtc PeerRun.Step (pn_service x) (pn_service y).
Proof.
  induction 1 as [|x y z Hs _ IH]; [done|].
  destruct (dial_step_service x y Hs) as [E|Hstep]; [by rewrite <- E|by eapply rtc_l].
Qed.

(** *** The peers that have a dialer *)
Definition has_dialer x (p : PeerInfo) : Prop := ∃ d, d ∈ pn_dialers x ∧ dl_peer d = p.

Lemma set_dialer_peers j pc x p : has_dialer (set_dialer j pc x) p ↔ has_dialer x p.
Proof.
  unfold has_dialer, set_dialer. cbn [pn_dialers].
  assert (dl_peer <$> alter (λ d, mk_dialer (dl_peer d) pc) j (pn_dialers x) =
    dl_peer <$> pn_dialers x) as E.
  { apply list_eq. intros i. rewrite !list_lookup_fmap. destruct (decide (j = i)) as [->|Hne].
    - rewrite list_lookup_alter_eq. by destruct (pn_dialers x !! i).
    - by rewrite list_lookup_alter_ne. }
  assert (∀ l : list Dialer, (∃ d, d ∈ l ∧ dl_peer d = p) ↔ p ∈ dl_peer <$> l) as Hf.
  { intros l. rewrite list_elem_of_fmap. naive_solver. }
  by rewrite !Hf, E.
Qed.

Lemma add_dialers_peers ps x p :
  has_dialer (add_dialers ps x) p ↔ has_dialer x p ∨ p ∈ ps.
Proof.
  unfold has_dialer, add_dialers. cbn [pn_dialers]. split.
  - intros (d & [?|(q & -> & ?)%list_elem_of_fmap]%elem_of_app & <-); [left; by exists d|by right].
  - intros [(d & ? & ?)|?]; [exists d|exists (mk_dialer p Connecting)];
      (split; [apply elem_of_app|done]); [by left|right].
    apply list_elem_of_fmap. by exists p.
Qed.
End refinement.

Section dialed.
Context `{PeerEnv} `{HashOrderLaws}.
Implicit Types (x y : PeerNet) (initial : gset PeerInfo).

(** Who was taken from the channel has a dialer, and once [client_run] has run so
    has each peer of the configuration. *)
Definition dialers_inv initial x : Prop :=
  peers_inv initial (pn_service x) ∧
  (∀ p, p ∈ sv_dialed (pn_service x) → has_dialer x p) ∧
  (pn_started x = true → ∀ p, p ∈ initial → has_dialer x p).

Lemma dialers_inv_step initial x y : Step x y → dialers_inv initial x → dialers_inv initial y.
Proof.
  intros Hs (Hp & Hd & Hi).
  assert (peers_inv initial (pn_service y)) as Hp'.
  { destruct (dial_step_service x y Hs) as [->|Hstep]; [done|]. by eapply peers_inv_step. }
  split; [done|]. clear Hp'.
  assert (∀ s j pc, (∀ p, p ∈ sv_dialed s → has_dialer x p) →
    (∀ p, p ∈ sv_dialed s → has_dialer (set_dialer j pc (set_service s x)) p) ∧
    (pn_started x = true → ∀ p, p ∈ initial →
      has_dialer (set_dialer j pc (set_service s x)) p)) as Hkeep.
  { intros s j pc Hsd. split; [intros p Hin|intros Hs' p Hin]; apply set_dialer_peers;
      [exact (Hsd p Hin)|exact (Hi Hs' p Hin)]. }
  destruct Hs as [s x (_ & Es & _)|x Hs|p q n ts d x Hx Hq|j p conn n ts d x Hj Hx|j p e x Hj|j p s x Hj
    |j p i l ac n ts d x Hj Hx Hin|j p i ac x Hj Hin|j p i x Hj Hin].
  - split; [|done]. intros p. cbn. rewrite Es. apply Hd.
  - assert (∀ p, has_dialer x p ∨ p ∈ n_peer_list (sv_node (pn_service x)) →
      has_dialer (mk_net (pn_service x) (pn_dialers x ++ ((λ p, mk_dialer p Connecting) <$>
        hash_iter (n_peer_list (sv_node (pn_service x))))) true) p) as Hadd.
    { intros p Hor. apply (add_dialers_peers (hash_iter _) x p).
      destruct Hor; [by left|right]. by apply elem_of_hash_iter. }
    split; [intros p ?; apply Hadd; left; by apply Hd|]. intros _ p ?. apply Hadd. right.
    by apply (pi_start _ _ Hp).
  - rewrite Hx in Hd. split.
    + intros p0. cbn. rewrite elem_of_app, list_elem_of_singleton, add_dialers_peers.
      intros [?| ->]; [left; by apply Hd|right; by left].
    + intros ? p0 ?. apply add_dialers_peers. left. by apply Hi.
  - rewrite Hx in Hd. by apply (Hkeep (mk_service n (ts ++ [Checking conn]) d)).
  - by apply (Hkeep (pn_service x)).
  - by apply (Hkeep (pn_service x)).
  - rewrite Hx in Hd. by apply (Hkeep (mk_service n (<[i:=Removing l]> ts) d)).
  - by apply (Hkeep (pn_service x)).
  - by apply (Hkeep (pn_service x)).
Qed.

(** C18: Once [client_run] has run, every peer the node knows, of its configuration or
    learnt, has been given a dialer, waits in the channel for one, or is being
    sent there by a task. *)
Theorem known_peers_dialed n x p :
  n_receiver_open n = true → n_peer_sender n = [] →
  rtc Step (start_net n) x → pn_started x = true →
  p ∈ n_peer_list (sv_node (pn_service x)) →
  has_dialer x p ∨ p ∈ n_peer_sender (sv_node (pn_service x)) ∨
  ∃ todo k, Sending p todo k ∈ sv_tasks (pn_service x).
Proof.
  intros Ho Hq Hrun Hst Hp.
  assert (dialers_inv (n_peer_list n) x) as (Hinv & Hd & Hi).
  { assert (dialers_inv (n_peer_list n) (start_net n)) as Hinv.
    { split; [by apply peers_inv_start|]. split; [by intros q ?%elem_of_nil|done]. }
    revert Hinv. generalize (n_peer_list n). clear Hst Hp. intros initial.
    induction Hrun; [done|]. eauto using dialers_inv_step. }
  destruct (pi_kept _ _ Hinv p Hp) as [?|[[?|?]%elem_of_app|?]]; [left; auto|auto|left; auto|auto].
Qed.

(** *** Dialing again *)

(** The service does not take the peer up again. *)
Definition unsent (p : PeerInfo) (s : Service) : Prop :=
  p ∈ n_peer_list (sv_node s) ∧ p ∉ n_peer_sender (sv_node s) ∧
  ∀ todo k, Inserting p todo k ∉ sv_tasks s ∧ Sending p todo k ∉ sv_tasks s.

Lemma unsent_task p t n t' n' :
  task_step t n = Some (t', n') → p ∈ n_peer_list n → p ∉ n_peer_sender n →
  (∀ todo k, t ≠ Inserting p todo k ∧ t ≠ Sending p todo k) →
  p ∈ n_peer_list n' ∧ p ∉ n_peer_sender n' ∧
  ∀ todo k, t' ≠ Inserting p todo k ∧ t' ≠ Sending p todo k.
Proof.
  intros Hs Hl Hq Ht. assert (∀ todo k, t' ≠ Inserting p todo k) as Hins.
  { intros todo k ->. destruct t as [| | |[|p0 todo0] ch k0|p0 todo0 k0|p0 todo0 k0|k0|data k0| | | | | | |];
      cbn [task_step] in Hs; unfold continue_with in Hs; try done;
      repeat case_match; simplify_eq; try done.
    match goal with E : is_new_peer _ _ = true |- _ => by apply is_new_peer_spec in E as [_ E] end. }
  destruct (task_step_frame _ _ _ _ Hs)
    as [(q & todo & k & -> & -> & ->)|[(q & todo & k & -> & Hlt & E)|((_ & E1 & E2) & _ & Hns & _)]].
  - split_and!; [cbn; set_solver|done|]. intros todo' k'. split; [done|]. intros [= -> _ _].
    by destruct (Ht todo k).
  - assert (q ≠ p) as Hne by (intros ->; by destruct (Ht todo k)).
    destruct (n_receiver_open n); injection E as -> ->; (split_and!; [done| |done]); [|done].
    cbn. rewrite elem_of_app, list_elem_of_singleton. by intros [?| ->].
  - rewrite E1, E2. split_and!; [done..|]. intros todo k. split; [done|].
    intros ->. by apply Hns.
Qed.

Lemma unsent_tasks p n n' ts ts' (d d' : list PeerInfo) :
  unsent p (mk_service n ts d) → n_peer_list n' = n_peer_list n → n_peer_sender n' = n_peer_sender n →
  (∀ t, t ∈ ts' → t ∈ ts ∨ ∀ todo k, t ≠ Inserting p todo k ∧ t ≠ Sending p todo k) →
  unsent p (mk_service n' ts' d').
Proof.
  intros (Hl & Hq & Ht) E1 E2 Hold. unfold unsent in *. cbn in *. rewrite E1, E2. split_and!; [done..|].
  intros todo k. split; intros Hin; (destruct (Hold _ Hin) as [Hin'|Hne];
    [by destruct (Ht todo k)|by destruct (Hne todo k)]).
Qed.

Lemma unsent_step p s s' : PeerRun.Step s s' → unsent p s → unsent p s'.
Proof.
  destruct 1 as [i t t' n n' ts d Hi Hs| | | | | | |q rest n ts d Hq|]; intros Hu;
    try (eapply unsent_tasks; [exact Hu|done|done|]).
  - pose proof Hu as (Hl & Hq & Ht). cbn in *.
    assert (t ∈ ts) as Hin by (by eapply list_elem_of_lookup_2).
    destruct (unsent_task p t n t' n' Hs Hl Hq) as (Hl' & Hq' & Ht').
    { intros todo k. split; intros ->; by destruct (Ht todo k). }
    split_and!; [done..|]. intros todo k. split; intros [Ex|?]%elem_of_insert_inv.
    + by destruct (Ht' todo k).
    + by destruct (Ht todo k).
    + by destruct (Ht' todo k).
    + by destruct (Ht todo k).
  - intros t [?|Ht]%elem_of_app; [by left|right]. by apply list_elem_of_singleton in Ht as ->.
  - intros t [->|?]%elem_of_insert_inv; [by right|by left].
  - intros t [->|?]%elem_of_insert_inv; [by right|by left].
  - intros t [?|Ht]%elem_of_app; [by left|right]. apply list_elem_of_singleton in Ht as ->. by destruct r.
  - auto.
  - intros t [->|?]%elem_of_insert_inv; [by right|by left].
  - destruct Hu as (Hl & Hn & Ht). cbn in *. rewrite Hq in Hn. split_and!; [done| |done].
    cbn. set_solver.
  - auto.
Qed.
Lemma unsent_run p s s' : rtc PeerRun.Step s s' → unsent p s → unsent p s'.
Proof. induction 1; eauto using unsent_step. Qed.

(** Nothing will dial the peer: it is known, so that it is not taken for new, it
    is not under way to the channel, and its dialers have returned. *)
Definition undialed (p : PeerInfo) x : Prop :=
  pn_started x = true ∧ unsent p (pn_service x) ∧
  ∀ d, d ∈ pn_dialers x → dl_peer d = p → dl_pc d = Returned.

Lemma undialed_set j p0 pc pc' s x p :
  pn_dialers x !! j = Some (mk_dialer p0 pc) → pc ≠ Returned →
  undialed p x → unsent p s → undialed p (set_dialer j pc' (set_service s x)).
Proof.
  intros Hj Hpc (Hs & _ & Hd) Hu. split_and!; [done..|]. intros d Hin Hp.
  assert (p0 ≠ p) as Hne.
  { intros ->. apply Hpc. apply (Hd (mk_dialer p pc)); [by eapply list_elem_of_lookup_2|done]. }
  apply list_elem_of_lookup in Hin as [i Hi]. cbn [set_dialer set_service pn_dialers] in Hi.
  destruct (decide (j = i)) as [->|Hij].
  - rewrite list_lookup_alter_eq, Hj in Hi. injection Hi as <-. done.
  - rewrite list_lookup_alter_ne in Hi by done. apply Hd; [by eapply list_elem_of_lookup_2|done].
Qed.

Lemma undialed_step p x y : Step x y → undialed p x → undialed p y.
Proof.
  intros Hstep Hu. pose proof Hu as (Hs & Hun & Hd).
  assert (unsent p (pn_service y)) as Hun'.
  { destruct (dial_step_service x y Hstep) as [->|Hstep']; [done|]. by eapply unsent_step. }
  destruct Hstep as [s x Hx|x Hx|p1 q n ts d x Hx Hq|j p1 conn n ts d x Hj Hx|j p1 e x Hj
    |j p1 s x Hj|j p1 i l ac n ts d x Hj Hx Hi|j p1 i ac x Hj Hi|j p1 i x Hj Hi].
  - done.
  - congruence.
  - split_and!; [done..|]. intros dl [?|Hin]%elem_of_app; [by apply Hd|].
    apply list_elem_of_singleton in Hin as ->. intros [= ->].
    rewrite Hx in Hun. destruct Hun as (_ & Hn & _). cbn in Hn. rewrite Hq in Hn. set_solver.
  - by eapply (undialed_set j p1).
  - by eapply (undialed_set j p1 _ _ (pn_service x)).
  - by eapply (undialed_set j p1 _ _ (pn_service x)).
  - by eapply (undialed_set j p1).
  - by eapply (undialed_set j p1 _ _ (pn_service x)).
  - by eapply (undialed_set j p1 _ _ (pn_service x)).
Qed.

Lemma undialed_run p x y : rtc Step x y → undialed p x → undialed p y.
Proof. induction 1; eauto using undialed_step. Qed.

(** A task that leaves its loop, step by step *)
Lemma service_at x i t t' n n' ts d :
  pn_service x = mk_service n ts d → ts !! i = Some t → (∀ l, t ≠ InLoop l) →
  task_step t n = Some (t', n') →
  Step x (set_service (mk_service n' (<[i := t']> ts) d) x).
Proof.
  intros Hx Hi Ht Hs. apply DService. unfold service_step. rewrite Hx. split; [by eapply StepTask|].
  split; [done|]. intros k _ [l Hl]. cbn in Hl. exists l. cbn.
  rewrite list_lookup_insert_ne; [done|]. intros ->. rewrite Hi in Hl. injection Hl as ->. by apply (Ht l).
Qed.

(** C31: When a connection is lost its entries are removed and its dialer goes on: it
    connects again, unless the peer closed the connection itself, as a node that
    shuts down does.  Then, if the peer has no other dialer and is not under way
    to the channel, this node never dials it again: only the peer can restore
    the connection. *)
Theorem dialer_after_loss x j p i l ac n ts d :
  pn_dialers x !! j = Some (mk_dialer p (Attached i)) →
  pn_service x = mk_service n ts d → ts !! i = Some (InLoop l) →
  ∃ y, rtc Step x y ∧
    pn_dialers y !! j = Some (mk_dialer p (if ac : bool then Returned else Connecting)) ∧
    sv_node (pn_service y) = remove_conn (link_addr l) (link_host l) n ∧
    (ac = true → pn_started x = true → unsent p (pn_service x) →
     (∀ k e, k ≠ j → pn_dialers x !! k = Some e → dl_peer e = p → dl_pc e = Returned) →
     ∀ z, rtc Step y z → undialed p z).
Proof.
  intros Hj Hx Hi. pose proof (lookup_lt_Some _ _ _ Hi) as Hlt.
  set (x1 := set_dialer j (Leaving i ac) (set_service (mk_service n (<[i := Removing l]> ts) d) x)).
  set (n2 := set_peer_conn (delete (link_host l) (n_peer_conn n)) n).
  set (x2 := set_service (mk_service n2 (<[i := Forgetting l]> ts) d) x1).
  set (n3 := remove_conn (link_addr l) (link_host l) n).
  set (x3 := set_service (mk_service n3 (<[i := Finished]> ts) d) x2).
  assert (pn_dialers x3 !! j = Some (mk_dialer p (Leaving i ac))) as Hj3
    by (cbn; by rewrite list_lookup_alter_eq, Hj).
  assert (rtc Step x x3) as Hrun.
  { apply (rtc_l _ _ x1); [by eapply DLost|]. apply (rtc_l _ _ x2).
    - unfold x2. rewrite <- (list_insert_insert_eq ts i (Forgetting l) (Removing l)).
      eapply service_at; [done|by apply list_lookup_insert_eq|done|done].
    - apply rtc_once. unfold x3. rewrite <- (list_insert_insert_eq ts i Finished (Forgetting l)).
      eapply service_at; [done|by apply list_lookup_insert_eq|done|done]. }
  exists (set_dialer j (after_close ac) x3). split_and!.
  - etrans; [exact Hrun|]. apply rtc_once. eapply DLeft; [exact Hj3|]. by apply list_lookup_insert_eq.
  - cbn. rewrite list_lookup_alter_eq. change (alter _ j (pn_dialers x)) with (pn_dialers x3).
    rewrite Hj3. by destruct ac.
  - done.
  - intros -> Hst Hun Hothers z Hz.
    assert (undialed p (set_dialer j (after_close true) x3)) as Hu.
    { split_and!; [done| |].
      - eapply unsent_run; [|exact Hun]. by apply (dial_runs_service x x3).
      - intros e [k Hk]%list_elem_of_lookup Hp. cbn in Hk. destruct (decide (j = k)) as [<-|Hne].
        + rewrite !list_lookup_alter_eq, Hj in Hk. by injection Hk as <-.
        + rewrite !list_lookup_alter_ne in Hk by done. by eapply Hothers. }
    by eapply undialed_run.
Qed.
End dialed.
