(* ===== verification/PeerDemo.v ===== *)
(** * Two concrete nodes

    Encodings that meet the laws of the peer service, two nodes over the
    document instance of [ConfigSpec], and the theorems about the service
    applied to them. *)

From Stdlib Require Import ZArith Lia.
From S2P Require Import Prelude Bytes Externals NetAddr SocketAddr Config ConfigSpec.
From S2P Require Import Peer PeerSpec PeerRun PeerRaces PeerDial.

(** ** Encodings *)

(** The bits of an encoded value as bytes *)
Fixpoint pos_bytes (p : positive) : bytes :=
  match p with
  | xH => []
  | xO p => Byte.x00 :: pos_bytes p
  | xI p => Byte.x01 :: pos_bytes p
  end.
Fixpoint bytes_pos (b : bytes) : positive :=
  match b with
  | [] => xH
  | Byte.x00 :: b => xO (bytes_pos b)
  | _ :: b => xI (bytes_pos b)
  end.
Lemma bytes_pos_bytes p : bytes_pos (pos_bytes p) = p.
Proof. induction p as [p IH|p IH|]; cbn; congruence. Qed.

Definition decode_bytes {A} `{Countable A} (b : bytes) : result A :=
  context "invalid data" (decode (bytes_pos b)).

#[export] Instance peers_bincode : Bincode (gset PeerInfo) := {|
  bincode_serialize s := Ok (pos_bytes (encode s));
  bincode_deserialize b := wire_peers <$> decode_bytes b |}.
#[export] Instance strings_bincode : Bincode (gset string) := {|
  bincode_serialize s := Ok (pos_bytes (encode s));
  bincode_deserialize b := decode_bytes b |}.
#[export] Instance lists_bincode : Bincode (gset PeerInfo * gset string) := {|
  bincode_serialize s := Ok (pos_bytes (encode s));
  bincode_deserialize b := (λ x, (wire_peers x.1, x.2)) <$> decode_bytes b |}.

#[export] Instance demo_peer_codec : PeerCodecLaws.
Proof.
  split; intros *; cbn; intros [= <-]; unfold decode_bytes;
    by rewrite bytes_pos_bytes, decode_encode.
Qed.

(** A payload after its length *)
#[export] Instance length_frame : Frame := {|
  frame_raw b := if decide (Z.of_nat (length b) < 2 ^ 32)
                 then Ok (u32_to_le_bytes (Z.of_nat (length b)) ++ b) else Err "message is too large";
  recv_raw b :=
    let len := Z.to_nat (u32_from_le_bytes (take 4 b)) in
    if (length b <? 4 + len)%nat then Err "stream finished early"
    else Ok (take len (drop 4 b), drop (4 + len) b) |}.
#[export] Instance length_frame_laws : FrameLaws.
Proof.
  intros b f rest. cbn [frame_raw recv_raw length_frame].
  destruct (decide _) as [Hb|]; [|done]. intros <-%(inj Ok).
  pose proof (length_u32_to_le_bytes (Z.of_nat (length b))) as Hlen.
  rewrite <- app_assoc, <- Hlen, take_app_length.
  rewrite u32_from_to_le_bytes by lia. rewrite Nat2Z.id, drop_app_length, Hlen.
  rewrite !length_app, Hlen. destruct (Nat.ltb_spec (4 + (length b + length rest)) (4 + length b)); [lia|].
  rewrite take_app_length, <- drop_drop, <- Hlen, drop_app_length, drop_app_length. done.
Qed.

(** ** Two nodes *)
Definition node1_addr : SocketAddr := SV4 167772161 38383.
Definition node2_addr : SocketAddr := SV4 167772162 38383.
Definition demo_peer (i : Z) : PeerInfo := PeerInfo.mk (SV4 (167772160 + i) 38383) "node".

#[export] Instance env1 : PeerEnv := {|
  local_address := node1_addr; local_host_name := "node1";
  config_doc := demo_doc; config_path := "config.toml" |}.
Definition env2 : PeerEnv (H := tree_toml) := {|
  local_address := node2_addr; local_host_name := "node2";
  config_doc := demo_doc; config_path := "config.toml" |}.

Definition demo_node (peers : gset PeerInfo) (sources : gset string) : Node :=
  mk_node ∅ peers sources ∅ [] true demo_fs [] [].
Definition node1 : Node := demo_node {[ demo_peer 3 ]} {[ "src1" ]}.
Definition node2 : Node := demo_node {[ demo_peer 4 ]} {[ "src2" ]}.

(** The connection between them, as each end sees it, and others *)
Definition conn12 : Connection := mk_connection 1 (V4 167772162) (Ok "giganto@node2").
Definition conn21 : Connection := mk_connection 2 (V4 167772161) (Ok "giganto@node1").
Definition conn12' : Connection := mk_connection 3 (V4 167772162) (Ok "giganto@node2").
Definition conn13 : Connection := mk_connection 4 (V4 167772162) (Ok "giganto@node3").

Example demo_certificate : certificate_info (Ok "giganto@node2") = Ok ("giganto", "node2").
Proof. reflexivity. Qed.
Example demo_foreign : foreign (demo_peer 3) ∧ ¬ foreign (demo_peer 1).
Proof. split; [concrete|]. intros Hf. by apply Hf. Qed.

Lemma peer_data_roundtrip_witness :
  ∃ w, (send_peer_data PeerCode.UpdateSourceList ({[ "src1" ]} : gset string)
      (mk_stream [] None [])).2 = mk_stream w None [] ∧
    ∀ r, st_in r = w ++ [Byte.x07] →
      (receive_peer_data r).2 = mk_stream (st_sent r) (st_left r) [Byte.x07].
Proof.
  edestruct (peer_data_roundtrip PeerCode.UpdateSourceList ({[ "src1" ]} : gset string))
    with (s := mk_stream [] None []) (rest := [Byte.x07]) as (w & Hs & Hr & _);
    [reflexivity|reflexivity|reflexivity|].
  exists w. split; [exact (f_equal snd Hs)|].
  intros r Hw. exact (f_equal snd (Hr r Hw)).
Defined.

Lemma update_peer_list_spec_witness :
  ∃ n', update_to_new_peer_list {[ demo_peer 1; demo_peer 5 ]} node1 = (Ok tt, n') ∧
    n_peer_list n' = n_peer_list node1 ∪ filter foreign {[ demo_peer 1; demo_peer 5 ]}.
Proof.
  destruct (update_peer_list_spec {[ demo_peer 1; demo_peer 5 ]} node1 eq_refl)
    as (n' & added & Hu & Hl & _).
  exists n'. split; [exact Hu|exact Hl].
Defined.

Lemma demo_new_peers : new_peers {[ demo_peer 5 ]} node1 ≠ [].
Proof. vm_compute. discriminate. Qed.
Lemma demo_sockets (p : PeerInfo) :
  p ∈ n_peer_list node1 ∪ {[ demo_peer 5 ]} → is_socket (PeerInfo.address p).
Proof.
  unfold node1, demo_node. cbn [n_peer_list]. rewrite elem_of_union, !elem_of_singleton.
  intros [-> | ->]; concrete.
Qed.

Lemma learned_peers_saved_witness :
  ∃ n' c', update_to_new_peer_list {[ demo_peer 5 ]} node1 = (Ok tt, n') ∧
    giganto_config "config.toml" (n_fs n') = Ok c' ∧
    GigantoConfig.peer_list c' ≡ₚ shown <$> elements (n_peer_list n').
Proof.
  destruct (learned_peers_saved {[ demo_peer 5 ]} node1 demo_config eq_refl demo_new_peers)
    as (n' & c' & Hu & Hc & Hl & _);
    [vm_compute; reflexivity|concrete|concrete|reflexivity|exact demo_sockets|].
  exists n', c'. split; [exact Hu|]. split; [exact Hc|exact Hl].
Defined.

Definition node1_connected : Node := insert_conn "node2" conn12 node1.
Lemma duplicate_refused_witness :
  client_connected conn12' (mk_session node1_connected (mk_stream [] None [])) =
    (Ok (Ended (Ok tt)), mk_session (add_closed 3 node1_connected) (mk_stream [] None [])).
Proof.
  exact (proj1 (duplicate_refused conn12' (mk_session node1_connected (mk_stream [] None []))
    "node2" conn12 "giganto" eq_refl eq_refl)).
Defined.

Lemma nodes_exchange_witness :
  ∃ a' b' wireA wireB,
    (client_connected (H0 := env1) conn12 (mk_session node1 (mk_stream [] None wireB))).2 =
      mk_session a' (mk_stream wireA None []) ∧
    (server_connected (H0 := env2) conn21 (mk_session node2 (mk_stream [] None wireA))).2 =
      mk_session b' (mk_stream wireB None []) ∧
    n_peer_sources a' = <[ip_to_string (V4 167772162) := {[ "src2" ]}]> ∅.
Proof.
  edestruct (nodes_exchange env1 env2 node1 node2 conn12 conn21 "giganto" "node1" "giganto" "node2")
    as (a' & b' & wA & wB & Hc & Hs & _ & _ & Ha & _); [reflexivity..|].
  exists a', b', wA, wB. split; [exact (f_equal snd Hc)|]. split; [exact (f_equal snd Hs)|exact Ha].
Defined.

Definition link12 : Link := mk_link conn12 (ip_to_string (V4 167772162)) "node2".
Lemma connection_alone_witness :
  ∃ k, run_alone k (Storing {[ demo_peer 5 ]} {[ "src2" ]} link12) node1 =
    (InLoop link12, joined {[ demo_peer 5 ]} {[ "src2" ]} (link_addr link12) "node2" conn12 node1).
Proof.
  apply (connection_alone {[ demo_peer 5 ]} {[ "src2" ]} link12 node1 eq_refl).
  rewrite size_singleton. cbn. unfold PEER_CHANNEL. lia.
Defined.

Lemma peers_safe_witness :
  demo_peer 3 ∈ n_peer_list (sv_node (mk_service node1 [Checking conn12] [])).
Proof.
  destruct (peers_safe node1 (mk_service node1 [Checking conn12] []) (demo_peer 3) eq_refl eq_refl)
    as (Hl & _); [apply rtc_once; exact (StepConnected conn12 node1 [] [])|].
  apply Hl. unfold node1, demo_node. cbn [n_peer_list]. by apply elem_of_singleton.
Defined.

Lemma connections_served_witness :
  ∃ s, rtc PeerRun.Step (start node1) s ∧ n_peer_conn (sv_node s) !! "node2" = Some conn12 ∧
    ∃ l, link_conn l = conn12 ∧ (InLoop l ∈ sv_tasks s ∨ Removing l ∈ sv_tasks s).
Proof.
  assert (rtc PeerRun.Step (start node1)
    (mk_service (join_empty {[ "src2" ]} link12 node1) [InLoop link12] [])) as Hrun.
  { eapply rtc_l; [exact (StepConnected conn12 node1 [] [])|].
    eapply rtc_l; [exact (StepTask 0 (Checking conn12) (Exchanging link12) node1 node1 [Checking conn12] [] eq_refl eq_refl)|].
    eapply rtc_l; [exact (StepExchanged 0 link12 ∅ {[ "src2" ]} node1 [Exchanging link12] [] eq_refl)|].
    apply (run_schedule_rtc [0; 0; 0; 0]%nat). exact (join_one 0 [] _ link12 node1 [Storing ∅ {[ "src2" ]} link12] [] eq_refl). }
  eexists. split; [exact Hrun|]. split; [reflexivity|].
  destruct (connections_served node1 _ "node2" conn12 eq_refl Hrun eq_refl)
    as (_ & l & Hl & _ & _ & Hs).
  exists l. split; [exact Hl|exact Hs].
Defined.

Lemma save_race_witness :
  ∃ n' c', rtc PeerRun.Step (mk_service node1 [InLoop link12; InLoop link12] [])
      (mk_service n' [InLoop link12; InLoop link12; Finished; Finished] []) ∧
    demo_peer 6 ∈ n_peer_list n' ∧ giganto_config "config.toml" (n_fs n') = Ok c' ∧
    GigantoConfig.peer_list c' ≡ₚ shown <$> elements ({[ demo_peer 5 ]} ∪ n_peer_list node1).
Proof.
  destruct (save_race node1 (demo_peer 5) (demo_peer 6) link12 link12 demo_config)
    as (n' & c' & Hrun & Hl & _ & Hc & Hp);
    [concrete|concrete|concrete|concrete|discriminate|reflexivity|cbn; unfold PEER_CHANNEL; lia
    |vm_compute; reflexivity|concrete|concrete|reflexivity|].
  exists n', c'. split; [exact Hrun|]. split; [|split; [exact Hc|exact Hp]].
  rewrite Hl. apply elem_of_union_l. by apply elem_of_singleton.
Defined.

Lemma duplicate_race_witness :
  ∃ n2, rtc PeerRun.Step (mk_service node1 [Checking conn12; Checking conn12'] [])
    (mk_service n2 [InLoop link12; InLoop (mk_link conn12' (link_addr link12) "node2")] []).
Proof.
  destruct (duplicate_race node1 conn12 conn12' "giganto" "node2" {[ "src2" ]} {[ "src2" ]}
    eq_refl eq_refl eq_refl eq_refl) as (n2 & n3 & Hrun & _).
  exists n2. exact Hrun.
Defined.

Lemma shared_address_witness :
  ∃ n3, n_peer_conn n3 !! "node3" = Some conn13 ∧
    n_peer_sources n3 !! ip_to_string (V4 167772162) = None.
Proof.
  destruct (shared_address node1 conn12 conn13 "giganto" "giganto" "node2" "node3"
    {[ "src2" ]} {[ "src3" ]} eq_refl eq_refl eq_refl ltac:(discriminate) eq_refl eq_refl)
    as (n2 & n3 & _ & _ & _ & _ & Hc & Hs).
  exists n3. split; [exact Hc|exact Hs].
Defined.

(** *** Dialers *)
Lemma known_peers_dialed_witness :
  ∃ x, rtc PeerDial.Step (start_net node1) x ∧ has_dialer x (demo_peer 3).
Proof.
  set (x := mk_net (start node1) ((λ p, mk_dialer p Connecting) <$> hash_iter (n_peer_list node1)) true).
  assert (rtc PeerDial.Step (start_net node1) x) as Hrun
    by (apply rtc_once; exact (DClientRun (start_net node1) eq_refl)).
  exists x. split; [exact Hrun|].
  destruct (known_peers_dialed node1 x (demo_peer 3) eq_refl eq_refl Hrun eq_refl) as [Hd|[Hq|Hs]].
  - unfold x, node1, demo_node. cbn [pn_service sv_node start n_peer_list]. by apply elem_of_singleton.
  - exact Hd.
  - destruct (proj1 (elem_of_nil _) Hq).
  - destruct Hs as (todo & k & Hs). destruct (proj1 (elem_of_nil _) Hs).
Defined.

Definition served_net : PeerNet :=
  mk_net (mk_service node1_connected [InLoop link12] []) [mk_dialer (demo_peer 3) (Attached 0)] true.
Lemma dialer_after_loss_witness :
  ∃ y, rtc PeerDial.Step served_net y ∧
    pn_dialers y !! 0%nat = Some (mk_dialer (demo_peer 3) Returned) ∧
    ∀ z, rtc PeerDial.Step y z → undialed (demo_peer 3) z.
Proof.
  destruct (dialer_after_loss served_net 0 (demo_peer 3) 0 link12 true node1_connected [InLoop link12] []
    eq_refl eq_refl eq_refl) as (y & Hrun & Hd & _ & Hend).
  exists y. split; [exact Hrun|]. split; [exact Hd|]. apply Hend; [reflexivity|reflexivity| |].
  - split; [|split]; cbn.
    + by apply elem_of_singleton.
    + intros Hq. by apply elem_of_nil in Hq.
    + intros todo k. split; intros Hin; by apply list_elem_of_singleton in Hin.
  - intros [|k] e Hk Hl; [by destruct Hk|discriminate Hl].
Defined.
