(* ===== verification/Cluster.v ===== *)
(** * A cluster of nodes (src/src/peer.rs)

    Any number of nodes that run the peer service, with the connections between
    them.  Each node is that of [PeerDial], with its tables, its tasks and its
    dialers, and a step of the cluster is one access of one task: the two ends of
    a new connection check, read their lists, exchange them, learn, share and
    register in steps of their own, between which any other task of any node may
    run.  What a node writes is what the other end reads, byte by byte; each
    update goes on a stream of its own, so that it arrives at any moment and may
    be overtaken by a later one. *)

From Stdlib Require Import ZArith Lia.
From S2P Require Import Prelude Bytes Externals NetAddr SocketAddr Config Peer PeerRun PeerDial.

(** One end of a connection: a node and its task for the connection *)
Record End := mk_end { e_node : nat; e_task : nat }.

(** How far the client ([request_init_info]) and the server
    ([response_init_info]) are with the lists they exchange: each reads its
    sources, then its peers; the client writes them, the server writes its own
    when it has read those of the client. *)
Inductive Asking :=
| AskSources
| AskPeers (sources : gset string)
| Asked (request : bytes).
Inductive Answering :=
| TakeSources
| TakePeers (sources : gset string)
| Taken (peers : gset PeerInfo) (sources : gset string)
| Answered (response : bytes).

(** A connection: who dialed, who accepted, the stream of the exchange, and
    whether it still stands *)
Record Pipe := mk_pipe {
  p_client : End;
  p_server : End;
  p_asking : Asking;
  p_answering : Answering;
  p_open : bool;
}.

Definition set_asking (q : Asking) (P : Pipe) : Pipe :=
  mk_pipe (p_client P) (p_server P) q (p_answering P) (p_open P).
Definition set_answering (r : Answering) (P : Pipe) : Pipe :=
  mk_pipe (p_client P) (p_server P) (p_asking P) r (p_open P).
Definition close_pipe (P : Pipe) : Pipe :=
  mk_pipe (p_client P) (p_server P) (p_asking P) (p_answering P) false.
(** [e] and [e'] are the ends of the connection. *)
Definition joins (P : Pipe) (e e' : End) : Prop :=
  (p_client P = e ∧ p_server P = e') ∨ (p_client P = e' ∧ p_server P = e).

Section cluster.
Context `{TomlEdit} `{HashOrder}.

(** A node: what its tasks have a copy of, the common name of its certificate,
    and the state of its service *)
Record Member := mk_member { mb_env : PeerEnv; mb_subject : string; mb_net : PeerNet }.

(** The nodes by number, the connections by number *)
Record Cluster := mk_cluster { cl_members : gmap nat Member; cl_pipes : list Pipe }.

Definition info (a : Member) : PeerInfo := @own_info _ (mb_env a).
Definition host_of (a : Member) : string := PeerInfo.host_name (info a).
Definition ip_of (a : Member) : IpAddr := socket_ip (PeerInfo.address (info a)).
Definition node_of (a : Member) : Node := sv_node (pn_service (mb_net a)).
Definition tasks_of (a : Member) : list Task := sv_tasks (pn_service (mb_net a)).
Definition peers_of (a : Member) : gset PeerInfo := n_peer_list (node_of a).

(** Connection [k] as the end that talks to [b] sees it *)
Definition conn_with (k : nat) (b : Member) : Connection :=
  mk_connection k (ip_of b) (Ok (mb_subject b)).

Definition with_net (a : Member) (x : PeerNet) : Member := mk_member (mb_env a) (mb_subject a) x.
Definition with_service (f : Service → Service) (a : Member) : Member :=
  with_net a (set_service (f (pn_service (mb_net a))) (mb_net a)).
Definition set_node (n : Node) : Service → Service := λ s, mk_service n (sv_tasks s) (sv_dialed s).
Definition set_task (t : nat) (task : Task) : Service → Service := λ s,
  mk_service (sv_node s) (<[t := task]> (sv_tasks s)) (sv_dialed s).
Definition add_task (task : Task) : Service → Service := λ s,
  mk_service (sv_node s) (sv_tasks s ++ [task]) (sv_dialed s).
Definition set_spawned (l : list (Connection * PeerUpdate)) (n : Node) : Node :=
  mk_node (n_peer_conn n) (n_peer_list n) (n_sources n) (n_peer_sources n) (n_peer_sender n)
    (n_receiver_open n) (n_fs n) (n_closed n) l.

Definition put (i : nat) (a : Member) (cl : Cluster) : Cluster :=
  mk_cluster (<[i := a]> (cl_members cl)) (cl_pipes cl).
Definition put_pipe (k : nat) (P : Pipe) (cl : Cluster) : Cluster :=
  mk_cluster (cl_members cl) (<[k := P]> (cl_pipes cl)).
Definition add_pipe (P : Pipe) (cl : Cluster) : Cluster :=
  mk_cluster (cl_members cl) (cl_pipes cl ++ [P]).

(** ** Inside a node *)

(** The steps of [PeerDial] that need no other node: an access of a task to the
    tables, the start of the dialers, a peer taken from the channel, a failed
    attempt, a dialer that wakes up or whose task has ended, the notification of
    the sources and their change *)
Inductive Inner (E : PeerEnv) : PeerNet → PeerNet → Prop :=
| LTask t task task' n n' ts d x :
    pn_service x = mk_service n ts d → ts !! t = Some task → task_step task n = Some (task', n') →
    Inner E x (set_service (mk_service n' (<[t := task']> ts) d) x)
| LClientRun x : pn_started x = false → Inner E x (client_run x)
| LTake p q n ts d x :
    pn_service x = mk_service n ts d → n_peer_sender n = p :: q →
    Inner E x (add_dialers [p] (set_service (mk_service (set_peer_sender q n) ts (d ++ [p])) x))
| LFailed j p e x :
    pn_dialers x !! j = Some (mk_dialer p Connecting) → Inner E x (set_dialer j (after_failure e) x)
| LWakes j p seconds x :
    pn_dialers x !! j = Some (mk_dialer p (Sleeping seconds)) → Inner E x (set_dialer j Connecting x)
| LLeft j p t application_closed x :
    pn_dialers x !! j = Some (mk_dialer p (Leaving t application_closed)) →
    sv_tasks (pn_service x) !! t = Some Finished →
    Inner E x (set_dialer j (after_close application_closed) x)
| LEnded j p t x :
    pn_dialers x !! j = Some (mk_dialer p (Attached t)) →
    sv_tasks (pn_service x) !! t = Some Finished → Inner E x (set_dialer j Returned x)
| LNotified t l n ts d x :
    pn_service x = mk_service n ts d → ts !! t = Some (InLoop l) →
    Inner E x (set_service (mk_service (broadcast_sources n) ts d) x)
| LSources srcs n ts d x :
    pn_service x = mk_service n ts d → Inner E x (set_service (mk_service (set_sources srcs n) ts d) x).

(** ** Between the nodes *)
Context `{Frame} `{Bincode (gset PeerInfo)} `{Bincode (gset string)}
  `{Bincode (gset PeerInfo * gset string)}.

(** A stream on which all calls succeed, with the bytes there are to read *)
Definition fresh_stream (incoming : bytes) : Stream := mk_stream [] None incoming.
Definition writes (m : M Stream unit) (wire : bytes) : Prop :=
  ∃ st, m (fresh_stream []) = (Ok tt, st) ∧ st_sent st = wire.

(** The lists of the exchange, as they are written and as they are read *)
Definition send_lists (lists : gset PeerInfo * gset string) : M Stream unit :=
  send_peer_data PeerCode.UpdatePeerList lists.
Definition read_lists (wire : bytes) : result (gset PeerInfo * gset string) :=
  received ← (receive_peer_data (fresh_stream wire)).1;
  bincode_deserialize received.2.

(** What a spawned task writes, and the task [handle_request] that reads it *)
Definition send_update (u : PeerUpdate) : M Stream unit :=
  match u with
  | PeersUpdate peers => update_peer_info true PeerCode.UpdatePeerList peers
  | SourcesUpdate sources => update_peer_info true PeerCode.UpdateSourceList sources
  end.
Definition read_update (wire : bytes) : result Request :=
  received ← (receive_peer_data (fresh_stream wire)).1;
  match received with
  | (PeerCode.UpdatePeerList, msg_buf) => UpdatePeers <$> bincode_deserialize msg_buf
  | (PeerCode.UpdateSourceList, msg_buf) => UpdateSources <$> bincode_deserialize msg_buf
  end.

(** A dialer reaches a node: both ends have a task and check the connection. *)
Inductive Dials : Cluster → Cluster → Prop :=
| Dial i j a b jd (cl : Cluster) :
    cl_members cl !! i = Some a → cl_members cl !! j = Some b → i ≠ j →
    pn_dialers (mb_net a) !! jd = Some (mk_dialer (info b) Connecting) →
    let k := length (cl_pipes cl) in
    let a' := with_service (add_task (Checking (conn_with k b))) a in
    Dials cl (add_pipe (mk_pipe (mk_end i (length (tasks_of a))) (mk_end j (length (tasks_of b)))
                AskSources TakeSources true)
      (put j (with_service (add_task (Checking (conn_with k a))) b)
        (put i (with_net a' (set_dialer jd (Attached (length (tasks_of a))) (mb_net a'))) cl))).

(** The exchange of the lists over connection [k], up to where each end has the
    lists of the other; or it fails and the connection is given up *)
Inductive Exchanges : Cluster → Cluster → Prop :=
| AsksSources k P i t a l (cl : Cluster) :
    cl_pipes cl !! k = Some P → p_client P = mk_end i t → cl_members cl !! i = Some a →
    tasks_of a !! t = Some (Exchanging l) → p_asking P = AskSources →
    Exchanges cl (put_pipe k (set_asking (AskPeers (n_sources (node_of a))) P) cl)
| AsksPeers k P i t a l srcs wire (cl : Cluster) :
    cl_pipes cl !! k = Some P → p_client P = mk_end i t → cl_members cl !! i = Some a →
    tasks_of a !! t = Some (Exchanging l) → p_asking P = AskPeers srcs →
    writes (send_lists ({[ info a ]} ∪ peers_of a, srcs)) wire →
    Exchanges cl (put_pipe k (set_asking (Asked wire) P) cl)
| TakesSources k P i t a l (cl : Cluster) :
    cl_pipes cl !! k = Some P → p_server P = mk_end i t → cl_members cl !! i = Some a →
    tasks_of a !! t = Some (Exchanging l) → p_answering P = TakeSources →
    Exchanges cl (put_pipe k (set_answering (TakePeers (n_sources (node_of a))) P) cl)
| TakesPeers k P i t a l srcs (cl : Cluster) :
    cl_pipes cl !! k = Some P → p_server P = mk_end i t → cl_members cl !! i = Some a →
    tasks_of a !! t = Some (Exchanging l) → p_answering P = TakePeers srcs →
    Exchanges cl (put_pipe k (set_answering (Taken (peers_of a) srcs) P) cl)
| Answers k P i t a l request peers srcs recv rsrcs wire (cl : Cluster) :
    cl_pipes cl !! k = Some P → p_server P = mk_end i t → cl_members cl !! i = Some a →
    tasks_of a !! t = Some (Exchanging l) → p_open P = true →
    p_asking P = Asked request → read_lists request = Ok (recv, rsrcs) →
    p_answering P = Taken peers srcs → writes (send_lists (peers, srcs)) wire →
    Exchanges cl (put_pipe k (set_answering (Answered wire) P)
      (put i (with_service (set_task t (Storing recv rsrcs l)) a) cl))
| Receives k P i t a l request response recv rsrcs (cl : Cluster) :
    cl_pipes cl !! k = Some P → p_client P = mk_end i t → cl_members cl !! i = Some a →
    tasks_of a !! t = Some (Exchanging l) → p_open P = true → p_asking P = Asked request →
    p_answering P = Answered response → read_lists response = Ok (recv, rsrcs) →
    Exchanges cl (put i (with_service (set_task t (Storing recv rsrcs l)) a) cl)
| ExchangeFails k P i t e a l (cl : Cluster) :
    cl_pipes cl !! k = Some P → joins P (mk_end i t) e → cl_members cl !! i = Some a →
    tasks_of a !! t = Some (Exchanging l) →
    Exchanges cl (put_pipe k (close_pipe P) (put i (with_service (set_task t Finished) a) cl)).

(** A connection breaks or is closed, and an end in its loop notices it, that of a
    client together with its dialer. *)
Inductive Breaks : Cluster → Cluster → Prop :=
| Broken k P (cl : Cluster) :
    cl_pipes cl !! k = Some P → Breaks cl (put_pipe k (close_pipe P) cl)
| ServerNotices k P i t a l (cl : Cluster) :
    cl_pipes cl !! k = Some P → p_server P = mk_end i t → p_open P = false →
    cl_members cl !! i = Some a → tasks_of a !! t = Some (InLoop l) →
    Breaks cl (put i (with_service (set_task t (Removing l)) a) cl)
| ClientNotices k P i t a l jd p application_closed (cl : Cluster) :
    cl_pipes cl !! k = Some P → p_client P = mk_end i t → p_open P = false →
    cl_members cl !! i = Some a → tasks_of a !! t = Some (InLoop l) →
    pn_dialers (mb_net a) !! jd = Some (mk_dialer p (Attached t)) →
    let a' := with_service (set_task t (Removing l)) a in
    Breaks cl (put i (with_net a' (set_dialer jd (Leaving t application_closed) (mb_net a'))) cl).

(** An update a node has spawned reaches the other end, which is in its loop and
    spawns a task for it if it can be read; or it cannot be sent. *)
Inductive Delivers : Cluster → Cluster → Prop :=
| Delivered i t j t' a b l1 conn u l2 P l wire b' (cl : Cluster) :
    cl_members cl !! i = Some a → cl_members cl !! j = Some b → i ≠ j →
    n_spawned (node_of a) = l1 ++ (conn, u) :: l2 →
    cl_pipes cl !! conn_id conn = Some P → p_open P = true → joins P (mk_end i t) (mk_end j t') →
    tasks_of b !! t' = Some (InLoop l) → writes (send_update u) wire →
    b' = match read_update wire with
         | Ok r => with_service (add_task (request_task l r)) b
         | Err _ => b
         end →
    Delivers cl (put j b' (put i (with_service (set_node (set_spawned (l1 ++ l2) (node_of a))) a) cl))
| Dropped i a l1 conn u l2 (cl : Cluster) :
    cl_members cl !! i = Some a → n_spawned (node_of a) = l1 ++ (conn, u) :: l2 →
    (∀ P, cl_pipes cl !! conn_id conn = Some P → p_open P = true → ∀ wire, ¬ writes (send_update u) wire) →
    Delivers cl (put i (with_service (set_node (set_spawned (l1 ++ l2) (node_of a))) a) cl).

Inductive Step : Cluster → Cluster → Prop :=
| CLocal i a x (cl : Cluster) :
    cl_members cl !! i = Some a → Inner (mb_env a) (mb_net a) x → Step cl (put i (with_net a x) cl)
| CDials cl cl' : Dials cl cl' → Step cl cl'
| CExchanges cl cl' : Exchanges cl cl' → Step cl cl'
| CBreaks cl cl' : Breaks cl cl' → Step cl cl'
| CDelivers cl cl' : Delivers cl cl' → Step cl cl'.
End cluster.

(** ** The steps of a node are those of [PeerDial] *)
Section refinement.
Context `{PeerEnv} `{HashOrder}.

Lemma inner_dial_step x y : Inner _ x y → PeerDial.Step x y.
Proof.
  destruct 1 as [t task task' n n' ts d x Hx Ht Hs| | | | | | |t l n ts d x Hx Ht|srcs n ts d x Hx];
    [|by econstructor..| |].
  - apply DService. unfold service_step. rewrite Hx. split; [by eapply StepTask|]. split; [done|].
    intros k _ [l Hl]. cbn in Hl. exists l. cbn. rewrite list_lookup_insert_ne; [done|]. intros ->.
    rewrite Ht in Hl. by injection Hl as ->.
  - apply DService. unfold service_step. rewrite Hx. split; [by eapply StepNotified|done].
  - apply DService. unfold service_step. rewrite Hx. split; [apply StepSources|done].
Qed.
End refinement.
