(* ===== verification/ClusterSpec.v ===== *)
(** * What the nodes of a cluster come to know

    The runs of [Cluster], whatever connections are made and lost, however the
    tasks of the nodes interleave and however the updates are delayed: nobody
    knows a node that does not exist, and a registered connection leads to the node
    it is registered for, which is known.  The lists of sources are not as safe: an
    update that is overtaken by a newer one leaves the older list behind. *)

From Stdlib Require Import ZArith Lia.
From S2P Require Import Prelude Bytes Externals NetAddr SocketAddr Config Peer PeerSpec PeerRun.
From S2P Require Import PeerDial Cluster.

(** ** What is written is read *)
Section wire.
Context `{HashOrderLaws} `{TomlEdit} `{FrameLaws} `{Bincode (gset PeerInfo)} `{Bincode (gset string)}
  `{Bincode (gset PeerInfo * gset string)} `{!PeerCodecLaws}.
Implicit Types (a b : Member) (p : PeerInfo).

(** A peer whose address is written as it is read *)
Definition canonical p : Prop := wire_peer p = p.

Lemma wire_peers_canonical (s : gset PeerInfo) : (∀ p, p ∈ s → canonical p) → wire_peers s = s.
Proof.
  intros Hs. apply set_eq. intros p. unfold wire_peers. rewrite elem_of_map. split.
  - intros (q & -> & Hq). by rewrite (Hs q Hq).
  - intros Hp. exists p. by rewrite (Hs p Hp).
Qed.

Lemma writes_message {T} `{Bincode T} code (x : T) wire :
  writes (send_peer_data code x) wire →
  ∃ buf f, bincode_serialize x = Ok buf ∧ frame_raw buf = Ok f ∧ wire = peer_message code f.
Proof.
  intros (st & Hs & <-). unfold fresh_stream in Hs.
  destruct (bincode_serialize x) as [buf|] eqn:Hb.
  - destruct (frame_raw buf) as [f|] eqn:Hf.
    + rewrite (send_peer_data_ok code x buf f) in Hs by done. injection Hs as <-. by exists buf, f.
    + unfold send_peer_data, m_bind, send_bytes, m_lift in Hs. cbn in Hs. by rewrite Hb, Hf in Hs.
  - unfold send_peer_data, m_bind, send_bytes, m_lift in Hs. cbn in Hs. by rewrite Hb in Hs.
Qed.

Lemma message_read code buf f :
  frame_raw buf = Ok f → (receive_peer_data (fresh_stream (peer_message code f))).1 = Ok (code, buf).
Proof.
  intros Hf. unfold fresh_stream. rewrite <- (app_nil_r (peer_message code f)).
  by rewrite (receive_peer_data_ok code buf f).
Qed.

Lemma lists_read peers sources wire :
  writes (send_lists (peers, sources)) wire → read_lists wire = Ok (wire_peers peers, sources).
Proof.
  intros (buf & f & Hx & Hf & ->)%writes_message. unfold read_lists.
  rewrite (message_read _ buf f Hf). cbn. by apply lists_roundtrip.
Qed.

Lemma peers_update_read peers wire :
  writes (send_update (PeersUpdate peers)) wire → read_update wire = Ok (UpdatePeers (wire_peers peers)).
Proof.
  intros (buf & f & Hx & Hf & ->)%writes_message. unfold read_update.
  rewrite (message_read _ buf f Hf). cbn. by rewrite (peers_roundtrip _ _ Hx).
Qed.

Lemma sources_update_read (sources : gset string) buf f wire :
  bincode_serialize sources = Ok buf → frame_raw buf = Ok f → bincode_deserialize buf = Ok sources →
  writes (send_update (SourcesUpdate sources)) wire → read_update wire = Ok (UpdateSources sources).
Proof.
  intros Hx Hf Hd (buf' & f' & Hx' & Hf' & ->)%writes_message.
  rewrite Hx in Hx'. injection Hx' as <-. rewrite Hf in Hf'. injection Hf' as <-.
  unfold read_update. rewrite (message_read _ buf f Hf). cbn. by rewrite Hd.
Qed.

(** An update of sources is not taken for one of peers. *)
Lemma sources_update_request (sources : gset string) wire r :
  writes (send_update (SourcesUpdate sources)) wire → read_update wire = Ok r →
  ∃ sources', r = UpdateSources sources'.
Proof.
  intros (buf & f & Hx & Hf & ->)%writes_message. unfold read_update.
  rewrite (message_read _ buf f Hf). cbn. destruct (bincode_deserialize buf); [|done].
  intros [= <-]. by eexists.
Qed.
End wire.

(** ** What a node holds *)
Section holds.
Context `{HashOrderLaws} `{TomlEdit}.
Implicit Types (a b : Member) (p : PeerInfo) (task : Task).

(** The connection a task works for *)
Definition task_conn task : option Connection :=
  match task with Checking conn => Some conn | _ => link_conn <$> task_link task end.

(** The peers a task has been given and has not looked at yet *)
Definition mentions task p : Prop :=
  match task with
  | Storing recv _ _ => p ∈ recv
  | Learning todo _ _ => p ∈ todo
  | Inserting q todo _ | Sending q todo _ => p = q ∨ p ∈ todo
  | _ => False
  end.
Definition holds a p : Prop :=
  p ∈ peers_of a ∨ (∃ task, task ∈ tasks_of a ∧ mentions task p) ∨
  ∃ conn peers, (conn, PeersUpdate peers) ∈ n_spawned (node_of a) ∧ p ∈ peers.

(** Once the lists are exchanged, the task of a connection has a peer before it
    or behind it. *)
Definition coming task p (known : gset PeerInfo) : Prop :=
  match task with
  | Checking _ | Exchanging _ | StoringSources _ _ | Finished => True
  | Storing recv _ _ => p ∈ recv
  | Learning todo _ _ => p ∈ todo ∨ p ∈ known
  | Inserting q todo _ => p = q ∨ p ∈ todo ∨ p ∈ known
  | Sending q todo _ => p ∈ todo ∨ p ∈ known
  | _ => p ∈ known
  end.

(** What is dialed is listed. *)
Definition listed a : Prop :=
  n_receiver_open (node_of a) = true ∧
  (∀ d, d ∈ pn_dialers (mb_net a) → dl_peer d ∈ peers_of a) ∧
  (∀ p, p ∈ n_peer_sender (node_of a) → p ∈ peers_of a) ∧
  (∀ p todo k, Sending p todo k ∈ tasks_of a → p ∈ peers_of a) ∧
  (∀ task l, task ∈ tasks_of a → task_link task = Some l → good_link l).

(** A peer at another address *)
Definition foreign_at a p : Prop := socket_ip (PeerInfo.address p) ≠ ip_of a.

(** How a node may change in one step; [fresh] are the peers it is given. *)
Record evolves (fresh : PeerInfo → Prop) a a' : Prop := {
  ev_env : mb_env a' = mb_env a;
  ev_subject : mb_subject a' = mb_subject a;
  ev_list : peers_of a ⊆ peers_of a';
  ev_listed : listed a → listed a';
  ev_holds p : holds a' p → holds a p ∨ fresh p;
  ev_kept t task : tasks_of a !! t = Some task → is_Some (tasks_of a' !! t);
  ev_conns t task' c : tasks_of a' !! t = Some task' → task_conn task' = Some c →
    ∃ task, tasks_of a !! t = Some task ∧ task_conn task = Some c;
  ev_coming t task task' p : listed a → tasks_of a !! t = Some task → tasks_of a' !! t = Some task' →
    foreign_at a p → coming task p (peers_of a) → coming task' p (peers_of a') ∨
    ∃ l recv srcs, task = Exchanging l ∧ task' = Storing recv srcs l;
  ev_table h c : n_peer_conn (node_of a') !! h = Some c → n_peer_conn (node_of a) !! h = Some c ∨
    ∃ t l, tasks_of a !! t = Some (Registering l) ∧ h = link_host l ∧ c = link_conn l;
}.

End holds.

(** *** One access of a task to the tables *)
Section access.
Context `{HashOrderLaws} `{TomlEdit} (E : PeerEnv).
Implicit Types (task : Task) (n : Node) (p : PeerInfo).

Lemma access_conn task n task' n' c :
  task_step task n = Some (task', n') → task_conn task' = Some c → task_conn task = Some c.
Proof.
  destruct task; cbn [task_step]; try (intros [= <- <-]; done); try done.
  - unfold check_for_duplicate_connections.
    destruct (certificate_info _) as [[agent host]|]; [|by intros [= <- <-]].
    destruct (n_peer_conn n !! host); by intros [= <- <-].
  - destruct todo as [|p todo]; [destruct is_change|destruct (is_new_peer n p)]; intros [= <- <-]; try done.
    by destruct k.
  - destruct (_ <? _)%nat; [|done]. unfold send_peer. destruct (n_receiver_open n); by intros [= <- <-].
  - intros [= <- <-]. by destruct k.
Qed.

Lemma access_mentions task n task' n' p :
  task_step task n = Some (task', n') → mentions task' p → mentions task p.
Proof.
  destruct task; cbn [task_step]; try (intros [= <- <-]; done); try done.
  - unfold check_for_duplicate_connections.
    destruct (certificate_info _) as [[agent host]|]; [|by intros [= <- <-]].
    destruct (n_peer_conn n !! host); by intros [= <- <-].
  - intros [= <- <-]. cbn. by rewrite elem_of_hash_iter.
  - destruct todo as [|q todo].
    + destruct is_change; intros [= <- <-]; [done|]. by destruct k.
    + destruct (is_new_peer n q); intros [= <- <-]; cbn; rewrite elem_of_cons; [tauto|]. by right.
  - destruct (_ <? _)%nat; [|done]. unfold send_peer.
    destruct (n_receiver_open n); intros [= <- <-]; [by right|done].
  - intros [= <- <-]. by destruct k.
Qed.

(** Whom a step adds to the list *)
Lemma access_list task n task' n' p :
  task_step task n = Some (task', n') → p ∈ n_peer_list n' → p ∈ n_peer_list n ∨ mentions task p.
Proof.
  intros Hs. destruct (task_step_frame _ _ _ _ Hs)
    as [(q & todo & k & -> & -> & ->)|[(q & todo & k & -> & Hlt & Eq)|((_ & -> & _) & _)]].
  - cbn. rewrite elem_of_union, elem_of_singleton. intros [->|?]; [right; by left|by left].
  - destruct (n_receiver_open n); injection Eq as -> ->; by left.
  - by left.
Qed.
Lemma access_grows task n task' n' :
  task_step task n = Some (task', n') → n_peer_list n ⊆ n_peer_list n'.
Proof.
  intros Hs. destruct (task_step_frame _ _ _ _ Hs)
    as [(q & todo & k & -> & -> & ->)|[(q & todo & k & -> & Hlt & Eq)|((_ & -> & _) & _)]].
  - cbn. set_solver.
  - by destruct (n_receiver_open n); injection Eq as -> ->.
  - done.
Qed.

(** What a step sends are the peers of the list. *)
Lemma access_spawned task n task' n' conn peers :
  task_step task n = Some (task', n') → (conn, PeersUpdate peers) ∈ n_spawned n' →
  (conn, PeersUpdate peers) ∈ n_spawned n ∨ peers = n_peer_list n.
Proof.
  destruct task; cbn [task_step]; try (intros [= <- <-]; by left); try done.
  - unfold check_for_duplicate_connections.
    destruct (certificate_info _) as [[agent host]|]; [|intros [= <- <-]; by left].
    destruct (n_peer_conn n !! host); intros [= <- <-]; by left.
  - destruct todo as [|q todo]; [destruct is_change|destruct (is_new_peer n q)]; intros [= <- <-]; by left.
  - destruct (_ <? _)%nat; [|done]. unfold send_peer.
    destruct (n_receiver_open n); intros [= <- <-]; by left.
  - intros [= <- <-]. cbn. rewrite elem_of_app.
    intros [?|(c & [= -> ->] & _)%list_elem_of_fmap]; [by left|by right].
Qed.

(** A peer at another address stays before the task or behind it. *)
Lemma access_coming task n task' n' p :
  task_step task n = Some (task', n') → n_receiver_open n = true → foreign p →
  (∀ q todo k, task = Sending q todo k → q ∈ n_peer_list n) →
  coming task p (n_peer_list n) → coming task' p (n_peer_list n').
Proof.
  intros Hs Ho Hf Hsend. revert Hs. destruct task; cbn [task_step coming]; try (by intros [= <- <-]); try done.
  - unfold check_for_duplicate_connections.
    destruct (certificate_info _) as [[agent host]|]; [|by intros [= <- <-]].
    destruct (n_peer_conn n !! host); by intros [= <- <-].
  - intros [= <- <-] ?. left. by apply elem_of_hash_iter.
  - destruct todo as [|q todo].
    + destruct is_change; intros [= <- <-]; rewrite elem_of_nil; cbn; [tauto|]. destruct k; cbn; tauto.
    + destruct (is_new_peer n q) eqn:Hnew; intros [= <- <-]; cbn; rewrite elem_of_cons; [tauto|].
      intros [[->|?]|?]; [|tauto|tauto]. right. destruct (decide (q ∈ n_peer_list n)) as [?|Hq]; [done|].
      rewrite (proj2 (is_new_peer_spec n q)) in Hnew by done. done.
  - intros [= <- <-]. cbn. set_solver.
  - destruct (_ <? _)%nat; [|done]. unfold send_peer. rewrite Ho. intros [= <- <-]. cbn. tauto.
  - intros [= <- <-]. destruct k; cbn; tauto.
Qed.
End access.

(** *** The changes of a node *)
Section evolves.
Context `{HashOrderLaws} `{TomlEdit}.
Implicit Types (a b : Member) (p : PeerInfo) (task : Task) (x : PeerNet) (fresh : PeerInfo → Prop).

(** The tables but for what others would notice *)
Lemma evolves_quiet fresh a x :
  let a' := with_net a x in
  tasks_of a' = tasks_of a → peers_of a' = peers_of a →
  n_receiver_open (node_of a') = n_receiver_open (node_of a) →
  n_peer_conn (node_of a') = n_peer_conn (node_of a) →
  (∀ p, p ∈ n_peer_sender (node_of a') → p ∈ n_peer_sender (node_of a)) →
  (∀ d, d ∈ pn_dialers x → dl_peer d ∈ peers_of a ∨ dl_peer d ∈ n_peer_sender (node_of a) ∨
    ∃ d', d' ∈ pn_dialers (mb_net a) ∧ dl_peer d' = dl_peer d) →
  (∀ c s, (c, PeersUpdate s) ∈ n_spawned (node_of a') → (c, PeersUpdate s) ∈ n_spawned (node_of a)) →
  evolves fresh a a'.
Proof.
  intros a' Ht Hl Ho Hc Hq Hd Hs. split; [done|done|by rewrite Hl| | | | | |].
  - intros (Hopen & Hdial & Hsend & Htask & Hlink). unfold listed. rewrite Ho, Hl, Ht. split_and!; try done.
    + intros d [?|[?|(d' & Hin & <-)]]%Hd; [done|by apply Hsend|by apply Hdial].
    + intros p Hp. by apply Hsend, Hq.
  - intros p. unfold holds. rewrite Hl, Ht.
    intros [?|[?|(c & s & Hin & Hp)]]; [left; by left|left; right; by left|].
    left. right. right. exists c, s. split; [by apply Hs|done].
  - rewrite Ht. by eexists.
  - rewrite Ht. intros t task' c ? ?. by exists task'.
  - rewrite Ht, Hl. intros t task task' p _ E1 E2 _ Hcom. rewrite E1 in E2. injection E2 as <-. by left.
  - rewrite Hc. by left.
Qed.

Lemma evolves_dialers fresh a x :
  pn_service x = pn_service (mb_net a) →
  (∀ d, d ∈ pn_dialers x → dl_peer d ∈ peers_of a ∨ ∃ d', d' ∈ pn_dialers (mb_net a) ∧ dl_peer d' = dl_peer d) →
  evolves fresh a (with_net a x).
Proof.
  intros Hs Hd. apply evolves_quiet; unfold tasks_of, peers_of, node_of; cbn; rewrite ?Hs; try done.
  intros d [?|?]%Hd; auto.
Qed.

Lemma set_dialer_has j pc x d :
  d ∈ pn_dialers (set_dialer j pc x) → ∃ d', d' ∈ pn_dialers x ∧ dl_peer d' = dl_peer d.
Proof. intros Hd. apply (set_dialer_peers j pc x (dl_peer d)). by exists d. Qed.

(** A task of the node does something. *)
Lemma evolves_task fresh a t task task' n' :
  let a' := with_service (λ s, mk_service n' (<[t := task']> (sv_tasks s)) (sv_dialed s)) a in
  tasks_of a !! t = Some task →
  peers_of a ⊆ n_peer_list n' → n_receiver_open n' = n_receiver_open (node_of a) →
  (∀ p, p ∈ n_peer_list n' → holds a p ∨ fresh p) → (∀ p, mentions task' p → holds a p ∨ fresh p) →
  (listed a → ∀ p, p ∈ n_peer_sender n' → p ∈ n_peer_list n') →
  (∀ p todo k, task' = Sending p todo k → p ∈ n_peer_list n') →
  (∀ c s p, (c, PeersUpdate s) ∈ n_spawned n' → p ∈ s → holds a p ∨ fresh p) →
  (∀ c, task_conn task' = Some c → task_conn task = Some c) →
  (∀ l, task_link task' = Some l → task_link task = Some l ∨ good_link l) →
  (∀ p, listed a → foreign_at a p → coming task p (peers_of a) → coming task' p (n_peer_list n') ∨
     ∃ l recv srcs, task = Exchanging l ∧ task' = Storing recv srcs l) →
  (∀ h c, n_peer_conn n' !! h = Some c → n_peer_conn (node_of a) !! h = Some c ∨
     ∃ l, task = Registering l ∧ h = link_host l ∧ c = link_conn l) →
  evolves fresh a a'.
Proof.
  intros a' Ht Hl Ho Hlist Hment Hsend Hsending Hspawn Hconn Hlink Hcoming Htable.
  assert (∀ u task1, tasks_of a' !! u = Some task1 →
    (u = t ∧ task1 = task') ∨ (u ≠ t ∧ tasks_of a !! u = Some task1)) as Hcases.
  { intros u task1. unfold tasks_of. cbn. destruct (decide (u = t)) as [->|Hne].
    - rewrite list_lookup_insert_eq by (by eapply lookup_lt_Some). intros [= <-]. by left.
    - rewrite list_lookup_insert_ne by done. by right. }
  assert (∀ task1, task1 ∈ tasks_of a' → task1 = task' ∨ task1 ∈ tasks_of a) as Hin.
  { intros task1 [u [[_ ->]|[_ Hu]]%Hcases]%list_elem_of_lookup; [by left|right].
    by eapply list_elem_of_lookup_2. }
  split; [done|done|done| | | | | |].
  - intros Hlisted. pose proof Hlisted as (Hopen & Hdial & _ & Hold & Hlinks). unfold listed, node_of, peers_of.
    cbn. rewrite Ho. split_and!; [done| |by apply Hsend| |].
    + intros d ?. by apply Hl, Hdial.
    + intros p todo k [E|?]%Hin; [by eapply Hsending|by eapply Hl, Hold].
    + intros task1 l [->|?]%Hin Hlk; [|by eapply Hlinks].
      destruct (Hlink l Hlk); [|done]. eapply Hlinks; [by eapply list_elem_of_lookup_2|done].
  - intros p [?|[(task1 & [->|Hin1]%Hin & Hm)|(c & s & Hs & Hp)]];
      [by apply Hlist|by apply Hment| |by eapply Hspawn].
    left. right. left. by exists task1.
  - intros u task1 Hu. unfold tasks_of. cbn. destruct (decide (u = t)) as [->|Hne].
    + rewrite list_lookup_insert_eq by (by eapply lookup_lt_Some). by eexists.
    + rewrite list_lookup_insert_ne by done. by eexists.
  - intros u task1 c [[-> ->]|[_ ?]]%Hcases Hc; [exists task|exists task1]; auto.
  - intros u task0 task1 p Hlisted Hu [[-> ->]|[_ Hu']]%Hcases Hf Hcom.
    + rewrite Ht in Hu. injection Hu as <-. destruct (Hcoming p Hlisted Hf Hcom); [by left|by right].
    + rewrite Hu in Hu'. injection Hu' as <-. left. revert Hcom. pose proof (Hl p).
      destruct task0; cbn; unfold peers_of, node_of in *; cbn in *; tauto.
  - intros h c [?|(l & -> & -> & ->)]%Htable; [by left|right]. by exists t, l.
Qed.

(** An access to the tables: what is sent is listed. *)
Lemma access_sender (E : PeerEnv) n task n' task' p :
  task_step task n = Some (task', n') →
  (∀ q, q ∈ n_peer_sender n → q ∈ n_peer_list n) →
  (∀ q todo k, task = Sending q todo k → q ∈ n_peer_list n) →
  p ∈ n_peer_sender n' → p ∈ n_peer_list n'.
Proof.
  intros Hs Hsend Hsending Hp. apply (access_grows E _ _ _ _ Hs).
  destruct (task_step_frame _ _ _ _ Hs)
    as [(q & todo & k & -> & -> & ->)|[(q & todo & k & -> & Hlt & Eq)|((_ & _ & Eq) & _)]].
  - by apply Hsend.
  - destruct (n_receiver_open n); injection Eq as -> ->; [|by apply Hsend]. cbn in Hp.
    apply elem_of_app in Hp as [?| ->%list_elem_of_singleton]; [by apply Hsend|]. by eapply Hsending.
  - rewrite Eq in Hp. by apply Hsend.
Qed.
Lemma access_sending (E : PeerEnv) n task n' task' p todo k :
  task_step task n = Some (task', n') → task' = Sending p todo k → p ∈ n_peer_list n'.
Proof.
  intros Hs ->. destruct (task_step_frame _ _ _ _ Hs)
    as [(q & todo' & k' & -> & Eq & ->)|[(q & todo' & k' & -> & Hlt & Eq)|(_ & _ & Hns & _)]].
  - injection Eq as -> -> ->. cbn. set_solver.
  - destruct (n_receiver_open n); discriminate Eq.
  - by destruct Hns.
Qed.
Lemma access_open (E : PeerEnv) n task n' task' :
  task_step task n = Some (task', n') → n_receiver_open n' = n_receiver_open n.
Proof.
  intros Hs. destruct (task_step_frame _ _ _ _ Hs)
    as [(q & todo & k & -> & -> & ->)|[(q & todo & k & -> & Hlt & Eq)|((? & _) & _)]]; [done| |done].
  by destruct (n_receiver_open n) eqn:Ho; injection Eq as -> ->.
Qed.
Lemma access_table (E : PeerEnv) n task n' task' (h : string) conn :
  task_step task n = Some (task', n') → n_peer_conn n' !! h = Some conn →
  n_peer_conn n !! h = Some conn ∨ ∃ l, task = Registering l ∧ h = link_host l ∧ conn = link_conn l.
Proof.
  intros Hs Hc. destruct (task_step_conn _ _ _ _ Hs) as [(l & -> & -> & Eq)|[(l & -> & Eq)|[Eq _]]];
    rewrite Eq in Hc; [|apply lookup_delete_Some in Hc as [_ ?]; by left|by left].
  apply lookup_insert_Some in Hc as [[<- <-]|[_ ?]]; [right; by exists l|by left].
Qed.

Lemma access_evolves fresh a t task task' n' :
  tasks_of a !! t = Some task → @task_step _ (mb_env a) _ task (node_of a) = Some (task', n') →
  evolves fresh a (with_service (λ s, mk_service n' (<[t := task']> (sv_tasks s)) (sv_dialed s)) a).
Proof.
  intros Ht Hs. set (E := mb_env a) in Hs.
  assert (task ∈ tasks_of a) as Hin by (by eapply list_elem_of_lookup_2).
  apply (evolves_task fresh a t task task' n'); [done|..].
  - by apply (access_grows E _ _ _ _ Hs).
  - by apply (access_open E _ _ _ _ Hs).
  - intros p [?|?]%(access_list E _ _ _ _ _ Hs); left; [by left|]. right. left. by exists task.
  - intros p Hm. left. right. left. exists task. split; [done|]. by apply (access_mentions E _ _ _ _ _ Hs).
  - intros (_ & _ & Hsend & Hsending & _) p. apply (access_sender E _ _ _ _ p Hs Hsend).
    intros q todo k ->. by eapply Hsending.
  - intros p todo k. by apply (access_sending E _ _ _ _ _ _ _ Hs).
  - intros conn s p Hsp Hp. left. destruct (access_spawned E _ _ _ _ _ _ Hs Hsp) as [?| ->]; [|by left].
    right. right. by exists conn, s.
  - intros conn. by apply (access_conn E _ _ _ _ _ Hs).
  - intros l. by apply (task_step_link _ _ _ _ _ Hs).
  - intros p (Ho & _ & _ & Hsending & _) Hf Hcom. left. apply (access_coming E _ _ _ _ p Hs Ho Hf); [|done].
    intros q todo k ->. by eapply Hsending.
  - intros h conn. by apply (access_table E _ _ _ _ _ _ Hs).
Qed.

Lemma inner_evolves fresh a x : Inner (mb_env a) (mb_net a) x → evolves fresh a (with_net a x).
Proof.
  destruct a as [E subject y]. cbn [mb_env mb_net].
  destruct 1 as [t task task' n n' ts d x Hx Ht Hs|x Hx|p q n ts d x Hx Hq|j p e x Hj|j p sec x Hj
    |j p t ac x Hj Hf|j p t x Hj Hf|t l n ts d x Hx Ht|srcs n ts d x Hx].
  - pose proof (access_evolves fresh (mk_member E subject x) t task task' n') as Hev.
    unfold tasks_of, node_of, with_service in Hev. cbn in Hev. rewrite Hx in Hev. by apply Hev.
  - apply evolves_dialers; [done|].
    intros d [?|(q & -> & Hq)%list_elem_of_fmap]%elem_of_app; [right; by exists d|].
    left. by apply elem_of_hash_iter.
  - apply evolves_quiet; unfold tasks_of, peers_of, node_of; cbn; rewrite ?Hx; cbn; try done.
    + intros p0 ?. rewrite Hq. by right.
    + intros dl [?|Hin%list_elem_of_singleton]%elem_of_app; [right; right; by exists dl|].
      right. left. rewrite Hin, Hq. by left.
  - apply evolves_dialers; [done|]. intros d ?%set_dialer_has. by right.
  - apply evolves_dialers; [done|]. intros d ?%set_dialer_has. by right.
  - apply evolves_dialers; [done|]. intros d ?%set_dialer_has. by right.
  - apply evolves_dialers; [done|]. intros d ?%set_dialer_has. by right.
  - apply evolves_quiet; unfold tasks_of, peers_of, node_of; cbn; rewrite ?Hx; cbn; try done.
    + intros dl ?. right. right. by exists dl.
    + intros c s [?|(c' & Eq & _)%list_elem_of_fmap]%elem_of_app; [done|discriminate Eq].
  - apply evolves_quiet; unfold tasks_of, peers_of, node_of; cbn; rewrite ?Hx; cbn; try done.
    intros dl ?. right. right. by exists dl.
Qed.

(** A task waits no longer. *)
Lemma evolves_set_task fresh a t task task' :
  tasks_of a !! t = Some task → (∀ p, mentions task' p → holds a p ∨ fresh p) →
  (∀ q todo k, task' ≠ Sending q todo k) →
  (∀ conn, task_conn task' = Some conn → task_conn task = Some conn) →
  (∀ l, task_link task' = Some l → task_link task = Some l) →
  (∀ p, coming task p (peers_of a) → coming task' p (peers_of a) ∨
     ∃ l recv srcs, task = Exchanging l ∧ task' = Storing recv srcs l) →
  evolves fresh a (with_service (set_task t task') a).
Proof.
  intros Ht Hm Hs Hc Hl Hcom. apply (evolves_task fresh a t task task' (node_of a)); try done.
  - intros p ?. left. by left.
  - by intros (_ & _ & Hq & _).
  - intros p todo k ->. by destruct (Hs p todo k).
  - intros c s p ? ?. left. right. right. by exists c, s.
  - intros l ?. left. by apply Hl.
  - intros p _ _. apply Hcom.
  - intros h c ?. by left.
Qed.

(** A request is taken up. *)
Lemma evolves_add_task fresh a task :
  task_conn task = None → (∀ p, mentions task p → fresh p) → (∀ q todo k, task ≠ Sending q todo k) →
  evolves fresh a (with_service (add_task task) a).
Proof.
  intros Hc Hm Hs. set (a' := with_service (add_task task) a).
  assert (∀ t task', tasks_of a' !! t = Some task' → tasks_of a !! t = Some task' ∨ task' = task) as Hcases.
  { intros t task' [?|[_ Hu]]%lookup_app_Some; [by left|right].
    by apply list_lookup_singleton_Some in Hu as [_ <-]. }
  assert (∀ task', task' ∈ tasks_of a' → task' ∈ tasks_of a ∨ task' = task) as Hin.
  { intros task' [t Hu]%list_elem_of_lookup. destruct (Hcases t task' Hu); [left|by right].
    by eapply list_elem_of_lookup_2. }
  assert (∀ l, task_link task ≠ Some l) as Hlk
    by (intros l E; destruct task; cbn in *; rewrite ?E in Hc; discriminate).
  split; try done.
  - intros (Ho & Hd & Hq & Hse & Hl). split_and!; [done..| |].
    + intros p todo k [?|E]%Hin; [by eapply Hse|by destruct (Hs p todo k)].
    + intros task' l [?| ->]%Hin E; [by eapply Hl|by destruct (Hlk l)].
  - intros p [?|[(task' & [?| ->]%Hin & Hp)|?]]; [by left; left| |by right; apply Hm|by left; right; right].
    left. right. left. by exists task'.
  - intros t task' Ht. exists task'. by apply lookup_app_l_Some.
  - intros t task' c [?| ->]%Hcases Ec; [by exists task'|congruence].
  - intros t task0 task1 p _ H0' H1' _ Hcom. left.
    assert (tasks_of a' !! t = Some task0) as H2' by (by apply lookup_app_l_Some).
    rewrite H1' in H2'. by injection H2' as ->.
  - intros h c ?. by left.
Qed.

(** Updates that are no longer under way *)
Lemma evolves_spawned fresh a l1 conn u l2 :
  n_spawned (node_of a) = l1 ++ (conn, u) :: l2 →
  evolves fresh a (with_service (set_node (set_spawned (l1 ++ l2) (node_of a))) a).
Proof.
  intros Hsp. apply (evolves_quiet fresh a); try done; cbn.
  - intros d ?. right. right. by exists d.
  - intros c s. rewrite Hsp. rewrite !elem_of_app, elem_of_cons. tauto.
Qed.
End evolves.

(** ** The cluster *)
Section cluster.
Context `{HashOrderLaws} `{TomlEdit} `{FrameLaws} `{Bincode (gset PeerInfo)} `{Bincode (gset string)}
  `{Bincode (gset PeerInfo * gset string)} `{!PeerCodecLaws}.
Implicit Types (a b c x : Member) (p : PeerInfo) (cl : Cluster) (P : Pipe) (task : Task).

(** Every node has a name and an address of its own, its certificate names it, and
    the addresses are written as they are read. *)
Definition named a : Prop :=
  canonical (info a) ∧ ∃ agent, certificate_info (Ok (mb_subject a)) = Ok (agent, host_of a).
Definition names_right cl : Prop :=
  (∀ i a, cl_members cl !! i = Some a → named a) ∧
  ∀ i j a b, cl_members cl !! i = Some a → cl_members cl !! j = Some b → i ≠ j →
    host_of a ≠ host_of b ∧ ip_of a ≠ ip_of b.
Definition member_of cl p : Prop := ∃ j b, cl_members cl !! j = Some b ∧ p = info b.

(** The two ends of a connection: their tasks are for it, the client knows the
    server, and the server will know the client. *)
Record ends_ok cl (k : nat) (P : Pipe) (i t j u : nat) a b ta tb : Prop := {
  eo_client : p_client P = mk_end i t;
  eo_server : p_server P = mk_end j u;
  eo_a : cl_members cl !! i = Some a;
  eo_b : cl_members cl !! j = Some b;
  eo_ne : i ≠ j;
  eo_ta : tasks_of a !! t = Some ta;
  eo_tb : tasks_of b !! u = Some tb;
  eo_conn_a conn : task_conn ta = Some conn → conn = conn_with k b;
  eo_conn_b conn : task_conn tb = Some conn → conn = conn_with k a;
  eo_known : info b ∈ peers_of a;
  eo_coming : coming tb (info a) (peers_of b);
}.

(** What is under way in the exchange *)
Definition wire_ok cl (wire : bytes) (own : option PeerInfo) : Prop :=
  ∀ recv srcs, read_lists wire = Ok (recv, srcs) →
    (∀ p, p ∈ recv → member_of cl p) ∧ ∀ p, own = Some p → p ∈ recv.
Definition pipe_ok cl P : Prop :=
  (∀ wire, p_asking P = Asked wire →
    wire_ok cl wire (info <$> cl_members cl !! e_node (p_client P))) ∧
  (∀ peers srcs p, p_answering P = Taken peers srcs → p ∈ peers → member_of cl p) ∧
  (∀ wire, p_answering P = Answered wire → wire_ok cl wire None).

(** The connection is one with node [j]. *)
Definition connection_to cl (i : nat) (conn : Connection) (j : nat) b : Prop :=
  ∃ k P t u, cl_pipes cl !! k = Some P ∧ joins P (mk_end i t) (mk_end j u) ∧
    cl_members cl !! j = Some b ∧ conn = conn_with k b.

Record cluster_inv cl : Prop := {
  ci_names : names_right cl;
  ci_listed i a : cl_members cl !! i = Some a → listed a;
  ci_sound i a p : cl_members cl !! i = Some a → holds a p → member_of cl p;
  ci_ends k P : cl_pipes cl !! k = Some P → ∃ i t j u a b ta tb, ends_ok cl k P i t j u a b ta tb;
  ci_wires k P : cl_pipes cl !! k = Some P → pipe_ok cl P;
  ci_tasks i a t task conn : cl_members cl !! i = Some a → tasks_of a !! t = Some task →
    task_conn task = Some conn →
    ∃ k P, cl_pipes cl !! k = Some P ∧ (p_client P = mk_end i t ∨ p_server P = mk_end i t);
  ci_table i a h conn : cl_members cl !! i = Some a → n_peer_conn (node_of a) !! h = Some conn →
    ∃ j b, connection_to cl i conn j b ∧ h = host_of b ∧ info b ∈ peers_of a;
}.

(** *** The names stay. *)
Definition ident a : PeerEnv * string := (mb_env a, mb_subject a).
Definition same_names cl cl' : Prop :=
  ∀ k, ident <$> cl_members cl' !! k = ident <$> cl_members cl !! k.

Lemma ident_info a b : ident a = ident b → info a = info b.
Proof. unfold ident, info. by intros [= -> _]. Qed.
Lemma same_names_lookup cl cl' k a :
  same_names cl cl' → cl_members cl' !! k = Some a →
  ∃ b, cl_members cl !! k = Some b ∧ ident b = ident a.
Proof.
  intros Hs Ha. specialize (Hs k). rewrite Ha in Hs. cbn in Hs.
  destruct (cl_members cl !! k) as [b|]; [|done]. apply (inj Some) in Hs. by exists b.
Qed.
Lemma same_names_sym cl cl' : same_names cl cl' → same_names cl' cl.
Proof. intros Hs k. by rewrite Hs. Qed.
Lemma same_names_members cl cl' p : same_names cl cl' → member_of cl p → member_of cl' p.
Proof.
  intros Hs%same_names_sym (j & b & Hb & ->).
  destruct (same_names_lookup _ _ _ _ Hs Hb) as (b' & ? & E%ident_info). by exists j, b'.
Qed.
Lemma same_names_right cl cl' : same_names cl cl' → names_right cl → names_right cl'.
Proof.
  intros Hs [Hc Hd]. split.
  - intros i a Ha. destruct (same_names_lookup _ _ _ _ Hs Ha) as (a0 & Ha0 & [= E1 E2]).
    unfold named, host_of, info. rewrite <- E1, <- E2. by apply (Hc i a0).
  - intros i j a b Ha Hb Hne. unfold host_of, ip_of.
    destruct (same_names_lookup _ _ _ _ Hs Ha) as (a0 & Ha0 & <-%ident_info).
    destruct (same_names_lookup _ _ _ _ Hs Hb) as (b0 & Hb0 & <-%ident_info). by apply (Hd i j).
Qed.
Lemma same_names_put cl i a a' :
  cl_members cl !! i = Some a → mb_env a' = mb_env a → mb_subject a' = mb_subject a →
  same_names cl (put i a' cl).
Proof.
  intros Ha E1 E2 k. cbn. destruct (decide (k = i)) as [->|Hne].
  - rewrite lookup_insert_eq, Ha. cbn. unfold ident. by rewrite E1, E2.
  - by rewrite lookup_insert_ne.
Qed.
Lemma same_names_conn k a b : ident a = ident b → conn_with k a = conn_with k b.
Proof. unfold ident, conn_with, ip_of, info. by intros [= -> ->]. Qed.

Lemma members_foreign cl i j a b :
  names_right cl → cl_members cl !! i = Some a → cl_members cl !! j = Some b → i ≠ j → foreign_at b (info a).
Proof. intros [_ Hd] Ha Hb Hne. by destruct (Hd i j a b Ha Hb Hne) as [_ ?]. Qed.

Lemma wire_ok_same cl cl' wire own : same_names cl cl' → wire_ok cl wire own → wire_ok cl' wire own.
Proof.
  intros Hs Hw recv srcs Hr. destruct (Hw recv srcs Hr) as [Hm Hp]. split; [|done].
  intros p Hin. by eapply same_names_members, Hm.
Qed.
Lemma pipe_ok_same cl cl' P : same_names cl cl' → pipe_ok cl P → pipe_ok cl' P.
Proof.
  intros Hs (H1' & H2' & H3'). split_and!.
  - intros wire Hw. assert (info <$> cl_members cl' !! e_node (p_client P) =
      info <$> cl_members cl !! e_node (p_client P)) as ->.
    { specialize (Hs (e_node (p_client P))). revert Hs.
      destruct (cl_members cl' !! _), (cl_members cl !! _); cbn; try done.
      intros E%(inj Some)%ident_info. by rewrite E. }
    by eapply wire_ok_same, H1'.
  - intros peers srcs p Hp Hin. by eapply same_names_members, H2'.
  - intros wire Hw. by eapply wire_ok_same, H3'.
Qed.

(** The link of a task is that of its connection; who is at the other end is known
    or coming. *)
Lemma task_linked cl i a t task l :
  cluster_inv cl → cl_members cl !! i = Some a → tasks_of a !! t = Some task → task_link task = Some l →
  ∃ j b, connection_to cl i (link_conn l) j b ∧ i ≠ j ∧ link_host l = host_of b ∧
    link_addr l = ip_to_string (ip_of b) ∧
    (info b ∈ peers_of a ∨ coming task (info b) (peers_of a)).
Proof.
  intros Hinv Ha Ht Hl.
  assert (task_conn task = Some (link_conn l)) as Hc by (destruct task; try discriminate Hl; cbn [task_conn];
    by rewrite Hl).
  destruct (ci_listed _ Hinv i a Ha) as (_ & _ & _ & _ & Hlinks).
  destruct (Hlinks task l) as [Haddr [agent Hcert]]; [by eapply list_elem_of_lookup_2|done|].
  assert (∀ k j b, cl_members cl !! j = Some b → link_conn l = conn_with k b →
    link_host l = host_of b ∧ link_addr l = ip_to_string (ip_of b)) as Hnamed.
  { intros k j b Hb E. rewrite E in Haddr, Hcert. split; [|done].
    destruct (proj1 (ci_names _ Hinv) j b Hb) as [_ [agent' Hn]]. cbn [conn_with conn_subject] in Hcert.
    rewrite Hn in Hcert. by injection Hcert. }
  destruct (ci_tasks _ Hinv i a t task _ Ha Ht Hc) as (k & P & HP & Hend).
  destruct (ci_ends _ Hinv k P HP) as (i1 & t1 & j1 & u1 & a1 & b1 & ta & tb & [Ec Es Ha1 Hb1 Hne Hta Htb Hca
    Hcb Hkn Hco]).
  destruct Hend as [E|E].
  - rewrite E in Ec. injection Ec as <- <-. rewrite Ha in Ha1. injection Ha1 as <-.
    rewrite Ht in Hta. injection Hta as <-. exists j1, b1. pose proof (Hca _ Hc) as Hconn.
    destruct (Hnamed k j1 b1 Hb1 Hconn). split_and!; [|done..|by left]. exists k, P, t, u1.
    split_and!; [done| |done|done]. left. by rewrite E, Es.
  - rewrite E in Es. injection Es as <- <-. rewrite Ha in Hb1. injection Hb1 as <-.
    rewrite Ht in Htb. injection Htb as <-. exists i1, a1. pose proof (Hcb _ Hc) as Hconn.
    destruct (Hnamed k i1 a1 Ha1 Hconn). split_and!; [|done..|by right]. exists k, P, t, t1.
    split_and!; [done| |done|done]. right. by rewrite E, Ec.
Qed.

(** *** One node changes. *)
Section put.
Variables (cl : Cluster) (i : nat) (a a' : Member).
Hypothesis Hinv : cluster_inv cl.
Hypothesis Ha : cl_members cl !! i = Some a.
Hypothesis Hev : evolves (member_of cl) a a'.
Hypothesis Hex : ∀ t l recv srcs k P c, tasks_of a !! t = Some (Exchanging l) →
  tasks_of a' !! t = Some (Storing recv srcs l) → cl_pipes cl !! k = Some P →
  p_server P = mk_end i t → cl_members cl !! e_node (p_client P) = Some c → info c ∈ recv.

Lemma put_cases k x' :
  cl_members (put i a' cl) !! k = Some x' → (k = i ∧ x' = a') ∨ (k ≠ i ∧ cl_members cl !! k = Some x').
Proof. cbn. intros [[<- <-]|[? ?]]%lookup_insert_Some; auto. Qed.

Lemma put_ident : ident a' = ident a.
Proof. destruct Hev as [E1 E2 _ _ _ _ _ _ _]. unfold ident. by rewrite E1, E2. Qed.

Lemma put_next k b :
  cl_members cl !! k = Some b → ∃ b', cl_members (put i a' cl) !! k = Some b' ∧
    ident b' = ident b ∧ peers_of b ⊆ peers_of b' ∧
    ∀ u tb, tasks_of b !! u = Some tb → ∃ tb', tasks_of b' !! u = Some tb' ∧
      (∀ conn, task_conn tb' = Some conn → task_conn tb = Some conn).
Proof.
  intros Hb. cbn. destruct (decide (k = i)) as [->|Hne].
  - rewrite Ha in Hb. injection Hb as <-. exists a'. rewrite lookup_insert_eq.
    split_and!; [done|apply put_ident|apply Hev|].
    intros u tb Hu. destruct (ev_kept _ _ _ Hev u tb Hu) as [tb' Hu']. exists tb'. split; [done|].
    intros conn Hc.
    destruct (ev_conns _ _ _ Hev u tb' conn Hu' Hc) as (tb0 & Hu0 & Hc0). rewrite Hu in Hu0.
    by injection Hu0 as ->.
  - exists b. rewrite lookup_insert_ne by done. split_and!; [done..|]. intros u tb Hu. by exists tb.
Qed.

(** The server of a connection still comes to know the client. *)
Lemma put_coming k P u j x b b' tb tb' :
  cl_pipes cl !! k = Some P → p_server P = mk_end j u → cl_members cl !! e_node (p_client P) = Some x →
  cl_members cl !! j = Some b → e_node (p_client P) ≠ j → tasks_of b !! u = Some tb →
  cl_members (put i a' cl) !! j = Some b' → tasks_of b' !! u = Some tb' →
  coming tb (info x) (peers_of b) → coming tb' (info x) (peers_of b').
Proof.
  intros HP Hps Hx Hb Hne Htb Hb' Htb' Hco. apply put_cases in Hb' as [[-> ->]|[Hji Hb']].
  - assert (b = a) as -> by congruence.
    destruct (ev_coming _ _ _ Hev u tb tb' (info x)) as [?|(l & recv & srcs & -> & ->)]; try done.
    + by apply (ci_listed _ Hinv i).
    + by eapply members_foreign; [apply Hinv|..].
    + by apply (Hex u l recv srcs k P x).
  - assert (b' = b) as -> by congruence. rewrite Htb in Htb'. by injection Htb' as <-.
Qed.

Lemma put_ends k P :
  cl_pipes cl !! k = Some P → ∃ i1 t j u a1 b ta tb, ends_ok (put i a' cl) k P i1 t j u a1 b ta tb.
Proof.
  intros HP. destruct (ci_ends _ Hinv k P HP)
    as (i1 & t & j & u & a1 & b & ta & tb & [Hpc Hps Ha1 Hb ? Hta Htb Hca Hcb Hkn Hco]).
  destruct (put_next i1 a1) as (a1' & Ha1' & Hia & Hla & Hta'); [done|].
  destruct (put_next j b) as (b' & Hb' & Hib & Hlb & Htb'); [done|].
  destruct (Hta' t ta Hta) as (ta' & Hta1 & Hca1). destruct (Htb' u tb Htb) as (tb' & Htb1 & Hcb1).
  exists i1, t, j, u, a1', b', ta', tb'. split; try done.
  - intros conn Hc. rewrite (same_names_conn k b' b Hib). by apply Hca, Hca1.
  - intros conn Hc. rewrite (same_names_conn k a1' a1 Hia). by apply Hcb, Hcb1.
  - rewrite (ident_info _ _ Hib). by apply Hla.
  - rewrite (ident_info _ _ Hia). eapply (put_coming k P u j a1 b b'); try done; by rewrite Hpc.
Qed.

Lemma put_table k x' h conn :
  cl_members (put i a' cl) !! k = Some x' → n_peer_conn (node_of x') !! h = Some conn →
  ∃ j b, connection_to (put i a' cl) k conn j b ∧ h = host_of b ∧ info b ∈ peers_of x'.
Proof.
  intros Hx Hh.
  assert (∃ x, cl_members cl !! k = Some x ∧ peers_of x ⊆ peers_of x' ∧
    ∃ j b, connection_to cl k conn j b ∧ h = host_of b ∧ info b ∈ peers_of x)
    as (x & Hx0 & Hl & j & b & (k1 & P & t & u & HP & Hj & Hb & E) & -> & Hin).
  { apply put_cases in Hx as [[-> ->]|[_ Hx]].
    2: { exists x'. split_and!; [done..|by apply (ci_table _ Hinv k)]. }
    exists a. split_and!; [done|apply Hev|].
    destruct (ev_table _ _ _ Hev h conn Hh) as [?|(t & l & Ht & -> & ->)]; [by apply (ci_table _ Hinv i)|].
    destruct (task_linked cl i a t (Registering l) l Hinv Ha Ht eq_refl) as (j & b & Hc & _ & Eh & _ & Hkn).
    exists j, b. split_and!; [done..|]. by destruct Hkn. }
  destruct (put_next j b Hb) as (b' & Hb' & Hib & _). exists j, b'. split_and!.
  - exists k1, P, t, u. split_and!; [done..|]. rewrite E. symmetry. by apply same_names_conn.
  - unfold host_of. by rewrite (ident_info _ _ Hib).
  - rewrite (ident_info _ _ Hib). by apply Hl.
Qed.

Lemma inv_put : cluster_inv (put i a' cl).
Proof.
  assert (same_names cl (put i a' cl)) as Hs by (apply (same_names_put cl i a); [done|apply Hev..]).
  split.
  - by eapply same_names_right, Hinv.
  - intros k x' [[-> ->]|[_ ?]]%put_cases; [|by apply (ci_listed _ Hinv k)].
    by apply (ev_listed _ _ _ Hev), (ci_listed _ Hinv i).
  - intros k x' p [[-> ->]|[_ ?]]%put_cases Hp; eapply same_names_members; [done| |done|].
    + destruct (ev_holds _ _ _ Hev p Hp); [by apply (ci_sound _ Hinv i a)|done].
    + by apply (ci_sound _ Hinv k x').
  - exact put_ends.
  - intros k P HP. eapply pipe_ok_same; [done|]. by apply (ci_wires _ Hinv k).
  - intros k x' t task conn [[-> ->]|[_ Hx]]%put_cases Ht Hc; [|by apply (ci_tasks _ Hinv k x' t task conn)].
    destruct (ev_conns _ _ _ Hev t task conn Ht Hc) as (task0 & ? & ?).
    by apply (ci_tasks _ Hinv i a t task0 conn).
  - exact put_table.
Qed.
End put.

(** *** The exchange goes on, or the connection breaks. *)
Lemma inv_put_pipe cl k P P' :
  cluster_inv cl → cl_pipes cl !! k = Some P → p_client P' = p_client P → p_server P' = p_server P →
  pipe_ok cl P' → cluster_inv (put_pipe k P' cl).
Proof.
  intros Hinv HP Ec Es Hok.
  assert (∀ k1 P1, cl_pipes (put_pipe k P' cl) !! k1 = Some P1 →
    (k1 = k ∧ P1 = P') ∨ cl_pipes cl !! k1 = Some P1) as Hcases.
  { intros k1 P1. cbn. destruct (decide (k1 = k)) as [->|Hne].
    - rewrite list_lookup_insert_eq by (by eapply lookup_lt_Some). intros [= <-]. by left.
    - rewrite list_lookup_insert_ne by done. by right. }
  assert (∀ k1 P1, cl_pipes cl !! k1 = Some P1 → ∃ P2, cl_pipes (put_pipe k P' cl) !! k1 = Some P2 ∧
    p_client P2 = p_client P1 ∧ p_server P2 = p_server P1) as Hnext.
  { intros k1 P1 HP1. cbn. destruct (decide (k1 = k)) as [->|Hne].
    - exists P'. rewrite list_lookup_insert_eq by (by eapply lookup_lt_Some). rewrite HP in HP1.
      by injection HP1 as <-.
    - exists P1. by rewrite list_lookup_insert_ne. }
  split; try apply Hinv.
  - intros k1 P1 HP1. assert (∃ P0, cl_pipes cl !! k1 = Some P0 ∧ p_client P1 = p_client P0 ∧
      p_server P1 = p_server P0)
      as (P0 & HP0 & E1 & E2) by (apply Hcases in HP1 as [[-> ->]|?]; [by exists P|by exists P1]).
    destruct (ci_ends _ Hinv k1 P0 HP0) as (i & t & j & u & a & b & ta & tb & [? ? ? ? ? ? ? ? ? ? ?]).
    exists i, t, j, u, a, b, ta, tb. split; rewrite ?E1, ?E2; done.
  - intros k1 P1 [[-> ->]|?]%Hcases; [exact Hok|]. by apply (ci_wires _ Hinv k1).
  - intros i a t task conn Ha Ht Hc.
    destruct (ci_tasks _ Hinv i a t task conn Ha Ht Hc) as (k1 & P1 & HP1 & He).
    destruct (Hnext k1 P1 HP1) as (P2 & HP2 & E1 & E2). exists k1, P2. by rewrite E1, E2.
  - intros i a h conn Ha Hh.
    destruct (ci_table _ Hinv i a h conn Ha Hh) as (j & b & (k1 & P1 & t & u & HP1 & Hj & Hb & E) & ? & ?).
    destruct (Hnext k1 P1 HP1) as (P2 & HP2 & E1 & E2). exists j, b. split; [|done].
    exists k1, P2, t, u. unfold joins. by rewrite E1, E2.
Qed.

(** *** A new connection *)
Section dial.
Variables (cl : Cluster) (i j jd : nat) (a b : Member).
Hypothesis Hinv : cluster_inv cl.
Hypothesis Ha : cl_members cl !! i = Some a.
Hypothesis Hb : cl_members cl !! j = Some b.
Hypothesis Hne : i ≠ j.
Hypothesis Hd : pn_dialers (mb_net a) !! jd = Some (mk_dialer (info b) Connecting).

Let k := length (cl_pipes cl).
Let a1 := with_service (add_task (Checking (conn_with k b))) a.
Let a' := with_net a1 (set_dialer jd (Attached (length (tasks_of a))) (mb_net a1)).
Let b' := with_service (add_task (Checking (conn_with k a))) b.
Let P := mk_pipe (mk_end i (length (tasks_of a))) (mk_end j (length (tasks_of b))) AskSources TakeSources true.
Let cl' := add_pipe P (put j b' (put i a' cl)).

Lemma dial_cases m x' :
  cl_members cl' !! m = Some x' →
  (m = i ∧ x' = a') ∨ (m = j ∧ x' = b') ∨ (m ≠ i ∧ m ≠ j ∧ cl_members cl !! m = Some x').
Proof. cbn. rewrite !lookup_insert_Some. naive_solver. Qed.

Lemma dial_next m x :
  cl_members cl !! m = Some x → ∃ x', cl_members cl' !! m = Some x' ∧ ident x' = ident x ∧
    node_of x' = node_of x ∧ tasks_of x `prefix_of` tasks_of x'.
Proof.
  intros Hx. destruct (decide (m = i)) as [->|Hi]; [|destruct (decide (m = j)) as [->|Hj]].
  - rewrite Ha in Hx. injection Hx as <-. exists a'. cbn. rewrite lookup_insert_ne, lookup_insert_eq by done.
    split_and!; [done..|]. by eexists.
  - rewrite Hb in Hx. injection Hx as <-. exists b'. cbn. rewrite lookup_insert_eq. split_and!; [done..|].
    by eexists.
  - exists x. split_and!; [|done..]. cbn. by rewrite !lookup_insert_ne.
Qed.

Lemma dial_prev m x' :
  cl_members cl' !! m = Some x' → ∃ x, cl_members cl !! m = Some x ∧ ident x' = ident x ∧
    node_of x' = node_of x ∧ (tasks_of x' = tasks_of x ∨
      ∃ conn, tasks_of x' = tasks_of x ++ [Checking conn] ∧ (m = i ∧ x = a ∨ m = j ∧ x = b)).
Proof.
  intros [[-> ->]|[[-> ->]|(_ & _ & Hx)]]%dial_cases; [exists a|exists b|exists x'; auto];
    (split_and!; try done; right; eexists; (split; [reflexivity|auto])).
Qed.

Lemma dial_names : same_names cl cl'.
Proof.
  intros m. destruct (cl_members cl' !! m) as [x'|] eqn:E.
  - destruct (dial_prev m x' E) as (x & -> & Hid & _). cbn. by rewrite Hid.
  - destruct (cl_members cl !! m) as [x|] eqn:E'; [|done]. destruct (dial_next m x E') as (? & ? & _).
    congruence.
Qed.

Lemma dial_pipes k1 P1 :
  cl_pipes cl' !! k1 = Some P1 ↔ cl_pipes cl !! k1 = Some P1 ∨ (k1 = k ∧ P1 = P).
Proof.
  cbn. rewrite lookup_app_Some, list_lookup_singleton_Some. unfold k. split.
  - intros [?|(? & ? & <-)]; [by left|right; split; [lia|done]].
  - intros [?|[-> ->]]; [by left|right; split_and!; [lia..|done]].
Qed.

Lemma dial_listed m x' : cl_members cl' !! m = Some x' → listed x'.
Proof.
  intros Hx'. destruct (dial_prev m x' Hx') as (x & Hx & _ & Hn & Ht).
  destruct (ci_listed _ Hinv m x Hx) as (Ho & Hdl & Hq & Hse & Hl). unfold listed, peers_of. rewrite Hn.
  assert (∀ task, task ∈ tasks_of x' → task ∈ tasks_of x ∨ ∃ conn, task = Checking conn) as Hin.
  { intros task. destruct Ht as [->|(conn & -> & _)]; [by left|].
    rewrite elem_of_app, list_elem_of_singleton. intros [?| ->]; [by left|right; by eexists]. }
  split_and!; [done| |done| |].
  - intros d Hd'. apply dial_cases in Hx' as [[-> ->]|[[-> ->]|(_ & _ & Hx')]].
    + rewrite Ha in Hx. injection Hx as <-. apply set_dialer_has in Hd' as (d' & ? & <-). by apply Hdl.
    + rewrite Hb in Hx. injection Hx as <-. by apply Hdl.
    + rewrite Hx in Hx'. injection Hx' as <-. by apply Hdl.
  - intros p todo k1 [?|[conn E]]%Hin; [by eapply Hse|discriminate E].
  - intros task l [?|[conn ->]]%Hin; [by apply Hl|done].
Qed.

Lemma dial_sound m x' p : cl_members cl' !! m = Some x' → holds x' p → member_of cl' p.
Proof.
  intros Hx' Hp. destruct (dial_prev m x' Hx') as (x & Hx & _ & Hn & Ht).
  eapply same_names_members; [exact dial_names|]. apply (ci_sound _ Hinv m x); [done|]. revert Hp.
  unfold holds, peers_of. rewrite Hn. intros [?|[(task & Hin & Hm)|?]]; [by left| |by right; right].
  right. left. exists task. split; [|done]. destruct Ht as [E|(conn & E & _)]; rewrite E in Hin; [done|].
  apply elem_of_app in Hin as [?| ->%list_elem_of_singleton]; done.
Qed.

Lemma dial_old_ends k1 P1 :
  cl_pipes cl !! k1 = Some P1 → ∃ i1 t j1 u x y ta tb, ends_ok cl' k1 P1 i1 t j1 u x y ta tb.
Proof.
  intros HP1. destruct (ci_ends _ Hinv k1 P1 HP1)
    as (i1 & t & j1 & u & x & y & ta & tb & [? ? Hx Hy ? Hta Htb Hca Hcb ? ?]).
  destruct (dial_next i1 x Hx) as (x' & ? & Hix & Hnx & Htx).
  destruct (dial_next j1 y Hy) as (y' & ? & Hiy & Hny & Hty).
  exists i1, t, j1, u, x', y', ta, tb. split; try done.
  - by eapply prefix_lookup_Some.
  - by eapply prefix_lookup_Some.
  - intros conn Hc. rewrite (same_names_conn k1 y' y Hiy). by apply Hca.
  - intros conn Hc. rewrite (same_names_conn k1 x' x Hix). by apply Hcb.
  - unfold peers_of. by rewrite Hnx, (ident_info _ _ Hiy).
  - unfold peers_of. by rewrite Hny, (ident_info _ _ Hix).
Qed.

Lemma dial_new_ends :
  ends_ok cl' k P i (length (tasks_of a)) j (length (tasks_of b)) a' b'
    (Checking (conn_with k b)) (Checking (conn_with k a)).
Proof.
  split; try done.
  - cbn. by rewrite lookup_insert_ne, lookup_insert_eq.
  - cbn. by rewrite lookup_insert_eq.
  - unfold tasks_of at 1. cbn. by rewrite lookup_app_r, Nat.sub_diag by (unfold tasks_of; lia).
  - unfold tasks_of at 1. cbn. by rewrite lookup_app_r, Nat.sub_diag by (unfold tasks_of; lia).
  - by intros conn [= <-].
  - by intros conn [= <-].
  - destruct (ci_listed _ Hinv i a Ha) as (_ & Hdl & _).
    apply (Hdl (mk_dialer (info b) Connecting)). by eapply list_elem_of_lookup_2.
Qed.

Lemma dial_tasks m x' t task conn :
  cl_members cl' !! m = Some x' → tasks_of x' !! t = Some task → task_conn task = Some conn →
  ∃ k1 P1, cl_pipes cl' !! k1 = Some P1 ∧ (p_client P1 = mk_end m t ∨ p_server P1 = mk_end m t).
Proof.
  intros Hx' Ht Hc. destruct (dial_prev m x' Hx') as (x & Hx & _ & _ & Htasks).
  assert (tasks_of x !! t = Some task ∨ t = length (tasks_of x) ∧ (m = i ∧ x = a ∨ m = j ∧
    x = b)) as [Hold|[-> Hm]].
  { destruct Htasks as [E|(conn' & E & Hm)]; rewrite E in Ht; [by left|].
    apply lookup_app_Some in Ht as [?|[Hge Ht]]; [by left|right].
    apply list_lookup_singleton_Some in Ht as [E0 _]. split; [lia|done]. }
  - destruct (ci_tasks _ Hinv m x t task conn Hx Hold Hc) as (k1 & P1 & HP1 & He). exists k1, P1.
    rewrite dial_pipes. auto.
  - exists k, P. rewrite dial_pipes. split; [by right|].
    destruct Hm as [[-> ->]|[-> ->]]; [by left|by right].
Qed.

Lemma dial_inv : cluster_inv cl'.
Proof.
  pose proof dial_names as Hs. split.
  - by eapply same_names_right, Hinv.
  - exact dial_listed.
  - exact dial_sound.
  - intros k1 P1 [?|[-> ->]]%dial_pipes; [by apply dial_old_ends|].
    repeat eexists; try apply dial_new_ends.
  - intros k1 P1 [?|[-> ->]]%dial_pipes; [|done]. eapply pipe_ok_same; [exact Hs|].
    by apply (ci_wires _ Hinv k1).
  - exact dial_tasks.
  - intros m x' h conn Hx' Hh. destruct (dial_prev m x' Hx') as (x & Hx & _ & Hn & _). rewrite Hn in Hh.
    destruct (ci_table _ Hinv m x h conn Hx Hh) as (j1 & y & (k1 & P1 & t & u & HP1 & Hj & Hy & E) & Eh & Hin).
    destruct (dial_next j1 y Hy) as (y' & Hy' & Hid & _ & _). exists j1, y'. split_and!.
    + exists k1, P1, t, u. rewrite dial_pipes. split_and!; [auto|done..|]. rewrite E. symmetry.
      by apply same_names_conn.
    + unfold host_of. by rewrite (ident_info _ _ Hid).
    + unfold peers_of. by rewrite Hn, (ident_info _ _ Hid).
Qed.
End dial.

Lemma inv_dials cl cl' : Dials cl cl' → cluster_inv cl → cluster_inv cl'.
Proof. destruct 1. intros Hinv. by apply dial_inv. Qed.

(** *** The exchange *)

(** A task of a connection knows its number. *)
Lemma end_number cl i a t task conn k P :
  cluster_inv cl → cl_members cl !! i = Some a → tasks_of a !! t = Some task → task_conn task = Some conn →
  cl_pipes cl !! k = Some P → p_client P = mk_end i t ∨ p_server P = mk_end i t → conn_id conn = k.
Proof.
  intros Hinv Ha Ht Hc HP Hend.
  destruct (ci_ends _ Hinv k P HP) as (i1 & t1 & j1 & u1 & a1 & b1 & ta & tb & [Ec Es Ha1 Hb1 _ Hta Htb Hca
    Hcb _ _]).
  destruct Hend as [E|E]; [rewrite E in Ec; injection Ec as <- <-|rewrite E in Es; injection Es as <- <-].
  - rewrite Ha in Ha1. injection Ha1 as <-. rewrite Ht in Hta. injection Hta as <-. by rewrite (Hca _ Hc).
  - rewrite Ha in Hb1. injection Hb1 as <-. rewrite Ht in Htb. injection Htb as <-. by rewrite (Hcb _ Hc).
Qed.
Lemma exchanging_number cl i a t l k P k' P' :
  cluster_inv cl → cl_members cl !! i = Some a → tasks_of a !! t = Some (Exchanging l) →
  cl_pipes cl !! k = Some P → p_client P = mk_end i t ∨ p_server P = mk_end i t →
  cl_pipes cl !! k' = Some P' → p_client P' = mk_end i t ∨ p_server P' = mk_end i t → P' = P.
Proof.
  intros Hinv Ha Ht HP He HP' He'.
  pose proof (end_number cl i a t _ _ k P Hinv Ha Ht eq_refl HP He) as E1.
  pose proof (end_number cl i a t _ _ k' P' Hinv Ha Ht eq_refl HP' He') as E2.
  rewrite E1 in E2. subst k'. rewrite HP in HP'. by injection HP'.
Qed.

(** Nobody is both ends of a connection. *)
Lemma ends_distinct cl k P e : cluster_inv cl → cl_pipes cl !! k = Some P → p_client P = e → p_server P ≠ e.
Proof.
  intros Hinv HP <- E. destruct (ci_ends _ Hinv k P HP) as (i & t & j & u & a & b & ta & tb & [Ec Es _ _ Hne
    _ _ _ _ _ _]).
  rewrite Ec, Es in E. by injection E.
Qed.

(** The lists of a node name members, and are written as they are. *)
Lemma members_wire cl (s : gset PeerInfo) :
  names_right cl → (∀ p, p ∈ s → member_of cl p) → wire_peers s = s.
Proof.
  intros [Hn _] Hs. apply wire_peers_canonical. intros p (j & b & Hb & ->)%Hs. by apply (Hn j b).
Qed.
Lemma known_member cl i a p :
  cluster_inv cl → cl_members cl !! i = Some a → p ∈ peers_of a → member_of cl p.
Proof. intros Hinv Ha Hp. apply (ci_sound _ Hinv i a p Ha). by left. Qed.

Lemma lists_written cl peers srcs wire own :
  names_right cl → (∀ p, p ∈ peers → member_of cl p) → (∀ p, own = Some p → p ∈ peers) →
  writes (send_lists (peers, srcs)) wire → wire_ok cl wire own.
Proof.
  intros Hn Hp Hown Hw recv rsrcs Hr. rewrite (lists_read _ _ _ Hw) in Hr. injection Hr as <- <-.
  rewrite (members_wire cl) by done. done.
Qed.

(** One end has the lists of the other. *)
Lemma inv_stored cl k P i t a l (recv : gset PeerInfo) srcs :
  cluster_inv cl → cl_pipes cl !! k = Some P → p_client P = mk_end i t ∨ p_server P = mk_end i t →
  cl_members cl !! i = Some a → tasks_of a !! t = Some (Exchanging l) →
  (∀ p, p ∈ recv → member_of cl p) →
  (p_server P = mk_end i t → ∀ c, cl_members cl !! e_node (p_client P) = Some c → info c ∈ recv) →
  cluster_inv (put i (with_service (set_task t (Storing recv srcs l)) a) cl).
Proof.
  intros Hinv HP Hend Ha Ht Hrecv Hown.
  apply (inv_put cl i a); [done|done| |].
  - apply (evolves_set_task _ a t (Exchanging l)); try done.
    + intros p Hp. right. by apply Hrecv.
    + intros p _. right. by exists l, recv, srcs.
  - intros t' l' recv' srcs' k' P' c Ht1 Ht2 HP' Hs Hc.
    destruct (decide (t' = t)) as [->|Hne].
    + assert (P' = P) as -> by (by apply (exchanging_number cl i a t l k P k' P'); auto).
      unfold tasks_of in Ht2. cbn in Ht2. rewrite list_lookup_insert_eq in Ht2 by (by eapply lookup_lt_Some).
      injection Ht2 as <- <- <-. by apply Hown.
    + unfold tasks_of in Ht1, Ht2. cbn in Ht2. rewrite list_lookup_insert_ne in Ht2 by done. congruence.
Qed.

Lemma inv_set_task cl i a t task task' :
  cluster_inv cl → cl_members cl !! i = Some a → tasks_of a !! t = Some task →
  (∀ l recv srcs, task' ≠ Storing recv srcs l) →
  evolves (member_of cl) a (with_service (set_task t task') a) →
  cluster_inv (put i (with_service (set_task t task') a) cl).
Proof.
  intros Hinv Ha Ht Hns Hev. apply (inv_put cl i a); [done..|].
  intros t' l' recv' srcs' k' P' c Ht1 Ht2 _ _ _. exfalso. unfold tasks_of in Ht1, Ht2. cbn in Ht2.
  destruct (decide (t' = t)) as [->|Hne].
  - rewrite list_lookup_insert_eq in Ht2 by (by eapply lookup_lt_Some). injection Ht2 as ->.
    by destruct (Hns l' recv' srcs').
  - rewrite list_lookup_insert_ne in Ht2 by done. congruence.
Qed.

Lemma inv_exchanges cl cl' : Exchanges cl cl' → cluster_inv cl → cluster_inv cl'.
Proof.
  destruct 1 as [k P i t a l cl HP Hc Ha Ht Hq|k P i t a l srcs wire cl HP Hc Ha Ht Hq Hw
    |k P i t a l cl HP Hs Ha Ht Hr|k P i t a l srcs cl HP Hs Ha Ht Hr
    |k P i t a l request peers srcs recv rsrcs wire cl HP Hs Ha Ht Ho Hq Hread Hr Hw
    |k P i t a l request response recv rsrcs cl HP Hc Ha Ht Ho Hq Hr Hread
    |k P i t e a l cl HP Hj Ha Ht]; intros Hinv; pose proof (ci_wires _ Hinv k P HP) as (Hw1 & Hw2 & Hw3).
  - eapply inv_put_pipe; [done..|]. by split_and!.
  - eapply inv_put_pipe; [done..|]. split_and!; [|done|done]. intros wire' [= <-]. cbn [set_asking p_client].
    rewrite Hc. cbn [e_node]. rewrite Ha. cbn. eapply lists_written; [apply Hinv| | |exact Hw].
    + intros p [->%elem_of_singleton|?]%elem_of_union; [by exists i, a|by eapply known_member].
    + intros p [= <-]. set_solver.
  - eapply inv_put_pipe; [done..|]. by split_and!.
  - eapply inv_put_pipe; [done..|]. split_and!; [done| |done]. intros peers srcs' p [= <- _] ?.
    by eapply known_member.
  - destruct (Hw1 request Hq recv rsrcs Hread) as [Hrecv Hown].
    assert (cluster_inv (put i (with_service (set_task t (Storing recv rsrcs l)) a) cl)) as Hinv1.
    { eapply inv_stored; [done|done|by right|done|done|done|]. intros _ c Hc. apply Hown. by rewrite Hc. }
    assert (same_names cl (put i (with_service (set_task t (Storing recv rsrcs l)) a) cl)) as Hsame
      by (by apply (same_names_put cl i a)).
    eapply inv_put_pipe; [exact Hinv1|exact HP|done|done|]. apply (pipe_ok_same cl); [done|].
    split_and!; [done|done|]. intros wire' [= <-]. eapply lists_written; [apply Hinv| |done|exact Hw].
    intros p ?. by eapply Hw2.
  - destruct (Hw3 response Hr recv rsrcs Hread) as [Hrecv _].
    eapply inv_stored; [done|done|by left|done|done|done|]. intros Hs.
    by destruct (ends_distinct cl k P (mk_end i t)).
  - assert (cluster_inv (put i (with_service (set_task t Finished) a) cl)) as Hinv1.
    { eapply inv_set_task; [done|done|done|done|]. apply (evolves_set_task _ a t (Exchanging l)); try done.
      by left. }
    eapply inv_put_pipe; [exact Hinv1|exact HP|done|done|].
    apply (pipe_ok_same cl); [by apply (same_names_put cl i a)|]. by split_and!.
Qed.

(** *** Connections that break *)
Lemma inv_breaks cl cl' : Breaks cl cl' → cluster_inv cl → cluster_inv cl'.
Proof.
  assert (∀ a t l, tasks_of a !! t = Some (InLoop l) →
    evolves (member_of cl) a (with_service (set_task t (Removing l)) a)) as Hev.
  { intros a t l Ht. apply (evolves_set_task _ a t (InLoop l)); try done. by left. }
  destruct 1 as [k P cl HP|k P i t a l cl HP Hs Ho Ha Ht|k P i t a l jd p ac cl HP Hs Ho Ha Ht Hd a1];
    intros Hinv.
  - eapply inv_put_pipe; [done..|]. by apply (ci_wires _ Hinv k P HP).
  - eapply inv_set_task; eauto; done.
  - assert (cluster_inv (put i a1 cl)) as Hinv1 by (eapply inv_set_task; eauto; done).
    set (a2 := with_net a1 (set_dialer jd (Leaving t ac) (mb_net a1))).
    assert (cluster_inv (put i a2 (put i a1 cl))) as Hinv2.
    { apply (inv_put _ i a1); [done|cbn; apply lookup_insert_eq| |].
      - apply evolves_dialers; [done|]. intros d ?%set_dialer_has. by right.
      - intros t' l' recv' srcs' k' P' c Ht1 Ht2. change (tasks_of a2) with (tasks_of a1) in Ht2. congruence. }
    unfold put in Hinv2. cbn in Hinv2. by rewrite insert_insert_eq in Hinv2.
Qed.

(** *** Updates that arrive *)
Lemma same_tasks_ex a a' t l (recv : gset PeerInfo) srcs :
  tasks_of a' = tasks_of a → tasks_of a !! t = Some (Exchanging l) →
    tasks_of a' !! t ≠ Some (Storing recv srcs l).
Proof. intros -> ->. done. Qed.

Lemma spawned_member cl i a conn (s : gset PeerInfo) p :
  cluster_inv cl → cl_members cl !! i = Some a → (conn, PeersUpdate s) ∈ n_spawned (node_of a) → p ∈ s →
  member_of cl p.
Proof. intros Hinv Ha Hin Hp. apply (ci_sound _ Hinv i a p Ha). right. right. by exists conn, s. Qed.

(** What an update is read as *)
Lemma update_read cl i a conn u wire r :
  cluster_inv cl → cl_members cl !! i = Some a → (conn, u) ∈ n_spawned (node_of a) →
  writes (send_update u) wire → read_update wire = Ok r →
  match u with
  | PeersUpdate s => r = UpdatePeers s
  | SourcesUpdate _ => ∃ sources, r = UpdateSources sources
  end.
Proof.
  intros Hinv Ha Hin Hw Hr. destruct u as [s|srcs]; [|by eapply sources_update_request].
  rewrite (peers_update_read _ _ Hw), (members_wire cl) in Hr; [by injection Hr as <-|apply Hinv|].
  intros p. by eapply spawned_member.
Qed.

Lemma inv_spawned cl i a l1 conn u l2 :
  cluster_inv cl → cl_members cl !! i = Some a → n_spawned (node_of a) = l1 ++ (conn, u) :: l2 →
  cluster_inv (put i (with_service (set_node (set_spawned (l1 ++ l2) (node_of a))) a) cl).
Proof.
  intros Hinv Ha Hsp. apply (inv_put cl i a); [done|done|by eapply evolves_spawned|].
  intros t l recv srcs k P c Ht1 Ht2. by destruct (same_tasks_ex a _ t l recv srcs eq_refl Ht1 Ht2).
Qed.

Lemma inv_request cl j b l r :
  cluster_inv cl → cl_members cl !! j = Some b →
  (∀ s p, r = UpdatePeers s → p ∈ s → member_of cl p) →
  cluster_inv (put j (with_service (add_task (request_task l r)) b) cl).
Proof.
  intros Hinv Hb Hr. apply (inv_put cl j b); [done|done| |].
  - apply evolves_add_task; [by destruct r| |by destruct r]. intros p. destruct r as [s|srcs]; [|done].
    cbn. rewrite elem_of_hash_iter. by apply Hr.
  - intros t l' recv srcs k P c Ht1 Ht2. exfalso. unfold tasks_of in Ht1, Ht2. cbn in Ht2.
    rewrite lookup_app_l in Ht2 by (by eapply lookup_lt_Some). congruence.
Qed.

Lemma inv_delivers cl cl' : Delivers cl cl' → cluster_inv cl → cluster_inv cl'.
Proof.
  destruct 1 as [i t j t' a b l1 conn u l2 P l wire b' cl Ha Hb Hne Hsp HP Ho Hj Ht Hw ->|i a l1 conn u l2 cl
    Ha Hsp _];
    intros Hinv; pose proof (inv_spawned cl i a l1 conn u l2 Hinv Ha Hsp) as Hinv1; [|done].
  set (cl1 := put i _ cl) in *.
  assert (cl_members cl1 !! j = Some b) as Hb1 by (cbn; by rewrite lookup_insert_ne).
  destruct (read_update wire) as [r|] eqn:Hr.
  - apply inv_request; [done|done|]. intros s p -> Hp.
    assert ((conn, u) ∈ n_spawned (node_of a)) as Hin by (rewrite Hsp; apply elem_of_app; right; left).
    pose proof (update_read cl i a conn u wire _ Hinv Ha Hin Hw Hr) as Hu.
    destruct u as [s'|srcs]; [injection Hu as <-|by destruct Hu].
    eapply same_names_members; [by apply (same_names_put cl i a)|]. by apply (spawned_member cl i a conn s).
  - assert (put j b cl1 = cl1) as ->; [|done]. unfold put. rewrite insert_id by done. by destruct cl1.
Qed.

(** *** Every run *)
Lemma cluster_inv_step cl cl' : Step cl cl' → cluster_inv cl → cluster_inv cl'.
Proof.
  destruct 1 as [i a x cl Ha Hs|cl cl' Hs|cl cl' Hs|cl cl' Hs|cl cl' Hs]; intros Hinv.
  - apply (inv_put cl i a); [done|done|by apply inner_evolves|].
    intros t l recv srcs k P c Ht1 Ht2 _ _ _. exfalso. revert Ht1 Ht2. unfold tasks_of. cbn [with_net mb_net].
    destruct Hs as [t' task task' n n' ts d x Hx Ht Hs|x _|p q n ts d x Hx _|j p e x _|j p sec x _
      |j p t' ac x _ _|j p t' x _ _|t' l' n ts d x Hx _|srcs' n ts d x Hx];
      cbn; rewrite ?Hx; cbn; try congruence.
    destruct (decide (t = t')) as [->|Hne]; [|rewrite list_lookup_insert_ne by done; congruence].
    rewrite Ht. by intros [= ->].
  - by eapply inv_dials.
  - by eapply inv_exchanges.
  - by eapply inv_breaks.
  - by eapply inv_delivers.
Qed.

(** The nodes before any of them is connected; the lists of the configurations name
    other nodes of the cluster only. *)
Definition starts cl : Prop :=
  names_right cl ∧ cl_pipes cl = [] ∧ ∀ i a, cl_members cl !! i = Some a →
    mb_net a = start_net (node_of a) ∧ n_receiver_open (node_of a) = true ∧
    n_peer_sender (node_of a) = [] ∧ n_peer_conn (node_of a) = ∅ ∧ n_spawned (node_of a) = [] ∧
    ∀ p, p ∈ peers_of a → member_of cl p ∧ p ≠ info a.

Lemma starts_inv cl : starts cl → cluster_inv cl.
Proof.
  intros (Hn & Hp & Hs).
  assert (∀ i a, cl_members cl !! i = Some a → tasks_of a = [] ∧ pn_dialers (mb_net a) = []) as Ht.
  { intros i a Ha. destruct (Hs i a Ha) as (E & _). unfold tasks_of. by rewrite E. }
  split; [done|..].
  - intros i a Ha. destruct (Hs i a Ha) as (_ & Ho & Hq & _). destruct (Ht i a Ha) as [Et Ed].
    unfold listed. rewrite Et, Ed, Hq. split_and!; [done|..]; intros *; by intros ?%elem_of_nil.
  - intros i a p Ha. destruct (Hs i a Ha) as (_ & _ & _ & _ & Hsp & Hl). destruct (Ht i a Ha) as [Et _].
    unfold holds. rewrite Et, Hsp.
    intros [?|[(task & ?%elem_of_nil & _)|(c & s & ?%elem_of_nil & _)]]; [|done..].
    by apply Hl.
  - intros k P. by rewrite Hp, lookup_nil.
  - intros k P. by rewrite Hp, lookup_nil.
  - intros i a t task conn Ha. destruct (Ht i a Ha) as [-> _]. by rewrite lookup_nil.
  - intros i a h conn Ha. destruct (Hs i a Ha) as (_ & _ & _ & -> & _). by rewrite lookup_empty.
Qed.

Lemma cluster_inv_reachable cl0 cl : starts cl0 → rtc Step cl0 cl → cluster_inv cl.
Proof.
  intros Hs%starts_inv Hrun. revert Hs. induction Hrun; [done|]. eauto using cluster_inv_step.
Qed.

(** C7: In every run of a cluster, whatever connections are made and lost and however
    the tasks of the nodes interleave: a node knows only peers that exist, with the
    address and the name they have, and each connection it has registered is with
    the node of the name it is registered under, which it knows; so two nodes that
    have both registered a connection know each other. *)
Theorem registered_peers_known cl0 cl i a :
  starts cl0 → rtc Step cl0 cl → cl_members cl !! i = Some a →
  (∀ p, p ∈ peers_of a → ∃ j b, cl_members cl !! j = Some b ∧ p = info b) ∧
  ∀ h conn, n_peer_conn (node_of a) !! h = Some conn →
    ∃ j b, cl_members cl !! j = Some b ∧ h = host_of b ∧ conn_ip conn = ip_of b ∧
      conn_subject conn = Ok (mb_subject b) ∧ info b ∈ peers_of a.
Proof.
  intros Hs Hrun Ha. pose proof (cluster_inv_reachable cl0 cl Hs Hrun) as Hinv. split.
  - intros p Hp. by apply (known_member cl i a).
  - intros h conn Hh. destruct (ci_table _ Hinv i a h conn Ha Hh) as (j & b & (k & P & t & u & _ & _ & Hb &
      ->) & -> & Hin).
    by exists j, b.
Qed.

(** ** Sources that are overtaken *)

Definition with_node (f : Node → Node) : Member → Member :=
  with_service (λ s, mk_service (f (sv_node s)) (sv_tasks s) (sv_dialed s)).
Definition served (srcs : gset string) (l : Link) : Member → Member :=
  with_service (λ s, mk_service (update_to_new_source_list srcs (link_addr l) (sv_node s))
    (sv_tasks s ++ [Finished]) (sv_dialed s)).

(** The sources of a node change, and a connection is notified. *)
Lemma announce cl i a t l (srcs : gset string) :
  cl_members cl !! i = Some a → tasks_of a !! t = Some (InLoop l) →
  rtc Step cl (put i (with_node (λ n, broadcast_sources (set_sources srcs n)) a) cl).
Proof.
  intros Ha Ht. destruct (pn_service (mb_net a)) as [n ts d] eqn:Hx.
  assert (ts !! t = Some (InLoop l)) as Ht' by (unfold tasks_of in Ht; by rewrite Hx in Ht).
  eapply rtc_l; [apply (CLocal i a); [done|by apply (LSources _ srcs n ts d)]|].
  eapply rtc_l.
  { eapply (CLocal i); [cbn; apply lookup_insert_eq|]. by apply (LNotified _ t l (set_sources srcs n) ts d). }
  unfold put. cbn. rewrite insert_insert_eq. unfold with_node, with_service. rewrite Hx. apply rtc_refl.
Qed.

(** An update of sources arrives and is stored. *)
Lemma deliver_sources cl i j a b t u l conn P l1 l2 (srcs : gset string) (buf f : bytes) :
  cl_members cl !! i = Some a → cl_members cl !! j = Some b → i ≠ j →
  n_spawned (node_of a) = l1 ++ (conn, SourcesUpdate srcs) :: l2 →
  cl_pipes cl !! conn_id conn = Some P → p_open P = true → joins P (mk_end i t) (mk_end j u) →
  tasks_of b !! u = Some (InLoop l) →
  bincode_serialize srcs = Ok buf → frame_raw buf = Ok f → bincode_deserialize buf = Ok srcs →
  rtc Step cl (put j (served srcs l b) (put i (with_node (set_spawned (l1 ++ l2)) a) cl)).
Proof.
  intros Ha Hb Hne Hsp HP Ho Hj Ht Hx Hf Hd.
  assert (writes (send_update (SourcesUpdate srcs)) (peer_message PeerCode.UpdateSourceList f)) as Hw.
  { eexists. unfold send_update, update_peer_info, fresh_stream.
    by rewrite (send_peer_data_ok PeerCode.UpdateSourceList srcs buf f). }
  eapply rtc_l.
  { apply CDelivers. by eapply (Delivered i t j u a b l1 conn (SourcesUpdate srcs) l2 P l). }
  rewrite (sources_update_read srcs buf f _ Hx Hf Hd Hw).
  destruct (pn_service (mb_net b)) as [n ts d] eqn:Hs.
  eapply rtc_l.
  { eapply (CLocal j); [cbn; apply lookup_insert_eq|].
    apply (LTask _ (length ts) (StoringSources srcs (link_addr l)) Finished n
      (update_to_new_source_list srcs (link_addr l) n) (ts ++ [StoringSources srcs (link_addr l)]) d);
        [|by apply list_lookup_middle|done].
    cbn. by rewrite Hs. }
  unfold put. cbn. rewrite insert_insert_eq. unfold served, with_service, with_net. cbn. rewrite Hs. cbn.
  rewrite insert_app_r_alt, Nat.sub_diag by lia. apply rtc_refl.
Qed.
(** C17: The sources of a node can be known wrongly for good: two updates that follow
    each other go on streams of their own, and when the second arrives first, the
    other node keeps the sources of before, with nothing under way. *)
Theorem sources_overtaken cl i j a b t t' u l l' conn P (s1 s2 : gset string) (e1 f1 e2 f2 : bytes) :
  cl_members cl !! i = Some a → cl_members cl !! j = Some b → i ≠ j →
  n_peer_conn (node_of a) = {[ host_of b := conn ]} → n_spawned (node_of a) = [] →
  cl_pipes cl !! conn_id conn = Some P → p_open P = true → joins P (mk_end i t) (mk_end j u) →
  tasks_of a !! t' = Some (InLoop l') → tasks_of b !! u = Some (InLoop l) →
  bincode_serialize s1 = Ok e1 → frame_raw e1 = Ok f1 → bincode_deserialize e1 = Ok s1 →
  bincode_serialize s2 = Ok e2 → frame_raw e2 = Ok f2 → bincode_deserialize e2 = Ok s2 →
  ∃ cl' a' b', rtc Step cl cl' ∧ cl_members cl' !! i = Some a' ∧ cl_members cl' !! j = Some b' ∧
    n_spawned (node_of a') = [] ∧ tasks_of a' = tasks_of a ∧ tasks_of b' = tasks_of b ++ [Finished; Finished] ∧
    n_sources (node_of a') = s2 ∧ n_peer_sources (node_of b') !! link_addr l = Some s1.
Proof.
  intros Ha Hb Hne Hc Hsp HP Ho Hj Hta Htb Hx1 Hf1 Hd1 Hx2 Hf2 Hd2.
  set (change s := with_node (λ n, broadcast_sources (set_sources s n))).
  set (sent l := with_node (set_spawned l)).
  set (a2 := change s2 (change s1 a)).
  assert (n_spawned (node_of a2) = [(conn, SourcesUpdate s1)] ++ (conn, SourcesUpdate s2) :: []) as Hn2.
  { unfold a2, change, node_of, broadcast_sources, spawn_updates. cbn. fold (node_of a).
    by rewrite Hc, Hsp, map_to_list_singleton. }
  set (a3 := sent [(conn, SourcesUpdate s1)] a2). set (b3 := served s2 l b).
  eexists _, (sent [] a3), (served s1 l b3). split_and!.
  - etrans; [by apply (announce cl i a t' l' s1)|].
    etrans; [apply (announce _ i (change s1 a) t' l' s2); [cbn; apply lookup_insert_eq|done]|].
    etrans; [apply (deliver_sources _ i j a2 b t u l conn P [(conn, SourcesUpdate s1)] [] s2 e2 f2); try done|].
    { cbn. apply lookup_insert_eq. }
    { cbn. by rewrite !lookup_insert_ne. }
    apply (deliver_sources _ i j a3 b3 t u l conn P [] [] s1 e1 f1); try done.
    + cbn. rewrite lookup_insert_ne by done. apply lookup_insert_eq.
    + cbn. apply lookup_insert_eq.
    + unfold b3, tasks_of. cbn. by apply lookup_app_l_Some.
  - cbn. rewrite lookup_insert_ne by done. apply lookup_insert_eq.
  - cbn. apply lookup_insert_eq.
  - done.
  - done.
  - unfold b3, tasks_of. cbn. by rewrite <- app_assoc.
  - done.
  - cbn. apply lookup_insert_eq.
Qed.
End cluster.
