(* ===== verification/ClusterLists.v ===== *)
(** * How lists of peers spread in a cluster

    On the invariant of [ClusterSpec]: a list that a node shares reaches everybody
    it has a registered connection with, whatever else happens; and a cluster in
    which everybody is connected to whom it knows stays as it is, so that two nodes
    which have missed each other then never learn of each other. *)

From Stdlib Require Import ZArith Lia.
From S2P Require Import Prelude Bytes Externals NetAddr SocketAddr Config Peer PeerSpec PeerRun.
From S2P Require Import PeerDial Cluster ClusterSpec.

Section lists.
Context `{HashOrderLaws} `{TomlEdit} `{FrameLaws} `{Bincode (gset PeerInfo)} `{Bincode (gset string)}
  `{Bincode (gset PeerInfo * gset string)} `{!PeerCodecLaws}.
Implicit Types (a b c x : Member) (p : PeerInfo) (cl : Cluster) (P : Pipe) (task : Task).

(** ** A shared list *)

(** The peer has been learnt, or a task is about to learn it. *)
Definition carries task p : Prop :=
  match task with
  | Storing recv _ _ => p ∈ recv
  | Learning todo _ _ | Sending _ todo _ => p ∈ todo
  | Inserting q todo _ => p = q ∨ p ∈ todo
  | _ => False
  end.
Definition told a p : Prop := p ∈ peers_of a ∨ ∃ task, task ∈ tasks_of a ∧ carries task p.

Lemma access_carries (E : PeerEnv) task (n : Node) task' n' p :
  task_step task n = Some (task', n') → n_receiver_open n = true → foreign p →
  carries task p → carries task' p ∨ p ∈ n_peer_list n'.
Proof.
  intros Hs Ho Hf. revert Hs. destruct task; cbn [task_step carries]; try done.
  - intros [= <- <-] ?. left. by apply elem_of_hash_iter.
  - destruct todo as [|q todo]; [by intros _ ?%elem_of_nil|].
    destruct (is_new_peer n q) eqn:Hnew; intros [= <- <-]; cbn; rewrite elem_of_cons; [by left|].
    intros [->|?]; [right|by left]. destruct (decide (q ∈ n_peer_list n)) as [?|Hq]; [done|].
    by rewrite (proj2 (is_new_peer_spec n q)) in Hnew.
  - intros [= <- <-]. cbn. set_solver.
  - destruct (_ <? _)%nat; [|done]. unfold send_peer. rewrite Ho. intros [= <- <-]. by left.
Qed.

(** What stays of a node *)
Record stays a a' : Prop := {
  sy_ident : ident a' = ident a;
  sy_told p : listed a → foreign_at a p → told a p → told a' p;
  sy_spawned cu : cu ∈ n_spawned (node_of a) → cu ∈ n_spawned (node_of a');
}.
#[export] Instance stays_refl : Reflexive stays.
Proof. by split. Qed.

Lemma stays_tasks a a' :
  ident a' = ident a → peers_of a' = peers_of a → n_spawned (node_of a') = n_spawned (node_of a) →
  (∀ t, t ∈ tasks_of a → t ∈ tasks_of a' ∨ ∀ p, ¬ carries t p) → stays a a'.
Proof.
  intros Hi Hl Hs Ht. split; [done| |by rewrite Hs]. intros p _ _ [?|(task & Hin & Hc)]; [left; by rewrite Hl|].
  destruct (Ht task Hin) as [?|Hn]; [right; by exists task|by destruct (Hn p)].
Qed.

Lemma stays_set_task a t task task' :
  tasks_of a !! t = Some task → (∀ p, ¬ carries task p) → stays a (with_service (set_task t task') a).
Proof.
  intros Ht Hn. apply stays_tasks; try done. intros t0 Hin.
  destruct (decide (t0 = task)) as [->|Hne]; [by right|left].
  unfold tasks_of. cbn. eapply insert_elem_kept; [done|done|done].
Qed.
Lemma stays_add_task a task : stays a (with_service (add_task task) a).
Proof. apply stays_tasks; try done. intros t0 Hin. left. unfold tasks_of. cbn. apply elem_of_app. by left. Qed.

Lemma stays_dialers a a' j pc : stays a a' → stays a (with_net a' (set_dialer j pc (mb_net a'))).
Proof. intros [Hi Ht Hs]. by split. Qed.

Lemma access_keeps_spawned task (E : PeerEnv) (n : Node) task' n' cu :
  task_step task n = Some (task', n') → cu ∈ n_spawned n → cu ∈ n_spawned n'.
Proof.
  destruct task; cbn [task_step]; try (by intros [= <- <-]); try done.
  - unfold check_for_duplicate_connections.
    destruct (certificate_info _) as [[agent host]|]; [|by intros [= <- <-]].
    destruct (n_peer_conn n !! host); by intros [= <- <-].
  - destruct todo as [|q todo]; [destruct is_change|destruct (is_new_peer n q)]; by intros [= <- <-].
  - destruct (_ <? _)%nat; [|done]. unfold send_peer. destruct (n_receiver_open n); by intros [= <- <-].
  - intros [= <- <-] ?. cbn. apply elem_of_app. by left.
Qed.

Lemma inner_stays a (net : PeerNet) : Inner (mb_env a) (mb_net a) net → stays a (with_net a net).
Proof.
  destruct a as [E subject y]. cbn [mb_env mb_net]. set (a := mk_member E subject y).
  assert (∀ net' : PeerNet, pn_service net' = pn_service y → stays a (with_net a net')) as Hsame.
  { intros net' Hz. apply stays_tasks; unfold tasks_of, peers_of, node_of; cbn; rewrite ?Hz; auto. }
  destruct 1 as [t task task' n n' ts d x Hx Ht Hs|x Hx|p q n ts d x Hx Hq|j p e x Hj|j p sec x Hj
    |j p t ac x Hj Hf|j p t x Hj Hf|t l n ts d x Hx Ht|srcs n ts d x Hx]; try (by apply Hsame).
  - split; [done| |].
    + intros p (Ho & _) Hf. unfold told, peers_of, tasks_of, node_of in *. cbn in *. rewrite Hx in Ho |- *.
      cbn in *.
      intros [?|(task0 & Hin & Hc)]; [left; by apply (access_grows E _ _ _ _ Hs)|].
      destruct (decide (task0 = task)) as [->|Hne].
      * destruct (access_carries E _ _ _ _ p Hs Ho Hf Hc); [right|by left]. exists task'. split; [|done].
        by eapply insert_elem_new.
      * right. exists task0. split; [|done]. by eapply insert_elem_kept.
    + intros cu. unfold node_of. cbn. rewrite Hx. by apply (access_keeps_spawned _ E _ _ _ cu Hs).
  - apply stays_tasks; unfold tasks_of, peers_of, node_of; cbn; rewrite ?Hx; auto.
  - split; [done| |].
    + intros p _ _. unfold told, peers_of, tasks_of, node_of. cbn. by rewrite Hx.
    + intros cu. unfold node_of. cbn. rewrite Hx. cbn. intros ?. apply elem_of_app. by left.
  - apply stays_tasks; unfold tasks_of, peers_of, node_of; cbn; rewrite ?Hx; auto.
Qed.

(** *** What stays of the cluster *)
Definition pipes_stay cl cl' : Prop :=
  ∀ k P, cl_pipes cl !! k = Some P → ∃ P', cl_pipes cl' !! k = Some P' ∧
    p_client P' = p_client P ∧ p_server P' = p_server P ∧ (p_open P' = true → p_open P = true).
Definition keeps cl cl' : Prop :=
  pipes_stay cl cl' ∧
  ∀ m x, cl_members cl !! m = Some x → ∃ x', cl_members cl' !! m = Some x' ∧ stays x x'.

Lemma pipes_same cl cl' : cl_pipes cl' = cl_pipes cl → pipes_stay cl cl'.
Proof. intros E k P HP. exists P. by rewrite E. Qed.
Lemma pipes_put cl k P P' :
  cl_pipes cl !! k = Some P → p_client P' = p_client P → p_server P' = p_server P →
  (p_open P' = true → p_open P = true) → pipes_stay cl (put_pipe k P' cl).
Proof.
  intros HP Ec Es Eo k1 P1 HP1. cbn. destruct (decide (k1 = k)) as [->|Hne].
  - rewrite HP in HP1. injection HP1 as <-. exists P'.
    by rewrite list_lookup_insert_eq by (by eapply lookup_lt_Some).
  - exists P1. by rewrite list_lookup_insert_ne.
Qed.
Lemma stay_put cl i a a' m x :
  cl_members cl !! i = Some a → stays a a' → cl_members cl !! m = Some x →
  ∃ x', cl_members (put i a' cl) !! m = Some x' ∧ stays x x'.
Proof.
  intros Ha Hs Hx. cbn. destruct (decide (m = i)) as [->|Hne].
  - rewrite Ha in Hx. injection Hx as <-. exists a'. by rewrite lookup_insert_eq.
  - exists x. by rewrite lookup_insert_ne.
Qed.
Lemma keeps_put cl i a a' : cl_members cl !! i = Some a → stays a a' → keeps cl (put i a' cl).
Proof. intros Ha Hs. split; [by apply pipes_same|]. intros m x. by apply (stay_put cl i a). Qed.
Lemma keeps_put_pipe cl k P P' :
  cl_pipes cl !! k = Some P → p_client P' = p_client P → p_server P' = p_server P →
  (p_open P' = true → p_open P = true) → keeps cl (put_pipe k P' cl).
Proof. intros. split; [by eapply pipes_put|]. intros m x Hx. by exists x. Qed.
Lemma keeps_put_both cl k P P' i a a' :
  cl_pipes cl !! k = Some P → p_client P' = p_client P → p_server P' = p_server P →
  (p_open P' = true → p_open P = true) → cl_members cl !! i = Some a → stays a a' →
  keeps cl (put_pipe k P' (put i a' cl)).
Proof.
  intros. split; [|intros m x; by apply (stay_put cl i a)].
  intros k1 P1 HP1. by apply (pipes_put cl k P P').
Qed.

(** Everything stays in the steps but for the updates that arrive or are dropped. *)
Lemma step_keeps cl cl' : Step cl cl' → keeps cl cl' ∨ Delivers cl cl'.
Proof.
  destruct 1 as [i a x' cl Ha Hs|cl cl' Hs|cl cl' Hs|cl cl' Hs|cl cl' Hs]; [left|left|left|left|by right].
  - apply (keeps_put cl i a); [done|]. by apply inner_stays.
  - destruct Hs as [i j a b jd cl Ha Hb Hne Hd k a1]. split.
    + intros k1 P1 HP1. exists P1. split; [cbn; by apply lookup_app_l_Some|done].
    + intros m x Hx. cbn. destruct (decide (m = j)) as [->|Hj]; [|destruct (decide (m = i)) as [->|Hi]].
      * rewrite Hb in Hx. injection Hx as <-. eexists. rewrite lookup_insert_eq. split; [done|].
        apply stays_add_task.
      * rewrite Ha in Hx. injection Hx as <-. eexists. rewrite lookup_insert_ne, lookup_insert_eq by done.
        split; [done|]. apply stays_dialers, stays_add_task.
      * exists x. by rewrite !lookup_insert_ne.
  - destruct Hs as [k P i t a l cl HP Hc Ha Ht Hq|k P i t a l srcs wire cl HP Hc Ha Ht Hq Hw
      |k P i t a l cl HP Hs Ha Ht Hr|k P i t a l srcs cl HP Hs Ha Ht Hr
      |k P i t a l request peers srcs recv rsrcs wire cl HP Hs Ha Ht Ho Hq Hread Hr Hw
      |k P i t a l request response recv rsrcs cl HP Hc Ha Ht Ho Hq Hr Hread
      |k P i t e a l cl HP Hj Ha Ht]; try (by eapply keeps_put_pipe).
    + eapply keeps_put_both; [done..|apply (stays_set_task a t (Exchanging l)); [done|intros ? []]].
    + eapply keeps_put; [done|apply (stays_set_task a t (Exchanging l)); [done|intros ? []]].
    + eapply keeps_put_both; [done..|apply (stays_set_task a t (Exchanging l)); [done|intros ? []]].
  - destruct Hs as [k P cl HP|k P i t a l cl HP Hs Ho Ha Ht|k P i t a l jd p ac cl HP Hs Ho Ha Ht Hd a1].
    + by eapply keeps_put_pipe.
    + eapply keeps_put; [done|apply (stays_set_task a t (InLoop l)); [done|intros ? []]].
    + eapply keeps_put; [done|]. apply stays_dialers, (stays_set_task a t (InLoop l)); [done|intros ? []].
Qed.

(** *** A list on its way to a node *)
Definition closed cl conn : Prop := ∀ P, cl_pipes cl !! conn_id conn = Some P → p_open P = false.
Definition sent_to cl (i j : nat) conn p : Prop :=
  ∃ a b, cl_members cl !! i = Some a ∧ connection_to cl i conn j b ∧ foreign_at b p ∧
    (told b p ∨ (∃ s, (conn, PeersUpdate s) ∈ n_spawned (node_of a) ∧ p ∈ s) ∨ closed cl conn).

(** All lists the nodes can have can be sent. *)
Definition transmissible cl : Prop :=
  ∀ s : gset PeerInfo, (∀ p, p ∈ s → member_of cl p) → ∃ wire, writes (send_update (PeersUpdate s)) wire.

Lemma connection_stays cl cl' i conn j b b' :
  pipes_stay cl cl' → connection_to cl i conn j b → cl_members cl' !! j = Some b' → ident b' = ident b →
  connection_to cl' i conn j b'.
Proof.
  intros Hp (k & P & t & u & HP & Hj & Hb & ->) Hb' Hid. destruct (Hp k P HP) as (P' & HP' & Ec & Es & _).
  exists k, P', t, u. split_and!; [done| |done|symmetry; by apply same_names_conn].
  unfold joins. by rewrite Ec, Es.
Qed.
Lemma closed_stays cl cl' i conn j b :
  pipes_stay cl cl' → connection_to cl i conn j b → closed cl conn → closed cl' conn.
Proof.
  intros Hp (k & P & t & u & HP & _ & _ & ->) Hc P2 HP2. destruct (Hp k P HP) as (P' & HP' & _ & _ & Ho).
  cbn [conn_with conn_id] in HP2. rewrite HP' in HP2. injection HP2 as <-.
  destruct (p_open P'); [|done]. rewrite (Hc P HP) in Ho. by symmetry; apply Ho.
Qed.
Lemma foreign_same b b' p : ident b' = ident b → foreign_at b p → foreign_at b' p.
Proof. intros Hid%ident_info. unfold foreign_at, ip_of. by rewrite Hid. Qed.

Lemma sent_to_keeps cl cl' i j conn p : cluster_inv cl → keeps cl cl' → sent_to cl i j conn p →
  sent_to cl' i j conn p.
Proof.
  intros Hinv [Hp Hm] (a & b & Ha & Hc & Hf & Hs). pose proof Hc as (k & P & t & u & _ & _ & Hb & _).
  destruct (Hm i a Ha) as (a' & Ha' & [_ _ Hsp]). destruct (Hm j b Hb) as (b' & Hb' & [Hid Ht _]).
  exists a', b'. split_and!; [done|by eapply connection_stays|by eapply foreign_same|].
  destruct Hs as [?|[(s & Hin & ?)|?]].
  - left. apply Ht; [by apply (ci_listed _ Hinv j)|done|done].
  - right. left. exists s. split; [by apply Hsp|done].
  - right. right. by eapply closed_stays.
Qed.

(** An update arrives, or is dropped with its connection. *)
Lemma delivers_told cl cl' m x :
  Delivers cl cl' → cl_members cl !! m = Some x →
  ∃ x', cl_members cl' !! m = Some x' ∧ ident x' = ident x ∧ ∀ p, told x p → told x' p.
Proof.
  assert (∀ a n, ident (with_service (set_node (set_spawned n (node_of a))) a) = ident a ∧
    ∀ p, told a p → told (with_service (set_node (set_spawned n (node_of a))) a) p) as Hsp by done.
  assert (∀ b task, ident (with_service (add_task task) b) = ident b ∧
    ∀ p, told b p → told (with_service (add_task task) b) p) as Hadd.
  { intros b task. split; [done|]. intros p [?|(t0 & Hin & ?)]; [by left|right]. exists t0. split; [|done].
    unfold tasks_of. cbn. apply elem_of_app. by left. }
  destruct 1 as [i t j t' a b l1 c u l2 P l wire b' cl Ha Hb Hne _ _ _ _ _ _ ->|i a l1 c u l2 cl Ha _ _];
    intros Hx; cbn.
  - destruct (decide (m = j)) as [->|Hj]; [|destruct (decide (m = i)) as [->|Hi]].
    + rewrite Hb in Hx. injection Hx as <-. eexists. rewrite lookup_insert_eq. split; [done|].
      by destruct (read_update wire).
    + rewrite Ha in Hx. injection Hx as <-. eexists. rewrite lookup_insert_ne, lookup_insert_eq by done.
      split; [done|]. apply Hsp.
    + exists x. by rewrite !lookup_insert_ne.
  - destruct (decide (m = i)) as [->|Hi]; [|exists x; by rewrite lookup_insert_ne].
    rewrite Ha in Hx. injection Hx as <-. eexists. rewrite lookup_insert_eq. split; [done|]. apply Hsp.
Qed.

Definition arrived cl cl' (i : nat) conn (s : gset PeerInfo) : Prop :=
  ∃ P t j t' b', cl_pipes cl !! conn_id conn = Some P ∧ joins P (mk_end i t) (mk_end j t') ∧
    cl_members cl' !! j = Some b' ∧ ∀ p, p ∈ s → told b' p.

Lemma delivers_spawned cl cl' i a a' conn (s : gset PeerInfo) :
  cluster_inv cl → transmissible cl → Delivers cl cl' →
  cl_members cl !! i = Some a → cl_members cl' !! i = Some a' → (conn, PeersUpdate s) ∈ n_spawned (node_of a) →
  (conn, PeersUpdate s) ∈ n_spawned (node_of a') ∨ closed cl conn ∨ arrived cl cl' i conn s.
Proof.
  intros Hinv Htr Hd Ha Ha' Hin.
  destruct Hd as [i1 t j1 t' a1 b1 l1 c u l2 P l wire b' cl Ha1 Hb1 Hne Hsp HP Ho Hj Ht Hw E|i1 a1 l1 c u l2
    cl Ha1 Hsp Hdrop];
    cbn in Ha'.
  - destruct (decide (i = j1)) as [->|Hij].
    { rewrite lookup_insert_eq in Ha'. injection Ha' as <-. rewrite Ha in Hb1. injection Hb1 as <-. left.
      rewrite E. by destruct (read_update wire). }
    rewrite lookup_insert_ne in Ha' by done. destruct (decide (i = i1)) as [->|Hi].
    2: { rewrite lookup_insert_ne, Ha in Ha' by done. injection Ha' as <-. by left. }
    rewrite lookup_insert_eq in Ha'. injection Ha' as <-. rewrite Ha in Ha1. injection Ha1 as <-.
    pose proof Hin as Hin'. rewrite Hsp in Hin.
    apply elem_of_app in Hin as [?|[[= -> <-]|?]%elem_of_cons]; [left; cbn; apply elem_of_app;
      by left| |left; cbn; apply elem_of_app; by right].
    right. right. exists P, t, j1, t', b'. split_and!; [done..|cbn; by rewrite lookup_insert_eq|].
    rewrite (peers_update_read _ _ Hw), (members_wire cl) in E; [|apply Hinv|intros p;
      by apply (spawned_member cl i1 a c s)].
    intros p Hp. right. exists (Learning (hash_iter s) false None). rewrite E.
    split; [|cbn; by apply elem_of_hash_iter].
    unfold tasks_of. cbn. apply elem_of_app. right. by left.
  - destruct (decide (i = i1)) as [->|Hi].
    2: { rewrite lookup_insert_ne, Ha in Ha' by done. injection Ha' as <-. by left. }
    rewrite lookup_insert_eq in Ha'. injection Ha' as <-. rewrite Ha in Ha1. injection Ha1 as <-.
    pose proof Hin as Hin'. rewrite Hsp in Hin.
    apply elem_of_app in Hin as [?|[[= -> <-]|?]%elem_of_cons]; [left; cbn; apply elem_of_app;
      by left| |left; cbn; apply elem_of_app; by right].
    right. left. intros P HP. destruct (p_open P) eqn:Ho; [|done].
    destruct (Htr s) as [wire Hw]; [intros p; by apply (spawned_member cl i1 a c s)|].
    by destruct (Hdrop P HP Ho wire).
Qed.

Lemma sent_to_delivers cl cl' i j conn p :
  cluster_inv cl → transmissible cl → Delivers cl cl' → sent_to cl i j conn p → sent_to cl' i j conn p.
Proof.
  intros Hinv Htr Hd (a & b & Ha & Hc & Hf & Hs). pose proof Hc as (k & P & t & u & HP & Hj & Hb & Ek).
  assert (pipes_stay cl cl') as Hp by (destruct Hd; by apply pipes_same).
  destruct (delivers_told cl cl' i a Hd Ha) as (a' & Ha' & _ & _).
  destruct (delivers_told cl cl' j b Hd Hb) as (b' & Hb' & Hid & Ht).
  exists a', b'. split_and!; [done|by eapply connection_stays|by eapply foreign_same|].
  destruct Hs as [?|[(s & Hin & Hps)|?]]; [left; by apply Ht| |right; right; by eapply closed_stays].
  destruct (delivers_spawned cl cl' i a a' conn s Hinv Htr Hd Ha Ha' Hin)
    as [?|[?|(P1 & t1 & j1 & u1 & b1 & HP1 & Hj1 & Hb1 & Htold)]].
  - right. left. by exists s.
  - right. right. by eapply closed_stays.
  - left. rewrite Ek in HP1. cbn [conn_with conn_id] in HP1. rewrite HP in HP1. injection HP1 as <-.
    assert (j1 = j) as ->.
    { destruct (ci_ends _ Hinv k P HP) as (? & ? & ? & ? & ? & ? & ? & ? & [Ec Es _ _ Hne _ _ _ _ _ _]).
      destruct Hj as [[E1 E2]|[E1 E2]], Hj1 as [[E3 E4]|[E3 E4]]; congruence. }
    rewrite Hb' in Hb1. injection Hb1 as <-. by apply Htold.
Qed.

Lemma step_outside cl cl' m : Step cl cl' → cl_members cl !! m = None → cl_members cl' !! m = None.
Proof.
  intros Hs Hm. assert (∀ i a, cl_members cl !! i = Some a → i ≠ m) as Hne by congruence.
  destruct Hs as [i a x cl Ha _|cl cl' Hs|cl cl' Hs|cl cl' Hs|cl cl' Hs]; [|destruct Hs..]; cbn;
    rewrite ?lookup_insert_ne by eauto; done.
Qed.
Lemma step_names cl cl' : Step cl cl' → same_names cl cl'.
Proof.
  intros Hs m. destruct (cl_members cl !! m) as [x|] eqn:Hx; [|by rewrite (step_outside cl cl')].
  assert (∃ x', cl_members cl' !! m = Some x' ∧ ident x' = ident x) as (x' & -> & E).
  { destruct (step_keeps cl cl' Hs) as [[_ Hk]|Hd].
    - destruct (Hk m x Hx) as (x' & ? & [? _ _]). by exists x'.
    - destruct (delivers_told cl cl' m x Hd Hx) as (x' & ? & ? & _). by exists x'. }
  cbn. by rewrite E.
Qed.
Lemma transmissible_step cl cl' : Step cl cl' → transmissible cl → transmissible cl'.
Proof.
  intros Hs%step_names%same_names_sym Htr s Hm. apply Htr. intros p Hp. by eapply same_names_members, Hm.
Qed.
Lemma transmissible_reachable cl cl' : rtc Step cl cl' → transmissible cl → transmissible cl'.
Proof. induction 1; eauto using transmissible_step. Qed.

Lemma sent_to_reachable cl cl' i j conn p :
  cluster_inv cl → transmissible cl → rtc Step cl cl' → sent_to cl i j conn p → sent_to cl' i j conn p.
Proof.
  intros Hinv Htr Hrun. induction Hrun as [|cl cl1 cl2 Hs Hrun IH]; [done|]. intros Hsent.
  apply IH; [by eapply cluster_inv_step|by eapply transmissible_step|].
  destruct (step_keeps cl cl1 Hs); [by eapply sent_to_keeps|by eapply sent_to_delivers].
Qed.

(** The list is shared. *)
Definition shares (t : nat) (l : Link) a : Member :=
  with_service (λ s, mk_service (share_peer_list (sv_node s)) (<[t := Registering l]> (sv_tasks s))
    (sv_dialed s)) a.

Lemma share_step cl i a t l :
  cl_members cl !! i = Some a → tasks_of a !! t = Some (Sharing l) → Step cl (put i (shares t l a) cl).
Proof.
  intros Ha Ht. unfold shares, with_service. apply CLocal; [done|].
  destruct (pn_service (mb_net a)) as [n ts d] eqn:Hx. eapply (LTask _ t (Sharing l)); [done| |done].
  unfold tasks_of in Ht. by rewrite Hx in Ht.
Qed.

(** The connection is registered: everybody on the list is on the way. *)
Lemma shared_sent cl i j a b t l conn p :
  cluster_inv cl → cl_members cl !! i = Some a → tasks_of a !! t = Some (Sharing l) →
  cl_members cl !! j = Some b → n_peer_conn (node_of a) !! host_of b = Some conn →
  p ∈ peers_of a → p ≠ info b → sent_to (put i (shares t l a) cl) i j conn p.
Proof.
  intros Hinv Ha Ht Hb Hconn Hp Hpb.
  destruct (ci_table _ Hinv i a _ conn Ha Hconn) as (j' & b' & Hc & Hh & _).
  pose proof (ci_names _ Hinv) as Hn.
  assert (j' = j) as ->.
  { destruct Hc as (k & P & t1 & u & _ & _ & Hb' & _). destruct (decide (j' = j)) as [?|Hne]; [done|].
    destruct (proj2 Hn j' j b' b Hb' Hb Hne) as [E _]. by rewrite Hh in E. }
  pose proof Hc as (k & P & t1 & u & HP & Hj & Hb' & E). rewrite Hb in Hb'. injection Hb' as <-.
  assert (i ≠ j) as Hne.
  { destruct (ci_ends _ Hinv k P HP) as (? & ? & ? & ? & ? & ? & ? & ? & [Ec Es _ _ Hne _ _ _ _ _ _]).
    destruct Hj as [[E1 E2]|[E1 E2]]; congruence. }
  destruct (known_member cl i a p Hinv Ha Hp) as (m & x & Hx & ->).
  assert (m ≠ j) as Hm by (intros ->; rewrite Hb in Hx; by injection Hx as ->).
  exists (shares t l a), b. split_and!; [cbn; by rewrite lookup_insert_eq| | |].
  - exists k, P, t1, u. split_and!; [done..|cbn; by rewrite lookup_insert_ne|done].
  - by apply (members_foreign cl m j).
  - right. left. exists (peers_of a). split; [|done]. unfold shares, node_of, share_peer_list. cbn.
    apply elem_of_app. right. apply list_elem_of_fmap. exists conn. split; [done|].
    apply list_elem_of_fmap. exists (host_of b, conn). split; [done|]. by apply elem_of_map_to_list.
Qed.

(** C8: When a task of a node shares the list of peers, each node that has a
    registered connection comes to know the whole list, whatever else happens in the
    cluster meanwhile and in whatever order the updates arrive: as soon as none is
    under way over the connection and the other node has looked at what it was
    given, unless the connection broke.  All lists can be encoded. *)
Theorem shared_list_arrives cl0 cl i j a b t l conn :
  starts cl0 → transmissible cl0 → rtc Step cl0 cl →
  cl_members cl !! i = Some a → tasks_of a !! t = Some (Sharing l) →
  cl_members cl !! j = Some b → n_peer_conn (node_of a) !! host_of b = Some conn →
  let cl1 := put i (shares t l a) cl in
  Step cl cl1 ∧
  ∀ cl2 a2 b2 P, rtc Step cl1 cl2 → cl_members cl2 !! i = Some a2 → cl_members cl2 !! j = Some b2 →
    cl_pipes cl2 !! conn_id conn = Some P → p_open P = true →
    (∀ s, (conn, PeersUpdate s) ∉ n_spawned (node_of a2)) →
    (∀ task p, task ∈ tasks_of b2 → ¬ carries task p) →
    peers_of a ⊆ {[ info b ]} ∪ peers_of b2.
Proof.
  intros Hs Htr Hrun Ha Ht Hb Hconn cl1.
  pose proof (cluster_inv_reachable cl0 cl Hs Hrun) as Hinv.
  pose proof (share_step cl i a t l Ha Ht) as Hstep. split; [done|].
  intros cl2 a2 b2 P Hrun2 Ha2 Hb2 HP Ho Hsp Hq p Hp. rewrite elem_of_union, elem_of_singleton.
  destruct (decide (p = info b)) as [?|Hpb]; [by left|right].
  assert (sent_to cl2 i j conn p) as (a' & b' & Ha' & (k & P' & t' & u & _ & _ & Hb' & _) & _ & Hcase).
  { apply (sent_to_reachable cl1); [by eapply cluster_inv_step| |done|by eapply shared_sent].
    eapply transmissible_step; [done|]. by eapply transmissible_reachable. }
  rewrite Ha2 in Ha'. injection Ha' as <-. rewrite Hb2 in Hb'. injection Hb' as <-.
  destruct Hcase as [[?|(task & Hin & Hc)]|[(s & Hin & _)|Hcl]]; [done| | |].
  - by destruct (Hq task p Hin).
  - by destruct (Hsp s).
  - by rewrite (Hcl P HP) in Ho.
Qed.

(** ** Nodes at rest *)

(** Whom a node knows is registered, at both; the tasks only serve their registered
    connections, or refuse another, and no list is under way. *)
Definition quiet a task : Prop :=
  match task with
  | InLoop l => n_peer_conn (node_of a) !! link_host l = Some (link_conn l)
  | Checking conn => ∃ agent h, certificate_info (conn_subject conn) = Ok (agent, h) ∧
      is_Some (n_peer_conn (node_of a) !! h)
  | StoringSources _ _ | Finished => True
  | _ => False
  end.
Definition settled_node a : Prop :=
  (∀ task, task ∈ tasks_of a → quiet a task) ∧
  ∀ conn s, (conn, PeersUpdate s) ∉ n_spawned (node_of a).
Definition settled cl : Prop :=
  (∀ i a, cl_members cl !! i = Some a → settled_node a) ∧
  ∀ i j a b, cl_members cl !! i = Some a → cl_members cl !! j = Some b → i ≠ j → info b ∈ peers_of a →
    is_Some (n_peer_conn (node_of a) !! host_of b) ∧ is_Some (n_peer_conn (node_of b) !! host_of a).

(** The registered connections of [cl] stand in [cl']. *)
Definition standing cl cl' : Prop :=
  ∀ i a h conn P, cl_members cl !! i = Some a → n_peer_conn (node_of a) !! h = Some conn →
    cl_pipes cl' !! conn_id conn = Some P → p_open P = true.
(** A node with the same list and the same connections *)
Definition unmoved a a' : Prop :=
  ident a' = ident a ∧ peers_of a' = peers_of a ∧ n_peer_conn (node_of a') = n_peer_conn (node_of a).
Definition rests cl cl' : Prop :=
  ∀ i a', cl_members cl' !! i = Some a' → ∃ a, cl_members cl !! i = Some a ∧ unmoved a a' ∧ settled_node a'.

Lemma rests_settled cl cl' : settled cl → rests cl cl' → settled cl'.
Proof.
  intros [Hn Hm] Hr. split; [intros i a' Ha'; by destruct (Hr i a' Ha') as (? & _ & _ & ?)|].
  intros i j a' b' Ha' Hb' Hne Hin.
  destruct (Hr i a' Ha') as (a & Ha & (Ia%ident_info & Ea & Ta) & _).
  destruct (Hr j b' Hb') as (b & Hb & (Ib%ident_info & _ & Tb) & _).
  unfold host_of. rewrite Ia, Ib, Ta, Tb. apply (Hm i j); [done..|]. by rewrite <- Ib, <- Ea.
Qed.
Lemma rests_put cl i a a' :
  settled cl → cl_members cl !! i = Some a → unmoved a a' → settled_node a' → rests cl (put i a' cl).
Proof.
  intros [Hn _] Ha Hu Hs m x' Hx. cbn in Hx. apply lookup_insert_Some in Hx as [[<- <-]|[_ Hx]]; [by exists a|].
  exists x'. split_and!; [done|done|by apply (Hn m)].
Qed.

Lemma quiet_same a a' task :
  n_peer_conn (node_of a') = n_peer_conn (node_of a) → quiet a task → quiet a' task.
Proof. intros E. destruct task; cbn; by rewrite ?E. Qed.
Lemma settled_change a a' :
  settled_node a → n_peer_conn (node_of a') = n_peer_conn (node_of a) →
  (∀ task, task ∈ tasks_of a' → task ∈ tasks_of a ∨ quiet a task) →
  (∀ conn s, (conn, PeersUpdate s) ∈ n_spawned (node_of a') → (conn, PeersUpdate s) ∈ n_spawned (node_of a)) →
  settled_node a'.
Proof.
  intros [Hq Hs] E Ht Hsp. split; [|by intros conn s ?%Hsp%Hs].
  intros task Hin. apply (quiet_same a); [done|]. destruct (Ht task Hin); [by apply Hq|done].
Qed.

Lemma access_rests (E : PeerEnv) a task task' n' :
  settled_node a → task ∈ tasks_of a → task_step task (node_of a) = Some (task', n') →
  quiet a task' ∧ n_peer_conn n' = n_peer_conn (node_of a) ∧ n_peer_list n' = peers_of a ∧
  n_spawned n' = n_spawned (node_of a).
Proof.
  intros [Hq _] Hin%Hq. destruct task; cbn [quiet] in Hin; try done; cbn [task_step].
  - destruct Hin as (agent & h & Hc & [conn' Hh]). unfold check_for_duplicate_connections. rewrite Hc, Hh.
    by intros [= <- <-].
  - by intros [= <- <-].
Qed.

Lemma inner_rests a (net : PeerNet) :
  settled_node a → Inner (mb_env a) (mb_net a) net → unmoved a (with_net a net) ∧ settled_node (with_net a net).
Proof.
  destruct a as [E subject y]. cbn [mb_env mb_net]. set (a := mk_member E subject y). intros Hset.
  assert (∀ net' : PeerNet, n_peer_conn (node_of (with_net a net')) = n_peer_conn (node_of a) →
    peers_of (with_net a net') = peers_of a →
    (∀ task, task ∈ tasks_of (with_net a net') → task ∈ tasks_of a ∨ quiet a task) →
    (∀ conn s, (conn, PeersUpdate s) ∈ n_spawned (node_of (with_net a net')) →
      (conn, PeersUpdate s) ∈ n_spawned (node_of a)) →
    unmoved a (with_net a net') ∧ settled_node (with_net a net')) as Hchange.
  { intros net' E1 E2 Ht Hs. split; [done|]. by apply (settled_change a). }
  unfold tasks_of, peers_of, node_of in Hchange. cbn in Hchange.
  destruct 1 as [t task task' n n' ts d x Hx Ht Hs|x Hx|p q n ts d x Hx Hq|j p e x Hj|j p sec x Hj
    |j p t ac x Hj Hf|j p t x Hj Hf|t l n ts d x Hx Ht|srcs n ts d x Hx];
    try (by apply Hchange; auto).
  - assert (tasks_of a = ts ∧ node_of a = n) as [Ets En] by (unfold tasks_of, node_of; cbn; by rewrite Hx).
    rewrite <- En in Hs. rewrite <- Ets in Ht.
    destruct (access_rests E a task task' n' Hset (list_elem_of_lookup_2 _ _ _ Ht) Hs) as (Hq & E1 & E2 & E3).
    apply Hchange; [exact E1|exact E2| |cbn; by rewrite E3].
    intros task1 Hin. change (sv_tasks (pn_service x)) with (tasks_of a). rewrite Ets. cbn in Hin.
    apply elem_of_insert_inv in Hin as [->|?]; [by right|by left].
  - apply Hchange; cbn; rewrite ?Hx; auto.
  - apply Hchange; cbn; rewrite ?Hx; auto. cbn.
    intros conn s [?|(conn' & [=] & _)%list_elem_of_fmap]%elem_of_app; done.
  - apply Hchange; cbn; rewrite ?Hx; auto.
Qed.

(** A new connection is one that is there already. *)
Lemma dials_rests cl cl' : cluster_inv cl → settled cl → Dials cl cl' → rests cl cl'.
Proof.
  intros Hinv [Hn Hm] Hd. destruct Hd as [i j a b jd cl Ha Hb Hne Hd k a1].
  assert (info b ∈ peers_of a) as Hk.
  { destruct (ci_listed _ Hinv i a Ha) as (_ & Hdl & _).
    apply (Hdl (mk_dialer (info b) Connecting)). by eapply list_elem_of_lookup_2. }
  destruct (Hm i j a b Ha Hb Hne Hk) as [Hab Hba].
  assert (∀ m x m' x', cl_members cl !! m = Some x → cl_members cl !! m' = Some x' →
    is_Some (n_peer_conn (node_of x) !! host_of x') →
      unmoved x (with_service (add_task (Checking (conn_with k x'))) x) ∧
    settled_node (with_service (add_task (Checking (conn_with k x'))) x)) as Hadd.
  { intros m x m' x' Hx Hx' Hh. split; [done|]. apply (settled_change x); [by apply (Hn m)|done| |done].
    intros task. unfold tasks_of at 1. cbn. intros [?| ->%list_elem_of_singleton]%elem_of_app; [by left|right].
    destruct (proj1 (ci_names _ Hinv) m' x' Hx') as [_ [agent Hc]]. by exists agent, (host_of x'). }
  intros m x'. cbn. rewrite !lookup_insert_Some. intros [[<- <-]|[_ [[<- <-]|[_ Hx]]]].
  - exists b. split; [done|]. by apply (Hadd j b i a).
  - exists a. split; [done|]. by apply (Hadd i a j b).
  - exists x'. split_and!; [done|done|by apply (Hn m)].
Qed.

(** Who serves a registered connection that stands notices nothing. *)
Lemma breaks_rests cl cl' : cluster_inv cl → settled cl → standing cl cl → Breaks cl cl' → rests cl cl'.
Proof.
  intros Hinv [Hn Hm] Hst Hb.
  assert (∀ k P i t a l, cl_pipes cl !! k = Some P → p_client P = mk_end i t ∨ p_server P = mk_end i t →
    p_open P = false → cl_members cl !! i = Some a → tasks_of a !! t = Some (InLoop l) → False) as Hno.
  { intros k P i t a l HP He Ho Ha Ht. destruct (Hn i a Ha) as [Hq _].
    assert (n_peer_conn (node_of a) !! link_host l = Some (link_conn l)) as Hh.
    { apply (Hq (InLoop l)). by eapply list_elem_of_lookup_2. }
    pose proof (end_number cl i a t (InLoop l) (link_conn l) k P Hinv Ha Ht eq_refl HP He) as Hk.
    enough (p_open P = true) by congruence.
    apply (Hst i a (link_host l) (link_conn l)); [done..|by rewrite Hk]. }
  destruct Hb as [k P cl HP|k P i t a l cl HP Hs Ho Ha Ht|k P i t a l jd p ac cl HP Hs Ho Ha Ht Hd a1].
  - intros m x Hx. exists x. split_and!; [done|done|by apply (Hn m)].
  - exfalso. by eapply (Hno k P i t a l); auto.
  - exfalso. by eapply (Hno k P i t a l); auto.
Qed.

Lemma delivers_rests cl cl' : settled cl → Delivers cl cl' → rests cl cl'.
Proof.
  intros Hset Hd. pose proof Hset as [Hn _].
  assert (∀ i a l1 conn u l2, cl_members cl !! i = Some a → n_spawned (node_of a) = l1 ++ (conn, u) :: l2 →
    rests cl (put i (with_service (set_node (set_spawned (l1 ++ l2) (node_of a))) a) cl)) as Hsent.
  { intros i a l1 conn u l2 Ha Hsp. apply (rests_put cl i a); [done|done|done|].
    apply (settled_change a); [by apply (Hn i)|done|by left|]. cbn. rewrite Hsp. intros conn' s.
    rewrite !elem_of_app, elem_of_cons. tauto. }
  destruct Hd as [i t j t' a b l1 conn u l2 P l wire b' cl Ha Hb Hne Hsp _ _ _ _ Hw ->|i a l1 conn u l2 cl Ha
    Hsp _];
    [|by apply (Hsent i a l1 conn u l2)].
  intros m x Hx. cbn in Hx.
  apply lookup_insert_Some in Hx as [[<- <-]|[_ Hx]]; [|by apply (Hsent i a l1 conn u l2)].
  exists b. split; [done|]. destruct (read_update wire) as [r|] eqn:Hr; [|by split; [|apply (Hn j)]].
  split; [done|]. apply (settled_change b); [by apply (Hn j)|done| |done].
  intros task. unfold tasks_of at 1. cbn. intros [?| ->%list_elem_of_singleton]%elem_of_app; [by left|right].
  destruct u as [s|srcs]; [|by destruct (sources_update_request srcs wire r Hw Hr) as [? ->]].
  destruct (proj2 (Hn i a Ha) conn s). rewrite Hsp. apply elem_of_app. right. by left.
Qed.

Lemma step_rests cl cl' : cluster_inv cl → settled cl → standing cl cl → Step cl cl' → rests cl cl'.
Proof.
  intros Hinv Hset Hst Hs. pose proof Hset as [Hn _].
  destruct Hs as [i a x cl Ha Hs|cl cl' Hs|cl cl' Hs|cl cl' Hs|cl cl' Hs].
  - destruct (inner_rests a x (Hn i a Ha) Hs). by apply (rests_put cl i a).
  - by apply dials_rests.
  - exfalso. assert (∀ i a t l, cl_members cl !! i = Some a → tasks_of a !! t = Some (Exchanging l) →
      False) as Hno
      by (intros i a t l Ha Ht%list_elem_of_lookup_2; by apply (proj1 (Hn i a Ha)) in Ht).
    destruct Hs; eauto.
  - by apply breaks_rests.
  - by apply delivers_rests.
Qed.

Lemma step_pipes_stay cl cl' : Step cl cl' → pipes_stay cl cl'.
Proof. intros [[? _]|Hd]%step_keeps; [done|]. destruct Hd; by apply pipes_same. Qed.
Lemma reachable_pipes_stay cl cl' : rtc Step cl cl' → pipes_stay cl cl'.
Proof.
  induction 1 as [|cl cl1 cl2 Hs _ IH]; [by apply pipes_same|]. intros k P HP.
  destruct (step_pipes_stay cl cl1 Hs k P HP) as (P1 & HP1 & E1 & E2 & E3).
  destruct (IH k P1 HP1) as (P2 & HP2 & F1 & F2 & F3). exists P2.
  split_and!; [done|congruence|congruence|auto].
Qed.
Lemma standing_before cl cl1 cl2 : pipes_stay cl1 cl2 → standing cl cl2 → standing cl cl1.
Proof.
  intros Hp Hst i a h conn P Ha Hh HP. destruct (Hp _ P HP) as (P' & HP' & _ & _ & Ho). apply Ho. by eapply Hst.
Qed.

Lemma settled_reachable cl cl' :
  cluster_inv cl → settled cl → rtc Step cl cl' → standing cl cl' → rests cl cl'.
Proof.
  intros Hinv Hset Hrun. revert Hinv Hset. induction Hrun as [cl|cl cl1 cl2 Hs Hrun IH]; intros Hinv Hset Hst.
  - intros i a Ha. exists a. split_and!; [done|done|by apply (proj1 Hset i)].
  - assert (rests cl cl1) as Hr.
    { apply step_rests; [done|done| |done]. eapply standing_before; [|exact Hst].
      apply reachable_pipes_stay. by eapply rtc_l. }
    assert (standing cl1 cl2) as Hst1.
    { intros i a h conn P Ha Hh. destruct (Hr i a Ha) as (a0 & Ha0 & (_ & _ & E) & _). rewrite E in Hh.
      by eapply Hst. }
    intros i a2 Ha2. destruct (IH (cluster_inv_step _ _ Hs Hinv) (rests_settled _ _ Hset Hr) Hst1 i a2 Ha2)
      as (a1 & Ha1 & (I1 & L1 & T1) & Hq). destruct (Hr i a1 Ha1) as (a & Ha & (I2 & L2 & T2) & _).
    exists a. split_and!; [done|split_and!; congruence|done].
Qed.

(** A cluster that is at rest stays so: when each node has a registered connection
    with each node it knows, the tasks only serve these connections and no list of
    peers is under way, then, as long as these connections stand, no node ever learns
    of another, whatever is dialed, notified and delivered. *)
Theorem settled_lists_stay cl0 cl cl' :
  starts cl0 → rtc Step cl0 cl → settled cl → rtc Step cl cl' → standing cl cl' →
  ∀ i a', cl_members cl' !! i = Some a' →
    ∃ a, cl_members cl !! i = Some a ∧ peers_of a' = peers_of a ∧
      n_peer_conn (node_of a') = n_peer_conn (node_of a).
Proof.
  intros Hs Hrun Hset Hrun' Hst i a' Ha'. pose proof (cluster_inv_reachable cl0 cl Hs Hrun) as Hinv.
  destruct (settled_reachable cl cl' Hinv Hset Hrun' Hst i a' Ha') as (a & Ha & (_ & El & Et) & _). by exists a.
Qed.
End lists.
