(* ===== verification/ClusterDemo.v ===== *)
(** * A concrete cluster

    Three nodes over the encodings of [PeerDemo], their runs as lists of moves, and
    the theorems about clusters applied to them.  Two of the nodes dial the third at
    once and never hear of each other. *)

From Stdlib Require Import ZArith Lia.
From S2P Require Import Prelude Bytes Externals NetAddr SocketAddr Config ConfigSpec.
From S2P Require Import Peer PeerSpec PeerRun PeerDial PeerDemo Cluster ClusterSpec ClusterLists.

(** ** Runs that can be computed *)
Section moves.
Context `{HashOrderLaws} `{TomlEdit} `{FrameLaws} `{Bincode (gset PeerInfo)} `{Bincode (gset string)}
  `{Bincode (gset PeerInfo * gset string)}.
Implicit Types (a b : Member) (cl : Cluster) (P : Pipe).

(** What is written, if it can be *)
Definition written (m : M Stream unit) : option bytes :=
  match m (fresh_stream []) with (Ok _, st) => Some (st_sent st) | _ => None end.
Lemma written_writes m wire : written m = Some wire → writes m wire.
Proof.
  unfold written, writes. destruct (m _) as [[[]|] st]; [|done]. intros [= <-]. by exists st.
Qed.

(** Node [i] starts its dialers, dials [j] with dialer [jd], lets its task [t] take
    a step; the next steps of the exchange on connection [k]; the first update that
    node [i] has spawned arrives. *)
Inductive Move :=
| Starts (i : nat)
| Calls (i jd j : nat)
| Runs (i t : nat)
| Asks (k : nat)
| Takes (k : nat)
| Replies (k : nat)
| Gets (k : nat)
| Arrives (i : nat).

Definition is_exchanging a (t : nat) : option Link :=
  match tasks_of a !! t with Some (Exchanging l) => Some l | _ => None end.

Definition starts_move i cl : option Cluster :=
  a ← cl_members cl !! i;
  if pn_started (mb_net a) then None
  else Some (put i (with_net a (client_run (mb_net a))) cl).
Definition runs_move i t cl : option Cluster :=
  a ← cl_members cl !! i;
  task ← tasks_of a !! t;
  out ← @task_step _ (mb_env a) _ task (node_of a);
  let s := pn_service (mb_net a) in
  Some (put i (with_net a (set_service (mk_service out.2 (<[t := out.1]> (sv_tasks s)) (sv_dialed s)) (mb_net
    a))) cl).
Definition calls_move i jd j cl : option Cluster :=
  a ← cl_members cl !! i; b ← cl_members cl !! j;
  match pn_dialers (mb_net a) !! jd with
  | Some (mk_dialer p Connecting) => if bool_decide (i ≠ j ∧ p = info b) then
    let k := length (cl_pipes cl) in
    let a' := with_service (add_task (Checking (conn_with k b))) a in
    Some (add_pipe (mk_pipe (mk_end i (length (tasks_of a))) (mk_end j (length (tasks_of b)))
                AskSources TakeSources true)
      (put j (with_service (add_task (Checking (conn_with k a))) b)
        (put i (with_net a' (set_dialer jd (Attached (length (tasks_of a))) (mb_net a'))) cl)))
    else None
  | _ => None
  end.
Definition asks_move k cl : option Cluster :=
  P ← cl_pipes cl !! k; a ← cl_members cl !! e_node (p_client P); _ ← is_exchanging a (e_task (p_client P));
  match p_asking P with
  | AskSources => Some (put_pipe k (set_asking (AskPeers (n_sources (node_of a))) P) cl)
  | AskPeers srcs => wire ← written (send_lists ({[ info a ]} ∪ peers_of a, srcs));
      Some (put_pipe k (set_asking (Asked wire) P) cl)
  | Asked _ => None
  end.
Definition takes_move k cl : option Cluster :=
  P ← cl_pipes cl !! k; a ← cl_members cl !! e_node (p_server P); _ ← is_exchanging a (e_task (p_server P));
  match p_answering P with
  | TakeSources => Some (put_pipe k (set_answering (TakePeers (n_sources (node_of a))) P) cl)
  | TakePeers srcs => Some (put_pipe k (set_answering (Taken (peers_of a) srcs) P) cl)
  | _ => None
  end.
Definition replies_move k cl : option Cluster :=
  P ← cl_pipes cl !! k; a ← cl_members cl !! e_node (p_server P); l ← is_exchanging a (e_task (p_server P));
  match p_open P, p_asking P, p_answering P with
  | true, Asked request, Taken peers srcs =>
      match read_lists request, written (send_lists (peers, srcs)) with
      | Ok (recv, rsrcs), Some wire => Some (put_pipe k (set_answering (Answered wire) P)
          (put (e_node (p_server P)) (with_service (set_task (e_task (p_server P)) (Storing recv rsrcs l)) a)
            cl))
      | _, _ => None
      end
  | _, _, _ => None
  end.
Definition gets_move k cl : option Cluster :=
  P ← cl_pipes cl !! k; a ← cl_members cl !! e_node (p_client P); l ← is_exchanging a (e_task (p_client P));
  match p_open P, p_asking P, p_answering P with
  | true, Asked _, Answered response =>
      match read_lists response with
      | Ok (recv, rsrcs) =>
          Some (put (e_node (p_client P)) (with_service (set_task (e_task (p_client P)) (Storing recv rsrcs
            l)) a) cl)
      | _ => None
      end
  | _, _, _ => None
  end.
(** The other end of a connection *)
Definition other_end i P : End := if decide (e_node (p_client P) = i) then p_server P else p_client P.
Definition own_end i P : End := if decide (e_node (p_client P) = i) then p_client P else p_server P.
Definition arrives_move i cl : option Cluster :=
  a ← cl_members cl !! i;
  match n_spawned (node_of a) with
  | (conn, u) :: l2 =>
      P ← cl_pipes cl !! conn_id conn; b ← cl_members cl !! e_node (other_end i P);
      wire ← written (send_update u);
      match p_open P, tasks_of b !! e_task (other_end i P), read_update wire with
      | true, Some (InLoop l), Ok r =>
          if bool_decide (i ≠ e_node (other_end i P) ∧ e_node (own_end i P) = i) then
            Some (put (e_node (other_end i P)) (with_service (add_task (request_task l r)) b)
              (put i (with_service (set_node (set_spawned ([] ++ l2) (node_of a))) a) cl))
          else None
      | _, _, _ => None
      end
  | [] => None
  end.

Definition move (m : Move) (cl : Cluster) : option Cluster :=
  match m with
  | Starts i => starts_move i cl
  | Calls i jd j => calls_move i jd j cl
  | Runs i t => runs_move i t cl
  | Asks k => asks_move k cl
  | Takes k => takes_move k cl
  | Replies k => replies_move k cl
  | Gets k => gets_move k cl
  | Arrives i => arrives_move i cl
  end.
Fixpoint moves (l : list Move) (cl : Cluster) : option Cluster :=
  match l with [] => Some cl | m :: l => cl ← move m cl; moves l cl end.

Lemma is_exchanging_task a t l : is_exchanging a t = Some l → tasks_of a !! t = Some (Exchanging l).
Proof. unfold is_exchanging. destruct (tasks_of a !! t) as [[]|]; try done. by intros [= ->]. Qed.

Ltac next_some :=
  match goal with
  | |- (?o ≫= _) = Some _ → _ => let E := fresh "E" in destruct o eqn:E; [|done]; cbn [mbind option_bind]
  | |- match ?o with _ => _ end = Some _ → _ => let E := fresh "E" in destruct o eqn:E; try done
  end.

Lemma local_moves i t cl cl' :
  (starts_move i cl = Some cl' → Step cl cl') ∧ (runs_move i t cl = Some cl' → Step cl cl').
Proof.
  unfold starts_move, runs_move. split; repeat next_some.
  - intros [= <-]. apply CLocal; [done|by apply LClientRun].
  - intros [= <-]. destruct p as [task' n']. apply CLocal; [done|].
    destruct (pn_service (mb_net _)) as [n ts d] eqn:Hx. unfold node_of, tasks_of in *. rewrite Hx in *.
    by eapply LTask.
Qed.
Lemma calls_move_step i jd j cl cl' : calls_move i jd j cl = Some cl' → Step cl cl'.
Proof.
  unfold calls_move. repeat next_some. case_bool_decide as Hc; [|done]. destruct Hc as [Hne ->]. intros [= <-].
  by apply CDials, Dial.
Qed.
Lemma exchange_moves k cl cl' :
  (asks_move k cl = Some cl' → Step cl cl') ∧ (takes_move k cl = Some cl' → Step cl cl') ∧
  (replies_move k cl = Some cl' → Step cl cl') ∧ (gets_move k cl = Some cl' → Step cl cl').
Proof.
  unfold asks_move, takes_move, replies_move, gets_move. split_and!; repeat next_some; intros [= <-];
    apply CExchanges; repeat match goal with H : is_exchanging _ _ = _ |- _ => apply is_exchanging_task in H
      end;
    repeat match goal with H : written _ = _ |- _ => apply written_writes in H end;
    repeat match goal with P : Pipe |- _ => destruct P as [[] [] ? ? ?]; cbn in * end; subst.
  - by eapply AsksSources.
  - by eapply AsksPeers.
  - by eapply TakesSources.
  - by eapply TakesPeers.
  - by eapply Answers.
  - by eapply Receives.
Qed.
Lemma arrives_move_step i cl cl' : arrives_move i cl = Some cl' → Step cl cl'.
Proof.
  unfold arrives_move. repeat next_some. case_bool_decide as Hc; [|done]. destruct Hc as [Hne Hown].
  intros [= <-].
  apply CDelivers. match goal with P : Pipe |- _ => eapply (Delivered i (e_task (own_end i P)) _ _ _ _ [])
    end; try done.
  - unfold joins, own_end, other_end in *.
    match goal with P : Pipe |- _ => destruct P as [[] [] ? ? ?]; cbn in * end.
    case_decide; cbn in *; subst; [by left|by right].
  - by apply written_writes.
  - by case_match; simplify_eq.
Qed.
Lemma move_step m cl cl' : move m cl = Some cl' → Step cl cl'.
Proof.
  destruct m; cbn [move].
  - by apply (local_moves i 0).
  - apply calls_move_step.
  - by apply local_moves.
  - apply exchange_moves.
  - apply exchange_moves.
  - apply exchange_moves.
  - apply exchange_moves.
  - apply arrives_move_step.
Qed.
Lemma cluster_moves_rtc l cl cl' : moves l cl = Some cl' → rtc Step cl cl'.
Proof.
  revert cl. induction l as [|m l IH]; intros cl; cbn [moves]; [by intros [= ->]|].
  destruct (move m cl) as [cl1|] eqn:Hm; [|done]. cbn. intros Hl%IH.
  eapply rtc_l; [by apply (move_step m)|done].
Qed.
End moves.

(** ** Three nodes: 1 and 3 have the address of 2, which has none *)
Definition cluster_env (i : Z) (host : string) : PeerEnv (H := tree_toml) := {|
  local_address := SV4 (167772160 + i) 38383; local_host_name := host;
  config_doc := demo_doc; config_path := "config.toml" |}.
Definition cluster_node (i : Z) (host : string) (peers : gset PeerInfo) (sources : gset string) : Member :=
  mk_member (cluster_env i host) ("giganto@" +:+ host) (start_net (demo_node peers sources)).
Definition second : PeerInfo := info (cluster_node 2 "node2" ∅ ∅).
Definition three_nodes : Cluster :=
  mk_cluster {[ 1%nat := cluster_node 1 "node1" {[ second ]} {[ "src1" ]};
    2%nat := cluster_node 2 "node2" ∅ {[ "src2" ]}; 3%nat := cluster_node 3 "node3" {[ second ]} ∅ ]} [].

Definition times (n : nat) (m : Move) : list Move := replicate n m.
(** Connection [k], whose client is task [0] of node [i] and whose server is task [k]
    of node 2: both check, then exchange the lists and learn up to the sharing. *)
Definition exchange (i k : nat) : list Move :=
  [Runs i 0; Runs 2 k; Asks k; Asks k; Takes k; Takes k; Replies k; Gets k].

(** Both connections are made before either exchange. *)
Definition crossing : list Move :=
  [Starts 1; Starts 3; Calls 1 0 2; Calls 3 0 2; Runs 1 0; Runs 2 0; Runs 3 0; Runs 2 1;
   Asks 0; Asks 0; Asks 1; Asks 1; Takes 0; Takes 0; Takes 1; Takes 1; Replies 0; Replies 1; Gets 0; Gets 1] ++
  times 4 (Runs 1 0) ++ times 4 (Runs 3 0) ++ times 9 (Runs 2 0) ++ times 9 (Runs 2 1) ++ [Runs 2 0; Runs 2 1].
(** One after the other, up to the sharing of the list of node 2 with node 1 *)
Definition joining : list Move :=
  [Starts 1; Starts 3; Calls 1 0 2] ++ exchange 1 0 ++ times 4 (Runs 1 0) ++ times 10 (Runs 2 0) ++
  [Calls 3 0 2] ++ exchange 3 1 ++ times 8 (Runs 2 1).

Definition run_to (l : list Move) : Cluster := default three_nodes (moves l three_nodes).
Definition crossed : Cluster := run_to crossing.
Definition sharing : Cluster := run_to joining.
Definition member_at (i : nat) (cl : Cluster) : Member :=
  default (cluster_node 0 "" ∅ ∅) (cl_members cl !! i).

Definition is_someb {A} (o : option A) : bool := match o with Some _ => true | None => false end.
Lemma someb_default {A} (o : option A) (d : A) : is_someb o = true → o = Some (default d o).
Proof. by destruct o. Qed.
Lemma someb_is_some {A} (o : option A) : is_someb o = true → is_Some o.
Proof. by destruct o; [eexists|]. Qed.
Lemma run_to_rtc l : is_someb (moves l three_nodes) = true → rtc Step three_nodes (run_to l).
Proof. intros Hl. by apply (cluster_moves_rtc l), someb_default. Qed.
Lemma member_at_lookup i cl : is_someb (cl_members cl !! i) = true → cl_members cl !! i = Some (member_at i cl).
Proof. apply someb_default. Qed.

Lemma three_nodes_lookup i a :
  cl_members three_nodes !! i = Some a →
  (i = 1%nat ∧ a = cluster_node 1 "node1" {[ second ]} {[ "src1" ]}) ∨
  (i = 2%nat ∧ a = cluster_node 2 "node2" ∅ {[ "src2" ]}) ∨
  (i = 3%nat ∧ a = cluster_node 3 "node3" {[ second ]} ∅).
Proof.
  unfold three_nodes. cbn [cl_members]. rewrite !lookup_insert_Some, lookup_singleton_Some. naive_solver.
Qed.

Lemma three_nodes_start : starts three_nodes.
Proof.
  split; [split|split; [done|]].
  - intros i a Ha%three_nodes_lookup.
    destruct Ha as [[_ ->]|[[_ ->]|[_ ->]]]; (split; [reflexivity|exists "giganto"; reflexivity]).
  - intros i j a b Ha%three_nodes_lookup Hb%three_nodes_lookup Hne.
    destruct Ha as [[-> ->]|[[-> ->]|[-> ->]]], Hb as [[-> ->]|[[-> ->]|[-> ->]]]; try done;
      (split; discriminate).
  - intros i a Ha. assert (peers_of a ⊆ {[ second ]} ∧ (i = 2%nat → peers_of a = ∅)) as [Hp H2].
    { apply three_nodes_lookup in Ha as [[-> ->]|[[-> ->]|[-> ->]]]; unfold peers_of; cbn; split; set_solver. }
    split_and!; try (apply three_nodes_lookup in Ha as [[_ ->]|[[_ ->]|[_ ->]]]; reflexivity).
    intros p Hin. assert (p = second) as -> by set_solver. split.
    + exists 2%nat, (cluster_node 2 "node2" ∅ {[ "src2" ]}). by split.
    + intros E%(f_equal PeerInfo.host_name). apply three_nodes_lookup in Ha as [[_ ->]|[[-> ->]|[_ ->]]];
        [discriminate E| |discriminate E]. by rewrite H2 in Hin.
Qed.

(** *** All lists of the three nodes can be sent. *)
Definition all_infos : list PeerInfo := info <$> (map_to_list (cl_members three_nodes)).*2.
Definition subsets (l : list PeerInfo) : list (gset PeerInfo) :=
  foldr (λ p ls, ls ++ (union {[ p ]} <$> ls)) [∅] l.
Lemma elem_of_subsets (l : list PeerInfo) (s : gset PeerInfo) : (∀ p, p ∈ s → p ∈ l) → s ∈ subsets l.
Proof.
  revert s. induction l as [|q l IH]; intros s Hs; cbn [subsets foldr].
  - apply list_elem_of_singleton. apply set_eq. intros p. split; [|set_solver].
    by intros ?%Hs%elem_of_nil.
  - fold (subsets l). apply elem_of_app. destruct (decide (q ∈ s)) as [Hq|Hq]; [right|left].
    + apply list_elem_of_fmap. exists (s ∖ {[ q ]}). split; [by apply union_difference_singleton_L|].
      apply IH. intros p [Hp Hne]%elem_of_difference. apply Hs in Hp. set_solver.
    + apply IH. intros p Hp. specialize (Hs p Hp). set_solver.
Qed.
Lemma three_nodes_sendable :
  forallb (λ s, is_someb (written (send_update (PeersUpdate s)))) (subsets all_infos) = true.
Proof. vm_compute. reflexivity. Qed.
Lemma three_nodes_transmissible : transmissible three_nodes.
Proof.
  intros s Hs. pose proof three_nodes_sendable as Hall. rewrite forallb_forall in Hall.
  assert (is_someb (written (send_update (PeersUpdate s))) = true) as Hw.
  { apply (Hall s), list_elem_of_In, elem_of_subsets. intros p (j & b & Hb & ->)%Hs.
    apply list_elem_of_fmap_2, list_elem_of_fmap. exists (j, b). split; [done|]. by apply elem_of_map_to_list. }
  eexists. apply written_writes, (someb_default _ []), Hw.
Qed.

(** *** Rest, as a check *)
Definition quietb (a : Member) (task : Task) : bool :=
  match task with
  | InLoop l => bool_decide (n_peer_conn (node_of a) !! link_host l = Some (link_conn l))
  | StoringSources _ _ | Finished => true
  | _ => false
  end.
Definition metb (x y : nat * Member) : bool :=
  bool_decide (x.1 = y.1) || negb (bool_decide (info y.2 ∈ peers_of x.2)) ||
  (is_someb (n_peer_conn (node_of x.2) !! host_of y.2) && is_someb (n_peer_conn (node_of y.2) !! host_of x.2)).
Definition settledb (cl : Cluster) : bool :=
  let l := map_to_list (cl_members cl) in
  forallb (λ x, forallb (quietb x.2) (tasks_of x.2) &&
    match n_spawned (node_of x.2) with [] => true | _ => false end && forallb (metb x) l) l.

Lemma settledb_settled cl : settledb cl = true → settled cl.
Proof.
  unfold settledb. intros Hall. rewrite forallb_forall in Hall.
  assert (∀ i a, cl_members cl !! i = Some a → List.In (i, a) (map_to_list (cl_members cl))) as Hin
    by (intros i a Ha; by apply list_elem_of_In, elem_of_map_to_list).
  split.
  - intros i a Ha. apply Hin, Hall in Ha as [[Hq Hs]%andb_true_iff _]%andb_true_iff. cbn in *. split.
    + intros task Ht%list_elem_of_In. rewrite forallb_forall in Hq. specialize (Hq task Ht).
      destruct task; try discriminate Hq; try done. cbn in *. by apply bool_decide_eq_true in Hq.
    + intros conn s. destruct (n_spawned (node_of a)); [apply not_elem_of_nil|discriminate Hs].
  - intros i j a b Ha Hb Hne Hk. apply Hin, Hall in Ha as [_ Hm]%andb_true_iff.
    rewrite forallb_forall in Hm. apply Hin, Hm in Hb. unfold metb in Hb. cbn in Hb.
    rewrite (bool_decide_false _ Hne), (bool_decide_true _ Hk) in Hb. cbn in Hb.
    apply andb_true_iff in Hb as [H1 H2]. split; by apply someb_is_some.
Qed.

(** ** The theorems on the three nodes *)

(** C13: Two nodes that dial a third at the same time may never learn of each other:
    the third reads its list for each before it knows of the other, and shares the
    new list before either connection is registered.  Both stay connected to it, and
    as long as these connections stand, whatever else happens, each stays unknown to
    the other, though the third knows both. *)
Theorem crossed_dials :
  ∃ cl a b c, rtc Step three_nodes cl ∧
    cl_members cl !! 1%nat = Some a ∧ cl_members cl !! 3%nat = Some b ∧ cl_members cl !! 2%nat = Some c ∧
    (∀ x, x = a ∨ x = b → is_Some (n_peer_conn (node_of x) !! host_of c) ∧
      is_Some (n_peer_conn (node_of c) !! host_of x) ∧ info x ∈ peers_of c ∧ info c ∈ peers_of x) ∧
    ∀ cl' a' b', rtc Step cl cl' → standing cl cl' →
      cl_members cl' !! 1%nat = Some a' → cl_members cl' !! 3%nat = Some b' →
      info b ∉ peers_of a' ∧ info a ∉ peers_of b'.
Proof.
  assert (rtc Step three_nodes crossed) as Hrun by (apply run_to_rtc; vm_compute; reflexivity).
  assert (settled crossed) as Hset by (apply settledb_settled; vm_compute; reflexivity).
  set (a := member_at 1 crossed). set (b := member_at 3 crossed). set (c := member_at 2 crossed).
  assert (cl_members crossed !! 1%nat = Some a) as Ha by (apply member_at_lookup; vm_compute; reflexivity).
  assert (cl_members crossed !! 3%nat = Some b) as Hb by (apply member_at_lookup; vm_compute; reflexivity).
  assert (cl_members crossed !! 2%nat = Some c) as Hc by (apply member_at_lookup; vm_compute; reflexivity).
  exists crossed, a, b, c. split; [exact Hrun|]. split; [exact Ha|]. split; [exact Hb|]. split; [exact Hc|].
  split.
  - intros x [-> | ->]; (split_and!; [apply someb_is_some; vm_compute; reflexivity..| |];
      refine (bool_decide_eq_true_1 _ _); vm_compute; reflexivity).
  - intros cl' a' b' Hrun' Hst Ha' Hb'.
    pose proof (settled_reachable crossed cl' (cluster_inv_reachable _ _ three_nodes_start Hrun) Hset Hrun'
      Hst) as Hr.
    destruct (Hr 1%nat a' Ha') as (a0 & Ha0 & (_ & -> & _) & _).
    destruct (Hr 3%nat b' Hb') as (b0 & Hb0 & (_ & -> & _) & _).
    rewrite Ha in Ha0. apply (inj Some) in Ha0 as <-. rewrite Hb in Hb0. apply (inj Some) in Hb0 as <-.
    split; refine (bool_decide_eq_false_1 _ _); vm_compute; reflexivity.
Qed.

Lemma registered_peers_known_witness :
  ∃ j b conn, rtc Step three_nodes crossed ∧
    n_peer_conn (node_of (member_at 2 crossed)) !! "node1" = Some conn ∧
    cl_members crossed !! j = Some b ∧ "node1" = host_of b ∧ info b ∈ peers_of (member_at 2 crossed).
Proof.
  assert (rtc Step three_nodes crossed) as Hrun by (apply run_to_rtc; vm_compute; reflexivity).
  assert (cl_members crossed !! 2%nat = Some (member_at 2 crossed)) as Ha
    by (apply member_at_lookup; vm_compute; reflexivity).
  destruct (registered_peers_known three_nodes crossed 2 (member_at 2 crossed) three_nodes_start Hrun Ha) as
    [_ Ht].
  set (conn := mk_connection 0 (V4 167772161) (Ok "giganto@node1")).
  assert (n_peer_conn (node_of (member_at 2 crossed)) !! "node1" = Some conn) as Hc by (vm_compute;
    reflexivity).
  destruct (Ht "node1" conn Hc) as (j & b & Hb & Hh & _ & _ & Hin).
  exists j, b, conn. split; [exact Hrun|]. split; [exact Hc|]. split; [exact Hb|]. split; [exact Hh|exact Hin].
Defined.

(** *** Node 2 shares what it has learnt from node 3 with node 1. *)
Definition conn_2_1 : Connection := mk_connection 0 (V4 167772161) (Ok "giganto@node1").
Definition link_2_1 : Link := mk_link conn_2_1 "10.0.0.1" "node1".
Definition link_2_3 : Link := mk_link (mk_connection 1 (V4 167772163) (Ok "giganto@node3")) "10.0.0.3" "node3".
Definition shared : Cluster := put 2 (shares 1 link_2_3 (member_at 2 sharing)) sharing.
Definition heard : Cluster := default shared (moves (Arrives 2 :: times 7 (Runs 1 1)) shared).
Definition pipe_at (k : nat) (cl : Cluster) : Pipe :=
  default (mk_pipe (mk_end 0 0) (mk_end 0 0) AskSources TakeSources false) (cl_pipes cl !! k).
Definition idle (task : Task) : bool := match task with InLoop _ | Finished => true | _ => false end.
Lemma idle_carries (l : list Task) task p : forallb idle l = true → task ∈ l → ¬ carries task p.
Proof. rewrite forallb_forall. intros Hl Hin%list_elem_of_In%Hl.
by destruct task; try discriminate Hin; intros []. Qed.

Lemma shared_list_arrives_witness :
  rtc Step three_nodes sharing ∧ rtc Step shared heard ∧
  info (member_at 3 sharing) ∈ peers_of (member_at 1 heard) ∧
  peers_of (member_at 2 sharing) ⊆ {[ info (member_at 1 sharing) ]} ∪ peers_of (member_at 1 heard).
Proof.
  assert (rtc Step three_nodes sharing) as Hrun by (apply run_to_rtc; vm_compute; reflexivity).
  assert (rtc Step shared heard) as Hrun2.
  { apply (cluster_moves_rtc (Arrives 2 :: times 7 (Runs 1 1))), someb_default. vm_compute. reflexivity. }
  split; [exact Hrun|]. split; [exact Hrun2|].
  split; [refine (bool_decide_eq_true_1 _ _); vm_compute; reflexivity|].
  destruct (shared_list_arrives three_nodes sharing 2 1 (member_at 2 sharing) (member_at 1 sharing) 1
    link_2_3 conn_2_1
    three_nodes_start three_nodes_transmissible Hrun) as [_ Hall].
  - apply member_at_lookup. vm_compute. reflexivity.
  - vm_compute. reflexivity.
  - apply member_at_lookup. vm_compute. reflexivity.
  - vm_compute. reflexivity.
  - apply (Hall heard (member_at 2 heard) (member_at 1 heard) (pipe_at 0 heard) Hrun2).
    + apply member_at_lookup. vm_compute. reflexivity.
    + apply member_at_lookup. vm_compute. reflexivity.
    + apply someb_default. vm_compute. reflexivity.
    + vm_compute. reflexivity.
    + assert (n_spawned (node_of (member_at 2 heard)) = []) as -> by (vm_compute; reflexivity).
      intros s. apply not_elem_of_nil.
    + intros task p. apply idle_carries. vm_compute. reflexivity.
Defined.

Lemma sources_overtaken_witness :
  ∃ cl' a' b', rtc Step sharing cl' ∧ cl_members cl' !! 1%nat = Some a' ∧ cl_members cl' !! 2%nat = Some b' ∧
    n_spawned (node_of a') = [] ∧ n_sources (node_of a') = {[ "new" ]} ∧
    n_peer_sources (node_of b') !! "10.0.0.1" = Some {[ "old" ]}.
Proof.
  set (l' := mk_link (mk_connection 0 (V4 167772162) (Ok "giganto@node2")) "10.0.0.2" "node2").
  edestruct (sources_overtaken sharing 1 2 (member_at 1 sharing) (member_at 2 sharing) 0 0 0 link_2_1 l'
    (link_conn l') (pipe_at 0 sharing) {[ "old" ]} {[ "new" ]})
    as (cl' & a' & b' & Hrun & Ha' & Hb' & Hsp' & _ & _ & Hs & Hk).
  - apply member_at_lookup. vm_compute. reflexivity.
  - apply member_at_lookup. vm_compute. reflexivity.
  - discriminate.
  - vm_compute. reflexivity.
  - vm_compute. reflexivity.
  - apply someb_default. vm_compute. reflexivity.
  - vm_compute. reflexivity.
  - left. vm_compute. split; reflexivity.
  - vm_compute. reflexivity.
  - vm_compute. reflexivity.
  - vm_compute. reflexivity.
  - vm_compute. reflexivity.
  - vm_compute. reflexivity.
  - vm_compute. reflexivity.
  - vm_compute. reflexivity.
  - vm_compute. reflexivity.
  - exists cl', a', b'. split; [exact Hrun|]. split; [exact Ha'|]. split; [exact Hb'|].
    split; [exact Hsp'|]. split; [exact Hs|exact Hk].
Defined.
