(* ===== verification/Migration.v ===== *)
(** * Data migration (src/src/storage/migration.rs)

    At start-up the version in the file VERSION of the data directory is
    compared with the version the program is compatible with, and the
    migrations that lead there are run on the database.  The crate [semver] is
    the class [Semver]; the laws say which releases the requirements of this
    file match. *)

From Stdlib Require Import ZArith Lia.
From S2P Require Import Prelude Bytes Externals NetAddr GigantoClient Events Storage.

(** ** [semver] *)
Class Semver := {
  Version : Type;
  VersionReq : Type;
  version_parse : string → result Version;
  req_parse : string → result VersionReq;
  req_matches : VersionReq → Version → bool;
}.

Definition COMPATIBLE_VERSION_REQ : string := ">0.13.0-alpha,<0.16.0-alpha".
(** [env!("CARGO_PKG_VERSION")], the version in Cargo.toml *)
Definition CARGO_PKG_VERSION : string := "0.15.3".

(** ** The data directory

    Whether it exists, the content of its file VERSION, and whether files can be
    created in it. *)
Record DataDir := mk_dir { dir_exists : bool; dir_version : option string; dir_writable : bool }.

(** ** The records of HTTP events before and after version 0.12 *)
Module OldHttp.
Record t := mk { orig_addr : IpAddr; orig_port : Z; resp_addr : IpAddr; resp_port : Z;
  proto : Z; last_time : Z; method : string; host : string; uri : string; referrer : string;
  version : string; user_agent : string; request_len : Z; response_len : Z; status_code : Z;
  status_msg : string; username : string; password : string; cookie : string;
  content_encoding : string; content_type : string; cache_control : string }.
End OldHttp.
Notation OldHttp := OldHttp.t.

Module NewHttp.
Record t := mk { orig_addr : IpAddr; orig_port : Z; resp_addr : IpAddr; resp_port : Z;
  proto : Z; last_time : Z; method : string; host : string; uri : string; referrer : string;
  version : string; user_agent : string; request_len : Z; response_len : Z; status_code : Z;
  status_msg : string; username : string; password : string; cookie : string;
  content_encoding : string; content_type : string; cache_control : string;
  orig_filenames : list string; orig_mime_types : list string;
  resp_filenames : list string; resp_mime_types : list string }.
End NewHttp.
Notation NewHttp := NewHttp.t.

(** [impl From<OldHttp> for NewHttp] *)
Definition new_http_from (input : OldHttp) : NewHttp :=
  NewHttp.mk (OldHttp.orig_addr input) (OldHttp.orig_port input) (OldHttp.resp_addr input)
    (OldHttp.resp_port input) (OldHttp.proto input) (OldHttp.last_time input)
    (OldHttp.method input) (OldHttp.host input) (OldHttp.uri input) (OldHttp.referrer input)
    (OldHttp.version input) (OldHttp.user_agent input) (OldHttp.request_len input)
    (OldHttp.response_len input) (OldHttp.status_code input) (OldHttp.status_msg input)
    (OldHttp.username input) (OldHttp.password input) (OldHttp.cookie input)
    (OldHttp.content_encoding input) (OldHttp.content_type input) (OldHttp.cache_control input)
    ["-"%string] ["-"%string] ["-"%string] ["-"%string].

Section migration.
Context `{RocksDB} `{Semver} `{Bincode OldHttp} `{Bincode NewHttp}.

(** The database and the data directory *)
Record Data := mk_data { data_db : DB; data_dir : DataDir }.

Definition on_db {A} (m : M DB A) : M Data A := λ s,
  let '(r, db) := m (data_db s) in (r, mk_data db (data_dir s)).
Definition on_dir {A} (m : M DataDir A) : M Data A := λ s,
  let '(r, d) := m (data_dir s) in (r, mk_data (data_db s) d).

(** ** The migrations *)

(** One record: read as an old one, written back as a new one *)
Definition migrate_http (st : RawEventStore Http) (raw_event : result (bytes * bytes)) : M DB unit :=
  kv <-- m_lift (map_err "Failed to read Database" raw_event) ;;
  old <-- m_lift (bincode_deserialize (T := OldHttp) kv.2) ;;
  new <-- m_lift (bincode_serialize (new_http_from old)) ;;
  append st kv.1 new.

Definition migrate_0_10_to_0_12 : M DB unit := λ db,
  (store <-- m_lift (http_store db) ;;
   m_iter (migrate_http store) (iter_forward store db)) db.

Definition delete_event (st : RawEventStore Statistics) (raw_event : result (bytes * bytes)) :
    M DB unit :=
  kv <-- m_lift (map_err "Failed to read Database" raw_event) ;;
  delete_key st kv.1.

Definition migrate_0_12_to_0_13_0 : M DB unit := λ db,
  (store <-- m_lift (statistics_store db) ;;
   m_iter (delete_event store) (iter_forward store db)) db.

(** ** The version file *)
Definition create_version_file : M DataDir unit := λ d,
  if dir_writable d
  then (Ok tt, mk_dir (dir_exists d) (Some CARGO_PKG_VERSION) (dir_writable d))
  else (Err "cannot create VERSION", d).

Definition read_version_file (d : DataDir) : result Version :=
  ver ← context "cannot open VERSION" (dir_version d);
  map_err "cannot parse VERSION" (version_parse ver).

(** [create_dir_all(path)] *)
Definition create_dir : M DataDir unit := λ d,
  if dir_exists d then (Ok tt, d)
  else if dir_writable d then (Ok tt, mk_dir true None true)
  else (Err "cannot create the data directory", d).

Definition retrieve_or_create_version : M DataDir Version :=
  create_dir ;;;
  (λ d, match dir_version d with Some _ => (Ok tt, d) | None => create_version_file d end) ;;;
  m_gets read_version_file.

(** ** [migrate_data_dir] *)
Definition expect {A} (msg : string) (r : result A) : result A := map_err msg r.

(** The table of the migrations: requirement, target version, function *)
Definition migration : result (list (VersionReq * Version * M DB unit)) :=
  r1 ← expect "valid version requirement" (req_parse ">=0.10.0,<0.12.0");
  v1 ← expect "valid version" (version_parse "0.12.0");
  r2 ← expect "valid version requirement" (req_parse ">=0.12.0,<=0.13.0-alpha.1");
  v2 ← expect "valid version" (version_parse "0.13.0");
  Ok [(r1, v1, migrate_0_10_to_0_12); (r2, v2, migrate_0_12_to_0_13_0)].

(** [iter().find(..)] *)
Fixpoint find_migration (l : list (VersionReq * Version * M DB unit)) (version : Version) :
    option (Version * M DB unit) :=
  match l with
  | [] => None
  | (req, to, m) :: l => if req_matches req version then Some (to, m) else find_migration l version
  end.

(** The loop; [None] when the fuel is used up. *)
Fixpoint migrate_loop (fuel : nat) (table : list (VersionReq * Version * M DB unit))
    (compatible : VersionReq) (version : Version) (s : Data) : option (result unit * Data) :=
  match fuel with
  | O => None
  | S fuel =>
      match find_migration table version with
      | None => Some (Err "migration is not supported", s)
      | Some (to, m) =>
          match on_db m s with
          | (Err e, s) => Some (Err e, s)
          | (Ok _, s) =>
              if req_matches compatible to
              then Some (on_dir (λ d, let '(r, d) := create_version_file d in
                                      (map_err "failed to update VERSION" r, d)) s)
              else migrate_loop fuel table compatible to s
          end
      end
  end.

(** Three rounds: there are two migrations. *)
Definition MIGRATION_FUEL : nat := 3.

Definition migrate_data_dir (s : Data) : option (result unit * Data) :=
  match expect "valid version requirement" (req_parse COMPATIBLE_VERSION_REQ) with
  | Err e => Some (Err e, s)
  | Ok compatible =>
      match on_dir retrieve_or_create_version s with
      | (Err e, s) => Some (Err e, s)
      | (Ok version, s) =>
          if req_matches compatible version then Some (Ok tt, s)
          else
            match migration with
            | Err e => Some (Err e, s)
            | Ok table => migrate_loop MIGRATION_FUEL table compatible version s
            end
      end
  end.
End migration.
