(* ===== verification/MigrationSpec.v ===== *)
(** * What the data migration guarantees

    It terminates; a database of a version from 0.10 on is brought to the
    current format and nothing else is touched; an unknown version changes
    nothing; an interrupted migration can be repeated. *)

From Stdlib Require Import ZArith Lia.
From S2P Require Import Prelude Bytes Externals NetAddr GigantoClient Events Storage StorageSpec.
From S2P Require Import StorageKey Demo Migration.

(** ** Releases *)
Definition ver_cmp (a b : Z * Z * Z) : comparison :=
  match a.1.1 ?= b.1.1 with
  | Eq => match a.1.2 ?= b.1.2 with Eq => a.2 ?= b.2 | c => c end
  | c => c
  end.
(** [lo <= v < hi] *)
Definition ver_between (lo hi v : Z * Z * Z) : bool :=
  match ver_cmp lo v, ver_cmp v hi with
  | (Lt | Eq), Lt => true
  | _, _ => false
  end.

Lemma ver_between_spec a b x y z :
  ver_between (0, a, 0) (0, b, 0) (x, y, z) = true ↔
  (0 < x ∨ x = 0 ∧ (a < y ∨ a = y ∧ 0 ≤ z)) ∧ (x < 0 ∨ x = 0 ∧ (y < b ∨ y = b ∧ z < 0)).
Proof.
  unfold ver_between, ver_cmp. cbn [fst snd].
  destruct (Z.compare_spec 0 x), (Z.compare_spec x 0); try lia; try (split; [done|lia]);
    destruct (Z.compare_spec a y), (Z.compare_spec y b); try (split; [done|lia]);
    destruct (Z.compare_spec 0 z), (Z.compare_spec z 0); split; done || lia.
Qed.

(** The ranges of this file, with the boundaries between them *)
Lemma ver_between_split a b c x y z :
  a ≤ b → b ≤ c →
  ver_between (0, a, 0) (0, c, 0) (x, y, z) =
  ver_between (0, a, 0) (0, b, 0) (x, y, z) || ver_between (0, b, 0) (0, c, 0) (x, y, z).
Proof.
  intros. apply eq_true_iff_eq. rewrite orb_true_iff, !ver_between_spec. lia.
Qed.
Lemma ver_between_disjoint a b c x y z :
  b ≤ c → ver_between (0, a, 0) (0, b, 0) (x, y, z) = true →
  ver_between (0, b, 0) (0, c, 0) (x, y, z) = false.
Proof.
  intros ? Hab. apply not_true_is_false. rewrite ver_between_spec in *. lia.
Qed.

(** A requirement is met by the releases in its range; a bound [-alpha] of a
    pre-release lies below the release.  The pre-release 0.13.0-alpha.1 lies
    above 0.13.0-alpha. *)
Class SemverLaws `{Semver} := {
  release : Z → Z → Z → Version;
  alpha_1 : Version;
  req_compatible : VersionReq;
  req_0_10_12 : VersionReq;
  req_0_12_13 : VersionReq;
  parse_0_12_0 : version_parse "0.12.0" = Ok (release 0 12 0);
  parse_0_13_0 : version_parse "0.13.0" = Ok (release 0 13 0);
  parse_current : version_parse CARGO_PKG_VERSION = Ok (release 0 15 3);
  parse_compatible : req_parse COMPATIBLE_VERSION_REQ = Ok req_compatible;
  parse_req_0_10_12 : req_parse ">=0.10.0,<0.12.0" = Ok req_0_10_12;
  parse_req_0_12_13 : req_parse ">=0.12.0,<=0.13.0-alpha.1" = Ok req_0_12_13;
  matches_compatible x y z :
    req_matches req_compatible (release x y z) = ver_between (0, 13, 0) (0, 16, 0) (x, y, z);
  matches_0_10_12 x y z :
    req_matches req_0_10_12 (release x y z) = ver_between (0, 10, 0) (0, 12, 0) (x, y, z);
  matches_0_12_13 x y z :
    req_matches req_0_12_13 (release x y z) = ver_between (0, 12, 0) (0, 13, 0) (x, y, z);
  matches_alpha_1 :
    req_matches req_compatible alpha_1 = true ∧ req_matches req_0_12_13 alpha_1 = true;
}.

(** [bincode] decodes the fields in order and ignores what follows: a new record
    decodes as the old one it was made from. *)
Class HttpCodecLaws `{Bincode OldHttp} `{Bincode NewHttp} : Prop :=
  new_decodes_as_old (o : OldHttp) b :
    bincode_serialize (new_http_from o) = Ok b → bincode_deserialize b = Ok o.

Section http.
Context `{RocksDBSpec} `{Bincode OldHttp} `{Bincode NewHttp}.
Implicit Types db : DB.

(** The new encoding of an old record *)
Definition convert (v : bytes) : option bytes :=
  result_ok (old ← bincode_deserialize (T := OldHttp) v; bincode_serialize (new_http_from old)).

Lemma convert_ok v v' : convert v = Some v' →
  ∃ old, bincode_deserialize (T := OldHttp) v = Ok old ∧
    bincode_serialize (new_http_from old) = Ok v'.
Proof.
  unfold convert. destruct (bincode_deserialize v) as [old|]; [|done]. cbn [mbind result_bind].
  destruct (bincode_serialize (new_http_from old)) eqn:E; [|done]. intros [= <-]. eauto.
Qed.

(** Some of the records of [m] are converted, the other column families are as
    in [db]. *)
Definition partly_converted (m : gmap bytes bytes) db db1 : Prop :=
  healthy db1 ∧ (∀ cf, cf ≠ "http" → cf_view db1 cf = cf_view db cf) ∧
  ∀ k, cf_view db1 "http" !! k = m !! k ∨ cf_view db1 "http" !! k = m !! k ≫= convert.

Definition all_convert (m : gmap bytes bytes) : Prop := ∀ k v, m !! k = Some v → is_Some (convert v).

Lemma http_append k v db :
  healthy db → ∃ db', append (mk_store "http" : RawEventStore Http) k v db = (Ok tt, db') ∧ healthy db' ∧
    cf_view db' "http" = <[k := v]> (cf_view db "http") ∧
    ∀ cf, cf ≠ "http" → cf_view db' cf = cf_view db cf.
Proof.
  intros Hh. destruct (write_healthy (WPut k v) "http" db Hh) as (db' & Hw & Hh' & Hv); [known_cf|done|].
  exists db'. split_and!; [exact Hw|done|by rewrite Hv|]. intros cf Hne. rewrite Hv.
  by rewrite decide_False by congruence.
Qed.

(** The entries read by [iter_forward] *)
Lemma iter_forward_healthy {T} cf (db : DB) :
  healthy db → cf ∈ RAW_DATA_COLUMN_FAMILY_NAMES ++ META_DATA_COLUMN_FAMILY_NAMES →
  iter_forward (mk_store cf : RawEventStore T) db = Ok <$> sorted_entries (cf_view db cf).
Proof. intros [Hio Hop] Hcf. unfold iter_forward. cbn. by rewrite iterator_io by auto. Qed.

Lemma http_opened db : healthy db → http_store db = Ok (mk_store "http").
Proof. intros [_ Hop]. unfold http_store, raw_event_store. by rewrite Hop by known_cf. Qed.
Lemma statistics_opened db : healthy db → statistics_store db = Ok (mk_store "statistics").
Proof. intros [_ Hop]. unfold statistics_store, raw_event_store. by rewrite Hop by known_cf. Qed.

Lemma migrate_http_step k v v' db :
  healthy db → convert v = Some v' →
  ∃ db', migrate_http (mk_store "http") (Ok (k, v)) db = (Ok tt, db') ∧ healthy db' ∧
    cf_view db' "http" = <[k := v']> (cf_view db "http") ∧
    ∀ cf, cf ≠ "http" → cf_view db' cf = cf_view db cf.
Proof.
  intros Hh (old & Ho & Hn)%convert_ok. destruct (http_append k v' db Hh) as (db' & Ha & Hrest).
  exists db'. split; [|done]. unfold migrate_http, m_bind, m_lift. cbn [map_err fst snd].
  by rewrite Ho, Hn.
Qed.

(** The loop over any part of the entries: those treated are converted. *)
Lemma migrate_http_loop (l : list (bytes * bytes)) db :
  healthy db → NoDup l.*1 → Forall (λ kv, is_Some (convert kv.2)) l →
  ∃ db', m_iter (migrate_http (mk_store "http")) (Ok <$> l) db = (Ok tt, db') ∧ healthy db' ∧
    (∀ cf, cf ≠ "http" → cf_view db' cf = cf_view db cf) ∧
    ∀ k, cf_view db' "http" !! k =
      match (list_to_map l : gmap bytes bytes) !! k with
      | Some v => convert v
      | None => cf_view db "http" !! k
      end.
Proof.
  revert db. induction l as [|[k v] l IH]; intros db Hh Hnd Hall.
  - exists db. split_and!; [done|done|done|]. intros k. rewrite list_to_map_nil. by rewrite lookup_empty.
  - cbn [fmap list_fmap] in Hnd. apply NoDup_cons in Hnd as [Hk Hnd].
    apply Forall_cons in Hall as [[v' Hv] Hall].
    destruct (migrate_http_step k v v' db Hh Hv) as (db1 & Hs & Hh1 & Hv1 & Hf1).
    destruct (IH db1 Hh1 Hnd Hall) as (db2 & Hi & Hh2 & Hf2 & Hv2).
    exists db2. rewrite fmap_cons. cbn [m_iter]. unfold m_bind. rewrite Hs.
    split_and!; [done|done| |].
    + intros cf Hne. by rewrite Hf2, Hf1.
    + intros k'. rewrite Hv2. cbn [list_to_map foldr uncurry]. destruct (decide (k = k')) as [->|Hne].
      * rewrite lookup_insert_eq. rewrite (not_elem_of_list_to_map_1 l k') by done.
        by rewrite Hv1, lookup_insert_eq.
      * rewrite lookup_insert_ne by done. by rewrite Hv1, lookup_insert_ne.
Qed.

Lemma sorted_entries_NoDup (m : gmap bytes bytes) : NoDup (sorted_entries m).*1.
Proof. unfold sorted_entries. rewrite merge_sort_Permutation. apply NoDup_fst_map_to_list. Qed.

Lemma list_to_map_sorted (m : gmap bytes bytes) : list_to_map (sorted_entries m) = m.
Proof.
  rewrite <- (list_to_map_to_list m) at 2. apply list_to_map_proper.
  - apply sorted_entries_NoDup.
  - unfold sorted_entries. apply merge_sort_Permutation.
Qed.

Lemma all_convert_entries m : all_convert m → Forall (λ kv, is_Some (convert kv.2)) (sorted_entries m).
Proof.
  intros Hc. apply Forall_forall. intros [k v] Hin%elem_of_sorted_entries. by eapply Hc.
Qed.

(** The migration from 0.10 to 0.12 rewrites every HTTP event as the new
    record with the old fields and placeholder file names, under the same key,
    and changes no other column family. *)
Theorem migrate_http_exact db :
  healthy db → all_convert (cf_view db "http") →
  ∃ db', migrate_0_10_to_0_12 db = (Ok tt, db') ∧ healthy db' ∧
    cf_view db' "http" = omap convert (cf_view db "http") ∧
    ∀ cf, cf ≠ "http" → cf_view db' cf = cf_view db cf.
Proof.
  intros Hh Hc. unfold migrate_0_10_to_0_12, m_bind, m_lift. rewrite http_opened by done.
  rewrite iter_forward_healthy by (done || known_cf).
  destruct (migrate_http_loop (sorted_entries (cf_view db "http")) db Hh) as (db' & Hi & Hh' & Hf & Hv);
    [apply sorted_entries_NoDup|by apply all_convert_entries|].
  exists db'. split_and!; [done|done| |done]. apply map_eq. intros k.
  rewrite Hv, list_to_map_sorted, lookup_omap. by destruct (cf_view db "http" !! k).
Qed.

Context `{!HttpCodecLaws}.

Lemma convert_idemp v v' : convert v = Some v' → convert v' = Some v'.
Proof.
  intros (old & Ho & Hn)%convert_ok. unfold convert. rewrite (new_decodes_as_old old v' Hn).
  cbn [mbind result_bind]. by rewrite Hn.
Qed.

(** A migration of the HTTP events that was interrupted after any number of
    them and started again leaves the same events as one that ran through. *)
Theorem migration_restart db (done_ : nat) :
  healthy db → all_convert (cf_view db "http") →
  let entries := Ok <$> take done_ (sorted_entries (cf_view db "http")) in
  ∃ db1 db2, m_iter (migrate_http (mk_store "http")) entries db = (Ok tt, db1) ∧
    migrate_0_10_to_0_12 db1 = (Ok tt, db2) ∧
    cf_view db2 "http" = omap convert (cf_view db "http") ∧
    ∀ cf, cf ≠ "http" → cf_view db2 cf = cf_view db cf.
Proof.
  intros Hh Hc. set (m := cf_view db "http") in *.
  pose proof (all_convert_entries m Hc) as Hall. pose proof (sorted_entries_NoDup m) as Hnd.
  destruct (migrate_http_loop (take done_ (sorted_entries m)) db Hh) as (db1 & Hi & Hh1 & Hf1 & Hv1).
  { rewrite fmap_take. by eapply sublist_NoDup, sublist_take. }
  { by apply Forall_take. }
  assert (∀ k v, m !! k = Some v → cf_view db1 "http" !! k = Some v ∨ cf_view db1 "http" !! k = convert v)
    as Hpart.
  { intros k v Hk. rewrite Hv1. fold m.
    destruct (list_to_map (take done_ (sorted_entries m)) !! k) as [w|] eqn:E; [|by left].
    right. apply elem_of_list_to_map_2 in E.
    assert ((k, w) ∈ sorted_entries m) as Hin by (eapply elem_of_sublist; [done|apply sublist_take]).
    apply elem_of_sorted_entries in Hin. congruence. }
  assert (∀ k, m !! k = None → cf_view db1 "http" !! k = None) as Hnone.
  { intros k Hk. rewrite Hv1. fold m.
    destruct (list_to_map (take done_ (sorted_entries m)) !! k) as [w|] eqn:E; [|done].
    apply elem_of_list_to_map_2 in E.
    assert ((k, w) ∈ sorted_entries m) as Hin by (eapply elem_of_sublist; [done|apply sublist_take]).
    apply elem_of_sorted_entries in Hin. congruence. }
  destruct (migrate_http_exact db1 Hh1) as (db2 & Hm & _ & Hv2 & Hf2).
  { intros k v Hk. destruct (m !! k) as [w|] eqn:Hw; [|by rewrite Hnone in Hk].
    destruct (Hc k w Hw) as [w' Hw'].
    destruct (Hpart k w Hw) as [E|E]; rewrite Hk in E; [injection E as ->; by eexists|].
    rewrite Hw' in E. injection E as ->. exists w'. by eapply convert_idemp. }
  exists db1, db2. split_and!; [done|done| |].
  - rewrite Hv2. apply map_eq. intros k. rewrite !lookup_omap.
    destruct (m !! k) as [w|] eqn:Hw; [|by rewrite Hnone]. cbn.
    destruct (Hc k w Hw) as [w' Hw'].
    destruct (Hpart k w Hw) as [->| ->]; [done|]. cbn. rewrite Hw'. cbn. by eapply convert_idemp.
  - intros cf Hne. by rewrite Hf2, Hf1.
Qed.
End http.

(** ** The statistics *)
Section statistics.
Context `{RocksDBSpec}.
Implicit Types db : DB.

(** The migration from 0.12 to 0.13 removes all statistics. *)
Lemma migrate_statistics_exact db :
  healthy db →
  ∃ db', migrate_0_12_to_0_13_0 db = (Ok tt, db') ∧ healthy db' ∧
    cf_view db' "statistics" = ∅ ∧
    ∀ cf, cf ≠ "statistics" → cf_view db' cf = cf_view db cf.
Proof.
  intros Hh. unfold migrate_0_12_to_0_13_0, m_bind, m_lift. rewrite statistics_opened by done.
  rewrite iter_forward_healthy by (done || known_cf).
  set (m := cf_view db "statistics").
  set (Inv := λ (done_ : list (result (bytes * bytes))) (db1 : DB), healthy db1 ∧
    (∀ cf, cf ≠ "statistics" → cf_view db1 cf = cf_view db cf) ∧
    (∀ k, is_Some (cf_view db1 "statistics" !! k) → is_Some (m !! k)) ∧
    ∀ k v, Ok (k, v) ∈ done_ → cf_view db1 "statistics" !! k = None).
  destruct (m_iter_inv (delete_event (mk_store "statistics")) Inv (Ok <$> sorted_entries m) db)
    as (db' & Hi & Hh' & Hf & Hsub & Hdel).
  - intros done_ x rest db1 Hl (Hh1 & Hf1 & Hs1 & Hd1).
    assert (x ∈ Ok <$> sorted_entries m) as ([k v] & -> & _)%list_elem_of_fmap_1.
    { rewrite Hl. apply elem_of_app. right. left. }
    destruct (write_healthy (WDelete k) "statistics" db1 Hh1) as (db2 & Hw & Hh2 & Hv2);
      [known_cf|done|].
    exists db2. split; [exact Hw|]. split_and!; [done| | |].
    + intros cf Hne. rewrite Hv2, decide_False by congruence. by apply Hf1.
    + intros k'. rewrite Hv2. cbn. intros [w [_ Hw']%lookup_delete_Some]. apply Hs1. eauto.
    + intros k' v'. rewrite Hv2, decide_True by done. cbn [apply_op]. rewrite elem_of_app, list_elem_of_singleton.
      destruct (decide (k = k')) as [->|Hne]; [by rewrite lookup_delete_eq|].
      rewrite lookup_delete_ne by done. intros [?|[= -> _]]; [by eapply Hd1|done].
  - split_and!; [done|done|done|]. intros k v []%elem_of_nil.
  - exists db'. split_and!; [exact Hi|done| |done]. apply map_eq. intros k. rewrite lookup_empty.
    destruct (cf_view db' "statistics" !! k) as [w|] eqn:E; [|done].
    destruct (Hsub k) as [v Hv]; [eauto|]. rewrite (Hdel k v) in E; [done|].
    apply list_elem_of_fmap_2, elem_of_sorted_entries, Hv.
Qed.
End statistics.

(** ** The whole migration *)
Section outcome.
Context `{RocksDBSpec} `{SemverLaws} `{Bincode OldHttp} `{Bincode NewHttp}.
Implicit Types (db : DB) (s : Data).

Definition current (d : DataDir) : DataDir := mk_dir true (Some CARGO_PKG_VERSION) true.
Definition at_version (d : DataDir) (v : Version) : Prop :=
  dir_exists d = true ∧ dir_writable d = true ∧
  ∃ text, dir_version d = Some text ∧ version_parse text = Ok v.

Lemma retrieve_at d v : at_version d v → retrieve_or_create_version d = (Ok v, d).
Proof.
  intros (He & _ & text & Ht & Hv). unfold retrieve_or_create_version, m_bind, create_dir.
  rewrite He, Ht. unfold m_gets, read_version_file. rewrite Ht. cbn. by rewrite Hv.
Qed.

Definition the_table : list (VersionReq * Version * M DB unit) :=
  [(req_0_10_12, release 0 12 0, migrate_0_10_to_0_12);
   (req_0_12_13, release 0 13 0, migrate_0_12_to_0_13_0)].

Lemma migration_table : migration = Ok the_table.
Proof.
  unfold migration, expect, map_err.
  by rewrite parse_req_0_10_12, parse_0_12_0, parse_req_0_12_13, parse_0_13_0.
Qed.

Lemma migrate_from s v :
  at_version (data_dir s) v →
  migrate_data_dir s =
    if req_matches req_compatible v then Some (Ok tt, s)
    else migrate_loop MIGRATION_FUEL the_table req_compatible v s.
Proof.
  intros Hv. unfold migrate_data_dir, expect, map_err. rewrite parse_compatible. unfold on_dir.
  rewrite (retrieve_at _ v Hv). destruct s as [db d]. cbn [data_db data_dir].
  case_match; [done|]. by rewrite migration_table.
Qed.

(** One round for a version below 0.13 *)
Lemma loop_to_0_13 fuel db d v db' :
  req_matches req_0_10_12 v = false → req_matches req_0_12_13 v = true →
  dir_exists d = true → dir_writable d = true →
  migrate_0_12_to_0_13_0 db = (Ok tt, db') →
  migrate_loop (S fuel) the_table req_compatible v (mk_data db d) =
    Some (Ok tt, mk_data db' (current d)).
Proof.
  intros H1' H2' He Hw Hm. unfold the_table. cbn [migrate_loop find_migration]. rewrite H1', H2'.
  unfold on_db. cbn [data_db data_dir]. rewrite Hm. rewrite matches_compatible.
  change (ver_between _ _ _) with true. cbn iota. unfold on_dir, create_version_file.
  cbn [data_db data_dir]. rewrite Hw, He. done.
Qed.

(** C19: A database of a release 0.10, 0.11 or 0.12 is brought to the current
    format: the HTTP events are converted when it is older than 0.12, all
    statistics are removed, every other column family stays, and VERSION holds
    the version of the program. *)
Theorem migration_upgrades s x y z :
  healthy (data_db s) → at_version (data_dir s) (release x y z) →
  ver_between (0, 10, 0) (0, 13, 0) (x, y, z) = true →
  let old := ver_between (0, 10, 0) (0, 12, 0) (x, y, z) in
  (old = true → all_convert (cf_view (data_db s) "http")) →
  ∃ db', migrate_data_dir s = Some (Ok tt, mk_data db' (current (data_dir s))) ∧
    cf_view db' "http" =
      (if old then omap convert (cf_view (data_db s) "http") else cf_view (data_db s) "http") ∧
    cf_view db' "statistics" = ∅ ∧
    ∀ cf, cf ≠ "http" → cf ≠ "statistics" → cf_view db' cf = cf_view (data_db s) cf.
Proof.
  intros Hh Hv Hr old Hconv. destruct s as [db d]. cbn [data_db data_dir] in *.
  rewrite (migrate_from (mk_data db d) (release x y z) Hv). rewrite matches_compatible.
  destruct Hv as (He & Hw & _).
  assert (ver_between (0, 13, 0) (0, 16, 0) (x, y, z) = false ∧
    (old = false → ver_between (0, 12, 0) (0, 13, 0) (x, y, z) = true)) as [-> H12].
  { split; [by eapply ver_between_disjoint|]. intros Hold.
    rewrite (ver_between_split 10 12 13) in Hr by lia. fold old in Hr. by rewrite Hold in Hr. }
  destruct old eqn:Hold; unfold MIGRATION_FUEL.
  - destruct (migrate_http_exact db Hh (Hconv eq_refl)) as (db1 & Hm1 & Hh1 & Hv1 & Hf1).
    destruct (migrate_statistics_exact db1 Hh1) as (db2 & Hm2 & Hh2 & Hv2 & Hf2).
    exists db2. split_and!; [|by rewrite Hf2 by done|done|intros; by rewrite Hf2, Hf1].
    unfold the_table at 1. cbn [migrate_loop find_migration]. rewrite matches_0_10_12. fold old. rewrite Hold.
    unfold on_db. cbn [data_db data_dir]. rewrite Hm1. rewrite matches_compatible.
    change (ver_between _ _ _) with false. cbn iota.
    apply (loop_to_0_13 1); [by rewrite matches_0_10_12|by rewrite matches_0_12_13|done|done|done].
  - destruct (migrate_statistics_exact db Hh) as (db2 & Hm2 & Hh2 & Hv2 & Hf2).
    exists db2. split_and!; [|by rewrite Hf2 by done|done|intros; by rewrite Hf2].
    apply (loop_to_0_13 2); [by rewrite matches_0_10_12|rewrite matches_0_12_13; by apply H12|done|done|done].
Qed.

(** A compatible version changes nothing, and neither does a release that
    is neither compatible nor among those that can be migrated: that is an
    error. *)
Theorem migration_leaves s x y z :
  at_version (data_dir s) (release x y z) →
  ver_between (0, 10, 0) (0, 13, 0) (x, y, z) = false →
  migrate_data_dir s =
    Some (if ver_between (0, 13, 0) (0, 16, 0) (x, y, z) then Ok tt
          else Err "migration is not supported", s).
Proof.
  intros Hv Hr. rewrite (migrate_from _ _ Hv), matches_compatible.
  destruct (ver_between (0, 13, 0) (0, 16, 0) (x, y, z)); [done|].
  unfold MIGRATION_FUEL, the_table. cbn [migrate_loop find_migration].
  rewrite matches_0_10_12, matches_0_12_13.
  assert (ver_between (0, 10, 0) (0, 12, 0) (x, y, z) = false ∧
    ver_between (0, 12, 0) (0, 13, 0) (x, y, z) = false) as [-> ->]; [|done].
  rewrite (ver_between_split 10 12 13) in Hr by lia. by apply orb_false_iff.
Qed.

(** A round that succeeds leads to the target of a migration of the table. *)
Lemma find_migration_target v to m :
  find_migration the_table v = Some (to, m) → to = release 0 12 0 ∨ to = release 0 13 0.
Proof.
  unfold the_table. cbn [find_migration].
  destruct (req_matches _ v); [intros [= <- _]; by left|].
  destruct (req_matches _ v); [intros [= <- _]; by right|done].
Qed.

Lemma loop_returns v s : ∃ r s', migrate_loop MIGRATION_FUEL the_table req_compatible v s = Some (r, s').
Proof.
  unfold MIGRATION_FUEL. cbn [migrate_loop].
  destruct (find_migration the_table v) as [[to m]|] eqn:Hf; [|eauto].
  destruct (on_db m s) as [[[]|e] s1]; [|eauto].
  apply find_migration_target in Hf as [-> | ->]; rewrite matches_compatible.
  - change (ver_between _ _ _) with false. cbn iota. unfold the_table at 1. cbn [find_migration].
    rewrite matches_0_10_12, matches_0_12_13.
    change (ver_between (0, 10, 0) _ _) with false. change (ver_between (0, 12, 0) _ _) with true.
    cbn iota. destruct (on_db _ s1) as [[[]|e] s2]; [|eauto].
    rewrite matches_compatible. change (ver_between _ _ _) with true. cbn iota.
    destruct (on_dir _ s2) as [r s3]. eauto.
  - change (ver_between _ _ _) with true. cbn iota. destruct (on_dir _ s1) as [r s2]. eauto.
Qed.

(** C40: The migration ends for every data directory and database, whatever
    fails on the way. *)
Theorem migration_terminates s : ∃ r s', migrate_data_dir s = Some (r, s').
Proof.
  unfold migrate_data_dir, expect, map_err. rewrite parse_compatible.
  destruct (on_dir _ s) as [[v|e] s1]; [|eauto].
  destruct (req_matches _ v); [eauto|]. rewrite migration_table. apply loop_returns.
Qed.

(** A new data directory gets the version of the program and needs no
    migration; a directory of the pre-release 0.13.0-alpha.1 is taken as
    compatible, and keeps its statistics, although the requirement of the
    migration that removes them names it. *)
Theorem migration_new_and_alpha db (d : DataDir) :
  at_version d alpha_1 →
  migrate_data_dir (mk_data db (mk_dir false None true)) =
    Some (Ok tt, mk_data db (current (mk_dir false None true))) ∧
  migrate_data_dir (mk_data db d) = Some (Ok tt, mk_data db d) ∧
  req_matches req_0_12_13 alpha_1 = true.
Proof.
  intros Hv. destruct matches_alpha_1 as [Hc Hm]. split_and!; [| |done].
  - unfold migrate_data_dir, expect, map_err. rewrite parse_compatible.
    unfold on_dir, retrieve_or_create_version, m_bind, create_dir, create_version_file, m_gets,
      read_version_file. cbn. rewrite parse_current. cbn. by rewrite matches_compatible.
  - by rewrite (migrate_from (mk_data db d) alpha_1 Hv), Hc.
Qed.
End outcome.

(** ** Instances and concrete data *)

(** A version is a release, or the pre-release; a requirement is a range of
    minor versions. *)
#[export] Instance demo_semver : Semver := {|
  Version := option (Z * Z * Z);
  VersionReq := Z * Z;
  version_parse s :=
    if decide (s = "0.11.0") then Ok (Some (0, 11, 0))
    else if decide (s = "0.12.0") then Ok (Some (0, 12, 0))
    else if decide (s = "0.13.0") then Ok (Some (0, 13, 0))
    else if decide (s = "0.15.3") then Ok (Some (0, 15, 3))
    else if decide (s = "0.9.0") then Ok (Some (0, 9, 0))
    else if decide (s = "0.13.0-alpha.1") then Ok None
    else Err "unexpected character";
  req_parse s :=
    if decide (s = COMPATIBLE_VERSION_REQ) then Ok (13, 16)
    else if decide (s = ">=0.10.0,<0.12.0") then Ok (10, 12)
    else if decide (s = ">=0.12.0,<=0.13.0-alpha.1") then Ok (12, 13)
    else Err "unexpected character";
  req_matches r v :=
    match v with
    | Some v => ver_between (0, r.1, 0) (0, r.2, 0) v
    | None => (r.1 =? 12) || (r.1 =? 13)
    end |}.

#[export] Program Instance demo_semver_laws : SemverLaws := {|
  release x y z := Some (x, y, z);
  alpha_1 := None;
  req_compatible := (13, 16);
  req_0_10_12 := (10, 12);
  req_0_12_13 := (12, 13);
|}.
Solve All Obligations with done.

(** HTTP events of which one is known to the encoding *)
Definition demo_old_http : OldHttp :=
  OldHttp.mk (V4 3232236620) 46378 (V4 3232236620) 80 17 1 "POST" "einsis" "/einsis.gif"
    "einsis.com" "" "giganto" 0 0 200 "" "" "" "" "" "" "".

#[export] Instance OldHttp_eq_dec : EqDecision OldHttp.
Proof. solve_decision. Defined.

Definition old_part (n : NewHttp) : OldHttp :=
  OldHttp.mk (NewHttp.orig_addr n) (NewHttp.orig_port n) (NewHttp.resp_addr n)
    (NewHttp.resp_port n) (NewHttp.proto n) (NewHttp.last_time n) (NewHttp.method n)
    (NewHttp.host n) (NewHttp.uri n) (NewHttp.referrer n) (NewHttp.version n)
    (NewHttp.user_agent n) (NewHttp.request_len n) (NewHttp.response_len n)
    (NewHttp.status_code n) (NewHttp.status_msg n) (NewHttp.username n) (NewHttp.password n)
    (NewHttp.cookie n) (NewHttp.content_encoding n) (NewHttp.content_type n)
    (NewHttp.cache_control n).

#[local] Instance demo_old_bincode : Bincode OldHttp := {|
  bincode_serialize o := if decide (o = demo_old_http) then Ok [Byte.x01] else Err "unknown";
  bincode_deserialize b :=
    match b with Byte.x01 :: _ => Ok demo_old_http | _ => Err "unexpected end of file" end |}.
#[local] Instance demo_new_bincode : Bincode NewHttp := {|
  bincode_serialize n := if decide (old_part n = demo_old_http) then Ok [Byte.x01; Byte.x02] else Err "unknown";
  bincode_deserialize b := Err "not used" |}.
#[local] Instance demo_http_laws : HttpCodecLaws.
Proof.
  intros o b. cbn. destruct (decide _) as [Ho|]; [|done]. intros [= <-]. cbn. rewrite <- Ho.
  by destruct o.
Qed.

(** The demonstration database with one HTTP event of the old format *)
Definition http_db : @DB mem_rocksdb :=
  (<["http" := {[ event_key "src1" None 7 := [Byte.x01] ]}]> (demo_db : Mem.db) : Mem.db).
Lemma http_db_healthy : healthy http_db.
Proof.
  split; [done|]. intros name Hn. apply bool_decide_eq_true_2. unfold http_db.
  rewrite lookup_insert_is_Some'. right.
  pose proof (proj2 demo_healthy name Hn) as Hd. apply bool_decide_eq_true_1 in Hd. exact Hd.
Qed.
Lemma http_db_converts : all_convert (cf_view http_db "http").
Proof.
  intros k v. unfold http_db. cbn. unfold Mem.view. rewrite lookup_insert_eq. cbn.
  intros [_ <-]%lookup_singleton_Some. by eexists.
Qed.

Definition dir_at (version : string) : DataDir := mk_dir true (Some version) true.

Lemma migrate_http_exact_witness :
  ∃ db', migrate_0_10_to_0_12 http_db = (Ok tt, db') ∧
    cf_view db' "http" = omap convert (cf_view http_db "http").
Proof.
  destruct (migrate_http_exact http_db http_db_healthy http_db_converts) as (db' & Hm & _ & Hv & _).
  exists db'. split; [exact Hm|exact Hv].
Defined.

Lemma migration_restart_witness :
  ∃ db1 db2, migrate_0_10_to_0_12 db1 = (Ok tt, db2) ∧
    cf_view db2 "http" = omap convert (cf_view http_db "http").
Proof.
  destruct (migration_restart http_db 1 http_db_healthy http_db_converts)
    as (db1 & db2 & _ & Hm & Hv & _).
  exists db1, db2. split; [exact Hm|exact Hv].
Defined.

Lemma migration_upgrades_witness :
  ∃ db', migrate_data_dir (mk_data http_db (dir_at "0.11.0")) =
      Some (Ok tt, mk_data db' (dir_at CARGO_PKG_VERSION)) ∧
    cf_view db' "http" = omap convert (cf_view http_db "http") ∧ cf_view db' "statistics" = ∅.
Proof.
  destruct (migration_upgrades (mk_data http_db (dir_at "0.11.0")) 0 11 0) as (db' & Hm & Hh & Hs & _);
    [exact http_db_healthy|split_and!; [reflexivity|reflexivity|by exists "0.11.0"]|reflexivity
    |intros _; exact http_db_converts|].
  exists db'. split; [exact Hm|]. split; [exact Hh|exact Hs].
Defined.

Lemma migration_leaves_witness :
  migrate_data_dir (mk_data http_db (dir_at "0.9.0")) =
    Some (Err "migration is not supported", mk_data http_db (dir_at "0.9.0")).
Proof.
  apply (migration_leaves (mk_data http_db (dir_at "0.9.0")) 0 9 0);
    [split_and!; [reflexivity|reflexivity|by exists "0.9.0"]|reflexivity].
Defined.

Lemma migration_new_and_alpha_witness :
  migrate_data_dir (mk_data http_db (dir_at "0.13.0-alpha.1")) =
    Some (Ok tt, mk_data http_db (dir_at "0.13.0-alpha.1")).
Proof.
  destruct (migration_new_and_alpha http_db (dir_at "0.13.0-alpha.1")) as (_ & Hm & _);
    [split_and!; [reflexivity|reflexivity|by exists "0.13.0-alpha.1"]|exact Hm].
Defined.
