(* ===== verification/Resolvers.v ===== *)
(** * The resolvers of the GraphQL queries (src/src/graphql/)

    Every query over one store hands its arguments to [load_connection]; every
    search looks up the given time stamps.  Also here: the node types of the
    log, packet, time-series and security queries, the list of sources, and
    the packet dump. *)

From Stdlib Require Import ZArith Lia.
From Stdlib Require Import Floats.SpecFloat.
From S2P Require Import Prelude Bytes Externals StorageKey NetAddr GigantoClient Events Filters.
From S2P Require Import Storage Pagination Nodes.

(** [async_graphql::connection::query]: checks the page arguments, which GraphQL
    gives as signed integers, and calls the closure. *)
Class ConnectionQuery := {
  query : ∀ {A : Type}, option string → option string → option Z → option Z →
    (option string → option string → option nat → option nat → result A) → result A;
}.
Definition valid_count (n : option Z) : bool := match n with Some n => 0 <=? n | None => true end.
Class ConnectionQueryLaws `{ConnectionQuery} : Prop := {
  query_ok {A : Type} after before first last (f : _ → _ → _ → _ → result A) :
    valid_count first = true → valid_count last = true → (first = None ∨ last = None) →
    query after before first last f = f after before (Z.to_nat <$> first) (Z.to_nat <$> last);
  query_negative {A : Type} after before first last (f : _ → _ → _ → _ → result A) :
    valid_count first && valid_count last = false → ∃ e, query after before first last f = Err e;
}.

Section resolvers.
Context `{RocksDB} `{Chrono} `{Base64} `{Client} `{ConnectionQuery} `{Unicode} `{Codecs}.

(** ** Queries over one store *)
Definition raw_events {F T N} `{!RawEventFilter F} `{!KeyExtractor F} `{!Bincode T} `{!EventFilter T}
    `{!FromKeyValue N T} (store : DB → result (RawEventStore T)) (filter : F)
    (after before : option string) (first last : option Z) (db : DB) :
    result (Pagination.Connection N) :=
  st ← store db;
  query after before first last (λ after before first last,
    load_connection st filter after before first last db).

(** *** NetworkQuery, SysmonQuery: the filter is a [NetworkFilter] *)
Definition conn_raw_events := raw_events (F := NetworkFilter) (N := ConnRawEvent.t) conn_store.
Definition dns_raw_events := raw_events (F := NetworkFilter) (N := DnsRawEvent.t) dns_store.
Definition http_raw_events := raw_events (F := NetworkFilter) (N := HttpRawEvent.t) http_store.
Definition rdp_raw_events := raw_events (F := NetworkFilter) (N := RdpRawEvent.t) rdp_store.
Definition smtp_raw_events := raw_events (F := NetworkFilter) (N := SmtpRawEvent.t) smtp_store.
Definition ntlm_raw_events := raw_events (F := NetworkFilter) (N := NtlmRawEvent.t) ntlm_store.
Definition kerberos_raw_events := raw_events (F := NetworkFilter) (N := KerberosRawEvent.t) kerberos_store.
Definition ssh_raw_events := raw_events (F := NetworkFilter) (N := SshRawEvent.t) ssh_store.
Definition dce_rpc_raw_events := raw_events (F := NetworkFilter) (N := DceRpcRawEvent.t) dce_rpc_store.
Definition ftp_raw_events := raw_events (F := NetworkFilter) (N := FtpRawEvent.t) ftp_store.
Definition mqtt_raw_events := raw_events (F := NetworkFilter) (N := MqttRawEvent.t) mqtt_store.
Definition ldap_raw_events := raw_events (F := NetworkFilter) (N := LdapRawEvent.t) ldap_store.
Definition tls_raw_events := raw_events (F := NetworkFilter) (N := TlsRawEvent.t) tls_store.
Definition smb_raw_events := raw_events (F := NetworkFilter) (N := SmbRawEvent.t) smb_store.
Definition nfs_raw_events := raw_events (F := NetworkFilter) (N := NfsRawEvent.t) nfs_store.
Definition netflow5_raw_events := raw_events (F := NetworkFilter) (N := Netflow5RawEvent.t) netflow5_store.
Definition netflow9_raw_events := raw_events (F := NetworkFilter) (N := NetflowV9RawEvent.t) netflow9_store.
Definition process_create_events := raw_events (F := NetworkFilter) (N := ProcessCreateEvent.t) process_create_store.
Definition file_create_time_events := raw_events (F := NetworkFilter) (N := FileCreationTimeChangedEvent.t) file_create_time_store.
Definition network_connect_events := raw_events (F := NetworkFilter) (N := NetworkConnectionEvent.t) network_connect_store.
Definition process_terminate_events := raw_events (F := NetworkFilter) (N := ProcessTerminatedEvent.t) process_terminate_store.
Definition image_load_events := raw_events (F := NetworkFilter) (N := ImageLoadedEvent.t) image_load_store.
Definition file_create_events := raw_events (F := NetworkFilter) (N := FileCreateEvent.t) file_create_store.
Definition registry_value_set_events := raw_events (F := NetworkFilter) (N := RegistryValueSetEvent.t) registry_value_set_store.
Definition registry_key_rename_events := raw_events (F := NetworkFilter) (N := RegistryKeyValueRenameEvent.t) registry_key_rename_store.
Definition file_create_stream_hash_events := raw_events (F := NetworkFilter) (N := FileCreateStreamHashEvent.t) file_create_stream_hash_store.
Definition pipe_event_events := raw_events (F := NetworkFilter) (N := PipeEventEvent.t) pipe_event_store.
Definition dns_query_events := raw_events (F := NetworkFilter) (N := DnsEventEvent.t) dns_query_store.
Definition file_delete_events := raw_events (F := NetworkFilter) (N := FileDeleteEvent.t) file_delete_store.
Definition process_tamper_events := raw_events (F := NetworkFilter) (N := ProcessTamperingEvent.t) process_tamper_store.
Definition file_delete_detected_events := raw_events (F := NetworkFilter) (N := FileDeleteDetectedEvent.t) file_delete_detected_store.

(** ** Searches *)

(** [BTreeSet<(DateTime<Utc>, Vec<u8>)>]: in order, without duplicates *)
Definition pair_cmp (a b : DateTime * bytes) : comparison :=
  match dt_cmp a.1 b.1 with Eq => bytes_cmp a.2 b.2 | c => c end.
Fixpoint btree_insert (x : DateTime * bytes) (l : list (DateTime * bytes)) :
    list (DateTime * bytes) :=
  match l with
  | [] => [x]
  | y :: l' =>
      match pair_cmp x y with
      | Lt => x :: l
      | Eq => l
      | Gt => y :: btree_insert x l'
      end
  end.
Definition btree_set (l : list (DateTime * bytes)) : list (DateTime * bytes) :=
  foldl (λ s x, btree_insert x s) [] l.

Definition search_events {T} `{!Bincode T} `{!EventFilter T} (store : DB → result (RawEventStore T))
    (filter : SearchFilter) (db : DB) : result (list DateTime) :=
  st ← store db;
  let exist_data := btree_set
    (multi_get_from_ts st (SearchFilter.source filter) (SearchFilter.timestamps filter) db) in
  Ok (collect_exist_timestamp (T := T) exist_data filter).

Definition search_conn_raw_events := search_events (T := Conn) conn_store.
Definition search_dns_raw_events := search_events (T := Dns) dns_store.
Definition search_http_raw_events := search_events (T := Http) http_store.
Definition search_rdp_raw_events := search_events (T := Rdp) rdp_store.
Definition search_smtp_raw_events := search_events (T := Smtp) smtp_store.
Definition search_ntlm_raw_events := search_events (T := Ntlm) ntlm_store.
Definition search_kerberos_raw_events := search_events (T := Kerberos) kerberos_store.
Definition search_ssh_raw_events := search_events (T := Ssh) ssh_store.
Definition search_dce_rpc_raw_events := search_events (T := DceRpc) dce_rpc_store.
Definition search_ftp_raw_events := search_events (T := Ftp) ftp_store.
Definition search_mqtt_raw_events := search_events (T := Mqtt) mqtt_store.
Definition search_ldap_raw_events := search_events (T := Ldap) ldap_store.
Definition search_tls_raw_events := search_events (T := Tls) tls_store.
Definition search_smb_raw_events := search_events (T := Smb) smb_store.
Definition search_nfs_raw_events := search_events (T := Nfs) nfs_store.
Definition search_netflow5_raw_events := search_events (T := Netflow5) netflow5_store.
Definition search_netflow9_raw_events := search_events (T := Netflow9) netflow9_store.
Definition search_process_create_events := search_events (T := ProcessCreate) process_create_store.
Definition search_file_create_time_events := search_events (T := FileCreationTimeChanged) file_create_time_store.
Definition search_network_connect_events := search_events (T := NetworkConnection) network_connect_store.
Definition search_process_terminate_events := search_events (T := ProcessTerminated) process_terminate_store.
Definition search_image_load_events := search_events (T := ImageLoaded) image_load_store.
Definition search_file_create_events := search_events (T := FileCreate) file_create_store.
Definition search_registry_value_set_events := search_events (T := RegistryValueSet) registry_value_set_store.
Definition search_registry_key_rename_events := search_events (T := RegistryKeyValueRename) registry_key_rename_store.
Definition search_file_create_stream_hash_events := search_events (T := FileCreateStreamHash) file_create_stream_hash_store.
Definition search_pipe_event_events := search_events (T := PipeEvent) pipe_event_store.
Definition search_dns_query_events := search_events (T := DnsEvent) dns_query_store.
Definition search_file_delete_events := search_events (T := FileDelete) file_delete_store.
Definition search_process_tamper_events := search_events (T := ProcessTampering) process_tamper_store.
Definition search_file_delete_detected_events := search_events (T := FileDeleteDetected) file_delete_detected_store.
End resolvers.

(** ** LogQuery *)
Module LogRawEvent.
Record t `{Chrono} := mk { timestamp : DateTime; log : string }.
#[export] Instance convert `{Chrono} `{Base64} : FromKeyValue t Log := λ k l,
  timestamp ← get_timestamp_from_key k;
  Ok (mk _ timestamp (base64_encode (Log.log l))).
End LogRawEvent.
Export (hints) LogRawEvent.

(** The derived [Debug] of [OpLogLevel] *)
Definition level_debug (l : OpLogLevel) : string :=
  match l with Info => "Info" | Warn => "Warn" | Error => "Error" end.

Module OpLogRawEvent.
Record t `{Chrono} := mk { timestamp : DateTime; level : string; contents : string }.
#[export] Instance convert `{Chrono} : FromKeyValue t OpLog := λ k l,
  timestamp ← get_timestamp_from_key k;
  Ok (mk _ timestamp (level_debug (OpLog.log_level l)) (OpLog.contents l)).
End OpLogRawEvent.
Export (hints) OpLogRawEvent.

(** ** SecurityLogQuery *)
Module SecuLogRawEvent.
Record t `{Chrono} := mk {
  timestamp : DateTime; source : string; log_type : string; version : string;
  orig_addr : option string; orig_port : option Z; resp_addr : option string;
  resp_port : option Z; proto : option Z; contents : string }.
#[export] Instance convert `{Chrono} : FromKeyValue t SecuLog := λ k sl,
  timestamp ← get_timestamp_from_key k;
  Ok (mk _ timestamp (SecuLog.source sl) (SecuLog.log_type sl) (SecuLog.version sl)
    (ip_to_string <$> SecuLog.orig_addr sl) (SecuLog.orig_port sl)
    (ip_to_string <$> SecuLog.resp_addr sl) (SecuLog.resp_port sl)
    (SecuLog.proto sl) (SecuLog.contents sl)).
End SecuLogRawEvent.
Export (hints) SecuLogRawEvent.

(** ** TimeSeriesQuery *)
Module TimeSeries.
Record t `{Chrono} := mk { start : DateTime; id : string; data : list spec_float }.
#[export] Instance convert `{Chrono} : FromKeyValue t PeriodicTimeSeries := λ k p,
  start ← get_timestamp_from_key k;
  Ok (mk _ start (PeriodicTimeSeries.id p) (PeriodicTimeSeries.data p)).
End TimeSeries.
Export (hints) TimeSeries.

(** ** PacketQuery *)
Module PacketNode.
Record t `{Chrono} := mk { request_time : DateTime; packet_time : DateTime; packet : string }.
(** The key is [source NUL request-time NUL packet-time]; slicing a shorter one
    panics. *)
#[export] Instance convert `{Chrono} `{Base64} : FromKeyValue t Packet := λ k pk,
  if (length k <? TIMESTAMP_SIZE + 1)%nat then Err "attempt to subtract with overflow"
  else
    request_time ← get_timestamp_from_key (take (length k - (TIMESTAMP_SIZE + 1)) k);
    packet_time ← get_timestamp_from_key k;
    Ok (mk _ request_time packet_time (base64_encode (Packet.packet pk))).
End PacketNode.
Export (hints) PacketNode.

Definition A_BILLION : Z := 1000000000.

(** A record of the capture file: [PacketHeader] with its [timeval], and the data *)
Record PcapRecord := mk_pcap { tv_sec : Z; tv_usec : Z; caplen : Z; pcap_data : bytes }.

(** [u32::try_from(len).unwrap_or_default()]; [/] on [i64] truncates. *)
Definition pcap_record (p : Packet) : PcapRecord :=
  let len := Z.of_nat (length (Packet.packet p)) in
  mk_pcap (Z.quot (Packet.packet_timestamp p) A_BILLION)
    (Z.land (Packet.packet_timestamp p) A_BILLION)
    (if len <? 2 ^ 32 then len else 0) (Packet.packet p).

(** The program tcpdump on a capture file *)
Class Tcpdump := tcpdump : list PcapRecord → result bytes.

Definition write_run_tcpdump `{Tcpdump} (packets : list Packet) : result string :=
  output ← tcpdump (pcap_record <$> packets);
  Ok (String.string_of_list_byte (from_utf8_lossy output)).

Record Pcap `{Chrono} := mk_pcap_result { pcap_request_time : DateTime; parsed_pcap : string }.

(** ** SourceQuery *)

(** [String::from_utf8]: bytes are valid if nothing has to be replaced. *)
Definition string_from_utf8 (b : bytes) : result string :=
  if decide (from_utf8_lossy b = b) then Ok (String.string_of_list_byte b) else Err "from utf8".

Fixpoint collect_results {A} (l : list (result A)) : result (list A) :=
  match l with
  | [] => Ok []
  | r :: l => x ← r; xs ← collect_results l; Ok (x :: xs)
  end.

Section other.
Context `{RocksDB} `{Chrono} `{Base64} `{Client} `{ConnectionQuery} `{Codecs}.

Definition log_raw_events (filter : LogFilter) (after before : option string)
    (first last : option Z) (db : DB) : result (Pagination.Connection LogRawEvent.t) :=
  match LogFilter.kind filter with
  | None => Err "log query failed: kind is required"
  | Some _ => raw_events log_store filter after before first last db
  end.

Definition op_log_raw_events :=
  raw_events (F := OpLogFilter) (N := OpLogRawEvent.t) op_log_store.
Definition secu_log_raw_events :=
  raw_events (F := SecuLogFilter) (N := SecuLogRawEvent.t) secu_log_store.
Definition periodic_time_series :=
  raw_events (F := TimeSeriesFilter) (N := TimeSeries.t) periodic_time_series_store.
Definition packets := raw_events (F := PacketFilter) (N := PacketNode.t) packet_store.

(** The most packets of a dump *)
Definition PCAP_SIZE : nat := 1000.

Definition pcap `{Tcpdump} (filter : PacketFilter) (db : DB) : result Pcap :=
  st ← packet_store db;
  let key_builder := search_builder filter in
  let from_key := lower_key key_builder (get_range_end_key filter).1 in
  let to_key := upper_key key_builder (get_range_end_key filter).2 in
  let iter := boundary_iter st from_key to_key Forward db in
  let '(records, _) := collect_records (drain iter) PCAP_SIZE filter in
  dump ← write_run_tcpdump records.*2;
  Ok (mk_pcap_result _ (PacketFilter.request_time filter) dump).

Definition sources (db : DB) : result (list string) :=
  source_store ← sources_store db;
  collect_results (string_from_utf8 <$> source_names source_store db).
End other.
