(* ===== verification/ResolversSpec.v ===== *)
(** * What the searches and the other queries return

    A search returns, in order and once each, exactly those of the given time
    stamps at which a matching event is stored; a stored packet is shown with
    the times it was ingested with; the list of sources. *)

From Stdlib Require Import ZArith Lia.
From S2P Require Import Prelude Bytes Externals StorageKey NetAddr GigantoClient Events Filters.
From S2P Require Import Storage StorageSpec Pagination Nodes Resolvers Ingest Demo.

(** ** Ordered sets of time stamps *)
Fixpoint z_insert (x : Z) (l : list Z) : list Z :=
  match l with
  | [] => [x]
  | y :: l' =>
      match x ?= y with
      | Lt => x :: l
      | Eq => l
      | Gt => y :: z_insert x l'
      end
  end.
Definition z_set (l : list Z) : list Z := foldl (λ s x, z_insert x s) [] l.

Lemma elem_of_z_insert x y l : y ∈ z_insert x l ↔ y = x ∨ y ∈ l.
Proof.
  induction l as [|z l IH]; cbn [z_insert]; [set_solver|].
  destruct (Z.compare_spec x z) as [->| |]; rewrite ?elem_of_cons, ?IH; tauto.
Qed.

Lemma z_insert_sorted x l : StronglySorted Z.lt l → StronglySorted Z.lt (z_insert x l).
Proof.
  induction 1 as [|z l Hs IH Hz]; cbn [z_insert]; [by repeat constructor|].
  destruct (Z.compare_spec x z) as [->|Hlt|Hgt].
  - by constructor.
  - constructor; [by constructor|]. constructor; [done|].
    eapply Forall_impl; [exact Hz|]. intros y Hy. cbn in Hy. lia.
  - constructor; [done|]. apply Forall_forall. intros y [->|Hy]%elem_of_z_insert; [done|].
    rewrite Forall_forall in Hz. by apply Hz.
Qed.

Lemma z_set_spec l : StronglySorted Z.lt (z_set l) ∧ ∀ n, n ∈ z_set l ↔ n ∈ l.
Proof.
  unfold z_set.
  assert (∀ s, StronglySorted Z.lt s →
    StronglySorted Z.lt (foldl (λ s x, z_insert x s) s l) ∧
    ∀ n, n ∈ foldl (λ s x, z_insert x s) s l ↔ n ∈ l ∨ n ∈ s) as Hgen.
  { induction l as [|x l IH]; intros s Hs; cbn [foldl].
    - split; [done|]. set_solver.
    - destruct (IH (z_insert x s)) as [H1 H2]; [by apply z_insert_sorted|].
      split; [done|]. intros n. rewrite H2, elem_of_z_insert, elem_of_cons. tauto. }
  destruct (Hgen []) as [H1 H2]; [constructor|]. split; [done|]. intros n. rewrite H2. set_solver.
Qed.

Section search.
Context `{RocksDBSpec} `{ChronoLaws} `{Unicode} {T : Type} `{!Bincode T} `{!EventFilter T}.

(** The entries of distinct times in the order of the times *)
Lemma btree_set_times (val : Z → bytes) (ns : list Z) :
  Forall is_i64 ns →
  btree_set ((λ n, (timestamp_nanos n, val n)) <$> ns) =
  (λ n, (timestamp_nanos n, val n)) <$> z_set ns.
Proof.
  intros Hns. unfold btree_set, z_set. set (f := λ n, (timestamp_nanos n, val n)).
  assert (∀ x l, is_i64 x → Forall is_i64 l → btree_insert (f x) (f <$> l) = f <$> z_insert x l) as Hins.
  { intros x l Hx. induction 1 as [|y l Hy Hl IH]; [done|]. rewrite fmap_cons. cbn [btree_insert z_insert].
    unfold pair_cmp, f at 1 2. cbn [fst snd]. rewrite dt_cmp_nanos by done.
    destruct (Z.compare_spec x y) as [->| |]; [by rewrite bytes_cmp_refl|done|].
    by rewrite IH. }
  assert (∀ x l, is_i64 x → Forall is_i64 l → Forall is_i64 (z_insert x l)) as Hall.
  { intros x l Hx Hl. apply Forall_forall. intros y [->|Hy]%elem_of_z_insert; [done|].
    rewrite Forall_forall in Hl. by apply Hl. }
  change [] with (f <$> []) at 1.
  assert (Forall is_i64 []) as Hnil by constructor. revert Hnil. generalize (@nil Z).
  induction Hns as [|x ns Hx Hns IH]; intros s Hs; [done|].
  rewrite fmap_cons. cbn [foldl]. rewrite Hins by done. apply IH. by apply Hall.
Qed.

Context (store : RawEventStore T) (filter : SearchFilter).

Notation stored db n := (cf_view db (store_cf store) !! event_key (SearchFilter.source filter) None n).

(** The window of the filter, [start <= time < end] *)
Definition in_window (n : Z) : Prop :=
  dt_leb (time_range (SearchFilter.time filter)).1 (timestamp_nanos n) = true ∧
  dt_ltb (timestamp_nanos n) (time_range (SearchFilter.time filter)).2 = true.

Lemma multi_get_times db (ns : list Z) :
  io_ok db → cf_handle db (store_cf store) = true → Forall is_i64 ns →
  multi_get_from_ts store (SearchFilter.source filter) (timestamp_nanos <$> ns) db =
  (λ n, (timestamp_nanos n, default [] (stored db n))) <$>
    base.filter (λ n, is_Some (stored db n)) ns.
Proof.
  intros Hio Hcf. unfold multi_get_from_ts.
  induction 1 as [|n ns Hn Hns IH]; [done|]. rewrite fmap_cons. cbn [omap list_omap].
  unfold nanos_or_max at 1. rewrite timestamp_nanos_opt_nanos by done. cbn [default].
  unfold get_value at 1. rewrite get_io by done. cbn [result_ok mbind option_bind].
  change (key (builder |> start_key (SearchFilter.source filter) |> end_key (id n) |> build))
    with (event_key (SearchFilter.source filter) None n).
  rewrite filter_cons. unfold id. destruct (stored db n) as [v|] eqn:Hv.
  - rewrite decide_True by done. rewrite fmap_cons. cbn [fmap option_fmap option_map]. rewrite Hv.
    by f_equal.
  - rewrite decide_False by (intros [? ?]; done). cbn [fmap option_fmap option_map]. apply IH.
Qed.

(** C28: On a healthy database a search returns, in ascending order and once
    each, exactly those of the given time stamps at which the source has a
    stored event that decodes, lies in the time window and passes the
    filter. *)
Theorem search_exact (ns : list Z) db :
  healthy db → store_cf store ∈ RAW_DATA_COLUMN_FAMILY_NAMES ++ META_DATA_COLUMN_FAMILY_NAMES →
  Forall is_i64 ns → SearchFilter.timestamps filter = timestamp_nanos <$> ns →
  ∃ ms, search_events (λ _, Ok store) filter db = Ok (timestamp_nanos <$> ms) ∧
    StronglySorted Z.lt ms ∧
    ∀ n, n ∈ ms ↔ n ∈ ns ∧ in_window n ∧
      ∃ v x, stored db n = Some v ∧ bincode_deserialize v = Ok x ∧ check_event filter x = Ok true.
Proof.
  intros [Hio Hop] Hcf Hns Hts.
  set (hit := λ n, ∃ v x, stored db n = Some v ∧ bincode_deserialize (T := T) v = Ok x ∧
    check_event filter x = Ok true).
  assert (∀ n, Decision (in_window n ∧ hit n)) as Hdec.
  { intros n. apply and_dec; [unfold in_window; apply _|]. unfold hit.
    destruct (stored db n) as [v|]; [|right; naive_solver].
    destruct (bincode_deserialize v) as [x|e] eqn:Hx; [|right; naive_solver congruence].
    destruct (check_event filter x) as [[]|] eqn:Hc;
      [left; naive_solver|right; naive_solver congruence|right; naive_solver congruence]. }
  set (zs := z_set (base.filter (λ n, is_Some (stored db n)) ns)).
  destruct (z_set_spec (base.filter (λ n, is_Some (stored db n)) ns)) as [Hsorted Hin]. fold zs in Hsorted, Hin.
  exists (base.filter (λ n, in_window n ∧ hit n) zs). split_and!.
  - unfold search_events. cbn [mbind result_bind]. rewrite Hts, multi_get_times by auto.
    rewrite (btree_set_times (λ n, default [] (stored db n))) by (apply Forall_forall;
      intros x [_ Hx]%list_elem_of_filter; rewrite Forall_forall in Hns; by apply Hns).
    fold zs. f_equal. unfold collect_exist_timestamp.
    destruct (time_range (SearchFilter.time filter)) as [start end_] eqn:Hw.
    assert (∀ n, n ∈ zs → is_Some (stored db n)) as Hst.
    { intros n Hn%Hin. by apply list_elem_of_filter in Hn as [? _]. }
    clear Hin Hsorted. induction zs as [|n zs' IH]; [done|].
    rewrite fmap_cons. cbn [omap list_omap]. rewrite filter_cons.
    destruct (Hst n) as [v Hv]; [left|]. rewrite Hv. cbn [default].
    rewrite IH by (intros m Hm; apply Hst; by right).
    assert (in_window n ↔ dt_leb start (timestamp_nanos n) && dt_ltb (timestamp_nanos n) end_ = true) as Hiw.
    { unfold in_window. rewrite Hw. cbn [fst snd]. by rewrite andb_true_iff. }
    destruct (decide (in_window n ∧ hit n)) as [[Hn (v' & x & Hv' & Hx & Hc)]|Hn].
    + assert (v' = v) as -> by congruence. cbn [id]. rewrite Hx. apply Hiw in Hn as ->. by rewrite Hc.
    + cbn [id]. destruct (bincode_deserialize v) as [x|] eqn:Hx; [|done].
      destruct (dt_leb start _ && _) eqn:Hd; [|done].
      destruct (check_event filter x) as [[]|] eqn:Hc; [|done..]. exfalso. apply Hn.
      split; [by apply Hiw|]. exists v, x. done.
  - by apply sorted_filter.
  - intros n. rewrite list_elem_of_filter, Hin, list_elem_of_filter. split; [tauto|].
    intros (Hn & Hiw & Hh). split_and!; [done|done| |done]. destruct Hh as (v & ? & ? & _). by exists v.
Qed.
End search.

(** ** Packets *)
Section packets.
Context `{ChronoLaws} `{Base64Laws} `{Bincode Log} `{Bincode PeriodicTimeSeries} `{Bincode OpLog}
  `{Bincode Packet} `{Bincode Statistics} `{Bincode SecuLog}.

(** A packet stored by the ingest service under the time of the request that
    captured it is shown by the packets query with that request time, the time
    of the packet and its bytes in base64. *)
Theorem packet_shown_as_ingested source request raw pk k value :
  bincode_deserialize raw = Ok pk → is_i64 request → is_i64 (Packet.packet_timestamp pk) →
  storage_key RawEventKind.Packet source request raw = Ok (k, value) →
  value = raw ∧
  ∃ node, from_key_value k pk = Ok node ∧
    PacketNode.request_time node = timestamp_nanos request ∧
    PacketNode.packet_time node = timestamp_nanos (Packet.packet_timestamp pk) ∧
    base64_decode (PacketNode.packet node) = Ok (Packet.packet pk).
Proof.
  intros Hpk Hreq Hts. unfold storage_key. rewrite Hpk. cbn [mbind result_bind fst snd].
  intros Hk. assert (k = event_key source (Some (i64_to_be_bytes request))
    (Packet.packet_timestamp pk) ∧ value = raw) as [-> ->] by (by injection Hk as <- <-).
  split; [done|].
  pose proof (length_i64_to_be_bytes (Packet.packet_timestamp pk)) as Hlen.
  rewrite event_key_eq, key_prefix_eq.
  set (p := as_bytes source ++ [Byte.x00] ++ i64_to_be_bytes request).
  replace (as_bytes source ++ [Byte.x00] ++ i64_to_be_bytes request ++ [Byte.x00])
    with (p ++ [Byte.x00]) by (unfold p; by rewrite <- !app_assoc).
  unfold from_key_value, PacketNode.convert.
  rewrite !length_app, Hlen. cbn [length].
  destruct (Nat.ltb_spec (length p + 1 + 8) (TIMESTAMP_SIZE + 1)) as [Hlt|_];
    [unfold TIMESTAMP_SIZE in Hlt; lia|].
  replace (length p + 1 + 8 - (TIMESTAMP_SIZE + 1))%nat with (length p) by (unfold TIMESTAMP_SIZE; lia).
  rewrite get_timestamp_prefix by (done || by destruct p).
  rewrite <- app_assoc, take_app_length. unfold p. rewrite app_assoc.
  rewrite get_timestamp_prefix by (done || by destruct (as_bytes source)).
  cbn [mbind result_bind]. eexists. split; [done|]. cbn. split_and!; [done|done|apply base64_roundtrip].
Qed.

(** The key of a security log has no source: two sources that report a log of one
    kind at the same time share it. *)
Lemma secu_log_keys_collide kind t source1 source2 raw1 raw2 log1 log2 k1 v1 k2 v2 :
  bincode_deserialize raw1 = Ok log1 → bincode_deserialize raw2 = Ok log2 →
  SecuLog.kind log1 = kind → SecuLog.kind log2 = kind →
  storage_key RawEventKind.SecuLog source1 t raw1 = Ok (k1, v1) →
  storage_key RawEventKind.SecuLog source2 t raw2 = Ok (k2, v2) → k1 = k2.
Proof.
  unfold storage_key. intros -> -> Hk1 Hk2. cbn [mbind result_bind].
  destruct (bincode_serialize (with_source source1 log1)); [|done].
  destruct (bincode_serialize (with_source source2 log2)); [|done]. cbn [mbind result_bind fst snd].
  intros E1 E2. injection E1 as <- _. injection E2 as <- _.
  unfold with_source. cbn. by rewrite Hk1, Hk2.
Qed.
End packets.

(** ** Concrete requests *)
#[local] Instance plain_unicode : Unicode := id.

Definition demo_times : list Z := [400000000000; 100000000000; 300000000000; 100000000000; 5].
Definition demo_search : SearchFilter :=
  SearchFilter.mk _ None "src1" None None None None None None (timestamp_nanos <$> demo_times) None.

Example demo_found :
  search_events (λ _, Ok demo_store) demo_search demo_db = Ok [100000000000; 400000000000].
Proof. vm_compute. reflexivity. Qed.

Lemma search_exact_witness :
  ∃ ms, search_events (λ _, Ok demo_store) demo_search demo_db = Ok (timestamp_nanos <$> ms) ∧
    StronglySorted Z.lt ms.
Proof.
  destruct (search_exact demo_store demo_search demo_times demo_db demo_healthy)
    as (ms & Hs & Ho & _);
    [unfold demo_store; cbn [store_cf]; known_cf|concrete|reflexivity|].
  exists ms. split; [exact Hs|exact Ho].
Defined.

#[local] Instance undecoded (T : Type) : Bincode T | 100 := {|
  bincode_serialize _ := Err "not used"; bincode_deserialize _ := Err "not used" |}.
(** A packet that is its bytes, taken at nanosecond 7 *)
#[local] Instance packet_bytes : Bincode Packet := {|
  bincode_serialize p := Ok (Packet.packet p);
  bincode_deserialize b := Ok (Packet.mk 7 b) |}.

Lemma packet_shown_as_ingested_witness :
  ∃ node, from_key_value (event_key "src1" (Some (i64_to_be_bytes 3)) 7) (Packet.mk 7 [Byte.x01]) =
      Ok node ∧ PacketNode.request_time node = timestamp_nanos 3.
Proof.
  destruct (packet_shown_as_ingested "src1" 3 [Byte.x01] (Packet.mk 7 [Byte.x01])
    (event_key "src1" (Some (i64_to_be_bytes 3)) 7) [Byte.x01])
    as (_ & node & Hn & Hr & _); [reflexivity|concrete|concrete|reflexivity|].
  exists node. split; [exact Hn|exact Hr].
Defined.
