(* ===== verification/Lifecycle.v ===== *)
(** * The life cycle of the daemon (src/src/main.rs and the loops of its services)

    [main] starts the services of a generation and waits for a change of the
    configuration or for Ctrl-C.  All of them share one [tokio::sync::Notify],
    [notify_shutdown]: on a change [main] wakes everything that waits on it,
    waits on it itself until the ingest service has shut down, and starts the
    next generation.  [Notify] is an interface with the behaviour tokio
    documents; a service is a loop around a [select!], seen here by what it is
    doing with respect to the notification.  Time is not modelled: a sleep is a
    step that may be taken at any moment. *)

From Stdlib Require Import ZArith.
From S2P Require Import Prelude Bytes NetAddr SocketAddr Peer.

(** ** [Settings] (settings.rs) *)
Module Settings.
Record t := mk {
  cert : string; key : string; roots : list string;
  ingest_address : SocketAddr; publish_address : SocketAddr;
  data_dir : string; retention : Z;
  graphql_address : SocketAddr; log_dir : string; export_dir : string;
  max_open_files : Z; max_mb_of_level_base : Z; cfg_path : string;
  peer_address : option SocketAddr; peers : option (gset PeerInfo) }.
End Settings.
Notation Settings := Settings.t.

(** ** [tokio::sync::Notify] *)

(** Who waits: [main], or a task of the generation by its number *)
Inductive Waiter := Main | Worker (i : nat).

#[export] Instance Waiter_eq_dec : EqDecision Waiter.
Proof. solve_decision. Defined.

(** [nt_notified w] makes and polls [notified()] for [w]: [true] when it is ready
    at once.  [nt_drop] drops a future that waits. *)
Class NotifyOps := {
  notify : Type;
  nt_new : notify;
  nt_permit : notify → bool;
  nt_waiters : notify → list Waiter;
  nt_notified : Waiter → notify → bool * notify;
  nt_drop : Waiter → notify → notify;
  nt_notify_one : notify → option Waiter * notify;
  nt_notify_waiters : notify → list Waiter * notify;
}.

(** The documented behaviour: [notify_one] wakes the task that waits longest, or
    stores a permit, of which there is at most one, for the next to wait;
    [notify_waiters] wakes those that wait now and stores nothing. *)
Class NotifyLaws `{NotifyOps} : Prop := {
  new_permit : nt_permit nt_new = false;
  new_waiters : nt_waiters nt_new = [];
  notified_ready w n : (nt_notified w n).1 = nt_permit n;
  notified_permit w n : nt_permit (nt_notified w n).2 = false;
  notified_waiters w n :
    nt_waiters (nt_notified w n).2 = if nt_permit n then nt_waiters n else nt_waiters n ++ [w];
  drop_permit w n : nt_permit (nt_drop w n) = nt_permit n;
  drop_waiters w n : nt_waiters (nt_drop w n) = filter (λ v, v ≠ w) (nt_waiters n);
  notify_one_woken n : (nt_notify_one n).1 = head (nt_waiters n);
  notify_one_waiters n : nt_waiters (nt_notify_one n).2 = tail (nt_waiters n);
  notify_one_permit n :
    nt_permit (nt_notify_one n).2 = match nt_waiters n with [] => true | _ => nt_permit n end;
  notify_waiters_woken n : (nt_notify_waiters n).1 = nt_waiters n;
  notify_waiters_waiters n : nt_waiters (nt_notify_waiters n).2 = [];
  notify_waiters_permit n : nt_permit (nt_notify_waiters n).2 = nt_permit n;
}.

(** A permit and a queue *)
#[export] Instance queue_notify : NotifyOps := {|
  notify := bool * list Waiter;
  nt_new := (false, []);
  nt_permit := fst;
  nt_waiters := snd;
  nt_notified w n := if n.1 then (true, (false, n.2)) else (false, (false, n.2 ++ [w]));
  nt_drop w n := (n.1, filter (λ v, v ≠ w) n.2);
  nt_notify_one n :=
    match n.2 with [] => (None, (true, [])) | w :: ws => (Some w, (n.1, ws)) end;
  nt_notify_waiters n := (n.2, (n.1, []));
|}.

#[export] Instance queue_notify_laws : NotifyLaws.
Proof. split; try done; intros; cbn; by repeat case_match. Qed.

(** ** The services *)
Inductive Role :=
| Web | Retention | PeerService | PublishServer | IngestServer
| IngestConn | PublishConn | PeerServerConn | PeerClientConn.

#[export] Instance Role_eq_dec : EqDecision Role.
Proof. solve_decision. Defined.

(** What a task does: it works, and does not wait on the notification; it waits
    in its [select!]; it was woken, by [notify_one] or by [notify_waiters]; it
    shuts down; it has returned. *)
Inductive Phase := Working | Selecting | Woken (by_one : bool) | Closing | Finished.

#[export] Instance Phase_eq_dec : EqDecision Phase.
Proof. solve_decision. Defined.

(** The other branches of the loops *)
Inductive Event :=
| Accepted          (** [endpoint.accept()] *)
| PeerToDial        (** [receiver.recv()] *)
| Ticked            (** [itv.tick()] *)
| StreamOpened      (** [connection.accept_bi()] *)
| ConnectionLost    (** the same, failed *)
| SourcesChanged.   (** [notify_source.notified()] *)

(** After the branch: back to the [select!], with these tasks spawned, or the
    task returns. *)
Inductive Reaction := Again (spawned : list Role) | Return.

(** [ingest::Server::run] *)
Definition ingest_run (e : Event) : option Reaction :=
  match e with Accepted => Some (Again [IngestConn]) | _ => None end.
(** [ingest::handle_connection]; the tasks for the streams do not wait on the
    notification *)
Definition ingest_connection (e : Event) : option Reaction :=
  match e with
  | StreamOpened => Some (Again [])
  | ConnectionLost => Some Return
  | _ => None
  end.
(** [publish::Server::run] and [publish::handle_connection] *)
Definition publish_run (e : Event) : option Reaction :=
  match e with Accepted => Some (Again [PublishConn]) | _ => None end.
Definition publish_connection (e : Event) : option Reaction :=
  match e with
  | StreamOpened => Some (Again [])
  | ConnectionLost => Some Return
  | _ => None
  end.
(** [Peer::run], [server_connection] and [client_connection]; a client whose
    connection is lost may dial again *)
Definition peer_run (e : Event) : option Reaction :=
  match e with
  | Accepted => Some (Again [PeerServerConn])
  | PeerToDial => Some (Again [PeerClientConn])
  | _ => None
  end.
Definition peer_server_connection (e : Event) : option Reaction :=
  match e with
  | StreamOpened | SourcesChanged => Some (Again [])
  | ConnectionLost => Some Return
  | _ => None
  end.
Definition peer_client_connection (e : Event) : option Reaction :=
  match e with StreamOpened | SourcesChanged | ConnectionLost => Some (Again []) | _ => None end.
(** [retain_periodically] *)
Definition retain_loop (e : Event) : option Reaction :=
  match e with Ticked => Some (Again []) | _ => None end.

(** The web server has no [select!]: it is told to stop, or goes on. *)
Definition on_event (r : Role) (e : Event) : option Reaction :=
  match r with
  | Web => None
  | Retention => retain_loop e
  | PeerService => peer_run e
  | PublishServer => publish_run e
  | IngestServer => ingest_run e
  | IngestConn => ingest_connection e
  | PublishConn => publish_connection e
  | PeerServerConn => peer_server_connection e
  | PeerClientConn => peer_client_connection e
  end.

(** Only the ingest service tells that it has shut down. *)
Definition notifies_one (r : Role) : bool :=
  match r with IngestServer => true | _ => false end.

Section daemon.
Context `{NotifyOps}.

(** [certificate_info] of the certificate of the daemon *)
Variable own_certificate : result (string * string).

(** ** A generation

    The notification, a pending [config_reload.notify_one()] of its GraphQL
    schema, the [shutdown_signal] of its ingest service, and its tasks. *)
Record Generation := mk_gen {
  g_notify : notify;
  g_reload : bool;
  g_signal : bool;
  g_workers : list (Role * Phase);
}.

Definition set_notify (n : notify) (g : Generation) : Generation :=
  mk_gen n (g_reload g) (g_signal g) (g_workers g).
Definition set_reload (b : bool) (g : Generation) : Generation :=
  mk_gen (g_notify g) b (g_signal g) (g_workers g).
Definition set_workers (ws : list (Role * Phase)) (g : Generation) : Generation :=
  mk_gen (g_notify g) (g_reload g) (g_signal g) ws.

(** [Peer::new] fails when the certificate has no valid name, and [main] with it. *)
Definition generation_roles (settings : Settings) : result (list Role) :=
  peer ← match Settings.peer_address settings with
         | None => Ok []
         | Some _ => _ ← own_certificate; Ok [PeerService]
         end;
  Ok ([Web; Retention] ++ peer ++ [PublishServer; IngestServer]).

(** Spawned tasks have not been polled yet. *)
Definition start_generation (settings : Settings) : result Generation :=
  roles ← generation_roles settings;
  Ok (mk_gen nt_new false false ((λ r, (r, Working)) <$> roles)).

(** A task that waits is woken. *)
Definition wake_worker (by_one : bool) (w : Waiter) (ws : list (Role * Phase)) :
    list (Role * Phase) :=
  match w with
  | Main => ws
  | Worker i =>
      match ws !! i with
      | Some (r, Selecting) => <[i := (r, Woken by_one)]> ws
      | _ => ws
      end
  end.

(** [notify_waiters()], called by [main] *)
Definition notify_all (g : Generation) : Generation :=
  let '(woken, n) := nt_notify_waiters (g_notify g) in
  set_workers (foldr (wake_worker false) (g_workers g) woken) (set_notify n g).

(** [notify_one()]; the result tells if [main] was woken. *)
Definition notify_first (g : Generation) : bool * Generation :=
  let '(woken, n) := nt_notify_one (g_notify g) in
  match woken with
  | None => (false, set_notify n g)
  | Some w => (bool_decide (w = Main), set_workers (wake_worker true w (g_workers g)) (set_notify n g))
  end.

Definition set_phase (i : nat) (r : Role) (p : Phase) (g : Generation) : Generation :=
  set_workers (<[i := (r, p)]> (g_workers g)) g.

(** The branch of [notified()]: the ingest service raises its signal first. *)
Definition close_worker (i : nat) (r : Role) (g : Generation) : Generation :=
  set_phase i r Closing
    (mk_gen (g_notify g) (g_reload g) (g_signal g || notifies_one r) (g_workers g)).

(** The task comes to its [select!]. *)
Definition poll_worker (i : nat) (r : Role) (g : Generation) : Generation :=
  let '(ready, n) := nt_notified (Worker i) (g_notify g) in
  if ready then close_worker i r (set_notify n g) else set_phase i r Selecting (set_notify n g).

(** The task returns after it has shut down. *)
Definition end_worker (i : nat) (r : Role) (g : Generation) : bool * Generation :=
  let g := set_phase i r Finished g in
  if notifies_one r then notify_first g else (false, g).

(** Another branch was taken. *)
Definition react (i : nat) (r : Role) (x : Reaction) (g : Generation) : Generation :=
  match x with
  | Again spawned =>
      set_workers (<[i := (r, Working)]> (g_workers g) ++ ((λ r, (r, Working)) <$> spawned)) g
  | Return => set_phase i r Finished g
  end.

(** ** The daemon *)

(** [main] is in its [select!], has called [notify_waiters], waits on the
    notification, sleeps before the next round, or has returned. *)
Inductive MainPhase := MSelect | MNotify | MWait | MReboot | MExit.

(** [d_file]: what [Settings::from_file] gives now; [d_ctrlc]: a pending signal;
    [d_gens]: the generations, the current one first. *)
Record Daemon := mk_daemon {
  d_main : MainPhase;
  d_settings : Settings;
  d_file : result Settings;
  d_ctrlc : bool;
  d_gens : list Generation;
}.

Definition set_main (m : MainPhase) (d : Daemon) : Daemon :=
  mk_daemon m (d_settings d) (d_file d) (d_ctrlc d) (d_gens d).
Definition set_gens (gs : list Generation) (d : Daemon) : Daemon :=
  mk_daemon (d_main d) (d_settings d) (d_file d) (d_ctrlc d) gs.

(** A step of a task; [main] goes on if it was woken. *)
Definition put_gen (k : nat) (x : bool * Generation) (d : Daemon) : Daemon :=
  set_gens (<[k := x.2]> (d_gens d)) (if x.1 then set_main MReboot d else d).

(** [notify_shutdown.notified().await] *)
Definition main_waits (g : Generation) (gs : list Generation) (d : Daemon) : Daemon :=
  let '(ready, n) := nt_notified Main (g_notify g) in
  set_main (if ready then MReboot else MWait) (set_gens (set_notify n g :: gs) d).

(** The next round of the outer loop *)
Definition main_restarts (d : Daemon) : Daemon :=
  match start_generation (d_settings d) with
  | Ok g => set_main MSelect (set_gens (g :: d_gens d) d)
  | Err _ => set_main MExit d
  end.

(** [config_reload.notified()] with a valid configuration *)
Definition main_reloads (settings : Settings) (g : Generation) (gs : list Generation) (d : Daemon) :
    Daemon :=
  mk_daemon MNotify settings (d_file d) (d_ctrlc d) (notify_all (set_reload false g) :: gs).

(** Steps of a task that need nothing from outside; the result tells if [main] was
    woken. *)
Inductive QuietTask : Generation → bool * Generation → Prop :=
| TaskPolls g i r :
    g_workers g !! i = Some (r, Working) → QuietTask g (false, poll_worker i r g)
| TaskCloses g i r b :
    g_workers g !! i = Some (r, Woken b) → QuietTask g (false, close_worker i r g)
| TaskEnds g i r :
    g_workers g !! i = Some (r, Closing) → QuietTask g (end_worker i r g).

(** The other steps of a task: another branch of its [select!] is taken, also
    by a task that was woken, whose notification is then lost, or passed on when
    it came from [notify_one]; it fails, by an error or by a panic as when its
    address is in use; the peer service dials the peers of the configuration. *)
Inductive TaskStep : Generation → bool * Generation → Prop :=
| TaskQuiet g x : QuietTask g x → TaskStep g x
| TaskEvent g i r e x :
    g_workers g !! i = Some (r, Selecting) → on_event r e = Some x →
    TaskStep g (false, react i r x (set_notify (nt_drop (Worker i) (g_notify g)) g))
| TaskMisses g i r e x :
    g_workers g !! i = Some (r, Woken false) → on_event r e = Some x →
    TaskStep g (false, react i r x g)
| TaskPassesOn g i r e x :
    g_workers g !! i = Some (r, Woken true) → on_event r e = Some x →
    TaskStep g (notify_first (react i r x g))
| TaskFails g i r :
    g_workers g !! i = Some (r, Working) →
    TaskStep g (false, set_phase i r Finished g)
| TaskDials g i :
    g_workers g !! i = Some (PeerService, Working) →
    TaskStep g (false, react i PeerService (Again [PeerClientConn]) g).

(** Steps of the daemon that need nothing from outside *)
Inductive Quiet : Daemon → Daemon → Prop :=
| QuietStep k g x d :
    d_gens d !! k = Some g → QuietTask g x → Quiet d (put_gen k x d)
| QuietWaits g gs d :
    d_main d = MNotify → d_gens d = g :: gs → Quiet d (main_waits g gs d)
| QuietRestarts d :
    d_main d = MReboot → Quiet d (main_restarts d).

Inductive Step : Daemon → Daemon → Prop :=
| StepTask k g x d :
    d_gens d !! k = Some g → TaskStep g x → Step d (put_gen k x d)
| StepWaits g gs d :
    d_main d = MNotify → d_gens d = g :: gs → Step d (main_waits g gs d)
| StepRestarts d :
    d_main d = MReboot → Step d (main_restarts d)
| StepConfig k g i p file d :
    d_gens d !! k = Some g → g_workers g !! i = Some (Web, p) → p ≠ Finished →
    Step d (mk_daemon (d_main d) (d_settings d) file (d_ctrlc d)
              (<[k := set_reload true g]> (d_gens d)))
| StepEdited file d :
    Step d (mk_daemon (d_main d) (d_settings d) file (d_ctrlc d) (d_gens d))
| StepReload g gs settings d :
    d_main d = MSelect → d_gens d = g :: gs → g_reload g = true → d_file d = Ok settings →
    Step d (main_reloads settings g gs d)
| StepRefused g gs e d :
    d_main d = MSelect → d_gens d = g :: gs → g_reload g = true → d_file d = Err e →
    Step d (set_gens (set_reload false g :: gs) d)
| StepCtrlC d :
    Step d (mk_daemon (d_main d) (d_settings d) (d_file d) true (d_gens d))
| StepExit g gs d :
    d_main d = MSelect → d_gens d = g :: gs → d_ctrlc d = true →
    Step d (set_main MExit (set_gens (notify_all g :: gs) d)).

(** The start of [main] with a configuration *)
Definition start_daemon (settings : Settings) : result Daemon :=
  g ← start_generation settings;
  Ok (mk_daemon MSelect settings (Ok settings) false [g]).

Definition reachable (d : Daemon) : Prop :=
  ∃ settings d0, start_daemon settings = Ok d0 ∧ rtc Step d0 d.
End daemon.

#[global] Arguments Generation : clear implicits.
#[global] Arguments Generation {_}.
