(* ===== verification/LifecycleSpec.v ===== *)
(** * Properties of the life cycle of the daemon

    Invariants of every reachable state: who waits on the notification of a
    generation, and that there is at most one [notify_one] for it.  From them:
    a change of the configuration restarts the services when all of them wait;
    when the ingest service does not, the daemon hangs; a task that misses the
    notification is never told to stop. *)

From Stdlib Require Import ZArith Lia.
From stdpp Require Import relations.
From S2P Require Import Prelude Bytes NetAddr SocketAddr Peer Lifecycle.

#[local] Open Scope nat_scope.

(** ** Sums over the tasks *)
Section sums.
Context {A : Type} (f : A → nat).

Lemma sum_insert l i x y :
  l !! i = Some x → sum_list_with f (<[i := y]> l) + f x = sum_list_with f l + f y.
Proof.
  revert i. induction l as [|z l IH]; intros [|i] Hi; try done; simpl in *.
  - injection Hi as ->. lia.
  - specialize (IH _ Hi). lia.
Qed.

Lemma sum_cons x l : sum_list_with f (x :: l) = f x + sum_list_with f l.
Proof. done. Qed.

Lemma sum_lookup l i x : l !! i = Some x → f x ≤ sum_list_with f l.
Proof.
  revert i. induction l as [|z l IH]; intros [|i] Hi; try done; simpl in *.
  - injection Hi as ->. lia.
  - specialize (IH _ Hi). lia.
Qed.
End sums.

#[local] Arguments sum_list_with : simpl never.

Definition b2n (b : bool) : nat := if b then 1 else 0.

Section spec.
Context `{NotifyLaws} (own_certificate : result (string * string)).
Implicit Types (g : Generation) (d : Daemon) (ws : list (Role * Phase)).

(** ** Waking *)
Definition wake_one (b : bool) (x : Role * Phase) : Role * Phase :=
  match x with (r, Selecting) => (r, Woken b) | _ => x end.

Lemma wake_worker_lookup b w ws i :
  wake_worker b w ws !! i = if decide (w = Worker i) then wake_one b <$> ws !! i else ws !! i.
Proof.
  destruct w as [|j]; cbn; [by rewrite decide_False|].
  destruct (decide (Worker j = Worker i)) as [[= ->]|Hne].
  - destruct (ws !! i) as [[r p]|] eqn:E; [|by rewrite E].
    destruct p; cbn; rewrite ?E; try done. apply list_lookup_insert_eq. by eapply lookup_lt_Some.
  - destruct (ws !! j) as [[r []]|]; try done. apply list_lookup_insert_ne. congruence.
Qed.

Lemma wake_one_idem b x : wake_one b (wake_one b x) = wake_one b x.
Proof. by destruct x as [r []]. Qed.

Lemma wake_all_lookup b l ws i :
  foldr (wake_worker b) ws l !! i =
    if decide (Worker i ∈ l) then wake_one b <$> ws !! i else ws !! i.
Proof.
  induction l as [|w l IH]; [by rewrite decide_False by apply not_elem_of_nil|].
  cbn [foldr]. rewrite wake_worker_lookup, IH.
  destruct (decide (w = Worker i)) as [->|Hne].
  - rewrite (decide_True (P := Worker i ∈ Worker i :: l)) by left.
    destruct (decide _); [|done]. destruct (ws !! i); cbn; [by rewrite wake_one_idem|done].
  - destruct (decide (Worker i ∈ l)) as [Hin|Hin].
    + by rewrite decide_True by by right.
    + rewrite decide_False; [done|]. intros [?|?]%elem_of_cons; [congruence|done].
Qed.

(** ** The invariant of a generation *)

(** The notifications still to come by [notify_one]: a permit, a task woken by
    it, and the ingest service, which will call it once. *)
Definition worker_token (x : Role * Phase) : nat :=
  match x.2 with
  | Finished => 0
  | Woken true => S (b2n (notifies_one x.1))
  | _ => b2n (notifies_one x.1)
  end.
Definition tokens g : nat :=
  b2n (nt_permit (g_notify g)) + sum_list_with worker_token (g_workers g).
Definition main_token (m : MainPhase) : nat := match m with MReboot => 1 | _ => 0 end.

(** Exactly the tasks in their [select!] wait, and [main] if it does. *)
Record gen_inv (awaiting : Prop) g : Prop := {
  gi_nodup : NoDup (nt_waiters (g_notify g));
  gi_worker i :
    Worker i ∈ nt_waiters (g_notify g) ↔ ∃ r, g_workers g !! i = Some (r, Selecting);
  gi_main : Main ∈ nt_waiters (g_notify g) ↔ awaiting;
}.

(** A step of a task keeps it and adds no notification. *)
Record gen_step (awaiting : Prop) g (x : bool * Generation) : Prop := {
  gs_inv : gen_inv (awaiting ∧ x.1 = false) x.2;
  gs_tokens : tokens x.2 + b2n x.1 ≤ tokens g;
  gs_woken : x.1 = true → awaiting;
}.

Lemma gen_inv_ext (P Q : Prop) g : (P ↔ Q) → gen_inv P g → gen_inv Q g.
Proof. intros HPQ [Hn Hw Hm]. split; [done|done|by rewrite Hm]. Qed.

Lemma gen_step_silent P g g' :
  gen_inv P g' → tokens g' ≤ tokens g → gen_step P g (false, g').
Proof. intros Hi Ht. split; cbn; [|lia|done]. eapply gen_inv_ext; [|done]. tauto. Qed.

(** Phases that are not [Selecting] may change freely. *)
Lemma gen_inv_phase P g i r p p' :
  g_workers g !! i = Some (r, p) → p ≠ Selecting → p' ≠ Selecting →
  gen_inv P g → gen_inv P (set_phase i r p' g).
Proof.
  intros Hi Hp Hp' [Hn Hw Hm]. split; cbn; [done| |done]. intros j. rewrite Hw.
  destruct (decide (i = j)) as [<-|Hne].
  - rewrite list_lookup_insert_eq by (by eapply lookup_lt_Some). rewrite Hi. naive_solver.
  - by rewrite list_lookup_insert_ne.
Qed.

Lemma tokens_phase g i r p p' :
  g_workers g !! i = Some (r, p) →
  tokens (set_phase i r p' g) + worker_token (r, p) = tokens g + worker_token (r, p').
Proof.
  intros Hi. unfold tokens. cbn. pose proof (sum_insert worker_token _ _ _ (r, p') Hi). lia.
Qed.

Lemma tokens_wake g i r b :
  g_workers g !! i = Some (r, Selecting) →
  tokens (set_phase i r (Woken b) g) = tokens g + b2n b.
Proof.
  intros Hi. pose proof (tokens_phase g i r Selecting (Woken b) Hi) as Ht.
  unfold worker_token in Ht. destruct b; cbn in *; lia.
Qed.

Lemma wake_worker_tokens ws w :
  sum_list_with worker_token (wake_worker false w ws) = sum_list_with worker_token ws.
Proof.
  destruct w as [|i]; [done|]. cbn. destruct (ws !! i) as [[r []]|] eqn:E; try done.
  pose proof (sum_insert worker_token _ _ _ (r, Woken false) E) as Hs.
  unfold worker_token in *. cbn in *. lia.
Qed.

Lemma notify_all_inv P g :
  gen_inv P g → gen_inv False (notify_all g) ∧ tokens (notify_all g) = tokens g.
Proof.
  intros [Hn Hw Hm]. unfold notify_all.
  destruct (nt_notify_waiters (g_notify g)) as [woken n] eqn:E.
  assert (woken = nt_waiters (g_notify g)) as ->
    by (by rewrite <- (notify_waiters_woken (g_notify g)), E).
  assert (nt_waiters n = []) as Hnil
    by (by rewrite <- (notify_waiters_waiters (g_notify g)), E).
  assert (nt_permit n = nt_permit (g_notify g)) as Hperm
    by (by rewrite <- (notify_waiters_permit (g_notify g)), E).
  split; [split; cbn; rewrite Hnil|].
  - apply NoDup_nil_2.
  - intros i. split; [by intros ?%not_elem_of_nil|]. intros [r Hr].
    rewrite wake_all_lookup in Hr. destruct (decide _) as [Hin|Hout].
    + destruct (g_workers g !! i) as [[r' []]|]; cbn in Hr; congruence.
    + destruct Hout. apply Hw. eauto.
  - split; [by intros ?%not_elem_of_nil|done].
  - unfold tokens. cbn. rewrite Hperm. f_equal. clear.
    induction (nt_waiters (g_notify g)) as [|w l IH]; [done|]. cbn [foldr]. by rewrite wake_worker_tokens.
Qed.

Lemma notify_first_inv P g :
  gen_inv P g →
  gen_inv (P ∧ (notify_first g).1 = false) (notify_first g).2 ∧
  tokens (notify_first g).2 + b2n (notify_first g).1 ≤ tokens g + 1 ∧
  ((notify_first g).1 = true → P).
Proof.
  intros [Hn Hw Hm]. unfold notify_first.
  pose proof (notify_one_woken (g_notify g)) as E1.
  pose proof (notify_one_waiters (g_notify g)) as E2.
  pose proof (notify_one_permit (g_notify g)) as E3.
  destruct (nt_notify_one (g_notify g)) as [woken n]. cbn [fst snd] in E1, E2, E3. subst woken.
  destruct (nt_waiters (g_notify g)) as [|w l] eqn:El; cbn [head tail fst snd] in *.
  - split_and!; [|unfold tokens; cbn; rewrite E3; cbn; lia|done].
    split; cbn; rewrite E2; [apply NoDup_nil_2|exact Hw|].
    rewrite Hm. tauto.
  - apply NoDup_cons in Hn as [Hw0 Hn]. destruct w as [|i].
    + rewrite bool_decide_eq_true_2 by done. cbn [wake_worker].
      assert P as HP by (apply Hm; left).
      split_and!; [|unfold tokens; cbn; rewrite E3; lia|done].
      split; cbn; rewrite E2; [done| |].
      * intros i. rewrite <- Hw, elem_of_cons. naive_solver.
      * naive_solver.
    + rewrite bool_decide_eq_false_2 by done. cbn [b2n].
      destruct (proj1 (Hw i)) as [r Hi]; [left|]. cbn [wake_worker]. rewrite Hi.
      split_and!; [| |done].
      * split; cbn; rewrite E2; [done| |].
        -- intros j. destruct (decide (i = j)) as [<-|Hne].
           ++ rewrite list_lookup_insert_eq by (by eapply lookup_lt_Some). naive_solver.
           ++ rewrite list_lookup_insert_ne by done. rewrite <- Hw, elem_of_cons. naive_solver.
        -- rewrite elem_of_cons in Hm. naive_solver.
      * pose proof (tokens_wake g i r true Hi) as Ht. unfold tokens in *. cbn in *.
        rewrite E3. lia.
Qed.

(** ** The steps of the tasks *)
Lemma gen_inv_spawn P g (rs : list Role) :
  gen_inv P g → gen_inv P (set_workers (g_workers g ++ ((λ r, (r, Working)) <$> rs)) g).
Proof.
  intros [Hn Hw Hm]. split; cbn; [done| |done]. intros i. rewrite Hw. split; intros [r Hr].
  - exists r. by apply lookup_app_l_Some.
  - apply lookup_app_Some in Hr as [Hr|[_ Hr]]; [by exists r|].
    apply list_lookup_fmap_Some in Hr as (? & [=] & _).
Qed.

Lemma tokens_spawn g (rs : list Role) :
  Forall (λ r, notifies_one r = false) rs →
  tokens (set_workers (g_workers g ++ ((λ r, (r, Working)) <$> rs)) g) = tokens g.
Proof.
  intros Hrs. unfold tokens. cbn [g_notify g_workers set_workers]. rewrite sum_list_with_app.
  enough (sum_list_with worker_token ((λ r, (r, Working)) <$> rs) = 0) by lia.
  induction Hrs as [|r rs Hr _ IH]; [done|]. rewrite fmap_cons, sum_cons, IH.
  unfold worker_token. cbn. by rewrite Hr.
Qed.

Lemma gen_inv_drop P g i r p :
  g_workers g !! i = Some (r, Selecting) → p ≠ Selecting → gen_inv P g →
  gen_inv P (set_phase i r p (set_notify (nt_drop (Worker i) (g_notify g)) g)).
Proof.
  intros Hi Hp [Hn Hw Hm]. split; cbn; rewrite drop_waiters.
  - by apply NoDup_filter.
  - intros j. rewrite list_elem_of_filter, Hw. destruct (decide (i = j)) as [<-|Hne].
    + rewrite list_lookup_insert_eq by (by eapply lookup_lt_Some). naive_solver.
    + rewrite list_lookup_insert_ne by done. naive_solver.
  - rewrite list_elem_of_filter. naive_solver.
Qed.

Lemma poll_step P g i r :
  g_workers g !! i = Some (r, Working) → gen_inv P g → gen_step P g (false, poll_worker i r g).
Proof.
  intros Hi Hg. pose proof Hg as [Hn Hw Hm]. unfold poll_worker.
  pose proof (notified_ready (Worker i) (g_notify g)) as E1.
  pose proof (notified_permit (Worker i) (g_notify g)) as E2.
  pose proof (notified_waiters (Worker i) (g_notify g)) as E3.
  destruct (nt_notified (Worker i) (g_notify g)) as [ready n]. cbn [fst snd] in *. subst ready.
  destruct (nt_permit (g_notify g)) eqn:Hperm.
  - apply gen_step_silent.
    + apply (gen_inv_phase P _ i r Working); [done..|].
      split; cbn; rewrite E3; [done|exact Hw|exact Hm].
    + unfold close_worker. pose proof (tokens_phase g i r Working Closing Hi) as Ht.
      unfold tokens, worker_token in *. cbn in *. rewrite E2. rewrite Hperm in Ht. cbn in *. lia.
  - apply gen_step_silent.
    + split; cbn; rewrite E3.
      * apply NoDup_app. split_and!; [done| |apply NoDup_singleton].
        intros w Hin ->%list_elem_of_singleton. apply Hw in Hin as [? ?]. congruence.
      * intros j. rewrite elem_of_app, list_elem_of_singleton, Hw.
        destruct (decide (i = j)) as [<-|Hne].
        -- rewrite list_lookup_insert_eq by (by eapply lookup_lt_Some). naive_solver.
        -- rewrite list_lookup_insert_ne by done. naive_solver.
      * rewrite elem_of_app, list_elem_of_singleton. naive_solver.
    + pose proof (tokens_phase g i r Working Selecting Hi) as Ht.
      unfold tokens, worker_token in *. cbn in *. rewrite E2. rewrite Hperm in Ht. cbn in *. lia.
Qed.

Lemma close_step P g i r b :
  g_workers g !! i = Some (r, Woken b) → gen_inv P g → gen_step P g (false, close_worker i r g).
Proof.
  intros Hi Hg. apply gen_step_silent.
  - apply (gen_inv_phase P _ i r (Woken b)); [done..|]. by destruct Hg.
  - pose proof (tokens_phase g i r (Woken b) Closing Hi) as Ht.
    unfold tokens, worker_token in *. destruct b; cbn in *; lia.
Qed.

Lemma end_step P g i r :
  g_workers g !! i = Some (r, Closing) → gen_inv P g → gen_step P g (end_worker i r g).
Proof.
  intros Hi Hg. pose proof (tokens_phase g i r Closing Finished Hi) as Ht.
  pose proof (gen_inv_phase P g i r Closing Finished Hi ltac:(done) ltac:(done) Hg) as Hg'.
  unfold end_worker. unfold worker_token in Ht. cbn in Ht. destruct (notifies_one r); cbn in Ht.
  - destruct (notify_first_inv P _ Hg') as (H1 & H2 & H3). split; [done|lia|done].
  - apply gen_step_silent; [done|lia].
Qed.

(** A task that leaves its [select!], or has nothing to wait for. *)
Lemma react_step P g g0 i r p e x :
  on_event r e = Some x → g_workers g !! i = Some (r, p) → p ≠ Finished → g_workers g0 = g_workers g →
  nt_permit (g_notify g0) = nt_permit (g_notify g) →
  (∀ p', p' ≠ Selecting → gen_inv P (set_phase i r p' g0)) →
  gen_inv P (react i r x g0) ∧
  tokens (react i r x g0) + b2n (bool_decide (p = Woken true)) ≤ tokens g.
Proof.
  intros He Hi Hp Hws Hperm Hinv.
  pose proof (sum_insert worker_token _ _ _ (r, Working) Hi) as HtW.
  pose proof (sum_insert worker_token _ _ _ (r, Finished) Hi) as HtF.
  assert (worker_token (r, p) = b2n (notifies_one r) + b2n (bool_decide (p = Woken true))) as Hp'.
  { unfold worker_token. by destruct p as [| |[]| |]; cbn; rewrite ?Nat.add_0_r, ?Nat.add_1_r. }
  destruct x as [rs|]; cbn [react].
  - split; [exact (gen_inv_spawn P (set_phase i r Working g0) rs (Hinv Working ltac:(done)))|].
    change (set_workers _ g0) with
      (set_workers (g_workers (set_phase i r Working g0) ++ ((λ r, (r, Working)) <$> rs))
         (set_phase i r Working g0)).
    rewrite tokens_spawn.
    + unfold tokens, worker_token in *. cbn in *. rewrite Hws, Hperm. lia.
    + destruct r, e; cbn in He; try done; injection He as <-; repeat constructor.
  - split; [by apply Hinv|]. unfold tokens, worker_token in *. cbn in *. rewrite Hws, Hperm. lia.
Qed.

Lemma task_step P g x : TaskStep g x → gen_inv P g → gen_step P g x.
Proof.
  intros Hstep HP. destruct Hstep as [? x [g i r Hi|g i r b Hi|g i r Hi]|g i r e x Hi He|g i r e x Hi He
    |g i r e x Hi He|g i r Hi|g i Hi].
  - by apply poll_step.
  - by eapply close_step.
  - by eapply end_step.
  - destruct (react_step P g (set_notify (nt_drop (Worker i) (g_notify g)) g) i r Selecting e x)
      as [H1 H2]; [done|done|done|done|apply drop_permit| |].
    { intros p' Hp'. by apply gen_inv_drop. }
    apply gen_step_silent; [done|lia].
  - destruct (react_step P g g i r (Woken false) e x) as [H1 H2]; [done..| |].
    { intros p' Hp'. by eapply gen_inv_phase. }
    apply gen_step_silent; [done|lia].
  - destruct (react_step P g g i r (Woken true) e x) as [H1 H2]; [done..| |].
    { intros p' Hp'. by eapply gen_inv_phase. }
    destruct (notify_first_inv P _ H1) as (H3 & H4 & H5). rewrite bool_decide_eq_true_2 in H2 by done.
    cbn in H2. split; [done|lia|done].
  - apply gen_step_silent.
    + by eapply gen_inv_phase.
    + pose proof (tokens_phase g i r Working Finished Hi). unfold worker_token in *. cbn in *. lia.
  - apply gen_step_silent.
    + apply (gen_inv_spawn P (set_phase i PeerService Working g) [PeerClientConn]).
      by eapply gen_inv_phase.
    + pose proof (tokens_phase g i PeerService Working Working Hi) as Ht.
      rewrite <- (tokens_spawn (set_phase i PeerService Working g) [PeerClientConn]) in Ht
        by repeat constructor.
      unfold worker_token in Ht. cbn [notifies_one fst snd b2n] in Ht.
      change (react _ _ _ g) with
        (set_workers (g_workers (set_phase i PeerService Working g) ++
           ((λ r, (r, Working)) <$> [PeerClientConn])) (set_phase i PeerService Working g)). lia.
Qed.

(** ** The invariant of the daemon *)
Definition daemon_inv d : Prop :=
  ∃ g gs, d_gens d = g :: gs ∧ gen_inv (d_main d = MWait) g ∧ Forall (gen_inv False) gs ∧
    tokens g + main_token (d_main d) ≤ 1 ∧ Forall (λ g, tokens g = 0) gs.

Lemma put_gen_inv k g x d :
  daemon_inv d → d_gens d !! k = Some g → (∀ P, gen_inv P g → gen_step P g x) →
  daemon_inv (put_gen k x d).
Proof.
  intros (g1 & gs & Hgens & Hg1 & Hgs & Ht1 & Hts) Hk Hstep. unfold put_gen. rewrite Hgens in *.
  destruct k as [|k]; cbn in Hk.
  - injection Hk as ->. destruct (Hstep _ Hg1) as [Hi Ht Hw]. destruct x as [[] g']; cbn in *.
    + specialize (Hw eq_refl). exists g', gs. cbn. split_and!; [done| |done|lia|done].
      eapply gen_inv_ext; [|done]. naive_solver.
    + exists g', gs. cbn. split_and!; [done| |done|lia|done].
      eapply gen_inv_ext; [|done]. naive_solver.
  - pose proof (proj1 (Forall_lookup _ _) Hgs _ _ Hk) as Hg.
    pose proof (proj1 (Forall_lookup _ _) Hts _ _ Hk) as Htg. cbn in Htg.
    destruct (Hstep _ Hg) as [Hi Ht Hw]. destruct x as [[] g']; cbn in *; [by destruct Hw|].
    exists g1, (<[k := g']> gs). cbn. split_and!; [done|done| |done|].
    + apply Forall_insert; [done|]. eapply gen_inv_ext; [|done]. tauto.
    + apply Forall_insert; [done|lia].
Qed.

Lemma start_generation_inv settings g :
  start_generation own_certificate settings = Ok g →
  gen_inv False g ∧ tokens g = 1 ∧ nt_permit (g_notify g) = false ∧ nt_waiters (g_notify g) = [] ∧
  Forall (λ x, x.2 = Working) (g_workers g) ∧ length (g_workers g) ≤ 5.
Proof.
  unfold start_generation, generation_roles. destruct (Settings.peer_address settings).
  - destruct own_certificate; [|done]. intros [= <-]. cbn. rewrite new_permit, new_waiters.
    unfold tokens. cbn. rewrite new_permit. split_and!; [|done|done|done|repeat constructor|lia].
    split; cbn; rewrite new_waiters; [apply NoDup_nil_2| |split; [by intros ?%not_elem_of_nil|done]].
    intros i. split; [by intros ?%not_elem_of_nil|]. intros [r Hr].
    by do 5 (destruct i as [|i]; [done|]).
  - intros [= <-]. cbn. rewrite new_permit, new_waiters.
    unfold tokens. cbn. rewrite new_permit. split_and!; [|done|done|done|repeat constructor|lia].
    split; cbn; rewrite new_waiters; [apply NoDup_nil_2| |split; [by intros ?%not_elem_of_nil|done]].
    intros i. split; [by intros ?%not_elem_of_nil|]. intros [r Hr].
    by do 4 (destruct i as [|i]; [done|]).
Qed.

Lemma main_waits_inv g gs d :
  d_main d = MNotify → d_gens d = g :: gs → daemon_inv d → daemon_inv (main_waits g gs d).
Proof.
  intros Hm Hgens (g1 & gs1 & Hgens1 & [Hn Hw Hmain] & Hgs & Ht & Hts).
  rewrite Hgens in Hgens1. injection Hgens1 as <- <-. rewrite Hm in *. cbn in Ht.
  unfold main_waits.
  pose proof (notified_ready Main (g_notify g)) as E1.
  pose proof (notified_permit Main (g_notify g)) as E2.
  pose proof (notified_waiters Main (g_notify g)) as E3.
  destruct (nt_notified Main (g_notify g)) as [ready n]. cbn [fst snd] in *. subst ready.
  destruct (nt_permit (g_notify g)) eqn:Hperm; exists (set_notify n g), gs; cbn;
    (split_and!; [done| |done| |done]).
  - split; cbn; rewrite E3; [done|done|naive_solver].
  - unfold tokens in *. cbn. rewrite E2. rewrite Hperm in Ht. cbn in *. lia.
  - split; cbn; rewrite E3.
    + apply NoDup_app. split_and!; [done| |apply NoDup_singleton].
      intros w Hin ->%list_elem_of_singleton. apply Hmain in Hin. done.
    + intros i. rewrite elem_of_app, list_elem_of_singleton, Hw. naive_solver.
    + rewrite elem_of_app, list_elem_of_singleton. naive_solver.
  - unfold tokens in *. cbn. rewrite E2. rewrite Hperm in Ht. cbn in *. lia.
Qed.

Lemma main_restarts_inv d :
  d_main d = MReboot → daemon_inv d → daemon_inv (main_restarts own_certificate d).
Proof.
  intros Hm (g & gs & Hgens & Hg & Hgs & Ht & Hts). rewrite Hm in *. cbn in Ht.
  assert (gen_inv False g) as Hg' by (eapply gen_inv_ext; [|done]; naive_solver).
  unfold main_restarts. destruct (start_generation _ _) as [gn|e] eqn:E.
  - destruct (start_generation_inv _ _ E) as (Hi & Ht' & _).
    exists gn, (g :: gs). cbn. rewrite Hgens. split_and!; [done| |by constructor|lia|].
    + eapply gen_inv_ext; [|done]. naive_solver.
    + constructor; [lia|done].
  - exists g, gs. cbn. split_and!; [done| |done|lia|done]. eapply gen_inv_ext; [|done]. naive_solver.
Qed.

(** What only touches the reload flag *)
Lemma gen_inv_reload P b g : gen_inv P g → gen_inv P (set_reload b g).
Proof. by intros [??]. Qed.

Lemma head_inv m st f c g g' gs d :
  daemon_inv d → d_gens d = g :: gs → (∀ P, gen_inv P g → gen_inv (m = MWait) g' ∧ tokens g' = tokens g) →
  main_token m ≤ main_token (d_main d) → daemon_inv (mk_daemon m st f c (g' :: gs)).
Proof.
  intros (g1 & gs1 & Hgens1 & Hg & Hgs & Ht & Hts) Hgens Hg' Hm.
  rewrite Hgens in Hgens1. injection Hgens1 as <- <-. destruct (Hg' _ Hg) as [Hi Htk].
  exists g', gs. cbn. split_and!; [done|done|done|lia|done].
Qed.

Lemma same_gens_inv st f c d : daemon_inv d → daemon_inv (mk_daemon (d_main d) st f c (d_gens d)).
Proof. done. Qed.

Lemma daemon_step_inv d d' : Step own_certificate d d' → daemon_inv d → daemon_inv d'.
Proof.
  intros Hstep Hinv. destruct Hstep as [k g x d Hk Hx|g gs d Hm Hgens|d Hm|k g i p f d Hk Hi Hp|f d
    |g gs st d Hm Hgens Hr Hf|g gs e d Hm Hgens Hr Hf|d|g gs d Hm Hgens Hc].
  - eapply put_gen_inv; [done..|]. intros P HP. by apply task_step.
  - by apply main_waits_inv.
  - by apply main_restarts_inv.
  - destruct Hinv as (g1 & gs & Hgens & Hg1 & Hgs & Ht1 & Hts). rewrite Hgens in *.
    destruct k as [|k]; cbn in Hk.
    + injection Hk as ->. exists (set_reload true g), gs. cbn.
      split_and!; [done|by apply gen_inv_reload|done|done|done].
    + exists g1, (<[k := set_reload true g]> gs). cbn. split_and!; [done|done| |done|].
      * apply Forall_insert; [done|]. apply gen_inv_reload. exact (Forall_lookup_1 _ _ _ _ Hgs Hk).
      * apply Forall_insert; [done|]. exact (Forall_lookup_1 _ _ _ _ Hts Hk).
  - done.
  - eapply (head_inv _ _ _ _ g); [done|done| |cbn; lia]. intros P HP.
    destruct (notify_all_inv P _ (gen_inv_reload P false g HP)) as [H1 H2].
    split; [eapply gen_inv_ext; [|done]; done|done].
  - eapply (head_inv _ _ _ _ g); [done|done| |lia]. intros P HP.
    split; [|done]. apply gen_inv_reload. rewrite Hm.
    destruct Hinv as (g1 & gs1 & Hgens1 & Hg & _). rewrite Hgens in Hgens1.
    injection Hgens1 as <- <-. by rewrite Hm in Hg.
  - done.
  - eapply (head_inv _ _ _ _ g); [done|done| |cbn; lia]. intros P HP.
    destruct (notify_all_inv P _ HP) as [H1 H2].
    split; [eapply gen_inv_ext; [|done]; done|done].
Qed.

Lemma reachable_inv d : reachable own_certificate d → daemon_inv d.
Proof.
  intros (st & d0 & Hstart & Hrun). unfold start_daemon in Hstart.
  destruct (start_generation own_certificate st) as [g|] eqn:E; [|done]. injection Hstart as <-.
  destruct (start_generation_inv _ _ E) as (Hi & Ht & _).
  assert (daemon_inv (mk_daemon MSelect st (Ok st) false [g])) as Hinv.
  { exists g, []. cbn. split_and!; [done| |constructor|lia|constructor].
    eapply gen_inv_ext; [|done]. naive_solver. }
  induction Hrun as [|d1 d2 d3 Hs _ IH]; [done|]. apply IH. by eapply daemon_step_inv.
Qed.

Lemma quiet_step d d' : Quiet own_certificate d d' → Step own_certificate d d'.
Proof.
  intros [k g x d0 Hk Hx|g gs d0 Hm Hgens|d0 Hm].
  - eapply StepTask; [done|]. by constructor.
  - by apply StepWaits.
  - by apply StepRestarts.
Qed.

(** ** A task no notification can reach *)

(** In [g] nothing but task [i] can call [notify_one] or was woken by it. *)
Record unreachable_task g (i : nat) : Prop := {
  ut_permit : nt_permit (g_notify g) = false;
  ut_woken j r : g_workers g !! j ≠ Some (r, Woken true);
  ut_ingest j p : g_workers g !! j = Some (IngestServer, p) → p = Finished ∨ j = i;
}.

Lemma no_tokens g i : tokens g = 0 → unreachable_task g i.
Proof.
  unfold tokens. intros Ht. split.
  - destruct (nt_permit (g_notify g)); [cbn in Ht; lia|done].
  - intros j r Hj. apply (sum_lookup worker_token) in Hj. unfold worker_token in Hj at 1. cbn in Hj. lia.
  - intros j p Hj. apply (sum_lookup worker_token) in Hj. unfold worker_token in Hj at 1.
    destruct p as [| |[]| |]; cbn in Hj; (lia || by left).
Qed.

Lemma sum_two {A} (f : A → nat) l i j x y :
  l !! i = Some x → l !! j = Some y → i ≠ j → f x + f y ≤ sum_list_with f l.
Proof.
  revert i j. induction l as [|z l IH]; intros [|i] [|j] Hi Hj Hne; try done; rewrite sum_cons;
    cbn in Hi, Hj.
  - injection Hi as ->. apply (sum_lookup f) in Hj. lia.
  - injection Hj as ->. apply (sum_lookup f) in Hi. lia.
  - pose proof (IH i j Hi Hj ltac:(congruence)). lia.
Qed.

Lemma token_of_ingest g i p :
  tokens g ≤ 1 → g_workers g !! i = Some (IngestServer, p) → p = Working ∨ p = Selecting →
  unreachable_task g i.
Proof.
  unfold tokens. intros Ht Hi Hp.
  assert (worker_token (IngestServer, p) = 1) as Hone by (by destruct Hp as [-> | ->]).
  pose proof (sum_lookup worker_token _ _ _ Hi) as Hle. split.
  - destruct (nt_permit (g_notify g)); [cbn in Ht; lia|done].
  - intros j r Hj. destruct (decide (i = j)) as [<-|Hne]; [destruct Hp; congruence|].
    pose proof (sum_two worker_token _ _ _ _ _ Hi Hj Hne) as H2. unfold worker_token in H2 at 2.
    cbn in H2. lia.
  - intros j q Hj. destruct (decide (i = j)) as [<-|Hne]; [by right|]. left.
    pose proof (sum_two worker_token _ _ _ _ _ Hi Hj Hne) as H2. unfold worker_token in H2 at 2.
    destruct q as [| |[]| |]; cbn in H2; (lia || done).
Qed.

Lemma react_lookup g g0 i r x j y :
  g_workers g0 = g_workers g → i ≠ j → g_workers g !! j = Some y →
  g_workers (react i r x g0) !! j = Some y.
Proof.
  intros Hws Hne Hj. destruct x as [rs|]; cbn; rewrite Hws.
  - apply lookup_app_l_Some. by rewrite list_lookup_insert_ne.
  - by rewrite list_lookup_insert_ne.
Qed.

Lemma react_self g i r rs x :
  i < length (g_workers g) → x = Again rs → g_workers (react i r x g) !! i = Some (r, Working).
Proof.
  intros Hi ->. cbn. apply lookup_app_l_Some. by apply list_lookup_insert_eq.
Qed.

(** Works, waits, or has returned without being told *)
Definition untold (p : Phase) : Prop := p = Working ∨ p = Selecting ∨ p = Finished.

(** A task that is not woken by the step, which is one of task [j], stays
    unreachable. *)
Lemma unreachable_insert g g' i j r p q (rs : list Role) :
  unreachable_task g i → g_workers g !! j = Some (r, p) → p ≠ Finished → q ≠ Woken true →
  nt_permit (g_notify g') = false →
  g_workers g' = <[j := (r, q)]> (g_workers g) ++ ((λ r, (r, Working)) <$> rs) →
  Forall (λ r, notifies_one r = false) rs → unreachable_task g' i.
Proof.
  intros [_ Hwoken Hing] Hj Hp Hq Hperm Hws Hrs. split; [done|intros k r'|intros k p'].
  - rewrite Hws. intros [Hk|[_ Hk]]%lookup_app_Some.
    + destruct (decide (j = k)) as [<-|Hne].
      * rewrite list_lookup_insert_eq in Hk by (by eapply lookup_lt_Some). congruence.
      * rewrite list_lookup_insert_ne in Hk by done. by destruct (Hwoken k r').
    + by apply list_lookup_fmap_Some in Hk as (? & [=] & _).
  - rewrite Hws. intros [Hk|[_ Hk]]%lookup_app_Some.
    + destruct (decide (j = k)) as [<-|Hne].
      * rewrite list_lookup_insert_eq in Hk by (by eapply lookup_lt_Some). injection Hk as -> ->.
        destruct (Hing _ _ Hj); [done|by right].
      * rewrite list_lookup_insert_ne in Hk by done. by eapply Hing.
    + apply list_lookup_fmap_Some in Hk as (r' & [= <- _] & Hk).
      by apply (Forall_lookup_1 _ _ _ _ Hrs) in Hk.
Qed.

Lemma spawned_quiet r e rs : on_event r e = Some (Again rs) → Forall (λ r, notifies_one r = false) rs.
Proof. destruct r, e; cbn; try done; intros [= <-]; repeat constructor. Qed.

Lemma unreachable_react g g0 i j r p e x :
  unreachable_task g i → g_workers g !! j = Some (r, p) → p ≠ Finished → on_event r e = Some x →
  g_workers g0 = g_workers g → nt_permit (g_notify g0) = false →
  unreachable_task (react j r x g0) i.
Proof.
  intros Hut Hj Hp He Hws Hperm. destruct x as [rs|].
  - eapply (unreachable_insert g _ i j r p Working rs); [done..|cbn; by rewrite Hws|].
    by eapply spawned_quiet.
  - eapply (unreachable_insert g _ i j r p Finished []); [done..| |constructor].
    cbn. by rewrite Hws, app_nil_r.
Qed.

(** What a step does to an unreachable task: it is not told to stop, [main] is not
    woken, and no signal is raised. *)
Lemma unreachable_kept g x i r p :
  TaskStep g x → unreachable_task g i → g_workers g !! i = Some (r, p) → untold p →
  x.1 = false ∧ g_signal x.2 = g_signal g ∧ unreachable_task x.2 i ∧
  ∃ p', g_workers x.2 !! i = Some (r, p') ∧ untold p'.
Proof.
  intros Hstep Hut Hi Hp. pose proof Hut as [Hperm Hwoken Hing].
  pose proof (lookup_lt_Some _ _ _ Hi) as Hlt.
  assert (∀ j r' q, g_workers g !! j = Some (r', q) → ¬ untold q → j ≠ i ∧ notifies_one r' = false)
    as Hother.
  { intros j r' q Hj Hq. assert (j ≠ i) as Hne by (intros ->; rewrite Hi in Hj; congruence).
    split; [done|]. destruct r'; try done. by destruct (Hing _ _ Hj) as [->|?]; [destruct Hq; right; right|]. }
  assert (∀ j r' q q', g_workers g !! j = Some (r', q) → untold q' →
    ∃ p', <[j := (r', q')]> (g_workers g) !! i = Some (r, p') ∧ untold p') as Hins.
  { intros j r' q q' Hj Hq'. destruct (decide (j = i)) as [->|Hne].
    - rewrite list_lookup_insert_eq by done. rewrite Hi in Hj. injection Hj as <- _. eauto.
    - rewrite list_lookup_insert_ne by done. eauto. }
  assert (∀ g0 j r' q x', g_workers g0 = g_workers g → g_workers g !! j = Some (r', q) →
    ∃ p', g_workers (react j r' x' g0) !! i = Some (r, p') ∧ untold p') as Hreact.
  { intros g0 j r' q [rs|] Hws Hj; cbn; rewrite Hws.
    - destruct (Hins j r' q Working Hj) as (p' & Hi' & Hp'); [by left|].
      exists p'. split; [by apply lookup_app_l_Some|done].
    - eapply Hins; [done|by right; right]. }
  destruct Hstep as [? x [g j r' Hj|g j r' b Hj|g j r' Hj]|g j r' e x Hj He|g j r' e x Hj He
    |g j r' e x Hj He|g j r' Hj|g j Hj]; cbn [fst snd].
  - unfold poll_worker. pose proof (notified_ready (Worker j) (g_notify g)) as E1.
    pose proof (notified_permit (Worker j) (g_notify g)) as E2.
    rewrite Hperm in E1. destruct (nt_notified (Worker j) (g_notify g)) as [ready n]. cbn in E1, E2. subst ready.
    split_and!; [done|done| |eapply Hins; [done|by right; left]].
    eapply (unreachable_insert g _ i j r' Working Selecting []); [done..|cbn; by rewrite app_nil_r|constructor].
  - destruct (Hother _ _ _ Hj) as [Hne Hr]; [by intros [?|[?|?]]|].
    split_and!; [done|cbn; by rewrite Hr, orb_false_r| |].
    + eapply (unreachable_insert g _ i j r' (Woken b) Closing []); [done..|cbn; by rewrite app_nil_r|constructor].
    + exists p. cbn. by rewrite list_lookup_insert_ne.
  - destruct (Hother _ _ _ Hj) as [Hne Hr]; [by intros [?|[?|?]]|]. unfold end_worker. rewrite Hr.
    split_and!; [done|done| |].
    + eapply (unreachable_insert g _ i j r' Closing Finished []); [done..|cbn; by rewrite app_nil_r|constructor].
    + exists p. cbn. by rewrite list_lookup_insert_ne.
  - split_and!; [done|by destruct x| |by eapply Hreact].
    eapply (unreachable_react g); [done..|]. cbn. by rewrite drop_permit.
  - split_and!; [done|by destruct x|by eapply (unreachable_react g)|by eapply Hreact].
  - by destruct (Hwoken j r').
  - split_and!; [done|done| |eapply Hins; [done|by right; right]].
    eapply (unreachable_insert g _ i j r' Working Finished []); [done..|cbn; by rewrite app_nil_r|constructor].
  - split_and!; [done|done| |by eapply Hreact].
    eapply (unreachable_insert g _ i j PeerService Working Working [PeerClientConn]); [done..|by repeat constructor].
Qed.

Lemma unreachable_same g g' i :
  unreachable_task g i → g_workers g' = g_workers g → nt_permit (g_notify g') = false →
  unreachable_task g' i.
Proof. intros [_ Hw Hi] Hws Hp. split; [done|by rewrite Hws..]. Qed.

(** ** A restart the ingest service misses *)
Definition hangs (i n : nat) (b : bool) d : Prop :=
  ∃ g gs p, d_gens d = g :: gs ∧ length gs = n ∧ g_signal g = b ∧
    (d_main d = MNotify ∨ d_main d = MWait) ∧
    unreachable_task g i ∧ g_workers g !! i = Some (IngestServer, p) ∧ untold p.

Lemma hangs_step i n b d d' :
  daemon_inv d → hangs i n b d → Step own_certificate d d' → hangs i n b d'.
Proof.
  intros Hinv (g & gs & p & Hgens & Hlen & Hb & Hm & Hut & Hi & Hp) Hstep.
  pose proof Hinv as (g1 & gs1 & Hgens1 & Hg & Hgs & Ht & Hts).
  rewrite Hgens in Hgens1. injection Hgens1 as <- <-.
  destruct Hstep as [k gk x d Hk Hx|g1 gs1 d Hm1 Hgens1|d Hm1|k gk j q f d Hk Hj Hq|f d
    |g1 gs1 st d Hm1 Hgens1 Hr Hf|g1 gs1 e d Hm1 Hgens1 Hr Hf|d|g1 gs1 d Hm1 Hgens1 Hc];
    try (destruct Hm; congruence).
  - rewrite Hgens in Hk. destruct k as [|k]; cbn in Hk.
    + injection Hk as <-.
      destruct (unreachable_kept _ _ _ _ _ Hx Hut Hi Hp) as (Hw & Hs & Hut' & p' & Hi' & Hp').
      exists x.2, gs, p'. unfold put_gen. rewrite Hw, Hgens. cbn. split_and!; [done|done|congruence|done..].
    + destruct (task_step False gk x Hx) as [_ _ Hw]; [exact (Forall_lookup_1 _ _ _ _ Hgs Hk)|].
      unfold put_gen. destruct x as [[] gx]; [by destruct Hw|].
      exists g, (<[k := gx]> gs), p. cbn. rewrite Hgens. cbn. by rewrite length_insert.
  - rewrite Hgens in Hgens1. injection Hgens1 as <- <-. unfold main_waits.
    pose proof (notified_ready Main (g_notify g)) as E. rewrite (ut_permit _ _ Hut) in E.
    pose proof (notified_permit Main (g_notify g)) as E2.
    destruct (nt_notified Main (g_notify g)) as [ready n0]. cbn in E, E2. subst ready.
    exists (set_notify n0 g), gs, p. cbn. split_and!; [done|done|done|by right| |done|done].
    by eapply unreachable_same.
  - rewrite Hgens in Hk. destruct k as [|k]; cbn in Hk.
    + injection Hk as <-. exists (set_reload true g), gs, p. cbn. rewrite Hgens.
      split_and!; try done. by destruct Hut.
    + exists g, (<[k := set_reload true gk]> gs), p. cbn. rewrite Hgens. cbn.
      by rewrite length_insert.
  - by exists g, gs, p.
  - by exists g, gs, p.
Qed.

(** C25: When the configuration is reloaded while the ingest service is not in its
    [select!], as after it has just accepted a connection, the daemon hangs: in
    every state that can follow [main] waits for the shutdown of the ingest
    service, which never comes: no generation is started, Ctrl-C is not seen
    and the streams are never told to end. *)
Theorem missed_reload_hangs d g gs settings i d' :
  reachable own_certificate d → d_main d = MSelect → d_gens d = g :: gs →
  g_reload g = true → d_file d = Ok settings →
  g_workers g !! i = Some (IngestServer, Working) →
  rtc (Step own_certificate) (main_reloads settings g gs d) d' →
  (d_main d' = MNotify ∨ d_main d' = MWait) ∧
  ∃ g' gs', d_gens d' = g' :: gs' ∧ length gs' = length gs ∧ g_signal g' = g_signal g.
Proof.
  intros Hreach Hm Hgens Hr Hf Hi Hrun.
  assert (daemon_inv (main_reloads settings g gs d)) as Hinv.
  { eapply daemon_step_inv; [|by apply reachable_inv]. by apply StepReload. }
  assert (hangs i (length gs) (g_signal g) (main_reloads settings g gs d)) as Hh.
  { assert (g_workers (notify_all (set_reload false g)) !! i = Some (IngestServer, Working)) as Hi'.
    { unfold notify_all. destruct (nt_notify_waiters _) as [woken n0]. cbn.
      rewrite wake_all_lookup, Hi. by destruct (decide _). }
    exists (notify_all (set_reload false g)), gs, Working.
    split_and!; [done|done| |by left| |done|by left].
    - unfold notify_all. by destruct (nt_notify_waiters _).
    - destruct Hinv as (g1 & gs1 & [= <- <-] & _ & _ & Ht & _).
      eapply token_of_ingest; [|done|by left]. cbn in Ht. lia. }
  assert (hangs i (length gs) (g_signal g) d') as (g' & gs' & p & ? & ? & ? & ? & _).
  { clear Hreach Hm Hgens Hr Hf Hi. induction Hrun as [|d1 d2 d3 Hs _ IH]; [done|].
    apply IH; [by eapply daemon_step_inv|by eapply hangs_step]. }
  eauto 7.
Qed.

(** ** A task that misses the notification *)
Definition left_task (k i : nat) (r : Role) d : Prop :=
  ∃ g p, d_gens d !! S k = Some g ∧ g_workers g !! i = Some (r, p) ∧ untold p.

Lemma left_step k i r d d' :
  daemon_inv d → left_task k i r d → Step own_certificate d d' →
  ∃ n, length (d_gens d') = n + length (d_gens d) ∧ left_task (n + k) i r d'.
Proof.
  intros Hinv (g & p & Hk & Hi & Hp) Hstep.
  pose proof Hinv as (g1 & gs1 & Hgens & Hg & Hgs & Ht & Hts). rewrite Hgens in Hk. cbn in Hk.
  pose proof (no_tokens g i (Forall_lookup_1 _ _ _ _ Hts Hk)) as Hut.
  destruct Hstep as [k' gk x d Hk' Hx|g2 gs2 d Hm1 Hgens1|d Hm1|k' gk j q f d Hk' Hj Hq|f d
    |g2 gs2 st d Hm1 Hgens1 Hr Hf|g2 gs2 e d Hm1 Hgens1 Hr Hf|d|g2 gs2 d Hm1 Hgens1 Hc].
  - exists 0. split; [unfold put_gen; destruct x.1; cbn; by rewrite length_insert|]. cbn [Nat.add].
    assert (d_gens (put_gen k' x d) = <[k' := x.2]> (d_gens d)) as Hput
      by (unfold put_gen; by destruct x.1).
    destruct (decide (k' = S k)) as [->|Hne].
    + assert (gk = g) as -> by (rewrite Hgens in Hk'; cbn in Hk'; congruence).
      destruct (unreachable_kept _ _ _ _ _ Hx Hut Hi Hp) as (_ & _ & _ & p' & Hi' & Hp').
      exists x.2, p'. split_and!; [|done|done]. rewrite Hput. apply list_lookup_insert_eq.
      by eapply lookup_lt_Some.
    + exists g, p. split_and!; [|done|done]. rewrite Hput, list_lookup_insert_ne by done.
      by rewrite Hgens.
  - exists 0. rewrite Hgens in Hgens1. injection Hgens1 as <- <-. unfold main_waits.
    destruct (nt_notified Main (g_notify g1)) as [ready n]. cbn. rewrite Hgens.
    split; [done|]. by exists g, p.
  - unfold main_restarts. destruct (start_generation own_certificate (d_settings d)) as [gn|].
    + exists 1. split; [done|]. exists g, p. cbn. by rewrite Hgens.
    + exists 0. split; [done|]. exists g, p. cbn. by rewrite Hgens.
  - exists 0. cbn. rewrite length_insert. split; [done|]. destruct (decide (k' = S k)) as [->|Hne].
    + exists (set_reload true gk), p. cbn. rewrite list_lookup_insert_eq by (by eapply lookup_lt_Some).
      rewrite Hgens in Hk'. cbn in Hk'. rewrite Hk in Hk'. by injection Hk' as ->.
    + exists g, p. cbn. rewrite list_lookup_insert_ne by done. by rewrite Hgens.
  - exists 0. split; [done|]. exists g, p. cbn. by rewrite Hgens.
  - exists 0. rewrite Hgens in Hgens1. injection Hgens1 as <- <-. cbn. rewrite Hgens.
    split; [done|]. by exists g, p.
  - exists 0. rewrite Hgens in Hgens1. injection Hgens1 as <- <-. cbn. rewrite Hgens.
    split; [done|]. by exists g, p.
  - exists 0. split; [done|]. exists g, p. cbn. by rewrite Hgens.
  - exists 0. rewrite Hgens in Hgens1. injection Hgens1 as <- <-. cbn. rewrite Hgens.
    split; [done|]. by exists g, p.
Qed.

(** C29: A task of an earlier generation that missed the notification, because it
    was at work or its [select!] took another branch, is never told to stop,
    whatever happens: it goes on until it fails or has nothing to do, next to the
    tasks of the later generations. *)
Theorem left_behind d g k i r p d' :
  reachable own_certificate d → d_gens d !! S k = Some g → g_workers g !! i = Some (r, p) →
  p = Working ∨ p = Selecting → rtc (Step own_certificate) d d' →
  ∃ n g' p', length (d_gens d') = n + length (d_gens d) ∧ d_gens d' !! S (n + k) = Some g' ∧
    g_workers g' !! i = Some (r, p') ∧ p' ≠ Closing ∧ (∀ b, p' ≠ Woken b).
Proof.
  intros Hreach Hk Hi Hp Hrun. apply reachable_inv in Hreach.
  assert (left_task k i r d) as Hleft by (exists g, p; unfold untold; naive_solver).
  clear Hk Hi Hp. revert k Hleft. induction Hrun as [d|d1 d2 d3 Hs _ IH]; intros k Hleft.
  - destruct Hleft as (g' & p' & Hk & Hi & Hp). exists 0, g', p'.
    by destruct Hp as [->|[->| ->]].
  - destruct (left_step _ _ _ _ _ Hreach Hleft Hs) as (n & Hlen & Hleft').
    destruct (IH (daemon_step_inv _ _ Hs Hreach) _ Hleft') as (m & g' & p' & Hlen' & Hk & Hrest).
    exists (m + n), g', p'. split; [lia|]. by rewrite <- Nat.add_assoc.
Qed.

(** ** Quiet steps end *)
Definition phase_weight (p : Phase) : nat :=
  match p with Working => 4 | Selecting => 3 | Woken _ => 2 | Closing => 1 | Finished => 0 end.
Definition task_weight (x : Role * Phase) : nat := phase_weight x.2.
Definition gen_weight g : nat := sum_list_with task_weight (g_workers g).
(** More than five tasks that work *)
Definition main_weight (m : MainPhase) : nat :=
  match m with MNotify => 23 | MWait => 22 | MReboot => 21 | MSelect | MExit => 0 end.
Definition weight d : nat := sum_list_with gen_weight (d_gens d) + main_weight (d_main d).

Lemma set_phase_weight g i r p p' :
  g_workers g !! i = Some (r, p) →
  gen_weight (set_phase i r p' g) + phase_weight p = gen_weight g + phase_weight p'.
Proof. intros Hi. exact (sum_insert task_weight _ _ _ (r, p') Hi). Qed.

Lemma notify_first_weight g : gen_weight (notify_first g).2 ≤ gen_weight g.
Proof.
  unfold notify_first. destruct (nt_notify_one (g_notify g)) as [[[|i]|] n]; cbn; [done| |done].
  unfold gen_weight. cbn. destruct (g_workers g !! i) as [[r []]|] eqn:Hi; try done.
  pose proof (sum_insert task_weight _ _ _ (r, Woken true) Hi) as Hs. unfold task_weight in *.
  cbn in Hs. lia.
Qed.

Lemma quiet_task_weight g x : QuietTask g x → gen_weight x.2 < gen_weight g.
Proof.
  intros [g0 i r Hi|g0 i r b Hi|g0 i r Hi]; cbn [snd].
  - pose proof (set_phase_weight g0 i r Working Closing Hi) as Hc.
    pose proof (set_phase_weight g0 i r Working Selecting Hi) as Hs.
    unfold poll_worker. destruct (nt_notified (Worker i) (g_notify g0)) as [[] n];
      unfold gen_weight in *; cbn in *; lia.
  - pose proof (set_phase_weight g0 i r (Woken b) Closing Hi) as Hc. unfold gen_weight in *.
    cbn in *. lia.
  - pose proof (set_phase_weight g0 i r Closing Finished Hi) as Hc. unfold end_worker.
    destruct (notifies_one r); cbn [snd].
    + pose proof (notify_first_weight (set_phase i r Finished g0)). cbn in Hc. lia.
    + cbn in Hc. lia.
Qed.

Lemma quiet_weight d d' :
  daemon_inv d → Quiet own_certificate d d' → weight d' < weight d.
Proof.
  intros Hinv Hq. destruct Hq as [k g x d0 Hk Hx|g gs d0 Hm Hgens|d0 Hm].
  - pose proof (quiet_task_weight _ _ Hx) as Hw.
    pose proof (sum_insert gen_weight _ _ _ x.2 Hk) as Hs. unfold weight, put_gen.
    destruct x as [[] g']; cbn [fst snd] in *; [|cbn; lia].
    destruct Hinv as (g1 & gs & Hgens & Hg & Hgs & _).
    assert (d_main d0 = MWait) as ->; [|cbn; lia]. rewrite Hgens in Hk. destruct k as [|k]; cbn in Hk.
    + injection Hk as ->. destruct (task_step _ _ _ (TaskQuiet _ _ Hx) Hg) as [_ _ Hmain]. by apply Hmain.
    + destruct (task_step False _ _ (TaskQuiet _ _ Hx)) as [_ _ Hmain];
        [exact (Forall_lookup_1 _ _ _ _ Hgs Hk)|]. by destruct Hmain.
  - unfold weight, main_waits. rewrite Hgens, Hm.
    destruct (nt_notified Main (g_notify g)) as [[] n]; cbn; rewrite !sum_cons; unfold gen_weight;
      cbn; lia.
  - unfold weight, main_restarts. rewrite Hm.
    destruct (start_generation own_certificate (d_settings d0)) as [g|] eqn:E; cbn; [|lia].
    destruct (start_generation_inv _ _ E) as (_ & _ & _ & _ & Hall & Hlen).
    rewrite sum_cons. enough (gen_weight g ≤ 20) by lia. unfold gen_weight.
    enough (sum_list_with task_weight (g_workers g) = 4 * length (g_workers g)) by lia.
    clear -Hall. induction Hall as [|[r p] ws Hp _ IH]; [done|]. rewrite sum_cons, IH. cbn in *.
    subst p. cbn. lia.
Qed.

Lemma quiet_ends d : daemon_inv d → sn (Quiet own_certificate) d.
Proof.
  remember (weight d) as n eqn:Hn. revert d Hn.
  induction (lt_wf n) as [n _ IH]; intros d -> Hinv. constructor. intros d' Hq.
  eapply IH; [by apply quiet_weight|done|]. by eapply daemon_step_inv, Hinv; apply quiet_step.
Qed.

(** ** A restart every task hears of *)
Definition phase_down (x : Role * Phase) : Prop :=
  x.2 = Woken false ∨ x.2 = Closing ∨ x.2 = Finished.
Definition signalled (i : nat) g : Prop :=
  ∀ p, g_workers g !! i = Some (IngestServer, p) → p ≠ Woken false → g_signal g = true.

(** A generation in which every task shuts down; task [i] is its ingest service. *)
Record going_down (i : nat) g : Prop := {
  gd_phases : Forall phase_down (g_workers g);
  gd_signal : signalled i g;
  gd_ingest : ∃ p, g_workers g !! i = Some (IngestServer, p);
}.

Lemma down_phase j g i r p p' :
  going_down j g → g_workers g !! i = Some (r, p) → phase_down (r, p') →
  (i = j → r = IngestServer → p' ≠ Woken false → g_signal g = true) → going_down j (set_phase i r p' g).
Proof.
  intros [Hd Hs (q & Hj)] Hi Hp' Hsig. split; cbn.
  - by apply Forall_insert.
  - intros q' Hk. cbn in Hk. destruct (decide (i = j)) as [<-|Hne].
    + rewrite list_lookup_insert_eq in Hk by (by eapply lookup_lt_Some). injection Hk as -> <-. auto.
    + rewrite list_lookup_insert_ne in Hk by done. by eapply Hs.
  - destruct (decide (i = j)) as [<-|Hne].
    + rewrite list_lookup_insert_eq by (by eapply lookup_lt_Some). rewrite Hi in Hj.
      injection Hj as -> _. eauto.
    + rewrite list_lookup_insert_ne by done. eauto.
Qed.

Lemma down_waiters P j g : gen_inv P g → going_down j g → ∀ i, Worker i ∉ nt_waiters (g_notify g).
Proof.
  intros [_ Hw _] [Hd _ _] i Hin. apply Hw in Hin as [r Hi].
  destruct (Forall_lookup_1 _ _ _ _ Hd Hi) as [?|[?|?]]; done.
Qed.

Lemma down_ended j g i r :
  going_down j g → g_workers g !! i = Some (r, Closing) → going_down j (set_phase i r Finished g).
Proof.
  intros Hd Hi. eapply down_phase; [done|done|by right; right|].
  intros <- -> _. eapply (gd_signal _ _ Hd); [exact Hi|done].
Qed.

Lemma down_step P j g x :
  QuietTask g x → gen_inv P g → going_down j g → tokens g ≤ 1 →
  going_down j x.2 ∧ tokens x.2 + b2n x.1 = tokens g ∧
  (nt_permit (g_notify g) = false → P → nt_permit (g_notify x.2) = false).
Proof.
  intros Hstep Hg Hd Ht. pose proof (down_waiters _ _ _ Hg Hd) as Hnw.
  destruct Hstep as [g i r Hi|g i r b Hi|g i r Hi]; cbn [fst snd].
  - destruct (Forall_lookup_1 _ _ _ _ (gd_phases _ _ Hd) Hi) as [?|[?|?]]; done.
  - assert (b = false) as ->
      by (by destruct (Forall_lookup_1 _ _ _ _ (gd_phases _ _ Hd) Hi) as [[=]|[?|?]]).
    pose proof (tokens_phase g i r (Woken false) Closing Hi) as Htk. split_and!.
    + unfold close_worker. eapply down_phase; [|exact Hi|by right; left|].
      * destruct Hd as [H1 H2 H3]. split; [done| |done]. intros p Hj Hp. cbn in *.
        by rewrite (H2 _ Hj Hp).
      * intros _ -> _. cbn. by rewrite orb_true_r.
    + unfold tokens, worker_token in *. cbn in *. lia.
    + done.
  - pose proof (tokens_phase g i r Closing Finished Hi) as Htk.
    pose proof (down_ended _ _ _ _ Hd Hi) as Hd'. unfold end_worker.
    unfold worker_token in Htk. cbn [fst snd] in Htk.
    destruct (notifies_one r) eqn:Hr; cbn [b2n] in Htk; [|split_and!; [done|cbn; lia|done]].
    assert (nt_permit (g_notify g) = false) as Hperm.
    { pose proof (sum_lookup worker_token _ _ _ Hi) as Hle. unfold worker_token in Hle at 1.
      cbn in Hle. rewrite Hr in Hle. unfold tokens in Ht.
      destruct (nt_permit (g_notify g)); [cbn in *; lia|done]. }
    unfold notify_first. cbn [g_notify set_phase set_workers].
    pose proof (notify_one_woken (g_notify g)) as E1.
    pose proof (notify_one_permit (g_notify g)) as E3.
    destruct (nt_notify_one (g_notify g)) as [woken n]. cbn [fst snd] in E1, E3. subst woken.
    destruct (nt_waiters (g_notify g)) as [|[|j0] l] eqn:El; cbn [head].
    + split_and!; [by destruct Hd'|unfold tokens in *; cbn in *; rewrite E3, Hperm in *; cbn in *; lia|].
      intros _ HP. apply (gi_main _ _ Hg) in HP. rewrite El in HP. by apply not_elem_of_nil in HP.
    + rewrite bool_decide_eq_true_2 by done.
      split_and!; [by destruct Hd'| |cbn; by rewrite E3].
      unfold tokens in *. cbn in *. rewrite E3, Hperm in *. cbn in *. lia.
    + destruct (Hnw j0). left.
Qed.

Section restart.
Variables (st : Settings) (gn : Generation) (ing : nat).
Hypothesis Hstart : start_generation own_certificate st = Ok gn.

Definition shutting d : Prop :=
  ∃ g gs, d_gens d = g :: gs ∧ d_settings d = st ∧ going_down ing g ∧
    (d_main d = MNotify ∨ (d_main d = MWait ∧ nt_permit (g_notify g) = false) ∨ d_main d = MReboot) ∧
    tokens g + main_token (d_main d) = 1.

Definition restarted d : Prop :=
  ∃ g1 g gs, d_gens d = g1 :: g :: gs ∧ d_main d = MSelect ∧ d_settings d = st ∧
    going_down ing g ∧ g_signal g = true ∧ nt_permit (g_notify g1) = false ∧
    (g_workers g1).*1 = (g_workers gn).*1 ∧
    Forall (λ x, x.2 = Working ∨ x.2 = Selecting) (g_workers g1).

Lemma down_no_tokens g : going_down ing g → tokens g = 0 → g_signal g = true.
Proof.
  intros [_ Hs (p & Hi)] Ht. apply (Hs _ Hi). intros ->.
  pose proof (sum_lookup worker_token _ _ _ Hi) as Hle. unfold worker_token in Hle at 1.
  unfold tokens in Ht. cbn in Hle. lia.
Qed.

Lemma shutting_task k gk x d :
  daemon_inv d → d_gens d !! k = Some gk → QuietTask gk x → shutting d → shutting (put_gen k x d).
Proof.
  intros (g1 & gs1 & Hgens1 & Hg & Hgs & Ht & Hts) Hk Hx (g & gs & Hgens & Hset & Hd & Hm & Htk).
  rewrite Hgens1 in Hk. rewrite Hgens in Hgens1. injection Hgens1 as <- <-.
  destruct k as [|k]; cbn in Hk.
  - injection Hk as <-. destruct (down_step _ _ _ _ Hx Hg Hd ltac:(lia)) as (Hd' & Htk' & Hp').
    destruct (task_step _ _ _ (TaskQuiet _ _ Hx) Hg) as [_ _ Hw].
    unfold put_gen. exists x.2, gs. rewrite Hgens. destruct x as [[] g']; cbn in *.
    + rewrite (Hw eq_refl) in Htk. cbn in Htk. split_and!; [done|done|done|by right; right|lia].
    + split_and!; [done|done|done| |lia]. destruct Hm as [Hm|[[Hm Hp]|Hm]]; naive_solver.
  - destruct (task_step False _ _ (TaskQuiet _ _ Hx)) as [_ _ Hw];
      [exact (Forall_lookup_1 _ _ _ _ Hgs Hk)|]. destruct x as [[] g']; [by destruct Hw|].
    exists g, (<[k := g']> gs). cbn. by rewrite Hgens.
Qed.

Lemma restarted_task k gk x d :
  daemon_inv d → d_gens d !! k = Some gk → QuietTask gk x → restarted d → restarted (put_gen k x d).
Proof.
  intros (g1 & gs1 & Hgens1 & Hg & Hgs & Ht & Hts) Hk Hx
    (gh & g & gs & Hgens & Hm & Hset & Hd & Hs & Hperm & Hroles & Hph).
  rewrite Hgens1 in Hk. rewrite Hgens in Hgens1. injection Hgens1 as <- <-.
  apply Forall_cons in Hgs as [Hgg Hgs]. apply Forall_cons in Hts as [Htg _].
  destruct k as [|[|k]]; cbn in Hk.
  - injection Hk as <-. destruct Hx as [gh i r Hi|gh i r b Hi|gh i r Hi];
      try (destruct (Forall_lookup_1 _ _ _ _ Hph Hi) as [?|?]; done).
    unfold put_gen. cbn [fst snd]. unfold poll_worker.
    pose proof (notified_ready (Worker i) (g_notify gh)) as E1.
    pose proof (notified_permit (Worker i) (g_notify gh)) as E2. rewrite Hperm in E1.
    destruct (nt_notified (Worker i) (g_notify gh)) as [ready n]. cbn [fst snd] in *. subst ready.
    exists (set_phase i r Selecting (set_notify n gh)), g, gs. cbn. rewrite Hgens.
    split_and!; try done.
    + rewrite list_fmap_insert, list_insert_id; [done|]. by rewrite list_lookup_fmap, Hi.
    + apply Forall_insert; [done|]. by right.
  - injection Hk as <-. destruct (down_step _ _ _ _ Hx Hgg Hd ltac:(lia)) as (Hd' & Htk' & _).
    unfold put_gen. destruct x as [[] g']; cbn in Htk'; [lia|].
    exists gh, g', gs. cbn. rewrite Hgens. split_and!; try done.
    apply down_no_tokens; [done|]. cbn. lia.
  - destruct (task_step False _ _ (TaskQuiet _ _ Hx)) as [_ _ Hw];
      [exact (Forall_lookup_1 _ _ _ _ Hgs Hk)|]. destruct x as [[] g']; [by destruct Hw|].
    exists gh, g, (<[k := g']> gs). cbn. by rewrite Hgens.
Qed.

Lemma restart_step d d' :
  daemon_inv d → shutting d ∨ restarted d → Quiet own_certificate d d' → shutting d' ∨ restarted d'.
Proof.
  intros Hinv Hst Hq. destruct Hq as [k gk x d Hk Hx|g1 gs1 d Hm Hgens1|d Hm].
  - destruct Hst as [Hst|Hst]; [left; by eapply shutting_task|right; by eapply restarted_task].
  - destruct Hst as [(g & gs & Hgens & Hset & Hd & _ & Htk)|(? & ? & ? & _ & ? & _)]; [|congruence].
    left. rewrite Hgens in Hgens1. injection Hgens1 as <- <-. rewrite Hm in Htk. cbn in Htk.
    unfold main_waits.
    pose proof (notified_ready Main (g_notify g)) as E1.
    pose proof (notified_permit Main (g_notify g)) as E2.
    destruct (nt_notified Main (g_notify g)) as [ready n]. cbn [fst snd] in *. subst ready.
    exists (set_notify n g), gs. unfold tokens in *.
    destruct (nt_permit (g_notify g)); cbn in *; rewrite E2; cbn; (split_and!; [done|done|by destruct Hd| |lia]).
    + by right; right.
    + by right; left.
  - destruct Hst as [(g & gs & Hgens & Hset & Hd & _ & Htk)|(? & ? & ? & _ & ? & _)]; [|congruence].
    right. rewrite Hm in Htk. cbn in Htk. unfold main_restarts. rewrite Hset, Hstart.
    destruct (start_generation_inv _ _ Hstart) as (_ & _ & Hp & _ & Hall & _).
    exists gn, g, gs. cbn. rewrite Hgens. split_and!; try done.
    + apply down_no_tokens; [done|lia].
    + eapply Forall_impl; [exact Hall|]. intros y Hy. by left.
Qed.

Lemma down_at_rest k g d :
  d_gens d !! k = Some g → going_down ing g → nf (Quiet own_certificate) d →
  Forall (λ x, x.2 = Finished) (g_workers g).
Proof.
  intros Hk Hd Hnf. apply Forall_lookup_2. intros i [r p] Hi.
  destruct (Forall_lookup_1 _ _ _ _ (gd_phases _ _ Hd) Hi) as [E|[E|E]]; cbn in E; subst p; [| |done].
  - destruct Hnf. eexists. eapply QuietStep; [done|]. by eapply TaskCloses.
  - destruct Hnf. eexists. eapply QuietStep; [done|]. by eapply TaskEnds.
Qed.

Lemma all_finished_tokens g :
  Forall (λ x, x.2 = Finished) (g_workers g) → tokens g = b2n (nt_permit (g_notify g)).
Proof.
  intros Hall. unfold tokens. enough (sum_list_with worker_token (g_workers g) = 0) by lia.
  induction Hall as [|[r p] ws Hp _ IH]; [done|]. rewrite sum_cons, IH. cbn in Hp. by subst p.
Qed.

Lemma restart_at_rest d :
  shutting d ∨ restarted d → nf (Quiet own_certificate) d →
  d_main d = MSelect ∧ d_settings d = st ∧
  ∃ g1 g gs, d_gens d = g1 :: g :: gs ∧ g_signal g = true ∧
    g_workers g1 = (λ x, (x.1, Selecting)) <$> g_workers gn ∧
    Forall (λ x, x.2 = Finished) (g_workers g).
Proof.
  intros [(g & gs & Hgens & Hset & Hd & Hm & Htk)|
    (g1 & g & gs & Hgens & Hm & Hset & Hd & Hs & Hperm & Hroles & Hph)] Hnf.
  - exfalso. destruct Hm as [Hm|[[Hm Hperm]|Hm]].
    + apply Hnf. eexists. by eapply QuietWaits.
    + assert (d_gens d !! 0 = Some g) as Hk by (by rewrite Hgens).
      pose proof (down_at_rest _ _ _ Hk Hd Hnf) as Hall.
      by rewrite (all_finished_tokens _ Hall), Hperm, Hm in Htk.
    + apply Hnf. eexists. by apply QuietRestarts.
  - split_and!; [done|done|]. exists g1, g, gs. split_and!; [done|done| |].
    + assert (Forall (λ x, x.2 = Selecting) (g_workers g1)) as Hsel.
      { apply Forall_lookup_2. intros i [r p] Hi.
        destruct (Forall_lookup_1 _ _ _ _ Hph Hi) as [E|E]; cbn in E; subst p; [|done].
        destruct Hnf. eexists. eapply (QuietStep _ 0); [by rewrite Hgens|]. by eapply TaskPolls. }
      transitivity ((λ r, (r, Selecting)) <$> (g_workers gn).*1); [|by rewrite <- list_fmap_compose].
      rewrite <- Hroles.
      clear -Hsel. induction Hsel as [|[r p] ws Hp _ IH]; [done|]. rewrite !fmap_cons, <- IH.
      cbn in Hp. by subst p.
    + eapply (down_at_rest 1); [by rewrite Hgens|done|done].
Qed.
End restart.

(** C21: When the configuration is reloaded while every task of the current
    generation is in its [select!] or has returned, the restart ends, and ends
    well, in whatever order the tasks take their steps as long as nothing comes
    from outside: every task of the old generation has returned, the streams
    of the ingest service were told to end, and a generation with the new
    settings waits for events. *)
Theorem reload_restarts d g gs st gn i :
  reachable own_certificate d → d_main d = MSelect → d_gens d = g :: gs →
  g_reload g = true → d_file d = Ok st → start_generation own_certificate st = Ok gn →
  Forall (λ x, x.2 = Selecting ∨ x.2 = Finished) (g_workers g) →
  g_workers g !! i = Some (IngestServer, Selecting) →
  Step own_certificate d (main_reloads st g gs d) ∧
  sn (Quiet own_certificate) (main_reloads st g gs d) ∧
  ∀ d', rtc (Quiet own_certificate) (main_reloads st g gs d) d' → nf (Quiet own_certificate) d' →
    d_main d' = MSelect ∧ d_settings d' = st ∧
    ∃ g1 g' gs', d_gens d' = g1 :: g' :: gs' ∧ g_signal g' = true ∧
      g_workers g1 = (λ x, (x.1, Selecting)) <$> g_workers gn ∧
      Forall (λ x, x.2 = Finished) (g_workers g').
Proof.
  intros Hreach Hm Hgens Hr Hf Hstart Hall Hi.
  assert (Step own_certificate d (main_reloads st g gs d)) as Hstep by (by apply StepReload).
  pose proof (reachable_inv _ Hreach) as Hinv. pose proof (daemon_step_inv _ _ Hstep Hinv) as Hinv'.
  assert (shutting st i (main_reloads st g gs d)) as Hsh.
  { destruct Hinv as (g0 & gs0 & Hgens0 & Hg & _ & Ht & _). rewrite Hgens in Hgens0.
    injection Hgens0 as <- <-. exists (notify_all (set_reload false g)), gs.
    destruct (notify_all_inv _ _ (gen_inv_reload _ false _ Hg)) as [_ Htk].
    pose proof (sum_lookup worker_token _ _ _ Hi) as Hle.
    split_and!; [done|done| |by left|].
    2: { rewrite Htk. unfold tokens, worker_token in *. cbn in *. lia. }
    assert (∀ j x, g_workers (notify_all (set_reload false g)) !! j = Some x →
      g_workers g !! j = Some x ∧ x.2 = Finished ∨ g_workers g !! j = Some (x.1, Selecting) ∧ x.2 = Woken false)
      as Hj.
    { intros j [r p]. unfold notify_all.
      pose proof (notify_waiters_woken (g_notify g)) as E.
      destruct (nt_notify_waiters (g_notify (set_reload false g))) as [woken n] eqn:En.
      cbn in En. rewrite En in E. cbn in E. subst woken. cbn. rewrite wake_all_lookup. intros Hj.
      destruct (g_workers g !! j) as [[r' p']|] eqn:Hj'; [|by destruct (decide _)].
      destruct (Forall_lookup_1 _ _ _ _ Hall Hj') as [E|E]; cbn in E; subst p'.
      - rewrite decide_True in Hj by (apply (gi_worker _ _ Hg); eauto). injection Hj as <- <-. by right.
      - left. by destruct (decide _); injection Hj as <- <-. }
    split.
    - apply Forall_lookup_2. intros j x Hx. destruct (Hj j x Hx) as [[_ ?]|[_ ?]]; [by right; right|by left].
    - intros p Hx Hp. destruct (Hj i _ Hx) as [[Hx' E]|[_ ?]]; [|done]. cbn in E. congruence.
    - destruct (g_workers (notify_all (set_reload false g)) !! i) as [x|] eqn:Ex.
      + exists x.2. destruct (Hj i x Ex) as [[Hx _]|[Hx _]]; rewrite Hi in Hx;
          destruct x; naive_solver.
      + exfalso. unfold notify_all in Ex. destruct (nt_notify_waiters _) as [woken n]. cbn in Ex.
        rewrite wake_all_lookup, Hi in Ex. by destruct (decide _). }
  split_and!; [done|by apply quiet_ends|]. intros d' Hrun Hnf.
  apply (restart_at_rest st gn i); [|done].
  assert (daemon_inv d' ∧ (shutting st i d' ∨ restarted st gn i d')) as [_ ?]; [|done].
  clear Hnf. assert (shutting st i (main_reloads st g gs d) ∨ restarted st gn i (main_reloads st g gs d)) as Hs
    by (by left). clear Hsh Hstep. induction Hrun as [|d1 d2 d3 Hq _ IH]; [done|]. apply IH.
  - by eapply daemon_step_inv; [apply quiet_step|].
  - by eapply restart_step.
Qed.
End spec.
