(* ===== verification/LifecycleDemo.v ===== *)
(** * Runs of the daemon that meet the hypotheses of [LifecycleSpec] *)

From Stdlib Require Import ZArith.
From stdpp Require Import relations.
From S2P Require Import Prelude Bytes NetAddr SocketAddr Peer Lifecycle LifecycleSpec.

#[local] Open Scope nat_scope.

Definition demo_certificate : result (string * string) := Ok ("giganto", "node1").

Definition demo_settings (retention : Z) : Settings :=
  Settings.mk "cert.pem" "key.pem" [] (SV4 0 38370) (SV4 0 38371) "db" retention (SV4 0 8443)
    "logs" "export" 8000 512 "config.toml" None None.

(** A generation with its four tasks in the given phases *)
Definition demo_gen (n : bool * list Waiter) (reload signal : bool) (web retention publish ingest : Phase) :
    Generation :=
  mk_gen n reload signal
    [(Web, web); (Retention, retention); (PublishServer, publish); (IngestServer, ingest)].

Definition demo_daemon (main : MainPhase) (settings : Z) (gens : list Generation) : Daemon :=
  mk_daemon main (demo_settings settings) (Ok (demo_settings 50)) false gens.
Definition demo_start : Daemon :=
  mk_daemon MSelect (demo_settings 100) (Ok (demo_settings 100)) false
    [demo_gen (false, []) false false Working Working Working Working].

Lemma demo_started : start_daemon demo_certificate (demo_settings 100) = Ok demo_start.
Proof. reflexivity. Qed.

(** The configuration is changed right after the start. *)
Definition demo_changed : Daemon :=
  demo_daemon MSelect 100 [demo_gen (false, []) true false Working Working Working Working].

Lemma demo_changed_run : rtc (Step demo_certificate) demo_start demo_changed.
Proof.
  apply rtc_once.
  exact (StepConfig demo_certificate 0 _ 0 Working (Ok (demo_settings 50)) demo_start eq_refl eq_refl
    ltac:(done)).
Qed.

Lemma demo_changed_reachable : reachable demo_certificate demo_changed.
Proof. exists (demo_settings 100), demo_start. split; [reflexivity|exact demo_changed_run]. Qed.

(** One quiet step of task [i] of generation [k] *)
Ltac task_steps k i rule :=
  eapply rtc_l;
  [eapply (StepTask _ k); [reflexivity|apply TaskQuiet; eapply (rule _ _ i); reflexivity]|].

(** All tasks, or all but the retention task, have come to their [select!]. *)
Definition demo_ready (retention : Phase) (ws : list Waiter) : Daemon :=
  demo_daemon MSelect 100 [demo_gen (false, ws) true false Selecting retention Selecting Selecting].

Lemma demo_all_ready :
  reachable demo_certificate (demo_ready Selecting [Worker 0; Worker 1; Worker 2; Worker 3]).
Proof.
  exists (demo_settings 100), demo_start. split; [reflexivity|].
  etransitivity; [exact demo_changed_run|].
  task_steps 0 0 @TaskPolls. task_steps 0 1 @TaskPolls. task_steps 0 2 @TaskPolls.
  task_steps 0 3 @TaskPolls. apply rtc_refl.
Qed.

(** The retention task is at work during the reload, and the others restart. *)
Definition demo_restarted : Daemon :=
  demo_daemon MSelect 50
    [demo_gen (false, []) false false Working Working Working Working;
     demo_gen (false, []) false true (Woken false) Working (Woken false) Finished].

Lemma demo_restarted_reachable : reachable demo_certificate demo_restarted.
Proof.
  exists (demo_settings 100), demo_start. split; [reflexivity|].
  etransitivity; [exact demo_changed_run|].
  task_steps 0 0 @TaskPolls. task_steps 0 2 @TaskPolls. task_steps 0 3 @TaskPolls.
  eapply rtc_l; [by eapply StepReload|]. eapply rtc_l; [by eapply StepWaits|].
  task_steps 0 3 @TaskCloses. task_steps 0 3 @TaskEnds.
  eapply rtc_l; [by apply StepRestarts|]. apply rtc_refl.
Qed.

(** The generation every run starts with *)
Definition demo_first : Generation :=
  demo_gen (false, []) false false Working Working Working Working.
Definition demo_waiting : Generation :=
  demo_gen (false, [Worker 0; Worker 1; Worker 2; Worker 3]) true false
    Selecting Selecting Selecting Selecting.

Lemma reload_restarts_witness :
  let d := demo_ready Selecting [Worker 0; Worker 1; Worker 2; Worker 3] in
  let d1 := main_reloads (demo_settings 50) demo_waiting [] d in
  reachable demo_certificate d ∧ sn (Quiet demo_certificate) d1 ∧
  ∀ d', rtc (Quiet demo_certificate) d1 d' → nf (Quiet demo_certificate) d' →
    d_main d' = MSelect ∧ d_settings d' = demo_settings 50.
Proof.
  intros d d1. split; [exact demo_all_ready|].
  destruct (reload_restarts demo_certificate d demo_waiting [] (demo_settings 50) demo_first 3
    demo_all_ready eq_refl eq_refl eq_refl eq_refl eq_refl) as (_ & Hsn & Hend).
  - repeat (constructor; [by left|]). constructor.
  - reflexivity.
  - split; [exact Hsn|]. intros d' Hrun Hnf. destruct (Hend d' Hrun Hnf) as (H1 & H2 & _). by split.
Defined.

Lemma missed_reload_hangs_witness :
  reachable demo_certificate demo_changed ∧
  let d := main_reloads (demo_settings 50) (demo_gen (false, []) true false Working Working Working Working)
             [] demo_changed in
  (d_main d = MNotify ∨ d_main d = MWait).
Proof.
  split; [exact demo_changed_reachable|].
  exact (proj1 (missed_reload_hangs demo_certificate demo_changed
    (demo_gen (false, []) true false Working Working Working Working) [] (demo_settings 50) 3 _
    demo_changed_reachable eq_refl eq_refl eq_refl eq_refl eq_refl (rtc_refl _ _))).
Defined.

Lemma left_behind_witness :
  reachable demo_certificate demo_restarted ∧
  ∃ p', p' ≠ Closing ∧ (∀ b, p' ≠ Woken b).
Proof.
  split; [exact demo_restarted_reachable|].
  destruct (left_behind demo_certificate demo_restarted _ 0 1 Retention Working demo_restarted
    demo_restarted_reachable eq_refl eq_refl (or_introl eq_refl) (rtc_refl _ _))
    as (n & g & p' & _ & _ & _ & H1 & H2).
  exists p'. split; [exact H1|exact H2].
Defined.
