(* ===== verification/Transport.v ===== *)
(** * Transport security (src/src/server.rs and the ways into the services)

    The TLS configurations of the servers and of the peer client, the name a
    connection gets from its certificate, and what [handle_connection] of the
    ingest and publish services, [server_connection] and [connect] of the peer
    service do before they serve a connection.  rustls, rustls_pemfile,
    x509_parser, quinn and the handshake of giganto-client are interfaces. *)

From Stdlib Require Import ZArith Lia.
From S2P Require Import Prelude Bytes Externals NetAddr SocketAddr Config Peer.
From S2P Require Import Storage Sources.

(** ** Interfaces *)

(** Certificates and keys in DER *)
Notation Certificate := bytes.
Notation PrivateKey := bytes.

(** rustls_pemfile *)
Inductive PemItem := PKCS8Key (key : bytes) | RSAKey (key : bytes) | OtherItem.
Class Pem := {
  pem_certs : bytes → result (list bytes);
  (** [read_one]: no item at the end of the file *)
  pem_read_one : bytes → result (option PemItem);
}.

(** rustls: the anchors of a [RootCertStore], whether a certificate chain and a
    key go together, and whether a chain leads to an anchor. *)
Class Rustls := {
  TrustAnchor : Type;
  root_add : Certificate → result TrustAnchor;
  own_cert : list Certificate → PrivateKey → result unit;
  leads_to : TrustAnchor → list Certificate → bool;
}.

(** x509_parser: the common names of the subject, each a string or not *)
Class X509 := x509_common_names : Certificate → result (list (option string)).

(** ** Configurations *)
Definition SERVER_REBOOT_DELAY : Z := 3000.
Definition SERVER_ENDPOINT_DELAY : Z := 300.
Definition SERVER_CONNNECTION_DELAY : Z := 200.
Definition KEEP_ALIVE_INTERVAL : Z := 5000.

Section config.
Context `{Pem} `{Rustls}.

Record ServerConfig := mk_server_config {
  sc_client_auth_roots : list TrustAnchor;
  sc_certs : list Certificate;
  sc_key : PrivateKey;
  sc_max_concurrent_uni_streams : Z;
}.
Record ClientConfig := mk_client_config {
  cc_roots : list TrustAnchor;
  cc_certs : list Certificate;
  cc_key : PrivateKey;
  cc_keep_alive_interval : option Z;
}.

(** One round of the loop over the files: [root_cert.get(0)] *)
Definition add_root (file : bytes) (roots : list TrustAnchor) : result (list TrustAnchor) :=
  root_cert ← map_err "invalid PEM-encoded certificate" (pem_certs file);
  match root_cert with
  | [] => Ok roots
  | cert :: _ =>
      anchor ← map_err "failed to add client auth root cert" (root_add cert);
      Ok (roots ++ [anchor])
  end.
Fixpoint add_roots (files : list bytes) (roots : list TrustAnchor) : result (list TrustAnchor) :=
  match files with
  | [] => Ok roots
  | file :: files => roots ← add_root file roots; add_roots files roots
  end.

Definition config_server (certs : list Certificate) (key : PrivateKey) (files : list bytes) :
    result ServerConfig :=
  client_auth_roots ← add_roots files [];
  _ ← map_err "server config error" (own_cert certs key);
  Ok (mk_server_config client_auth_roots certs key 0).

Definition config_client (cert : list Certificate) (key : PrivateKey) (files : list bytes) :
    result ClientConfig :=
  root_store ← add_roots files [];
  _ ← own_cert cert key;
  Ok (mk_client_config root_store cert key (Some KEEP_ALIVE_INTERVAL)).

(** [ingest::Server], [publish::Server]; [new] panics when the configuration
    fails. *)
Record Server := mk_server { server_config : ServerConfig; server_address : SocketAddr }.
Definition ingest_server_new (addr : SocketAddr) (certs : list Certificate) (key : PrivateKey)
    (files : list bytes) : result Server :=
  server_config ← map_err "server configuration error with cert, key or root"
    (config_server certs key files);
  Ok (mk_server server_config addr).
Definition publish_server_new (addr : SocketAddr) (certs : list Certificate) (key : PrivateKey)
    (files : list bytes) : result Server :=
  server_config ← map_err "server configuration error with cert, key or root"
    (config_server certs key files);
  Ok (mk_server server_config addr).

(** ** Names *)

(** [connection.peer_identity()] *)
Inductive Identity := Certificates (chain : list Certificate) | OtherIdentity.

Definition extract_cert_from_conn (identity : option Identity) : result (list Certificate) :=
  match identity with
  | None => Err "no peer identity"
  | Some OtherIdentity => Err "non-certificate identity"
  | Some (Certificates cert_info) => Ok cert_info
  end.

Context `{X509}.

(** The first common name of the first certificate *)
Definition certificate_subject (cert_info : list Certificate) : result string :=
  cert ← context "no certificate in identity" (head cert_info);
  names ← map_err "invalid X.509 certificate" (x509_common_names cert);
  context "the subject of the certificate is not valid" (mjoin (head names)).

(** The whole [certificate_info]: [Peer.certificate_info] splits the name. *)
Definition certs_info (cert_info : list Certificate) : result (string * string) :=
  certificate_info (certificate_subject cert_info).

(** [peer::Peer] *)
Record Peer := mk_peer {
  p_client_config : ClientConfig; p_server_config : ServerConfig;
  p_local_address : SocketAddr; p_local_host_name : string;
}.
(** [None]: it panics. *)
Definition peer_new (local_address : SocketAddr) (certs : list Certificate) (key : PrivateKey)
    (files : list bytes) : option (result Peer) :=
  match certs_info certs with
  | Err e => Some (Err e)
  | Ok (_, local_host_name) =>
      server_config ← result_ok (config_server certs key files);
      client_config ← result_ok (config_client certs key files);
      Some (Ok (mk_peer client_config server_config local_address local_host_name))
  end.

(** ** The way in *)

(** The verifier of [AllowAnyAuthenticatedClient]: a client has to show a chain
    that leads to one of the roots. *)
Definition client_accepted (config : ServerConfig) (chain : list Certificate) : bool :=
  existsb (λ anchor, leads_to anchor chain) (sc_client_auth_roots config).

(** What a client that wants to connect shows, how the version handshake with it
    ends, and finishing the stream of the handshake *)
Record Client := mk_client {
  cl_chain : list Certificate;
  cl_handshake : result unit;
  cl_finish : result unit;
}.

(** [conn.await?]: the TLS handshake, and the identity it gives *)
Definition tls_accept (config : ServerConfig) (c : Client) : result (option Identity) :=
  if client_accepted config (cl_chain c) then Ok (Some (Certificates (cl_chain c)))
  else Err "invalid client certificate".

(** How a connection starts: it is served, or ends with an error, and with a
    reason when it is closed explicitly. *)
Inductive Opening (A : Type) :=
| Served (a : A)
| Refused (close : option string) (e : string).
#[global] Arguments Served {A} a.
#[global] Arguments Refused {A} close e.

Definition opening {A} (r : result A) : Opening A :=
  match r with Ok a => Served a | Err e => Refused None e end.

(** [ingest::handle_connection] to the point where the source is known *)
Definition ingest_opening (config : ServerConfig) (c : Client) : Opening (string * string) :=
  match tls_accept config c with
  | Err e => Refused None e
  | Ok identity =>
      match cl_handshake c with
      | Err e => Refused (Some e) e
      | Ok _ =>
          opening (_ ← cl_finish c; certs ← extract_cert_from_conn identity; certs_info certs)
      end
  end.

(** [publish::handle_connection] to the point where the requests are served; the
    result is the name of the subscriber. *)
Definition publish_opening (config : ServerConfig) (c : Client) : Opening string :=
  match tls_accept config c with
  | Err e => Refused None e
  | Ok identity =>
      match cl_handshake c with
      | Err e => Refused (Some e) e
      | Ok _ => opening (snd <$> (certs ← extract_cert_from_conn identity; certs_info certs))
      end
  end.

(** [server_connection] up to the check for duplicates, which gets the connection
    with the name of its certificate *)
Definition peer_opening (config : ServerConfig) (c : Client) (id : nat) (ip : IpAddr) :
    Opening Connection :=
  match tls_accept config c with
  | Err e => Refused None e
  | Ok identity =>
      match cl_handshake c with
      | Err e => Refused (Some e) e
      | Ok _ => Served (mk_connection id ip
                  (certs ← extract_cert_from_conn identity; certificate_subject certs))
      end
  end.

(** The connection of a client registers its source ([Sources]). *)
Definition ingest_connect `{RocksDB} (config : ServerConfig) (c : Client) (conn : nat)
    (now : DateTime) (r : Registry) : Registry :=
  match ingest_opening config c with
  | Served (agent, source) => connection_opened conn agent source now r
  | Refused _ _ => r
  end.
End config.

(** ** Properties *)
Section spec.
Context `{Pem} `{Rustls} `{X509}.
Implicit Types (files : list bytes) (roots : list TrustAnchor).

(** The anchor of a root file: its first certificate *)
Definition file_anchor (file : bytes) (anchor : TrustAnchor) : Prop :=
  ∃ cert rest, pem_certs file = Ok (cert :: rest) ∧ root_add cert = Ok anchor.

Lemma add_root_ok file roots roots' :
  add_root file roots = Ok roots' →
  (pem_certs file = Ok [] ∧ roots' = roots) ∨
  ∃ anchor, file_anchor file anchor ∧ roots' = roots ++ [anchor].
Proof.
  unfold add_root. destruct (pem_certs file) as [[|cert rest]|] eqn:Hf; cbn; [|
    destruct (root_add cert) as [anchor|] eqn:Hr; cbn|]; try done; intros [= <-]; [by left|right].
  exists anchor. split; [by exists cert, rest|done].
Qed.

Lemma file_anchor_unique file a b : file_anchor file a → file_anchor file b → a = b.
Proof.
  intros (c & r & Hc & Ha) (c' & r' & Hc' & Hb). rewrite Hc in Hc'. injection Hc' as -> ->. congruence.
Qed.

Lemma add_roots_anchors files roots roots' anchor :
  add_roots files roots = Ok roots' →
  anchor ∈ roots' ↔ anchor ∈ roots ∨ ∃ file, file ∈ files ∧ file_anchor file anchor.
Proof.
  revert roots. induction files as [|file files IH]; intros roots; cbn.
  - intros [= ->]. split; [by left|]. intros [?|(file & ?%elem_of_nil & _)]; done.
  - destruct (add_root file roots) as [roots1|] eqn:Hf; [|done]. cbn.
    intros Hadd. rewrite (IH _ Hadd). apply add_root_ok in Hf as [[Hnone ->]|(a & Ha & ->)].
    + split; [intros [?|(f & ? & ?)]; [by left|right; exists f; split; [by right|done]]|].
      intros [?|(f & [->|?]%elem_of_cons & Hfa)]; [by left| |right; by exists f].
      destruct Hfa as (c & r & Hc & _). congruence.
    + rewrite elem_of_app, list_elem_of_singleton. split.
      * intros [[?| ->]|(f & ? & ?)]; [by left|right; exists file; split; [left|done]|].
        right. exists f. split; [by right|done].
      * intros [?|(f & [->|?]%elem_of_cons & Hfa)]; [left; by left|left; right|right; by exists f].
        by eapply file_anchor_unique.
Qed.

(** The files are fine: each is PEM, and its first certificate can be an anchor. *)
Definition file_ok (file : bytes) : Prop :=
  pem_certs file = Ok [] ∨ ∃ anchor, file_anchor file anchor.
Lemma add_roots_total files roots :
  is_ok (add_roots files roots) = true ↔ Forall file_ok files.
Proof.
  revert roots. induction files as [|file files IH]; intros roots; cbn.
  - split; [constructor|done].
  - rewrite Forall_cons. destruct (add_root file roots) as [roots1|] eqn:Hf; cbn.
    + rewrite IH. apply add_root_ok in Hf as [[? ->]|(a & ? & ->)]; unfold file_ok; naive_solver.
    + split; [done|]. intros [[Hn|(a & c & r & Hc & Ha)] _]; unfold add_root in Hf.
      * by rewrite Hn in Hf.
      * rewrite Hc in Hf. cbn in Hf. by rewrite Ha in Hf.
Qed.

Lemma config_server_roots certs key files config chain :
  config_server certs key files = Ok config →
  client_accepted config chain = true ↔
    ∃ file anchor, file ∈ files ∧ file_anchor file anchor ∧ leads_to anchor chain = true.
Proof.
  unfold config_server. destruct (add_roots files []) as [roots|] eqn:Hr; [|done]. cbn.
  destruct (own_cert certs key); [|done]. intros [= <-]. unfold client_accepted. cbn.
  rewrite existsb_exists. split.
  - intros (anchor & Hin%list_elem_of_In & Hl).
    apply (add_roots_anchors _ _ _ anchor Hr) in Hin as [?%elem_of_nil|(file & ? & ?)]; [done|].
    by exists file, anchor.
  - intros (file & anchor & ? & ? & ?). exists anchor. split; [|done].
    apply list_elem_of_In, (add_roots_anchors _ _ _ anchor Hr). right. by exists file.
Qed.

(** A server can be configured exactly when each root file is PEM whose first
    certificate can be an anchor (a file without certificates is passed over)
    and the own certificate and key go together; a client configuration has the
    same anchors, and is refused for the same files. *)
Theorem configs_agree certs key files :
  (is_ok (config_server certs key files) = true ↔
    Forall file_ok files ∧ is_ok (own_cert certs key) = true) ∧
  (is_ok (config_client certs key files) = is_ok (config_server certs key files)) ∧
  ∀ sc cc, config_server certs key files = Ok sc → config_client certs key files = Ok cc →
    cc_roots cc = sc_client_auth_roots sc.
Proof.
  unfold config_server, config_client. pose proof (add_roots_total files []) as Ht.
  destruct (add_roots files []) as [roots|]; cbn in *.
  - destruct (own_cert certs key) as [[]|]; cbn; split_and!; try done; try naive_solver.
  - split_and!; [naive_solver|done|done].
Qed.

(** C16: The source under whose name events are stored is authenticated: when a
    connection registers a source, its client has shown a chain that leads to
    the first certificate of one of the root files, speaks a compatible version,
    and the common name of its certificate is the agent and the source. *)
Theorem source_is_authenticated `{RocksDB} certs key files config c conn now r :
  config_server certs key files = Ok config →
  ingest_connect config c conn now r ≠ r →
  ∃ agent source subject,
    ingest_connect config c conn now r = connection_opened conn agent source now r ∧
    certificate_subject (cl_chain c) = Ok subject ∧
    certificate_info (Ok subject) = Ok (agent, source) ∧
    cl_handshake c = Ok tt ∧
    ∃ file anchor, file ∈ files ∧ file_anchor file anchor ∧ leads_to anchor (cl_chain c) = true.
Proof.
  intros Hc. unfold ingest_connect, ingest_opening, tls_accept, opening, certs_info.
  destruct (client_accepted config (cl_chain c)) eqn:Ha; [|done].
  destruct (cl_handshake c) as [[]|]; [|done]. destruct (cl_finish c); [|done]. cbn.
  destruct (certificate_subject (cl_chain c)) as [subject|]; [|done].
  destruct (certificate_info (Ok subject)) as [[agent source]|] eqn:Hs; [|done].
  intros _. exists agent, source, subject. split_and!; [done..|].
  by apply (config_server_roots _ _ _ _ _ Hc).
Qed.

(** Only the first certificate of a root file counts: a client whose chain leads
    to none of the first certificates is refused by all three services, also
    when its own root is a later certificate of a file. *)
Theorem later_roots_refused certs key files config c id ip :
  config_server certs key files = Ok config →
  (∀ file anchor, file ∈ files → file_anchor file anchor → leads_to anchor (cl_chain c) = false) →
  (∃ e, ingest_opening config c = Refused None e) ∧
  (∃ e, publish_opening config c = Refused None e) ∧
  (∃ e, peer_opening config c id ip = Refused None e).
Proof.
  intros Hc Hno. assert (client_accepted config (cl_chain c) = false) as Ha.
  { apply not_true_is_false. rewrite (config_server_roots _ _ _ _ _ Hc).
    intros (file & anchor & Hf & Han & Hl). by rewrite (Hno file anchor Hf Han) in Hl. }
  unfold ingest_opening, publish_opening, peer_opening, tls_accept. rewrite Ha.
  split_and!; by eexists.
Qed.

(** The name in a certificate: [agent@host], and what follows a second at sign is
    not looked at. *)
Lemma split_at_sign_app a s :
  (split_at_sign a).2 = None → split_at_sign (a +:+ String (Ascii.ascii_of_nat 64) s) = (a, Some s).
Proof.
  induction a as [|ch a IH]; [done|].
  change (String ch a +:+ ?t) with (String ch (a +:+ t)). cbn [split_at_sign].
  destruct (Ascii.eqb ch _); [done|]. destruct (split_at_sign a) as [x o]. cbn [snd].
  intros Ho. by rewrite (IH Ho).
Qed.
Lemma split_no_sign a : (split_at_sign a).2 = None → (split_at_sign a).1 = a.
Proof.
  induction a as [|ch a IH]; [done|]. cbn [split_at_sign]. destruct (Ascii.eqb ch _); [done|].
  destruct (split_at_sign a) as [x o] eqn:E. cbn in *. intros Ho. by rewrite IH.
Qed.
Lemma certificate_info_name agent host :
  (split_at_sign agent).2 = None → (split_at_sign host).2 = None →
  certificate_info (Ok (agent +:+ "@" +:+ host)) = Ok (agent, host).
Proof.
  intros Ha Hh. cbn [certificate_info mbind result_bind].
  change ("@" +:+ host) with (String (Ascii.ascii_of_nat 64) host).
  rewrite split_at_sign_app by done. by rewrite split_no_sign.
Qed.
End spec.

(** ** Witnesses: each byte of a file is a certificate; the last certificate of a
    chain is its root. *)
#[local] Instance demo_pem : Pem := {|
  pem_certs b := Ok ((λ x, [x]) <$> b); pem_read_one _ := Ok None |}.
#[local] Instance demo_rustls : Rustls := {|
  TrustAnchor := bytes; root_add c := Ok c; own_cert _ _ := Ok tt;
  leads_to a chain := bool_decide (last chain = Some a) |}.
#[local] Instance demo_x509 : X509 := λ _, Ok [Some "piglet@src1"%string].

Definition demo_client (root : Byte.byte) : Client := mk_client [[Byte.x41]; [root]] (Ok tt) (Ok tt).
Definition demo_config : ServerConfig := mk_server_config [[Byte.x01]; [Byte.x03]] [[Byte.x09]] [] 0.

Lemma demo_configured :
  config_server [[Byte.x09]] [] [[Byte.x01; Byte.x02]; [Byte.x03]] = Ok demo_config.
Proof. reflexivity. Qed.

Lemma source_is_authenticated_witness :
  ∃ subject, certificate_subject (cl_chain (demo_client Byte.x01)) = Ok subject ∧
    certificate_info (Ok subject) = Ok ("piglet"%string, "src1"%string).
Proof.
  destruct (source_is_authenticated [[Byte.x09]] [] [[Byte.x01; Byte.x02]; [Byte.x03]] demo_config
    (demo_client Byte.x01) 1 (timestamp_nanos 5) demo_registry demo_configured)
    as (agent & source & subject & _ & Hs & Hi & _).
  - intros E. apply (f_equal (λ r, length (rg_queue r))) in E. discriminate E.
  - exists subject. split; [exact Hs|]. injection Hs as <-. reflexivity.
Defined.

Lemma later_roots_refused_witness :
  ∃ e, ingest_opening demo_config (demo_client Byte.x02) = Refused None e.
Proof.
  destruct (later_roots_refused [[Byte.x09]] [] [[Byte.x01; Byte.x02]; [Byte.x03]] demo_config
    (demo_client Byte.x02) 1 (V4 1) demo_configured) as [He _].
  - intros file anchor Hf (c & r & Hc & Ha).
    apply elem_of_cons in Hf as [->|Hf]; [|apply list_elem_of_singleton in Hf as ->];
      injection Hc as <- <-; injection Ha as <-; reflexivity.
  - exact He.
Defined.
