(* ===== verification/Startup.v ===== *)
(** * The start of the program (src/src/main.rs, Database::open of storage.rs)

    The command line, the certificate and key files, the options of the
    database, and [main] up to the point where the services are started.
    rustls_pemfile, the tracing subscriber and the opening of a database are
    interfaces. *)

From Stdlib Require Import ZArith Lia.
From S2P Require Import Prelude Bytes Externals NetAddr GigantoClient Events Storage.
From S2P Require Import StorageSpec Export SocketAddr Peer Migration MigrationSpec Lifecycle Transport.

(** ** [parse] *)
Definition line (s : string) : string := s +:+ String (Ascii.ascii_of_nat 10) "".
Definition USAGE : string :=
  line "USAGE:" +:+ line "    giganto [CONFIG]" +:+ line "" +:+ line "FLAGS:" +:+
  line "    -h, --help       Prints help information" +:+
  line "    -V, --version    Prints version information" +:+ line "" +:+ line "ARG:" +:+
  line "    <CONFIG>    A TOML config file".

Definition version : string := "giganto " +:+ CARGO_PKG_VERSION.

(** What [parse] gives or that it exits; what it wrote to the standard output and
    to the standard error. *)
Inductive Parsed := NoConfig | ConfigFile (path : string) (repair : bool) | ExitCode (code : Z).
Record Output := mk_output { out : string; err : string }.

Definition is_option (arg : string) : bool :=
  match arg with String c _ => Ascii.eqb c (Ascii.ascii_of_nat 45) | EmptyString => false end.

(** [args]: the arguments with the name of the program; what follows the third
    is not looked at. *)
Definition parse (args : list string) : Parsed * Output :=
  match args with
  | _ :: arg :: rest =>
      let '(repair, e) :=
        match rest with
        | [] => (false, "")
        | opt :: _ =>
            if bool_decide (opt = "--repair") then (true, "")
            else (false, line "Error: too many arguments")
        end in
      if bool_decide (arg = "--help") || bool_decide (arg = "-h")
      then (ExitCode 0, mk_output (line version +:+ line "" +:+ USAGE) e)
      else if bool_decide (arg = "--version") || bool_decide (arg = "-V")
      then (ExitCode 0, mk_output (line version) e)
      else if is_option arg
      then (ExitCode 1,
            mk_output "" (e +:+ line ("Error: unknown option: " +:+ arg) +:+ line "" +:+ line USAGE))
      else (ConfigFile arg repair, mk_output "" e)
  | _ => (NoConfig, mk_output "" "")
  end.

(** ** [to_hms], for a duration of whole seconds *)
Definition to_hms (total_sec : Z) : string :=
  let hours := total_sec / 3600 in
  let minutes := total_sec mod 3600 / 60 in
  let seconds := total_sec mod 60 in
  pad 2 (dec hours) +:+ ":" +:+ pad 2 (dec minutes) +:+ ":" +:+ pad 2 (dec seconds).

(** ** Certificate and key *)
Definition to_cert_chain `{Pem} (pem : bytes) : result (list bytes) :=
  certs ← map_err "cannot parse certificate chain" (pem_certs pem);
  match certs with [] => Err "no certificate found" | _ => Ok certs end.

Definition to_private_key `{Pem} (pem : bytes) : result bytes :=
  item ← map_err "cannot parse private key" (pem_read_one pem);
  item ← context "empty private key" item;
  match item with
  | PKCS8Key key | RSAKey key => Ok key
  | OtherItem => Err "unknown private key format"
  end.

(** ** The options of the database *)
Module DbOptions.
Record t := mk { max_open_files : Z; max_mb_of_level_base : Z }.
Definition default : t := mk 8000 512.
Definition new (max_open_files max_mb_of_level_base : Z) : t := mk max_open_files max_mb_of_level_base.
End DbOptions.
Notation DbOptions := DbOptions.t.

(** What is set on the two [Options] *)
Record DbOpts := mk_db_opts {
  create_if_missing : bool; create_missing_column_families : bool; set_max_open_files : Z;
  keep_log_file_num : Z; stats_dump_period_sec : Z; max_total_wal_size : Z;
  manual_wal_flush : bool; max_background_jobs : Z }.
Inductive Compression := Lz4 | Zstd.
Record CfOpts := mk_cf_opts {
  write_buffer_size : Z; max_bytes_for_level_base : Z; target_file_size_base : Z;
  target_file_size_multiplier : Z; compression_type : Compression;
  bottommost_compression_type : Compression; bottommost_zstd_max_train_bytes : Z * bool }.

(** The product is one of [u64]. *)
Definition rocksdb_options (o : DbOptions) : DbOpts * CfOpts :=
  let max_bytes := (DbOptions.max_mb_of_level_base o * 1024 * 1024) mod 2 ^ 64 in
  (mk_db_opts true true (DbOptions.max_open_files o) 10 3600 max_bytes true 6,
   mk_cf_opts (max_bytes / 4) max_bytes (max_bytes / 10) 10 Lz4 Zstd (0, true)).

(** [DB::open_cf_descriptors]: the column families and their options *)
Class OpenDB `{RocksDB} :=
  open_cf_descriptors : string → DbOpts → list (string * CfOpts) → result DB.

Section start.
Context `{RocksDB} `{!OpenDB}.

Definition database_open (path : string) (db_options : DbOptions) : result DB :=
  let '(db_opts, cf_opts) := rocksdb_options db_options in
  let cfs_name := RAW_DATA_COLUMN_FAMILY_NAMES ++ META_DATA_COLUMN_FAMILY_NAMES in
  let cfs := (λ name, (name, cf_opts)) <$> cfs_name in
  map_err "cannot open database" (open_cf_descriptors path db_opts cfs).

(** [properties_cf], by the values RocksDB gives; a failed call is an error *)
Record CfProperties := mk_cf_properties {
  estimate_live_data_size : Z; estimate_num_keys : Z; stats : string }.
Definition properties_cf (known : bool) (stats : result (option string))
    (size num_keys : result (option Z)) : result CfProperties :=
  if known then
    stats ← stats; size ← size; num_keys ← num_keys;
    Ok (mk_cf_properties (default 0 size) (default 0 num_keys) (default "invalid" stats))
  else Err "invalid record type name".

(** ** [main] *)
Context `{Semver} `{Bincode OldHttp} `{Bincode NewHttp} `{Pem}.
Variables (read : string → result bytes)
  (settings_new : result Settings) (settings_from_file : string → result Settings)
  (init_tracing : string → result unit)
  (data_dir_of : string → DataDir) (set_signal_handler : result unit).

(** How [main] gets on: it exits, repairs the database and exits, panics or
    returns an error, returns without an error though nothing runs, or starts
    the services. *)
Inductive Start :=
| Exits (code : Z)
| Repairs (db_opts : DbOpts) (path : string)
| Fails (msg : string)
| Gives_up
| Serves (settings : Settings) (cert : list bytes) (key : bytes) (roots : list bytes) (data : Data).

Definition or_fail {A} (r : result A) (k : A → Start) : Start :=
  match r with Ok a => k a | Err e => Fails e end.

Fixpoint read_all (paths : list string) : result (list bytes) :=
  match paths with
  | [] => Ok []
  | p :: ps => b ← map_err "Failed to read file" (read p); bs ← read_all ps; Ok (b :: bs)
  end.

(** [main] with the settings, to the outer loop *)
Definition run_settings (settings : Settings) (repair : bool) : Start :=
  or_fail (map_err "failed to read certificate file" (read (Settings.cert settings))) (λ cert_pem,
  or_fail (map_err "cannot read certificate chain" (to_cert_chain cert_pem)) (λ cert,
  or_fail (map_err "failed to read private key file" (read (Settings.key settings))) (λ key_pem,
  or_fail (map_err "cannot read private key" (to_private_key key_pem)) (λ key,
  or_fail (init_tracing (Settings.log_dir settings)) (λ _,
  let db_path := join (Settings.data_dir settings) "db" in
  let db_options := DbOptions.new (Settings.max_open_files settings) (Settings.max_mb_of_level_base settings) in
  if repair then Repairs (rocksdb_options db_options).1 db_path
  else
    or_fail (database_open db_path db_options) (λ db,
    or_fail (read_all (Settings.roots settings)) (λ roots,
    match migrate_data_dir (mk_data db (data_dir_of (Settings.data_dir settings))) with
    | Some (Ok _, data) =>
        or_fail (map_err "failed to set signal handler" set_signal_handler) (λ _,
        Serves settings cert key roots data)
    | Some (Err _, _) | None => Gives_up
    end))))))).

Definition main (args : list string) : Start :=
  match (parse args).1 with
  | ExitCode code => Exits code
  | ConfigFile path repair => or_fail (settings_from_file path) (λ s, run_settings s repair)
  | NoConfig => or_fail settings_new (λ s, run_settings s false)
  end.
End start.

(** ** Properties *)

(** A first argument that is no option is the configuration file; the second asks
    for a repair only if it is [--repair], and is otherwise complained about and
    ignored. *)
Lemma parse_config_file program path rest :
  is_option path = false →
  (parse (program :: path :: rest)).1 =
    ConfigFile path (bool_decide (head rest = Some "--repair"%string)).
Proof.
  intros Hp. unfold parse.
  rewrite !(bool_decide_eq_false_2 (path = _)) by (by intros ->). cbn [orb]. rewrite Hp.
  destruct rest as [|opt rest]; [done|]. cbn [head].
  destruct (decide (opt = "--repair"%string)) as [->|Hne]; [done|].
  rewrite !bool_decide_eq_false_2 by congruence. done.
Qed.

(** An option never starts the program; only those it knows exit with 0. *)
Lemma parse_option program arg rest :
  is_option arg = true →
  (parse (program :: arg :: rest)).1 =
    ExitCode (if bool_decide (arg ∈ ["--help"; "-h"; "--version"; "-V"]%string) then 0 else 1).
Proof.
  intros Ho. unfold parse.
  destruct (match rest with [] => _ | _ => _ end) as [repair e]. rewrite Ho.
  destruct (decide (arg ∈ ["--help"; "-h"; "--version"; "-V"]%string)) as [Hin|Hout].
  - rewrite (bool_decide_eq_true_2 (arg ∈ _)) by done.
    rewrite !elem_of_cons in Hin. destruct Hin as [->|[->|[->|[->|Hin]]]]; [done..|].
    by apply not_elem_of_nil in Hin.
  - rewrite (bool_decide_eq_false_2 (arg ∈ _)) by done.
    rewrite !bool_decide_eq_false_2; [done|intros ->; apply Hout; set_solver..].
Qed.

Section services.
Context `{RocksDBSpec} `{!OpenDB} `{SemverLaws} `{Bincode OldHttp} `{Bincode NewHttp} `{Pem}.

(** What a [VERSION] file says after a migration that succeeded *)
Definition compatible_data (s : Data) : Prop :=
  ∃ v, read_version_file (data_dir s) = Ok v ∧ req_matches req_compatible v = true.

Lemma created_compatible s r s' :
  on_dir (λ d, let '(r, d) := create_version_file d in (map_err "failed to update VERSION" r, d)) s =
    (r, s') → is_ok r = true → compatible_data s'.
Proof.
  unfold on_dir, create_version_file. destruct (dir_writable (data_dir s)); cbn; [|by intros [= <- <-]].
  intros [= <- <-] _. exists (release 0 15 3). unfold read_version_file. cbn.
  rewrite parse_current, matches_compatible. done.
Qed.

Lemma loop_compatible fuel table v s s' :
  migrate_loop fuel table req_compatible v s = Some (Ok tt, s') → compatible_data s'.
Proof.
  revert v s. induction fuel as [|fuel IH]; intros v s; [done|]. cbn [migrate_loop].
  destruct (find_migration table v) as [[to m]|]; [|done].
  destruct (on_db m s) as [[[]|e] s1]; [|done]. destruct (req_matches req_compatible to); [|by apply IH].
  destruct (on_dir _ s1) as [r s2] eqn:E. intros [= -> ->]. by eapply created_compatible.
Qed.

Lemma migrated_compatible s s' : migrate_data_dir s = Some (Ok tt, s') → compatible_data s'.
Proof.
  unfold migrate_data_dir, expect, map_err. rewrite parse_compatible.
  destruct (on_dir retrieve_or_create_version s) as [[v|e] s1] eqn:E; [|done].
  destruct (req_matches req_compatible v) eqn:Hv.
  - intros [= <-]. exists v. split; [|done]. unfold on_dir in E.
    destruct (retrieve_or_create_version (data_dir s)) as [r d] eqn:Er. injection E as -> <-.
    cbn [data_dir]. unfold retrieve_or_create_version, m_bind, m_gets in Er.
    destruct (create_dir (data_dir s)) as [[[]|] d1]; [|done].
    destruct (match dir_version d1 with Some _ => (Ok tt, d1) | None => create_version_file d1 end)
      as [[[]|] d2]; [|done]. injection Er as E1 <-. exact E1.
  - rewrite migration_table. apply loop_compatible.
Qed.

Variables (read : string → result bytes)
  (settings_new : result Settings) (settings_from_file : string → result Settings)
  (init_tracing : string → result unit)
  (data_dir_of : string → DataDir) (set_signal_handler : result unit).

Lemma read_all_length paths bs : read_all read paths = Ok bs → length bs = length paths.
Proof.
  revert bs. induction paths as [|p ps IH]; intros bs; cbn; [by intros [= <-]|].
  destruct (map_err _ (read p)); [|done]. cbn. destruct (read_all read ps); [|done]. cbn.
  intros [= <-]. cbn. by rewrite (IH _ eq_refl).
Qed.

Lemma served_settings s repair settings cert key roots data :
  run_settings read init_tracing data_dir_of set_signal_handler s repair =
    Serves settings cert key roots data → s = settings.
Proof. unfold run_settings, or_fail. by repeat case_match; intros [=]. Qed.

(** The services are only started on the database that was opened, with a
    certificate, when the data directory is of a version the program is
    compatible with: a migration that fails ends the program, without an error. *)
Theorem services_need_compatible_data args settings cert key roots data :
  main read settings_new settings_from_file init_tracing data_dir_of set_signal_handler args =
    Serves settings cert key roots data →
  cert ≠ [] ∧ compatible_data data ∧ length roots = length (Settings.roots settings).
Proof.
  unfold main.
  assert (∀ repair, run_settings read init_tracing data_dir_of set_signal_handler settings repair =
    Serves settings cert key roots data →
    cert ≠ [] ∧ compatible_data data ∧ length roots = length (Settings.roots settings)) as Hrun.
  { intros repair. unfold run_settings, or_fail, map_err, to_cert_chain.
    destruct (read (Settings.cert settings)) as [cert_pem|]; [|done].
    destruct (pem_certs cert_pem) as [[|c cs]|]; [done| |done]. cbn [mbind result_bind].
    destruct (read (Settings.key settings)) as [key_pem|]; [|done].
    destruct (to_private_key key_pem); [|done]. destruct (init_tracing _); [|done].
    destruct repair; [done|]. destruct (database_open _ _) as [db|]; [|done].
    destruct (read_all read (Settings.roots settings)) as [rs|] eqn:Hr; [|done].
    destruct (migrate_data_dir _) as [[[[]|] d]|] eqn:Hm; [|done..].
    destruct set_signal_handler; [|done]. intros [= <- <- <- <-].
    split_and!; [done|by eapply migrated_compatible|]. by apply read_all_length in Hr. }
  destruct (parse args).1 as [|path repair|code]; unfold or_fail; [| |done].
  - destruct settings_new as [s|]; [|done]. intros Hs.
    assert (s = settings) as -> by (by apply served_settings in Hs). by apply (Hrun false).
  - destruct (settings_from_file path) as [s|]; [|done]. intros Hs.
    assert (s = settings) as -> by (by apply served_settings in Hs). by apply (Hrun repair).
Qed.
End services.
