(* ===== verification/SettingsFile.v ===== *)
(** * Loading the settings (src/src/settings.rs)

    [Settings::new] and [Settings::from_file]: the defaults of
    [default_config_builder] under the values of the configuration file, and
    what the deserialization makes of them.  The crate [config] and the crates
    that give the directories and read durations are interfaces.  [ConfigSpec]
    shows what [set_giganto_config] writes; here the daemon reads it. *)

From Stdlib Require Import ZArith Lia.
From S2P Require Import Prelude Bytes Externals NetAddr SocketAddr Config ConfigSpec Peer.
From S2P Require Import StorageSpec Export Migration MigrationSpec Lifecycle Transport Startup.

(** ** Interfaces *)

(** [config]: the values of a configuration, those a TOML text has, and reading
    them as the types of the fields; [humantime_serde] reads a duration, here in
    nanoseconds. *)
Class ConfigCrate `{TomlEdit} := {
  Value : Type;
  v_string : string → Value;
  v_int : Z → Value;
  item_value : Item → Value;
  config_parse : string → result (gmap string Value);
  de_string : Value → result string;
  de_i32 : Value → result Z;
  de_u64 : Value → result Z;
  de_duration : Value → result Z;
  de_paths : Value → result (list string);
  de_peers : Value → result (gset PeerInfo);
}.

(** The peers of a list, if all addresses can be read; [PeerInfo] is deserialized from
    a table with an address, which is parsed, and a name. *)
Fixpoint peers_from (ps : list PeerList) : result (gset PeerInfo) :=
  match ps with
  | [] => Ok ∅
  | p :: ps =>
      address ← parse_socket_addr (PeerList.address p);
      peers ← peers_from ps;
      Ok ({[ PeerInfo.mk address (PeerList.host_name p) ]} ∪ peers)
  end.

(** The same value, or an error on both sides *)
Definition same_result {A} (r r' : result A) : Prop :=
  match r, r' with Ok a, Ok b => a = b | Err _, Err _ => True | _, _ => False end.

(** Both crates see the same values in a text; a value that is given as a default
    is read as what it is; [serde] reads the set of peers from an array of tables. *)
Class ConfigCrateLaws `{ConfigCrate} `{!TomlEditLaws} : Prop := {
  config_of_toml text d : toml_parse text = Ok d →
    ∃ m, config_parse text = Ok m ∧ ∀ k, m !! k = item_value <$> doc_get d k;
  item_value_equiv a b : item_equiv a b → item_value a = item_value b;
  item_value_string s : item_value (value s) = v_string s;
  de_v_string s : de_string (v_string s) = Ok s;
  de_v_i32 z : - 2 ^ 31 ≤ z < 2 ^ 31 → de_i32 (v_int z) = Ok z;
  de_v_u64 z : 0 ≤ z < 2 ^ 63 → de_u64 (v_int z) = Ok z;
  de_v_days : de_duration (v_string "100d") = Ok (100 * 86400 * 1000000000);
  de_peers_tables a l ps : as_array a = Some l → Forall2 shows_peer ps l →
    same_result (de_peers (item_value a)) (peers_from ps);
}.

(** [directories]: the configuration directory of the user, and the data
    directories for [db], [logs/apps] and [export] *)
Class Directories := {
  config_dir : string;
  db_dir : string;
  log_dir : string;
  export_dir : string;
}.

(** ** The settings *)
Section settings.
Context `{ConfigCrate} `{Directories}.

(** [default_config_builder()] *)
Definition default_values : list (string * Value) := [
  ("cert", v_string (join config_dir "cert.pem"));
  ("key", v_string (join config_dir "key.pem"));
  ("ingest_address", v_string DEFAULT_INGEST_ADDRESS);
  ("publish_address", v_string DEFAULT_PUBLISH_ADDRESS);
  ("graphql_address", v_string DEFAULT_GRAPHQL_ADDRESS);
  ("data_dir", v_string db_dir);
  ("retention", v_string "100d");
  ("log_path", v_string log_dir);
  ("export_path", v_string export_dir);
  ("max_open_files", v_int 8000);
  ("max_mb_of_level_base", v_int 512);
  ("cfg_path", v_string (join config_dir "config.toml"));
  ("peer_address", v_string DEFAULT_INVALID_PEER_ADDRESS)].
Definition default_config : gmap string Value := list_to_map default_values.

(** A field of [Settings] that has to be there *)
Definition field {A} (values : gmap string Value) (key : string) (de : Value → result A) :
    result A :=
  match values !! key with
  | None => Err ("missing field " +:+ key)
  | Some v => de v
  end.
Definition de_socket_addr (v : Value) : result SocketAddr :=
  addr ← de_string v; deserialize_socket_addr addr.
Definition de_peer_addr (v : Value) : result (option SocketAddr) :=
  addr ← de_string v; deserialize_peer_addr (Some addr).

(** [try_deserialize()]; which of several errors is reported is not modelled: here
    it is that of the first field. *)
Definition try_deserialize (values : gmap string Value) : result Settings :=
  cert ← field values "cert" de_string;
  key ← field values "key" de_string;
  roots ← field values "roots" de_paths;
  ingest_address ← field values CONFIG_INGEST_ADDRESS de_socket_addr;
  publish_address ← field values CONFIG_PUBLISH_ADDRESS de_socket_addr;
  data_dir ← field values "data_dir" de_string;
  retention ← field values CONFIG_RETENTION de_duration;
  graphql_address ← field values CONFIG_GRAPHQL_ADDRESS de_socket_addr;
  log_dir ← field values "log_dir" de_string;
  export_dir ← field values "export_dir" de_string;
  max_open_files ← field values CONFIG_MAX_OPEN_FILES de_i32;
  max_mb_of_level_base ← field values CONFIG_MAX_MB_OF_LEVEL_BASE de_u64;
  cfg_path ← field values "cfg_path" de_string;
  peer_address ← field values CONFIG_PEER_ADDRESS de_peer_addr;
  peers ← match values !! "peers"%string with None => Ok None | Some v => Some <$> de_peers v end;
  Ok (Settings.mk cert key roots ingest_address publish_address data_dir retention
        graphql_address log_dir export_dir max_open_files max_mb_of_level_base cfg_path
        peer_address peers).

(** [setting.cfg_path = ..] *)
Definition with_cfg_path (path : string) (s : Settings) : Settings :=
  Settings.mk (Settings.cert s) (Settings.key s) (Settings.roots s) (Settings.ingest_address s)
    (Settings.publish_address s) (Settings.data_dir s) (Settings.retention s)
    (Settings.graphql_address s) (Settings.log_dir s) (Settings.export_dir s)
    (Settings.max_open_files s) (Settings.max_mb_of_level_base s) path
    (Settings.peer_address s) (Settings.peers s).

(** The values of the file over the defaults *)
Definition config_values (fs : Fs) (cfg_path : string) : result (gmap string Value) :=
  text ← fs_read_to_string fs cfg_path;
  m ← config_parse text;
  Ok (m ∪ default_config).

Definition from_file (fs : Fs) (cfg_path : string) : result Settings :=
  values ← config_values fs cfg_path;
  s ← try_deserialize values;
  Ok (with_cfg_path cfg_path s).

(** [Settings::new]; a path is UTF-8 here. *)
Definition settings_new (fs : Fs) : result Settings :=
  let config_path := join config_dir "config.toml" in
  if bool_decide (is_Some (fs_files fs !! config_path)) then from_file fs config_path
  else try_deserialize default_config.
End settings.

(** ** What a configuration file has to have *)
Section required.
Context `{ConfigCrateLaws} `{Directories}.
Implicit Types (m values : gmap string Value).

Definition key_reads {A} m (key : string) (de : Value → result A) : bool :=
  match m !! key with None => true | Some v => is_ok (de v) end.

(** What the file has can be read as the fields it is for. *)
Definition values_read m : bool :=
  key_reads m "cert" de_string && key_reads m "key" de_string && key_reads m "roots" de_paths &&
  key_reads m CONFIG_INGEST_ADDRESS de_socket_addr &&
  key_reads m CONFIG_PUBLISH_ADDRESS de_socket_addr && key_reads m "data_dir" de_string &&
  key_reads m CONFIG_RETENTION de_duration && key_reads m CONFIG_GRAPHQL_ADDRESS de_socket_addr &&
  key_reads m "log_dir" de_string && key_reads m "export_dir" de_string &&
  key_reads m CONFIG_MAX_OPEN_FILES de_i32 && key_reads m CONFIG_MAX_MB_OF_LEVEL_BASE de_u64 &&
  key_reads m "cfg_path" de_string && key_reads m CONFIG_PEER_ADDRESS de_peer_addr &&
  key_reads m "peers" de_peers.

Lemma field_default {A} m key (de : Value → result A) v a :
  key_reads m key de = true → default_config !! key = Some v → de v = Ok a →
  ∃ b, field (m ∪ default_config) key de = Ok b.
Proof.
  unfold key_reads, field. intros Hr Hd Ha. rewrite lookup_union, Hd.
  destruct (m !! key) as [w|]; cbn.
  - destruct (de w) as [b|]; [by exists b|done].
  - by exists a.
Qed.

Lemma field_required {A} m key (de : Value → result A) :
  key_reads m key de = true → default_config !! key = None →
  is_Some (m !! key) ↔ ∃ a, field (m ∪ default_config) key de = Ok a.
Proof.
  unfold key_reads, field. intros Hr Hd. rewrite lookup_union, Hd.
  destruct (m !! key) as [v|]; cbn; [|split; [by intros []|by intros []]].
  split; [|by eexists]. intros _. destruct (de v) as [b|]; [by exists b|done].
Qed.

Lemma default_addr addr :
  is_ok (parse_socket_addr addr) = true → ∃ a, de_socket_addr (v_string addr) = Ok a.
Proof.
  intros Hp. unfold de_socket_addr. rewrite de_v_string. cbn. unfold deserialize_socket_addr.
  destruct (parse_socket_addr addr) as [a|]; [by exists a|done].
Qed.

(** The default addresses are addresses; the default peer address means none. *)
Lemma default_addresses :
  is_ok (parse_socket_addr DEFAULT_INGEST_ADDRESS) = true ∧
  is_ok (parse_socket_addr DEFAULT_PUBLISH_ADDRESS) = true ∧
  is_ok (parse_socket_addr DEFAULT_GRAPHQL_ADDRESS) = true ∧
  deserialize_peer_addr (Some DEFAULT_INVALID_PEER_ADDRESS) = Ok None.
Proof. split_and!; vm_compute; reflexivity. Qed.

(** The field of a key with a default is read. *)
Ltac from_default m key de law :=
  edestruct (field_default m key de) as [? ->]; [done|reflexivity|apply law; lia|].

(** A configuration whose values can be read is complete exactly when the file has
    [roots], [log_dir] and [export_dir]: the defaults named [log_path] and
    [export_path] are for no field. *)
Lemma deserialize_complete m :
  values_read m = true →
  is_ok (try_deserialize (m ∪ default_config)) = true ↔
    is_Some (m !! "roots"%string) ∧ is_Some (m !! "log_dir"%string) ∧
    is_Some (m !! "export_dir"%string).
Proof.
  unfold values_read. rewrite !andb_true_iff. intros Hr. destruct_and! Hr.
  destruct default_addresses as (Hi & Hp & Hg & Hn).
  rewrite (field_required m "roots" de_paths), (field_required m "log_dir" de_string),
    (field_required m "export_dir" de_string) by done.
  assert (de_peer_addr (v_string DEFAULT_INVALID_PEER_ADDRESS) = Ok None) as Hn'
    by (unfold de_peer_addr; by rewrite de_v_string).
  pose proof (default_addr _ Hi) as [ai Hai]. pose proof (default_addr _ Hp) as [ap Hap].
  pose proof (default_addr _ Hg) as [ag Hag]. unfold try_deserialize.
  from_default m "cert"%string de_string de_v_string.
  from_default m "key"%string de_string de_v_string. cbn [mbind result_bind].
  destruct (field _ "roots" de_paths) as [roots|]; [|naive_solver]. cbn [mbind result_bind].
  from_default m CONFIG_INGEST_ADDRESS de_socket_addr Hai.
  from_default m CONFIG_PUBLISH_ADDRESS de_socket_addr Hap.
  from_default m "data_dir"%string de_string de_v_string.
  from_default m CONFIG_RETENTION de_duration de_v_days.
  from_default m CONFIG_GRAPHQL_ADDRESS de_socket_addr Hag. cbn [mbind result_bind].
  destruct (field _ "log_dir" de_string) as [log|]; [|naive_solver]. cbn [mbind result_bind].
  destruct (field _ "export_dir" de_string) as [export|]; [|naive_solver]. cbn [mbind result_bind].
  from_default m CONFIG_MAX_OPEN_FILES de_i32 de_v_i32.
  from_default m CONFIG_MAX_MB_OF_LEVEL_BASE de_u64 de_v_u64.
  from_default m "cfg_path"%string de_string de_v_string.
  from_default m CONFIG_PEER_ADDRESS de_peer_addr Hn'.
  cbn [mbind result_bind]. rewrite lookup_union_l by reflexivity.
  assert (key_reads m "peers" de_peers = true) as Hpeers by done. unfold key_reads in Hpeers.
  destruct (m !! "peers"%string) as [v|]; [destruct (de_peers v); [|done]|];
    cbn; (split; [intros _; by repeat split; eexists|done]).
Qed.

(** Without a configuration file the program does not start: the defaults leave
    [roots], [log_dir] and [export_dir] open.  With one whose values can be read
    it has its settings exactly when the file has these three; every other
    option has a default. *)
Theorem settings_need_file fs path text m :
  fs_files fs !! path = Some text → config_parse text = Ok m → values_read m = true →
  (is_ok (from_file fs path) = true ↔
    is_Some (m !! "roots"%string) ∧ is_Some (m !! "log_dir"%string) ∧
    is_Some (m !! "export_dir"%string)) ∧
  ∀ fs', fs_files fs' !! join config_dir "config.toml" = None →
    is_ok (settings_new fs') = false.
Proof.
  intros Ht Hm Hr. split.
  - rewrite <- deserialize_complete by done. unfold from_file, config_values, fs_read_to_string.
    rewrite Ht. cbn [mbind result_bind]. rewrite Hm. cbn [mbind result_bind].
    by destruct (try_deserialize _).
  - intros fs' Hn. unfold settings_new. rewrite Hn, bool_decide_eq_false_2 by (by intros []).
    apply not_true_is_false. rewrite <- (left_id_L ∅ (∪) default_config).
    rewrite deserialize_complete by done. by intros [[? Hl] _].
Qed.
End required.

(** ** Setting the configuration and loading it again *)
Section reload.
Context `{ConfigCrateLaws} `{Directories}.
Implicit Types (values : gmap string Value) (f : UserConfig).

(** The string the user gives for a key *)
Definition set_value f (k : string) : option string :=
  if decide (k = CONFIG_INGEST_ADDRESS) then UserConfig.ingest_address f
  else if decide (k = CONFIG_PUBLISH_ADDRESS) then UserConfig.publish_address f
  else if decide (k = CONFIG_GRAPHQL_ADDRESS) then UserConfig.graphql_address f
  else if decide (k = CONFIG_RETENTION) then UserConfig.retention f
  else if decide (k = CONFIG_MAX_OPEN_FILES) then UserConfig.max_open_files f
  else if decide (k = CONFIG_MAX_MB_OF_LEVEL_BASE) then UserConfig.max_mb_of_level_base f
  else if decide (k = CONFIG_PEER_ADDRESS) then UserConfig.peer_address f
  else None.

Definition given {A} (x : option string) (de : Value → result A) (old : A) : result A :=
  match x with Some s => de (v_string s) | None => Ok old end.

(** The settings with what the user gives *)
Definition apply_settings f (s : Settings) : result Settings :=
  ingest_address ← given (UserConfig.ingest_address f) de_socket_addr (Settings.ingest_address s);
  publish_address ← given (UserConfig.publish_address f) de_socket_addr (Settings.publish_address s);
  retention ← given (UserConfig.retention f) de_duration (Settings.retention s);
  graphql_address ← given (UserConfig.graphql_address f) de_socket_addr (Settings.graphql_address s);
  max_open_files ← given (UserConfig.max_open_files f) de_i32 (Settings.max_open_files s);
  max_mb_of_level_base ←
    given (UserConfig.max_mb_of_level_base f) de_u64 (Settings.max_mb_of_level_base s);
  peer_address ← given (UserConfig.peer_address f) de_peer_addr (Settings.peer_address s);
  peers ← match UserConfig.peer_list f with
          | Some ps => Some <$> peers_from ps
          | None => Ok (Settings.peers s)
          end;
  Ok (Settings.mk (Settings.cert s) (Settings.key s) (Settings.roots s) ingest_address
        publish_address (Settings.data_dir s) retention graphql_address (Settings.log_dir s)
        (Settings.export_dir s) max_open_files max_mb_of_level_base (Settings.cfg_path s)
        peer_address peers).

Lemma insert_element_value key x doc k :
  doc_get (insert_toml_element key x doc) k =
    if decide (k = key) then match x with Some s => Some (value s) | None => doc_get doc k end
    else doc_get doc k.
Proof.
  case_decide as Hk; [subst k|by rewrite insert_element_get by congruence].
  destruct x; [|done]. cbn. by rewrite doc_get_set.
Qed.

Lemma insert_elements_value f doc k :
  doc_get (insert_toml_elements f doc) k =
    match set_value f k with Some s => Some (value s) | None => doc_get doc k end.
Proof.
  unfold insert_toml_elements, set_value. rewrite !insert_element_value.
  repeat case_decide; try (subst k; discriminate); repeat case_match; done.
Qed.

(** What the values of the file are after the change *)
Definition changed f values values' : Prop :=
  (∀ k, k ≠ "peers" → values' !! k = match set_value f k with
                                     | Some s => Some (v_string s)
                                     | None => values !! k
                                     end) ∧
  match UserConfig.peer_list f with
  | None => values' !! "peers" = values !! "peers"
  | Some ps => ∃ v, values' !! "peers" = Some v ∧ same_result (de_peers v) (peers_from ps)
  end.

(** Reading one field again *)
Lemma field_given {A} values values' f k x (de : Value → result A) a :
  changed f values values' → k ≠ "peers" →
  set_value f k = x → field values k de = Ok a → field values' k de = given x de a.
Proof. intros [Hv _] Hk Hx. unfold field. rewrite Hv, Hx by done. by destruct x. Qed.

Lemma same_result_bind {A B} (r r' : result A) (k : A → result B) :
  same_result r r' → same_result (r ≫= k) (r' ≫= k).
Proof. destruct r as [a|], r' as [b|]; cbn; [intros ->|done..]. by destruct (k b). Qed.
Lemma same_result_refl {A} (r : result A) : same_result r r.
Proof. by destruct r. Qed.

Lemma field_kept {A} values values' f k (de : Value → result A) a :
  changed f values values' → k ≠ "peers" →
  set_value f k = None → field values k de = Ok a → field values' k de = Ok a.
Proof. intros Hv Hk Hx. by apply (field_given values values' f k None). Qed.

Lemma peers_given values values' f old :
  changed f values values' →
  match values !! "peers"%string with None => Ok None | Some v => Some <$> de_peers v end = Ok old →
  same_result (match values' !! "peers"%string with None => Ok None | Some v => Some <$> de_peers v end)
    (match UserConfig.peer_list f with Some ps => Some <$> peers_from ps | None => Ok old end).
Proof.
  intros [_ Hp] Hold. destruct (UserConfig.peer_list f) as [ps|].
  - destruct Hp as (v & -> & Hs). destruct (de_peers v), (peers_from ps); cbn in *; congruence.
  - rewrite Hp, Hold. done.
Qed.

Lemma deserialize_given values values' f s :
  changed f values values' →
  try_deserialize values = Ok s → same_result (try_deserialize values') (apply_settings f s).
Proof.
  intros Hv. unfold try_deserialize.
  repeat match goal with
  | |- (field values ?k ?de ≫= _) = _ → _ =>
      let E := fresh "E" in
      destruct (field values k de) eqn:E; [|done];
      first [rewrite (field_kept values values' f k de _ Hv ltac:(done) eq_refl E)
            |rewrite (field_given values values' f k (set_value f k) de _ Hv ltac:(done) eq_refl E)];
      clear E; cbn [mbind result_bind]
  end.
  destruct (match values !! "peers"%string with None => Ok None | Some v => Some <$> de_peers v end)
    as [old|] eqn:Eold; [|done]. pose proof (peers_given values values' f old Hv Eold) as Hpeers.
  intros [= <-]. unfold apply_settings.
  repeat match goal with
  | |- same_result (given ?x ?de ?old ≫= _) _ =>
      change (given x de old) with (given x de old);
      match goal with |- same_result _ (?y ≫= _) => change y with (given x de old) end;
      destruct (given x de old); cbn [mbind result_bind]; [|done]
  end.
  by apply same_result_bind.
Qed.

Lemma apply_settings_path f path s :
  apply_settings f (with_cfg_path path s) = with_cfg_path path <$> apply_settings f s.
Proof.
  destruct s. unfold apply_settings. cbn -[given de_socket_addr de_peer_addr peers_from].
  repeat match goal with |- context [given ?x ?de ?old] =>
    destruct (given x de old); [cbn -[given de_socket_addr de_peer_addr peers_from]|done] end.
  destruct (UserConfig.peer_list f) as [ps|]; [destruct (peers_from ps)|]; done.
Qed.

Lemma set_config_document path f s s' :
  set_giganto_config path f s = (Ok "Done"%string, s') → fs_room (cs_fs s) = None →
  ∃ doc doc1 doc', read_toml_file (cs_fs s) path = Ok doc ∧
    insert_toml_peers (UserConfig.peer_list f) (insert_toml_elements f doc) = (Ok tt, doc1) ∧
    read_toml_file (cs_fs s') path = Ok doc' ∧ doc_equiv doc1 doc'.
Proof.
  unfold set_giganto_config, m_bind, m_lift, on_fs. intros Hset Hroom.
  destruct (read_toml_file (cs_fs s) path) as [doc|] eqn:Hread; [|done].
  destruct (insert_toml_peers _ _) as [[[]|] doc1] eqn:Hi; [|done].
  destruct (write_toml_file _ path (cs_fs s)) as [[[]|] fs'] eqn:Hw; [|done].
  injection Hset as <-. destruct (read_written _ _ _ _ Hw Hroom) as (doc' & Hr & He).
  by exists doc, doc1, doc'.
Qed.

Lemma config_values_read fs path doc values :
  read_toml_file fs path = Ok doc → config_values fs path = Ok values →
  ∀ k, values !! k = match doc_get doc k with
                     | Some i => Some (item_value i)
                     | None => default_config !! k
                     end.
Proof.
  unfold read_toml_file, config_values.
  destruct (fs_read_to_string fs path) as [text|]; [|done]. cbn [mbind result_bind map_err].
  intros Hp. destruct (config_of_toml text doc Hp) as (m & -> & Hm). intros [= <-] k.
  rewrite lookup_union, Hm. by destruct (doc_get doc k), (default_config !! k).
Qed.

Lemma config_values_ok fs path doc :
  read_toml_file fs path = Ok doc → is_ok (config_values fs path) = true.
Proof.
  unfold read_toml_file, config_values.
  destruct (fs_read_to_string fs path) as [text|]; [|done]. cbn [mbind result_bind map_err].
  intros Hp. by destruct (config_of_toml text doc Hp) as (m & -> & _).
Qed.

(** The values of the file before and after the change *)
Lemma values_changed path f s s' values values' :
  set_giganto_config path f s = (Ok "Done"%string, s') → fs_room (cs_fs s) = None →
  config_values (cs_fs s) path = Ok values → config_values (cs_fs s') path = Ok values' →
  changed f values values'.
Proof.
  intros Hset Hroom Hv Hv'.
  destruct (set_config_document path f s s' Hset Hroom) as (doc & doc1 & doc' & Hr & Hi & Hr' & Heq).
  assert ((∀ k, k ≠ "peers" → doc_get doc1 k = doc_get (insert_toml_elements f doc) k)) as Hfr.
  { destruct (UserConfig.peer_list f); [apply (insert_toml_peers_done _ _ _ Hi)|].
    cbn in Hi. injection Hi as <-. done. }
  split.
  - intros k Hne. rewrite (config_values_read _ _ _ _ Hr' Hv'), (config_values_read _ _ _ _ Hr Hv).
    pose proof (Heq k) as Hk. rewrite Hfr, insert_elements_value in Hk by done.
    destruct (set_value f k) as [x|].
    + inversion Hk as [i j Hij E1 E2|]; subst. by rewrite <- (item_value_equiv _ _ Hij), item_value_string.
    + by inversion Hk as [i j Hij E1 E2|E1 E2]; [rewrite (item_value_equiv _ _ Hij)|].
  - rewrite (config_values_read _ _ _ _ Hr' Hv'), (config_values_read _ _ _ _ Hr Hv).
    pose proof (Heq "peers") as Hk. destruct (UserConfig.peer_list f) as [ps|].
    + destruct (insert_toml_peers_done _ _ _ Hi) as (_ & a & l & Ha & Hl & Hps). rewrite Ha in Hk.
      inversion Hk as [? j Hij E1 E2|]; subst. eexists. split; [done|].
      rewrite <- (item_value_equiv _ _ Hij). by apply (de_peers_tables a l).
    + cbn in Hi. injection Hi as <-. rewrite insert_elements_value in Hk.
      change (set_value f "peers") with (@None string) in Hk.
      by inversion Hk as [i j Hij E1 E2|E1 E2]; [rewrite (item_value_equiv _ _ Hij)|].
Qed.

(** C23: What [set_giganto_config] has done is what the daemon loads afterwards: the
    settings it had with the given options read as the fields they are for, and a
    given list of peers as the set of its peers.  The query does not look at them: an
    option that cannot be read makes loading the file fail, at the reload and at the
    next start; which of several errors is reported is left open. *)
Theorem config_set_reload path f s s' st :
  from_file (cs_fs s) path = Ok st → fs_room (cs_fs s) = None →
  set_giganto_config path f s = (Ok "Done"%string, s') →
  same_result (from_file (cs_fs s') path) (apply_settings f st).
Proof.
  intros Hfrom Hroom Hset.
  destruct (set_config_document path f s s' Hset Hroom) as (_ & _ & doc' & _ & _ & Hr' & _).
  unfold from_file in Hfrom |- *.
  destruct (config_values (cs_fs s) path) as [values|] eqn:Hv; [|done].
  pose proof (config_values_ok _ _ _ Hr') as Hok.
  destruct (config_values (cs_fs s') path) as [values'|] eqn:Hv'; [|done].
  cbn [mbind result_bind] in Hfrom |- *.
  destruct (try_deserialize values) as [st0|] eqn:Hd; [|done]. injection Hfrom as <-.
  pose proof (deserialize_given values values' f st0 (values_changed _ _ _ _ _ _ Hset Hroom Hv Hv') Hd) as
    Hsame.
  rewrite apply_settings_path.
  destruct (try_deserialize values'), (apply_settings f st0); cbn in *; congruence.
Qed.

(** An option of the user, or an address of the peer list, that is no address; the
    address of the node itself may also be left empty or be the one that means none. *)
Definition bad_address f : Prop :=
  ∃ addr e, parse_socket_addr addr = Err e ∧
    (UserConfig.ingest_address f = Some addr ∨ UserConfig.publish_address f = Some addr ∨
     UserConfig.graphql_address f = Some addr ∨
     (UserConfig.peer_address f = Some addr ∧ addr ≠ "" ∧ addr ≠ DEFAULT_INVALID_PEER_ADDRESS) ∨
     ∃ ps p, UserConfig.peer_list f = Some ps ∧ p ∈ ps ∧ PeerList.address p = addr).

Lemma de_bad_addr addr e : parse_socket_addr addr = Err e → is_ok (de_socket_addr (v_string addr)) = false.
Proof. intros He. unfold de_socket_addr, deserialize_socket_addr. rewrite de_v_string. cbn. by rewrite He. Qed.
Lemma de_bad_peer_addr addr e :
  parse_socket_addr addr = Err e → addr ≠ "" → addr ≠ DEFAULT_INVALID_PEER_ADDRESS →
  is_ok (de_peer_addr (v_string addr)) = false.
Proof.
  intros He Hn Hd. unfold de_peer_addr, deserialize_peer_addr, deserialize_socket_addr. rewrite de_v_string.
  cbn [mbind result_bind]. rewrite !bool_decide_eq_false_2 by done. cbn [orb]. by rewrite He.
Qed.
Lemma peers_from_bad ps p e : p ∈ ps → parse_socket_addr (PeerList.address p) = Err e →
  is_ok (peers_from ps) = false.
Proof.
  intros Hp He. induction ps as [|q ps IH]; [by apply elem_of_nil in Hp|].
  apply elem_of_cons in Hp as [<-|Hp]; cbn [peers_from]; [by rewrite He|].
  destruct (parse_socket_addr (PeerList.address q)) as [a|]; cbn [mbind result_bind]; [|done].
  specialize (IH Hp). by destruct (peers_from ps).
Qed.

(** What could be deserialized had its fields. *)
Lemma deserialized values st :
  try_deserialize values = Ok st →
  is_ok (field values CONFIG_INGEST_ADDRESS de_socket_addr) = true ∧
  is_ok (field values CONFIG_PUBLISH_ADDRESS de_socket_addr) = true ∧
  is_ok (field values CONFIG_GRAPHQL_ADDRESS de_socket_addr) = true ∧
  is_ok (field values CONFIG_PEER_ADDRESS de_peer_addr) = true ∧
  ∀ v, values !! "peers" = Some v → is_ok (de_peers v) = true.
Proof.
  unfold try_deserialize.
  repeat match goal with |- (field _ ?k ?de ≫= _) = _ → _ =>
    destruct (field values k de); [|done]; cbn [mbind result_bind] end.
  intros Hp. split_and!; [done..|]. intros v Hv. rewrite Hv in Hp. by destruct (de_peers v).
Qed.

(** With a bad address in it the file cannot be loaded. *)
Lemma bad_address_refused path f s s' :
  fs_room (cs_fs s) = None → bad_address f →
  set_giganto_config path f s = (Ok "Done"%string, s') →
  ∃ e', from_file (cs_fs s') path = Err e'.
Proof.
  intros Hroom (addr & e & He & Hbad) Hset.
  destruct (from_file (cs_fs s') path) as [st|e'] eqn:Hfrom; [exfalso|by exists e'].
  destruct (set_config_document path f s s' Hset Hroom) as (doc & _ & _ & Hr & _).
  unfold from_file in Hfrom. pose proof (config_values_ok _ _ _ Hr) as Hok.
  destruct (config_values (cs_fs s) path) as [values|] eqn:Hv; [|done].
  destruct (config_values (cs_fs s') path) as [values'|] eqn:Hv'; [|done]. cbn [mbind result_bind] in Hfrom.
  destruct (try_deserialize values') as [st'|] eqn:Hd; [|done].
  destruct (values_changed _ _ _ _ _ _ Hset Hroom Hv Hv') as [Hch Hpl].
  destruct (deserialized values' st' Hd) as (Hf1 & Hf2 & Hf3 & Hf4 & Hf5).
  unfold field in Hf1, Hf2, Hf3, Hf4. rewrite Hch in Hf1, Hf2, Hf3, Hf4 by done.
  destruct Hbad as [Ha|[Ha|[Ha|[(Ha & Hn & Hdef)|(ps & p & Ha & Hp & <-)]]]].
  - change (set_value f CONFIG_INGEST_ADDRESS) with (UserConfig.ingest_address f) in Hf1.
    rewrite Ha, (de_bad_addr _ _ He) in Hf1. done.
  - change (set_value f CONFIG_PUBLISH_ADDRESS) with (UserConfig.publish_address f) in Hf2.
    rewrite Ha, (de_bad_addr _ _ He) in Hf2. done.
  - change (set_value f CONFIG_GRAPHQL_ADDRESS) with (UserConfig.graphql_address f) in Hf3.
    rewrite Ha, (de_bad_addr _ _ He) in Hf3. done.
  - change (set_value f CONFIG_PEER_ADDRESS) with (UserConfig.peer_address f) in Hf4.
    rewrite Ha, (de_bad_peer_addr _ _ He Hn Hdef) in Hf4. done.
  - rewrite Ha in Hpl. destruct Hpl as (v & Hv1 & Hs). pose proof (Hf5 v Hv1) as Hok'.
    pose proof (peers_from_bad ps p e Hp He). by destruct (de_peers v), (peers_from ps).
Qed.

(** C33: No option is validated before it is written: given an address that cannot be
    parsed, alone or in the list of peers, [set_giganto_config] writes it, schedules
    the reload and answers Done, and from then on the file cannot be loaded and a
    start with it fails. *)
Theorem bad_address_accepted `{RocksDB} `{!OpenDB} `{Semver} `{Bincode OldHttp} `{Bincode NewHttp}
    `{Pem} read init_tracing data_dir_of set_signal_handler program rest path f s c :
  giganto_config path (cs_fs s) = Ok c → path ∉ fs_readonly (cs_fs s) → fs_room (cs_fs s) = None →
  bad_address f → is_option path = false →
  ∃ s' e', set_giganto_config path f s = (Ok "Done"%string, s') ∧ cs_reloads s' = S (cs_reloads s) ∧
    from_file (cs_fs s') path = Err e' ∧
    main read (settings_new (cs_fs s')) (from_file (cs_fs s')) init_tracing data_dir_of
      set_signal_handler (program :: path :: rest) = Fails e'.
Proof.
  intros Hc Hro Hroom Hbad Hpath. destruct (set_config_done path f s c Hc Hro Hroom) as (doc' & _ & _ & Hset).
  destruct (bad_address_refused path f s _ Hroom Hbad Hset) as [e' He'].
  eexists _, e'. split_and!; [exact Hset|done|exact He'|]. unfold main.
  rewrite (parse_config_file program path rest Hpath). by rewrite He'.
Qed.
End reload.

(** ** Witnesses: configuration values as the items of the documents of [ConfigSpec] *)
Fixpoint tree_map (l : list (gen_tree string)) : gmap string (gen_tree string) :=
  match l with
  | GenLeaf k :: v :: l => <[k := v]> (tree_map l)
  | _ => ∅
  end.
Definition tree_int (text : string) (n : Z) (v : gen_tree string) : result Z :=
  match v with
  | GenNode 2 [GenLeaf s] => context "invalid value" (countable.decode (Tree.of_bits s))
  | GenLeaf s => if decide (s = text) then Ok n else Err "invalid type"
  | _ => Err "invalid type"
  end.

(** Reading the peers: every element has to be a table with an address and a name. *)
Fixpoint read_tables (l : list (gen_tree string)) : result (list PeerList) :=
  match l with
  | [] => Ok []
  | v :: l =>
      o ← read_peer (H := tree_toml) v;
      p ← context "invalid type" o;
      ps ← read_tables l;
      Ok (p :: ps)
  end.

#[local] Instance tree_config : ConfigCrate := {|
  Value := gen_tree string;
  v_string := GenLeaf;
  v_int z := GenNode 2 [GenLeaf (Tree.bits (encode z) +:+ newline)];
  item_value i := i;
  config_parse text := tree_map <$> Tree.parse text;
  de_string v := match v with GenLeaf s => Ok s | _ => Err "invalid type" end;
  de_i32 := tree_int "8000" 8000;
  de_u64 := tree_int "512" 512;
  de_duration v := match v with
                   | GenLeaf s => if decide (s = "100d"%string)
                                  then Ok (100 * 86400 * 1000000000) else Err "invalid duration"
                   | _ => Err "invalid type" end;
  de_paths v := match v with GenNode 0 _ => Ok ["ca.pem"%string] | _ => Err "invalid type" end;
  de_peers v := match v with GenNode 0 l => ps ← read_tables l; peers_from ps | _ => Err "invalid type" end;
|}.

Lemma tree_map_get (l : list (gen_tree string)) k : tree_map l !! k = Tree.get l k.
Proof.
  assert (∀ n l, (length l ≤ n)%nat → tree_map l !! k = Tree.get l k) as Hall; [|by eapply Hall].
  clear l. intros n. induction n as [|n IH]; intros l Hn; destruct l as [|[k'|? ?] l]; try done;
    destruct l as [|v l]; try done; cbn in Hn; [lia|].
  cbn. destruct (String.eqb_spec k k') as [->|Hk]; [by rewrite lookup_insert_eq|].
  rewrite lookup_insert_ne by done. apply IH. lia.
Qed.

#[local] Instance tree_config_laws : ConfigCrateLaws.
Proof.
  split.
  - intros text d Hd. exists (tree_map d). cbn in Hd |- *. rewrite Hd. split; [done|].
    intros k. rewrite tree_map_get. cbn. by destruct (Tree.get d k).
  - by intros a b ->.
  - done.
  - done.
  - intros z _. cbn. by rewrite Tree.of_bits_bits, decode_encode.
  - intros z _. cbn. by rewrite Tree.of_bits_bits, decode_encode.
  - reflexivity.
  - intros a l ps Ha Hs. cbn in Ha. destruct a as [|[|?] l']; try done. injection Ha as ->. cbn.
    assert (read_tables l = Ok ps) as ->; [|apply same_result_refl].
    induction Hs as [|p v ps l (t & x & y & Ht & Hx & Hy & Hax & Hay) _ IH]; [done|]. cbn [read_tables].
    unfold read_peer. rewrite Ht, Hx, Hy, Hax, Hay. cbn [mbind result_bind context]. rewrite IH. by destruct p.
Qed.

#[local] Instance demo_directories : Directories := {|
  config_dir := "/etc/giganto"; db_dir := "/var/db"; log_dir := "/var/log"; export_dir := "/var/export" |}.

(** The document of [ConfigSpec] with what the defaults leave open *)
Definition full_doc : list (gen_tree string) :=
  [GenLeaf "roots"; GenNode 0 []; GenLeaf "log_dir"; GenLeaf "/logs";
   GenLeaf "export_dir"; GenLeaf "/export"] ++ demo_doc.
Definition full_text : string := toml_to_string (TomlEdit := tree_toml) full_doc +:+ newline.
Definition full_state : ConfigState :=
  mk_config_state (mk_fs {[ "config.toml" := full_text ]} ∅ None) 0.
(** A new address for the sources and a peer *)
Definition change_ingest (addr : string) : UserConfig :=
  UserConfig.mk (Some addr) None None None None None None (Some [PeerList.mk "10.0.0.2:38383" "node2"]).

Lemma full_loads : is_ok (from_file (cs_fs full_state) "config.toml") = true.
Proof. vm_compute. reflexivity. Qed.

Lemma settings_need_file_witness :
  is_ok (from_file (cs_fs full_state) "config.toml") = true ∧
  is_ok (settings_new (cs_fs full_state)) = false.
Proof.
  destruct (settings_need_file (cs_fs full_state) "config.toml" full_text
    (tree_map full_doc : gmap string (Value (ConfigCrate := tree_config))))
    as [Hf Hn]; [reflexivity|vm_compute; reflexivity|vm_compute; reflexivity|].
  split; [apply Hf; split_and!; by eexists|by apply Hn].
Defined.

Lemma config_set_reload_witness :
  ∃ s' st, set_giganto_config "config.toml" (change_ingest "10.0.0.1:38370") full_state =
      (Ok "Done"%string, s') ∧
    from_file (cs_fs s') "config.toml" = Ok st ∧ Settings.ingest_address st = SV4 167772161 38370 ∧
    Settings.peers st = Some {[ PeerInfo.mk (SV4 167772162 38383) "node2" ]}.
Proof.
  assert (is_ok (set_giganto_config "config.toml" (change_ingest "10.0.0.1:38370") full_state).1 = true)
    as Hok by (vm_compute; reflexivity).
  pose proof full_loads as Hl.
  destruct (from_file (cs_fs full_state) "config.toml") as [st|] eqn:Hst; [|discriminate Hl].
  destruct (set_giganto_config "config.toml" (change_ingest "10.0.0.1:38370") full_state)
    as [[x|] s'] eqn:Hset; [|discriminate Hok].
  assert (x = "Done"%string) as ->.
  { apply (f_equal fst) in Hset. revert Hset. vm_compute. congruence. }
  exists s'. pose proof (config_set_reload "config.toml" (change_ingest "10.0.0.1:38370") full_state
    s' st Hst eq_refl Hset) as Hre.
  destruct (apply_settings (change_ingest "10.0.0.1:38370") st) as [st'|e'] eqn:Happ; [|discriminate Happ].
  destruct (from_file (cs_fs s') "config.toml") as [st1|e1]; [|destruct Hre]. cbn in Hre. subst st1.
  exists st'. split; [reflexivity|]. split; [reflexivity|]. injection Happ as <-. split; [reflexivity|].
  cbn [Settings.peers]. apply (f_equal Some). set_solver.
Defined.

#[local] Instance demo_open : OpenDB := λ _ _ _, Err "not opened".
#[local] Instance no_pem : Pem := {|
  pem_certs _ := Err "no certificate"; pem_read_one _ := Err "no key" |}.
#[local] Instance no_bincode (T : Type) : Bincode T | 100 := {|
  bincode_serialize _ := Err "not encoded"; bincode_deserialize _ := Err "not decoded" |}.

Lemma bad_address_accepted_witness :
  ∃ s' e', set_giganto_config "config.toml" (change_ingest "somewhere") full_state =
      (Ok "Done"%string, s') ∧
    main (λ _, Err "no file") (settings_new (cs_fs s')) (from_file (cs_fs s')) (λ _, Ok tt)
      (λ _, mk_dir true None true) (Ok tt) ["giganto"; "config.toml"] = Fails e'.
Proof.
  assert (is_ok (giganto_config "config.toml" (cs_fs full_state)) = true) as Hok by (vm_compute; reflexivity).
  destruct (giganto_config "config.toml" (cs_fs full_state)) as [c|] eqn:Hc; [|discriminate Hok].
  destruct (parse_socket_addr "somewhere") as [a|e] eqn:Hp; [vm_compute in Hp; discriminate Hp|].
  assert (bad_address (change_ingest "somewhere")) as Hbad
    by (exists "somewhere"%string, e; split; [exact Hp|left; reflexivity]).
  destruct (bad_address_accepted (λ _, Err "no file") (λ _, Ok tt)
    (λ _, mk_dir true None true) (Ok tt) "giganto" [] "config.toml" (change_ingest "somewhere")
    full_state c Hc (not_elem_of_empty _) eq_refl Hbad eq_refl) as (s' & e' & Hset & _ & _ & Hm).
  exists s', e'. split; [exact Hset|exact Hm].
Defined.
