(* ===== verification/Web.v ===== *)
(** * The web server and the status queries (src/src/web.rs, graphql/status.rs)

    The routes [serve] hands to warp, as filters that take the segments of the
    path one by one, and the queries about the state of the program.  warp,
    async_graphql and roxy are interfaces; the life of the server is in
    [Lifecycle]. *)

From Stdlib Require Import ZArith.
From S2P Require Import Prelude Bytes Externals Startup.

(** ** Routes *)

(** async_graphql_warp: the GraphQL request in a request, if there is one, and the
    answer of the schema; the page of the playground. *)
Class GraphQL := {
  HttpRequest : Type;
  request_path : HttpRequest → list string;
  GraphqlRequest : Type;
  GraphqlResponse : Type;
  graphql_request : HttpRequest → option GraphqlRequest;
  execute : GraphqlRequest → GraphqlResponse;
  playground_source : string → string;
}.

Section routes.
Context `{GraphQL}.

Inductive Reply :=
| Page (content_type body : string)
| GraphqlReply (r : GraphqlResponse)
| Text (body : string).

(** A filter passes on with the rest of the path, or rejects. *)
Definition Filter (A : Type) : Type := HttpRequest → list string → option (A * list string).

Definition path (segment : string) : Filter unit := λ _ rest,
  match rest with
  | s :: rest => if bool_decide (s = segment) then Some (tt, rest) else None
  | [] => None
  end.
Definition path_end : Filter unit := λ _ rest,
  match rest with [] => Some (tt, []) | _ => None end.
Definition any : Filter unit := λ _ rest, Some (tt, rest).
Definition f_and {A} (f : Filter unit) (g : Filter A) : Filter A := λ r rest,
  '(_, rest) ← f r rest; g r rest.
Definition f_or {A} (f g : Filter A) : Filter A := λ r rest,
  match f r rest with Some x => Some x | None => g r rest end.
Definition f_map {A B} (h : A → B) (f : Filter A) : Filter B := λ r rest,
  '(a, rest) ← f r rest; Some (h a, rest).

(** [async_graphql_warp::graphql(schema).and_then(..)] *)
Definition graphql_filter : Filter Reply := λ r rest,
  request ← graphql_request r; Some (GraphqlReply (execute request), rest).

Definition graphql_playground : Filter Reply :=
  f_map (λ _, Page "text/html" (playground_source "/graphql"))
    (f_and (path "graphql") (f_and (path "playground") path_end)).
Definition route_graphql : Filter Reply := f_and (path "graphql") (f_and any graphql_filter).
Definition route_home : Filter Reply := f_map (λ _, Text "") path_end.
Definition routes : Filter Reply :=
  f_or graphql_playground (f_and any (f_or route_graphql route_home)).

(** What [serve] answers; [None] is Not Found. *)
Definition serve (r : HttpRequest) : option Reply := fst <$> routes r (request_path r).

(** The playground is one page; every other path under /graphql is answered by the
    schema when the request is a GraphQL one; the root is empty; nothing else is
    found. *)
Theorem serve_routes (r : HttpRequest) :
  serve r =
    match request_path r with
    | [] => Some (Text "")
    | s :: rest =>
        if decide (s = "graphql"%string) then
          if decide (rest = ["playground"%string])
          then Some (Page "text/html" (playground_source "/graphql"))
          else (λ q, GraphqlReply (execute q)) <$> graphql_request r
        else None
    end.
Proof.
  unfold serve, routes, f_or, graphql_playground, route_graphql, route_home, f_map, f_and, any,
    graphql_filter, path, path_end.
  destruct (request_path r) as [|s rest]; [done|]. cbn.
  case_bool_decide as Hs; [rewrite decide_True by done|by rewrite decide_False by done]. cbn.
  assert (∀ o : option GraphqlRequest, fst <$> match
      (request ← o; Some (GraphqlReply (execute request), rest)) with Some x => Some x | None => None end =
    (λ q, GraphqlReply (execute q)) <$> o) as Hrest by (by intros []).
  destruct rest as [|s' rest]; [by rewrite decide_False; [apply Hrest|]|]. cbn.
  case_bool_decide as Hs'; cbn.
  - subst s'. destruct rest as [|s'' rest]; cbn; [by rewrite decide_True|].
    rewrite decide_False by done. apply Hrest.
  - rewrite decide_False by congruence. apply Hrest.
Qed.
End routes.

(** ** [giganto_status] and [properties_cf] *)

(** roxy: the resources in use and the name of the host *)
Record ResourceUsage := mk_usage {
  cpu_usage : Z; total_memory : Z; used_memory : Z; total_disk_space : Z; used_disk_space : Z }.

Module GigantoStatus.
Record t := mk {
  name : string; cpu_usage : Z; total_memory : Z; used_memory : Z;
  total_disk_space : Z; used_disk_space : Z }.
End GigantoStatus.

Definition giganto_status (hostname : string) (usg : ResourceUsage) : result GigantoStatus.t :=
  Ok (GigantoStatus.mk hostname (cpu_usage usg) (total_memory usg) (used_memory usg)
        (total_disk_space usg) (used_disk_space usg)).

Module Properties.
Record t := mk { estimate_live_data_size : Z; estimate_num_keys : Z; stats : string }.
End Properties.

(** The query of a debug build, over [Database::properties_cf] *)
Definition properties_query (known : string → bool)
    (stats : string → result (option string)) (size num_keys : string → result (option Z))
    (record_type : string) : result Properties.t :=
  props ← properties_cf (known record_type) (stats record_type) (size record_type)
    (num_keys record_type);
  Ok (Properties.mk (estimate_live_data_size props) (estimate_num_keys props)
        (Startup.stats props)).
