(* ===== verification/System.v ===== *)
(** * The data plane as one system (ingest.rs, publish.rs, storage.rs)

    The tasks that share the database and the table of subscriptions, side by
    side: any number of ingest streams, each the two tasks of [handle_data] of
    [Ingest]; the connections and the table of sources of [Sources]; the
    retention task, here one access to the database at a time; and the publish
    service, which changes the subscriptions.  A run of the system is any
    interleaving of their steps. *)

From Stdlib Require Import ZArith Lia.
From S2P Require Import Prelude Bytes Externals StorageKey NetAddr GigantoClient Events Filters.
From S2P Require Import Storage StorageSpec Channels Ingest Sources.

(** ** The retention task, step by step (storage.rs [retain_periodically]) *)
Section retention.
Context `{RocksDB} `{Chrono}.

(** What a tick computes at its start *)
Record Tick := mk_tick {
  tk_limit : Z;
  tk_stores : list (RawEventStore unit);
  tk_log : RawEventStore Log;
}.

(** Where a tick stands: before the next source, before the range of a store is
    deleted, before a log is looked at.  The lists are what is left to do. *)
Inductive TickPos :=
| NextSource (todo : list bytes)
| NextStore (source : bytes) (stores : list (RawEventStore unit)) (todo : list bytes)
| NextLog (entries : list (bytes * bytes)) (todo : list bytes).

Inductive RetainPc := RWait | RTick (t : Tick) (pos : TickPos) | RStopped (e : string).

Definition tick_limit (now : option Z) (retention_duration : Z) : Z :=
  wrap_i64 (default retention_duration now - retention_duration).

(** [itv.tick()] *)
Definition begin_tick (now : option Z) (retention_duration : Z) : M DB RetainPc :=
  source_store <-- m_gets sources_store ;;
  sources <-- m_gets (λ db, Ok (source_names source_store db)) ;;
  all_store <-- m_gets retain_period_store ;;
  log_store <-- m_gets log_store ;;
  m_ret (RTick (mk_tick (tick_limit now retention_duration) all_store log_store)
           (NextSource sources)).

(** Deleting the range of one store and flushing is one step: a flush changes
    nothing a reader sees. *)
Definition tick_step (t : Tick) (pos : TickPos) : M DB RetainPc :=
  match pos with
  | NextSource [] => m_ret RWait
  | NextSource (source :: todo) => m_ret (RTick t (NextStore source (tk_stores t) todo))
  | NextStore source (st :: stores) todo =>
      retain_store (retention_key source DEFAULT_FROM) (retention_key source (tk_limit t)) st ;;;
      m_ret (RTick t (NextStore source stores todo))
  | NextStore source [] todo =>
      entries <-- m_gets (λ db,
        Ok (oks (prefix_iterator_cf db (store_cf (tk_log t)) source))) ;;
      m_ret (RTick t (NextLog entries todo))
  | NextLog (kv :: entries) todo =>
      retain_log_entry (tk_limit t) (tk_log t) kv ;;; m_ret (RTick t (NextLog entries todo))
  | NextLog [] todo => flush (tk_log t) ;;; m_ret (RTick t (NextSource todo))
  end.

(** The task alone until its tick is over, for at most [fuel] steps *)
Fixpoint run_tick (fuel : nat) (pc : RetainPc) (db : DB) : option (result unit * DB) :=
  match pc, fuel with
  | RWait, _ => Some (Ok tt, db)
  | RStopped e, _ => Some (Err e, db)
  | RTick t pos, S fuel =>
      match tick_step t pos db with
      | (Ok pc, db) => run_tick fuel pc db
      | (Err e, db) => Some (Err e, db)
      end
  | RTick _ _, O => None
  end.
End retention.

(** ** The system *)
Section system.
Context `{RocksDB} `{Chrono} `{Client} `{HashOrder}.
Context `{Bincode string, Bincode Log, Bincode PeriodicTimeSeries, Bincode OpLog,
  Bincode Packet, Bincode Statistics, Bincode SecuLog}.

(** A stream of a source, as [handle_request] calls [handle_data] for it, with
    all it sends *)
Record OpenStream := mk_open {
  os_source : string;
  os_route : Route;
  os_input : list Received;
  os_state : Ingest.Stream;
}.

(** The database is the one of the registry. *)
Record System := mk_system {
  y_registry : Registry;
  y_channels : Channels;
  y_streams : list OpenStream;
  y_retain : RetainPc;
  y_limits : list Z;
}.

Definition y_db (y : System) : DB := rg_db (y_registry y).
Definition with_db (db : DB) (r : Registry) : Registry :=
  mk_registry db (rg_sources r) (rg_packet_sources r) (rg_queue r) (rg_notified r).

(** A step of the receiver or of the interval task of a stream, on the shared
    database and subscriptions *)
Definition is_own (a : Action) : bool := match a with AOther _ _ => false | _ => true end.
Definition stream_exec (o : OpenStream) (a : Action) (y : System) : option Ingest.Stream :=
  exec (rt_kind (os_route o)) (rt_network_key (os_route o)) (os_source o) (rt_cf (os_route o)) a
    (Ingest.set_channels (y_channels y) (Ingest.set_db (y_db y) (os_state o))).
Definition put_stream (i : nat) (o : OpenStream) (s : Ingest.Stream) (y : System) : System :=
  mk_system (with_db (s_db s) (y_registry y)) (s_channels s)
    (<[i := mk_open (os_source o) (os_route o) (os_input o) s]> (y_streams y))
    (y_retain y) (y_limits y).

Definition open_stream (source : string) (r : Route) (input : list Received) (y : System) : System :=
  mk_system (y_registry y) (y_channels y)
    (y_streams y ++ [mk_open source r input (start_stream input (y_db y) (y_channels y))])
    (y_retain y) (y_limits y).

Definition put_retain (pc : RetainPc) (db : DB) (limits : list Z) (y : System) : System :=
  mk_system (with_db db (y_registry y)) (y_channels y) (y_streams y) pc limits.

(** What one event on the wire can be: its time stamp is an [i64]. *)
Definition received_ok (ev : Received) : Prop :=
  match ev with REvent _ ts => is_i64 ts | _ => True end.

Variables (notify_source : bool) (retention_duration : Z).

(** The names in the certificates have no NUL. *)
Inductive Step : System → System → Prop :=
| YOpened source header input r y :
    handle_request source header (y_db y) = Ok (Some r) → no_nul source →
    Forall received_ok input → Step y (open_stream source r input y)
| YStream i o a s y :
    y_streams y !! i = Some o → is_own a = true → stream_exec o a y = Some s →
    Step y (put_stream i o s y)
| YSubscriptions ch y :
    Step y (mk_system (y_registry y) ch (y_streams y) (y_retain y) (y_limits y))
| YRegistry r y :
    Sources.Step (mk_source_store "sources") notify_source (y_registry y) r →
    (∀ i, i ∈ rg_queue r → no_nul (info_source i)) →
    Step y (mk_system r (y_channels y) (y_streams y) (y_retain y) (y_limits y))
| YTick now pc db y :
    y_retain y = RWait → begin_tick now retention_duration (y_db y) = (Ok pc, db) →
    Step y (put_retain pc db (y_limits y ++ [tick_limit now retention_duration]) y)
| YRetain t pos pc db y :
    y_retain y = RTick t pos → tick_step t pos (y_db y) = (Ok pc, db) →
    Step y (put_retain pc db (y_limits y) y)
| YRetainFails t pos e db y :
    y_retain y = RTick t pos → tick_step t pos (y_db y) = (Err e, db) →
    Step y (put_retain (RStopped e) db (y_limits y) y).

(** The services on the database that was opened *)
Definition start_system (db : DB) : System :=
  mk_system (mk_registry db ∅ ∅ [] 0) no_channels [] RWait [].
End system.
