(* ===== verification/SystemSpec.v ===== *)
(** * What the data plane as a whole guarantees

    Every interleaving of the tasks of [System]: an acknowledged event stays in
    the database until a retention tick whose limit is later than the event, and
    what the database has for a source was sent by this source.  A retention
    tick that runs undisturbed is the [retain_tick] of [Storage]. *)

From Stdlib Require Import ZArith Lia.
From S2P Require Import Prelude Bytes Externals StorageKey NetAddr GigantoClient Events Filters.
From S2P Require Import Storage StorageSpec Demo Pagination PaginationSpec Channels Ingest.
From S2P Require Import IngestSpec Sources System.

(** ** The retention task on its own *)
Section tick.
Context `{RocksDB} `{Chrono}.

Definition tick_runs (t : Tick) (pos : TickPos) (db : DB) (x : result unit * DB) : Prop :=
  ∃ fuel, run_tick fuel (RTick t pos) db = Some x.

(** Once a computation [m] is done, the tick goes on. *)
Definition then_runs {A} (x : result A * DB) (k : A → DB → result unit * DB → Prop)
    (y : result unit * DB) : Prop :=
  match x with (Ok a, db) => k a db y | (Err e, db) => y = (Err e, db) end.

Lemma tick_runs_step t pos db pos' db' x :
  tick_step t pos db = (Ok (RTick t pos'), db') → tick_runs t pos' db' x → tick_runs t pos db x.
Proof. intros Hs [fuel Hf]. exists (S fuel). cbn [run_tick]. by rewrite Hs. Qed.

Lemma tick_runs_err t pos db e db' :
  tick_step t pos db = (Err e, db') → tick_runs t pos db (Err e, db').
Proof. intros Hs. exists 1%nat. cbn [run_tick]. by rewrite Hs. Qed.

(** A loop of the tick, given by the positions it goes through *)
Lemma tick_runs_iter {A} t (body : A → M DB unit) (pos : list A → TickPos) l db k x :
  (∀ a l db, tick_step t (pos (a :: l)) db = (body a ;;; m_ret (RTick t (pos l))) db) →
  (∀ db y, k tt db y → tick_runs t (pos []) db y) →
  then_runs (m_iter body l db) k x → tick_runs t (pos l) db x.
Proof.
  intros Hstep Hend. revert db. induction l as [|a l IH]; intros db; cbn [m_iter].
  - by apply Hend.
  - unfold m_bind. destruct (body a db) as [[[]|e] db1] eqn:Hb.
    + intros Hx. eapply tick_runs_step; [|by apply IH].
      rewrite Hstep. unfold m_bind. by rewrite Hb.
    + cbn. intros ->. apply tick_runs_err. rewrite Hstep. unfold m_bind. by rewrite Hb.
Qed.

Lemma tick_runs_source t source todo db x :
  then_runs (retain_source (tk_limit t) (tk_stores t) (tk_log t) source db)
    (λ _, tick_runs t (NextSource todo)) x →
  tick_runs t (NextSource (source :: todo)) db x.
Proof.
  intros Hx. eapply tick_runs_step; [done|].
  apply (tick_runs_iter t
    (retain_store (retention_key source DEFAULT_FROM) (retention_key source (tk_limit t)))
    (λ stores, NextStore source stores todo) _ _
    (λ _ db, then_runs ((entries <-- m_gets (λ db,
        Ok (oks (prefix_iterator_cf db (store_cf (tk_log t)) source))) ;;
      m_iter (retain_log_entry (tk_limit t) (tk_log t)) entries ;;; flush (tk_log t)) db)
      (λ _, tick_runs t (NextSource todo)))); [done| |].
  - clear. intros db y Hy. eapply tick_runs_step; [done|].
    apply (tick_runs_iter t (retain_log_entry (tk_limit t) (tk_log t)) (λ entries, NextLog entries todo) _ _
      (λ _ db, then_runs (flush (tk_log t) db) (λ _, tick_runs t (NextSource todo)))); [done| |].
    + clear. intros db y Hy. destruct (flush (tk_log t) db) as [[[]|e] db1] eqn:Hf.
      * eapply tick_runs_step; [|exact Hy]. cbn [tick_step]. unfold m_bind. by rewrite Hf.
      * rewrite Hy. apply tick_runs_err. cbn [tick_step]. unfold m_bind. by rewrite Hf.
    + revert Hy. unfold m_bind, m_gets. cbn.
      by destruct (m_iter (retain_log_entry _ _) _ db) as [[[]|e] db1].
  - revert Hx. unfold retain_source, m_bind.
    by destruct (m_iter (retain_store _ _) _ db) as [[[]|e] db1].
Qed.

Lemma tick_runs_sources t sources db :
  tick_runs t (NextSource sources) db
    (m_iter (retain_source (tk_limit t) (tk_stores t) (tk_log t)) sources db).
Proof.
  revert db. induction sources as [|source sources IH]; intros db.
  - by exists 1%nat.
  - apply tick_runs_source. cbn [m_iter]. unfold m_bind.
    destruct (retain_source _ _ _ source db) as [[[]|e] db1]; [apply IH|done].
Qed.

(** A tick that is not disturbed ends, and does what [retain_tick] does: the
    stepwise task of the system refines the loop. *)
Lemma tick_alone now retention_duration db :
  match begin_tick now retention_duration db with
  | (Ok pc, db1) => ∃ fuel, run_tick fuel pc db1 = Some (retain_tick now retention_duration db)
  | (Err e, db1) => retain_tick now retention_duration db = (Err e, db1)
  end.
Proof.
  unfold begin_tick, retain_tick, m_bind, m_gets.
  destruct (sources_store db) as [source_store|e]; [|done].
  destruct (retain_period_store db) as [all_store|e]; [|done].
  destruct (log_store db) as [log|e]; [|done]. cbn [m_ret].
  apply (tick_runs_sources (mk_tick _ all_store log)).
Qed.
End tick.

(** ** The invariant of the system *)
Section system.
Context `{RocksDBSpec} `{Chrono} `{Client} `{HashOrder}.
Context `{Bincode string, Bincode Log, Bincode PeriodicTimeSeries, Bincode OpLog,
  Bincode Packet, Bincode Statistics, Bincode SecuLog}.
Implicit Types (y : System) (o : OpenStream).

(** *** One step of a stream *)
Lemma exec_view kind nk source cf a (s s' : Ingest.Stream) :
  exec kind nk source cf a s = Some s' → is_own a = true → healthy (s_db s) →
  cf ∈ RAW_DATA_COLUMN_FAMILY_NAMES →
  healthy (s_db s') ∧
  ((s_stored s' = s_stored s ∧ ∀ c, cf_view (s_db s') c = cf_view (s_db s) c) ∨
   ∃ raw ts k v, s_recv s = PAppend raw ts k v ∧ s_stored s' = s_stored s ++ [(raw, ts)] ∧
     ∀ c, cf_view (s_db s') c = put_view cf k v (cf_view (s_db s)) c).
Proof.
  intros He Hown Hh Hcf.
  destruct a as [send_ok shutdown|tick send_ok|]; [| |done]; cbn [exec] in He.
  - assert (∀ ok, (∀ s, s_db (ok s) = s_db s ∧ s_stored (ok s) = s_stored s) →
      healthy (s_db (flush_then ok s)) ∧ s_stored (flush_then ok s) = s_stored s ∧
      ∀ c, cf_view (s_db (flush_then ok s)) c = cf_view (s_db s) c) as Hflush.
    { intros ok Hok. destruct (flush_then_healthy ok s Hh) as (db' & Hh' & Hv & ->).
      destruct (Hok (Ingest.set_durable (length (s_stored s)) (Ingest.set_db db' s))) as [-> ->].
      done. }
    unfold recv_step in He. destruct (s_recv s) eqn:Hpc; try done;
      try (match type of He with Some (flush_then ?ok _) = _ =>
             destruct (Hflush ok) as (? & ? & ?); [by intros s0|] end;
           apply (inj Some) in He; rewrite <- He; split; [done|by left]);
      try (injection He as <-; split; [done|by left]);
      unfold ack_then in *; try (injection He as <-; destruct send_ok; (split; [done|by left])).
    + destruct (s_input s) as [|ev rest]; [done|]. injection He as <-.
      unfold recv_event. repeat case_match; (split; [done|by left]).
    + destruct (write_healthy (WPut k value) cf (s_db s) Hh) as (db' & Hw & Hh' & Hv);
        [apply elem_of_app; by left|done|].
      unfold append in He. cbn [store_cf write] in He, Hw. rewrite Hw in He. injection He as <-.
      split; [done|]. right. exists raw, timestamp, k, value. split_and!; [done..|].
      intros c. cbn. rewrite Hv. unfold put_view. done.
    + destruct nk as [nk|]; [|injection He as <-; split; [done|by left]].
      destruct (send_direct_stream _ _ _ _ _ _) as [[[]|] ch']; injection He as <-;
        (split; [done|by left]).
  - assert (s_db s' = s_db s ∧ s_stored s' = s_stored s) as [-> ->]; [|split; [done|by left]].
    unfold hand_step in He. repeat case_match; by simplify_eq.
Qed.

(** The key a receiver is about to store an event under is the key of the event. *)
Definition append_ok kind source (s : Ingest.Stream) : Prop :=
  ∀ raw ts k v, s_recv s = PAppend raw ts k v → storage_key kind source ts raw = Ok (k, v).

Lemma append_ok_step kind nk source cf a (s s' : Ingest.Stream) :
  exec kind nk source cf a s = Some s' → is_own a = true →
  append_ok kind source s → append_ok kind source s'.
Proof.
  intros He Hown Hs. destruct a as [send_ok shutdown|tick send_ok|]; [| |done]; cbn [exec] in He.
  - intros raw ts k v Hpc. unfold recv_step, recv_event, ack_then, flush_then in He.
    repeat match type of He with context [match ?x with _ => _ end] => destruct x eqn:? end;
      simplify_eq He; try intros <-; try discriminate Hpc; cbn in Hpc; congruence.
  - assert (s_recv s' = s_recv s) as E by (unfold hand_step in He; repeat case_match; by simplify_eq).
    intros raw ts k v. rewrite E. apply Hs.
Qed.

(** *** One step of the retention task *)
Definition stores_ok (stores : list (RawEventStore unit)) : Prop :=
  ∀ st, st ∈ stores → standard_cf (store_cf st).
Definition names_ok (todo : list bytes) : Prop := ∀ s, s ∈ todo → Byte.x00 ∉ s.

Definition tick_ok (t : Tick) : Prop := stores_ok (tk_stores t) ∧ store_cf (tk_log t) = "log".
Definition pos_ok (pos : TickPos) : Prop :=
  match pos with
  | NextSource todo | NextLog _ todo => names_ok todo
  | NextStore source stores todo => Byte.x00 ∉ source ∧ stores_ok stores ∧ names_ok todo
  end.

(** What a step of a tick may delete from a standard column family *)
Definition cut (t : Tick) (m m' : gmap bytes bytes) : Prop :=
  m' = m ∨ ∃ source, Byte.x00 ∉ source ∧ m' = filter (λ kv, ¬ expired (tk_limit t) kv.1 source) m.

Lemma tick_step_view t pos db r db' :
  tick_step t pos db = (r, db') → healthy db → tick_ok t → pos_ok pos →
  healthy db' ∧ (∀ cf, standard_cf cf → cut t (cf_view db cf) (cf_view db' cf)) ∧
  cf_view db' "sources" = cf_view db "sources" ∧
  ∀ t' pos', r = Ok (RTick t' pos') → t' = t ∧ pos_ok pos'.
Proof.
  intros Hs Hh [Hst Hlog] Hpos. destruct t as [limit stores [log]]. cbn in Hst, Hlog. subst log.
  assert (∀ P, standard_cf P → P ≠ "log") as Hnl by (intros P [_ HP] ->; apply HP; set_solver).
  destruct pos as [[|source todo]|source [|st sts] todo|[|[k v] entries] todo]; cbn in Hs.
  - injection Hs as <- <-. split_and!; [done|by left|done|done].
  - injection Hs as <- <-. split_and!; [done|by left|done|]. intros t' pos' [= <- <-].
    split; [done|]. cbn in *. split_and!; [apply Hpos; left|done|intros s ?; apply Hpos; by right].
  - injection Hs as <- <-. destruct Hpos as (_ & _ & Ht).
    split_and!; [done|by left|done|]. by intros t' pos' [= <- <-].
  - destruct Hpos as (Hn & Hsts & Ht). destruct st as [cf0].
    destruct (retain_store_healthy (retention_key source DEFAULT_FROM) (retention_key source limit)
      cf0 db Hh) as (db1 & Hr & Hh1 & Hv); [apply (Hsts (mk_store cf0)); left|].
    unfold m_bind in Hs. rewrite Hr in Hs. injection Hs as <- <-.
    split_and!; [done| | |].
    + intros cf _. rewrite Hv. case_decide; [right; by exists source|by left].
    + rewrite Hv, decide_False; [done|]. intros ->.
      specialize (Hsts (mk_store "sources") ltac:(left)) as [Hr' _]. revert Hr'. concrete.
    + intros t' pos' [= <- <-]. split; [done|]. split_and!; [done| |done].
      intros s ?. apply Hsts. by right.
  - destruct (flush_healthy true db Hh) as (db1 & Hf & Hh1 & Hv).
    unfold flush, m_bind in Hs. rewrite Hf in Hs. injection Hs as <- <-.
    split_and!; [done|intros cf _; left; apply Hv|apply Hv|]. by intros t' pos' [= <- <-].
  - unfold m_bind, retain_log_entry, m_bind, m_lift, log_expired in Hs. cbn [fst] in Hs.
    destruct (length k <? TIMESTAMP_SIZE)%nat.
    { injection Hs as <- <-. split_and!; [done|by left|done|done]. }
    assert (∀ db1, healthy db1 → (∀ cf, cf ≠ "log" → cf_view db1 cf = cf_view db cf) →
      (@Ok RetainPc (RTick (mk_tick limit stores (mk_store "log")) (NextLog entries todo)), db1) = (r, db') →
      healthy db' ∧ (∀ cf, standard_cf cf → cut (mk_tick limit stores (mk_store "log"))
        (cf_view db cf) (cf_view db' cf)) ∧
      cf_view db' "sources" = cf_view db "sources" ∧ ∀ t' pos', r = Ok (RTick t' pos') →
        t' = mk_tick limit stores (mk_store "log") ∧ pos_ok pos') as Hdone.
    { intros db1 Hh1 Hv [= <- <-]. split_and!; [done|intros cf Hc; left; apply Hv; auto|by apply Hv|].
      by intros t' pos' [= <- <-]. }
    destruct (key_nanos k <? limit); [|by apply (Hdone db)].
    destruct (write_ignore_healthy (WDelete k) "log" db Hh) as (db1 & Hw & Hh1 & Hv); [known_cf|].
    unfold delete_key in Hs. cbn [store_cf write] in Hs, Hw. rewrite Hw in Hs.
    apply (Hdone db1); [done| |done]. intros cf Hcf. rewrite Hv, decide_False; [done|naive_solver].
Qed.

(** *** One step of the registry of sources *)
Record registry_inv (r : Registry) : Prop := {
  ri_db : healthy (rg_db r);
  ri_queue i : i ∈ rg_queue r → no_nul (info_source i);
  ri_table name : is_Some (rg_sources r !! name) → no_nul name;
  ri_stored s : is_Some (cf_view (rg_db r) "sources" !! s) → Byte.x00 ∉ s;
}.
Definition same_data (r r' : Registry) : Prop :=
  ∀ cf, cf ≠ "sources" → cf_view (rg_db r') cf = cf_view (rg_db r) cf.

Lemma record_source_inv name time r :
  no_nul name → registry_inv r →
  registry_inv (record_source (mk_source_store "sources") name time r) ∧
  same_data r (record_source (mk_source_store "sources") name time r).
Proof.
  intros Hn [Hh Hq Ht Hs]. destruct (record_source_spec name time r Hh) as [Hh' Hv].
  split; [split; [done|exact Hq|exact Ht|]|].
  - intros s. rewrite Hv, decide_True by done. rewrite lookup_insert_is_Some'. intros [<-|?]; auto.
  - intros cf Hcf. by rewrite Hv, decide_False.
Qed.

Lemma set_sources_inv m r :
  (∀ name, is_Some (m !! name) → no_nul name) → registry_inv r →
  registry_inv (Sources.set_sources m r).
Proof. by intros Hm [Hh Hq Ht Hs]. Qed.

Lemma on_info_registry notify_source i r :
  no_nul (info_source i) → registry_inv r →
  registry_inv (on_info (mk_source_store "sources") notify_source i r) ∧
  same_data r (on_info (mk_source_store "sources") notify_source i r).
Proof.
  intros Hn Hr. destruct (record_source_inv (info_source i) (info_time i) r Hn Hr) as [Hi Hd].
  unfold on_info. destruct (info_rep i); [done|]. destruct Hi as [Hh Hq Ht Hs].
  destruct (info_state i); (split; [split; [done|exact Hq| |exact Hs]|exact Hd]);
    intros name; cbn.
  - rewrite lookup_insert_is_Some'. intros [<-|?]; auto.
  - rewrite lookup_delete_is_Some. intros [_ ?]. auto.
Qed.

Lemma refresh_registry now r key :
  no_nul key → registry_inv r →
  registry_inv (refresh_source (mk_source_store "sources") now r key) ∧
  same_data r (refresh_source (mk_source_store "sources") now r key).
Proof.
  intros Hn Hr. destruct (record_source_inv key (now key) r Hn Hr) as [Hi Hd].
  unfold refresh_source. split; [|exact Hd]. apply set_sources_inv; [|done].
  intros name. rewrite lookup_insert_is_Some'. intros [<-|?]; [done|]. by apply (ri_table _ Hi).
Qed.

Lemma registry_step notify_source r r' :
  Sources.Step (mk_source_store "sources") notify_source r r' →
  (∀ i, i ∈ rg_queue r' → no_nul (info_source i)) →
  registry_inv r → registry_inv r' ∧ same_data r r'.
Proof.
  intros Hs Hq' Hr.
  destruct Hs as [conn agent source now r|agent source now ac r|now r keys Hk|r r' Hrecv].
  - destruct Hr as [Hh Hq Ht Hs]. revert Hq'. unfold connection_opened.
    destruct (is_reproduce agent); intros Hq'; (split; [by split|done]).
  - destruct Hr as [Hh Hq Ht Hs]. split; [by split|done].
  - clear Hq'. assert (∀ key, key ∈ keys → no_nul key) as Hkeys.
    { intros key Hin. apply (ri_table _ Hr). rewrite Hk in Hin.
      apply list_elem_of_fmap in Hin as ([k v] & -> & Hin%elem_of_map_to_list). by exists v. }
    clear Hk. unfold sources_tick. assert (same_data r r) as Hd by done.
    revert Hr Hd. generalize r at 1 3 4 6. induction keys as [|key keys IH]; intros r1 Hr Hd; [done|].
    cbn. destruct (refresh_registry now r1 key) as [Hr1 Hd1]; [apply Hkeys; left|done|].
    apply IH; [intros k ?; apply Hkeys; by right|done|]. intros cf Hcf. by rewrite Hd1, Hd.
  - unfold recv_info in Hrecv. destruct (rg_queue r) as [|i rest] eqn:Hqueue; [done|].
    injection Hrecv as <-. destruct Hr as [Hh Hq Ht Hs]. rewrite Hqueue in Hq.
    apply (on_info_registry notify_source i
      (mk_registry (rg_db r) (rg_sources r) (rg_packet_sources r) rest (rg_notified r)));
      [apply Hq; left|]. split; [done| |done|done]. intros j ?. apply Hq. by right.
Qed.

(** *** The invariant *)
Definition stream_ok o : Prop :=
  ingest_inv (os_input o) (os_state o) ∧
  append_ok (rt_kind (os_route o)) (os_source o) (os_state o) ∧
  no_nul (os_source o) ∧ Forall received_ok (os_input o) ∧
  rt_kind (os_route o) ∈ named_kinds ∧ rt_cf (os_route o) = kind_cf (rt_kind (os_route o)).

Definition retain_ok y : Prop :=
  match y_retain y with
  | RTick t pos => tk_limit t ∈ y_limits y ∧ tick_ok t ∧ pos_ok pos
  | _ => True
  end.

(** The entry of an event of a kind whose key is the source and the time stamp *)
Definition event_entry (kind : RawEventKind) (source : string) (ts : Z) (db : DB) : option bytes :=
  cf_view db (kind_cf kind) !! event_key source None ts.
Definition limits_ok y : Prop := ∀ limit, limit ∈ y_limits y → 0 ≤ limit.
(** A tick since the start had a limit later than [ts]. *)
Definition outdated y (ts : Z) : Prop := ∃ limit, limit ∈ y_limits y ∧ DEFAULT_FROM ≤ ts < limit.
(** A stream of the source has stored these bytes with this time stamp. *)
Definition stored_by y kind source ts raw : Prop :=
  ∃ o, o ∈ y_streams y ∧ os_source o = source ∧ rt_kind (os_route o) = kind ∧
    (raw, ts) ∈ s_stored (os_state o).

Definition kept y : Prop := ∀ kind source ts raw,
  limits_ok y → plain_kind kind = true → 0 ≤ ts ≤ i64_max → stored_by y kind source ts raw →
  is_Some (event_entry kind source ts (y_db y)) ∨ outdated y ts.
Definition origin (db0 : DB) y : Prop := ∀ kind source ts raw,
  plain_kind kind = true → kind ∈ named_kinds → no_nul source → is_i64 ts →
  event_entry kind source ts (y_db y) = Some raw →
  event_entry kind source ts db0 = Some raw ∨ stored_by y kind source ts raw.

Record system_inv (db0 : DB) y : Prop := {
  yi_registry : registry_inv (y_registry y);
  yi_streams o : o ∈ y_streams y → stream_ok o;
  yi_retain : retain_ok y;
  yi_limits limit : limit ∈ y_limits y → is_i64 limit;
  yi_kept : kept y;
  yi_origin : origin db0 y;
}.

Lemma plain_standard kind :
  kind ∈ named_kinds → plain_kind kind = true → standard_cf (kind_cf kind).
Proof.
  intros Hn Hp. split; [by apply kind_cf_known|].
  assert (Forall (λ k, plain_kind k = true → kind_cf k ∉ NON_STANDARD_CFS) named_kinds) as Hall
    by (refine (bool_decide_unpack _ _); vm_compute; exact I).
  rewrite Forall_forall in Hall. auto.
Qed.

(** The events that are kept and where they come from only depend on the
    standard column families, the streams and the limits. *)
Lemma events_frame db0 y y' :
  (∀ cf, standard_cf cf → cf_view (y_db y') cf = cf_view (y_db y) cf) →
  (∀ kind source ts raw, stored_by y' kind source ts raw ↔ stored_by y kind source ts raw) →
  (∀ limit, limit ∈ y_limits y → limit ∈ y_limits y') →
  (∀ o, o ∈ y_streams y → rt_kind (os_route o) ∈ named_kinds) →
  kept y → origin db0 y → kept y' ∧ origin db0 y'.
Proof.
  intros Hv Hs Hl Hn Hk Ho. split.
  - intros kind source ts raw Hlim Hp Hts Hst%Hs.
    assert (kind ∈ named_kinds) as Hkind by (destruct Hst as (o & ? & _ & <- & _); auto).
    unfold event_entry. rewrite Hv by (by apply plain_standard).
    destruct (Hk kind source ts raw) as [?|(limit & ? & ?)]; [|done..|by left|right; exists limit; auto].
    intros limit ?. apply Hlim. auto.
  - intros kind source ts raw Hp Hkind Hns Hts. unfold event_entry.
    rewrite Hv by (by apply plain_standard). rewrite Hs. by apply Ho.
Qed.

(** *** Preservation *)
Lemma stored_put i o (s : Ingest.Stream) y kind source ts raw :
  y_streams y !! i = Some o → (∀ e, e ∈ s_stored (os_state o) → e ∈ s_stored s) →
  stored_by (put_stream i o s y) kind source ts raw ↔
    stored_by y kind source ts raw ∨
    (os_source o = source ∧ rt_kind (os_route o) = kind ∧ (raw, ts) ∈ s_stored s).
Proof.
  intros Hi Hsub. split.
  - intros (o' & [->|Hin]%elem_of_insert_inv & Hs & Hk & He); [by right|left; by exists o'].
  - intros [(o' & Hin & Hs & Hk & He)|(Hs & Hk & He)]; cycle 1.
    { eexists. split; [by eapply insert_elem_new|done]. }
    destruct (elem_of_insert_cases _ i o (mk_open (os_source o) (os_route o) (os_input o) s) o' Hi Hin)
      as [->|Hin']; [|by exists o'].
    eexists. split; [by eapply insert_elem_new|]. cbn. auto.
Qed.

(** A key an event of another kind or source is stored under is not the key of
    a plain event. *)
Lemma other_key kind source raw ts k v kind' source' ts' :
  storage_key kind source ts raw = Ok (k, v) → kind ∈ named_kinds → kind' ∈ named_kinds →
  plain_kind kind' = true → no_nul source → no_nul source' → is_i64 ts → is_i64 ts' →
  kind_cf kind = kind_cf kind' → k = event_key source' None ts' →
  kind' = kind ∧ source' = source ∧ ts' = ts ∧ v = raw.
Proof.
  intros Hk Hin Hin' Hp Hs Hs' Ht Ht' Hcf%kind_cf_inj Hkey; [|done..]. subst kind'.
  rewrite storage_key_plain in Hk by done. injection Hk as Hk <-.
  rewrite Hkey in Hk. apply event_key_parts_inj in Hk as (-> & _ & ->); done.
Qed.

(** The events after an event was appended *)
Lemma events_appended db0 i o (s : Ingest.Stream) y raw ts k v :
  y_streams y !! i = Some o → stream_ok o → is_i64 ts →
  storage_key (rt_kind (os_route o)) (os_source o) ts raw = Ok (k, v) →
  s_stored s = s_stored (os_state o) ++ [(raw, ts)] →
  (∀ c, cf_view (s_db s) c = put_view (rt_cf (os_route o)) k v (cf_view (y_db y)) c) →
  kept y → origin db0 y → kept (put_stream i o s y) ∧ origin db0 (put_stream i o s y).
Proof.
  intros Hi (Hinv & Happ & Hns & Hin & Hkind & Hcf) Hts Hkey Hst Hv Hk Ho.
  assert (∀ e, e ∈ s_stored (os_state o) → e ∈ s_stored s) as Hsub
    by (intros e ?; rewrite Hst; by apply elem_of_app; left).
  assert (∀ kind source t, event_entry kind source t (s_db s) =
    if decide (kind_cf (rt_kind (os_route o)) = kind_cf kind)
    then <[k := v]> (cf_view (y_db y) (kind_cf kind)) !! event_key source None t
    else event_entry kind source t (y_db y)) as Hentry.
  { intros kind source t. unfold event_entry. rewrite Hv. unfold put_view. rewrite Hcf. by case_decide. }
  split.
  - intros kind source t raw' Hlim Hp Ht Hsb. apply stored_put in Hsb; [|done..].
    change (y_db (put_stream i o s y)) with (s_db s). rewrite Hentry. case_decide as Hc.
    + rewrite lookup_insert_is_Some'. destruct Hsb as [Hsb|(<- & <- & He)].
      * destruct (Hk kind source t raw') as [?|?]; [done..|left; by right|by right].
      * rewrite Hst, elem_of_app, list_elem_of_singleton in He. destruct He as [He|[= -> ->]].
        -- destruct (Hk (rt_kind (os_route o)) (os_source o) t raw') as [?|?];
             [done|done|done| |left; by right|by right].
           exists o. split; [by eapply list_elem_of_lookup_2|done].
        -- left. left. rewrite storage_key_plain in Hkey by done. by injection Hkey.
    + destruct Hsb as [Hsb|(<- & <- & He)]; [exact (Hk kind source t raw' Hlim Hp Ht Hsb)|by destruct Hc].
  - intros kind source t raw' Hp Hkn Hns' Ht. change (y_db (put_stream i o s y)) with (s_db s).
    rewrite Hentry. rewrite stored_put by done. case_decide as Hc.
    + destruct (decide (k = event_key source None t)) as [E|Hne].
      * rewrite E, lookup_insert_eq. intros [= <-].
        destruct (other_key _ _ _ _ _ _ _ _ _ Hkey Hkind Hkn Hp Hns Hns' Hts Ht Hc E) as (-> & -> & -> & ->).
        right; right. split_and!; [done..|]. rewrite Hst. apply elem_of_app. right. by apply list_elem_of_singleton.
      * rewrite lookup_insert_ne by done. intros Hl.
        destruct (Ho kind source t raw' Hp Hkn Hns' Ht Hl); [by left|right; by left].
    + intros Hl. destruct (Ho kind source t raw' Hp Hkn Hns' Ht Hl); [by left|right; by left].
Qed.

Lemma data_event_received input raw ts : (raw, ts) ∈ data input → REvent raw ts ∈ input.
Proof.
  unfold data. rewrite list_elem_of_omap. intros ([raw' ts'| |] & Hin & He); [|done..].
  cbn in He. destruct (is_close raw' ts'); [done|]. by injection He as -> ->.
Qed.
Lemma data_i64 input raw ts : Forall received_ok input → (raw, ts) ∈ data input → is_i64 ts.
Proof. intros Hall Hin%data_event_received. rewrite Forall_forall in Hall. by apply Hall in Hin. Qed.

Lemma append_data input (s : Ingest.Stream) raw ts k v :
  order_inv input s → s_recv s = PAppend raw ts k v → (raw, ts) ∈ data input.
Proof.
  unfold order_inv. intros Ho Hpc. rewrite Hpc in Ho. rewrite Ho. cbn [in_flight].
  apply elem_of_app. right. by left.
Qed.

(** What a stream has stored, it was sent. *)
Lemma stored_data o raw ts :
  stream_ok o → (raw, ts) ∈ s_stored (os_state o) → REvent raw ts ∈ os_input o ∧ is_i64 ts.
Proof.
  intros ([Ho _] & _ & _ & Hin & _) Hst. apply order_inv_prefix in Ho.
  assert ((raw, ts) ∈ data (os_input o)) as Hd by (by eapply elem_of_prefix).
  split; [by apply data_event_received|by eapply data_i64].
Qed.

Lemma stream_step db0 i o a s y :
  y_streams y !! i = Some o → is_own a = true → stream_exec o a y = Some s →
  system_inv db0 y → system_inv db0 (put_stream i o s y).
Proof.
  intros Hi Hown He [Hr Hs Ht Hl Hk Ho].
  assert (stream_ok o) as Hok by (apply Hs; by eapply list_elem_of_lookup_2).
  pose proof Hok as (Hinv & Happ & Hns & Hin & Hkind & Hcf). destruct Hr as [Hh Hq Htab Hsrc].
  unfold stream_exec in He. set (s0 := Ingest.set_channels _ _) in He.
  assert (ingest_inv (os_input o) s0) as Hinv0 by exact Hinv.
  destruct (exec_view _ _ _ _ _ _ _ He Hown Hh) as [Hh' Hcase];
    [rewrite Hcf; by apply kind_cf_known|].
  assert (stream_ok (mk_open (os_source o) (os_route o) (os_input o) s)) as Hok'.
  { split_and!; cbn; [by eapply ingest_inv_step|by eapply append_ok_step|done..]. }
  assert (kept (put_stream i o s y) ∧ origin db0 (put_stream i o s y) ∧
    cf_view (s_db s) "sources" = cf_view (y_db y) "sources") as (Hk' & Ho' & Hsrc').
  { destruct Hcase as [[Hst Hv]|(raw & ts & k & v & Hpc & Hst & Hv)].
    - destruct (events_frame db0 y (put_stream i o s y)) as [? ?]; try done.
      + intros kind source ts raw. rewrite stored_put by (done || by rewrite Hst).
        split; [|by left]. intros [?|(Hso & Hki & Hse)]; [done|].
        exists o. split; [by eapply list_elem_of_lookup_2|]. by rewrite Hst in Hse.
      + intros o' Ho'. apply (Hs o' Ho').
    - assert (is_i64 ts) as Hts by (eapply data_i64; [exact Hin|]; eapply append_data; [apply Hinv0|exact Hpc]).
      destruct (events_appended db0 i o s y raw ts k v Hi Hok Hts) as [? ?]; try done.
      { apply Happ. exact Hpc. }
      split_and!; [done|done|]. rewrite Hv. unfold put_view.
      rewrite decide_False; [done|]. rewrite Hcf. intros E.
      assert (Forall (λ k, kind_cf k ≠ "sources") named_kinds) as Hall
        by (refine (bool_decide_unpack _ _); vm_compute; exact I).
      rewrite Forall_forall in Hall. by apply (Hall _ Hkind). }
  split; [|intros o' [Heq|?]%elem_of_insert_inv; [by rewrite Heq|auto]|exact Ht|exact Hl|done|done].
  split; cbn; [done..|]. intros src. rewrite Hsrc'. apply Hsrc.
Qed.

(** A step of the registry or of the retention task *)
Lemma tick_events db0 t y pc db limits :
  healthy db → tick_ok t → (∀ cf, standard_cf cf → cut t (cf_view (y_db y) cf) (cf_view db cf)) →
  tk_limit t ∈ y_limits y → limits = y_limits y →
  (∀ limit, limit ∈ y_limits y → is_i64 limit) →
  (∀ o, o ∈ y_streams y → stream_ok o) →
  kept y → origin db0 y →
  kept (put_retain pc db limits y) ∧ origin db0 (put_retain pc db limits y).
Proof.
  intros Hh Hok Hcut Hin -> Hl Hs Hk Ho. split.
  - intros kind source ts raw Hlim Hp Hts Hst.
    assert (kind ∈ named_kinds ∧ no_nul source) as [Hkind Hns].
    { destruct Hst as (o & Hino & <- & <- & _). destruct (Hs o Hino) as (_ & _ & ? & _ & ? & _). done. }
    destruct (Hk kind source ts raw Hlim Hp Hts Hst) as [Hsome|?]; [|by right].
    unfold event_entry in *. change (y_db (put_retain pc db (y_limits y) y)) with db.
    destruct (Hcut (kind_cf kind)) as [->|(src & Hsrc & ->)]; [by apply plain_standard|by left|].
    destruct Hsome as [v Hv]. rewrite map_lookup_filter, Hv. cbn.
    destruct (decide (expired (tk_limit t) (event_key source None ts) src)) as [Hx|Hx].
    + right. pose proof (Hl _ Hin) as Hi. exists (tk_limit t). split; [done|].
      apply expired_event in Hx as [_ ?]; [done..| |done].
      specialize (Hlim _ Hin). unfold is_i64 in Hi. lia.
    + left. rewrite option_guard_True by done. by eexists.
  - intros kind source ts raw Hp Hkind Hns Hts Hl'. apply (Ho kind source ts raw); try done.
    unfold event_entry in *. change (y_db (put_retain pc db (y_limits y) y)) with db in Hl'.
    destruct (Hcut (kind_cf kind)) as [E|(src & Hsrc & E)]; [by apply plain_standard| |];
      rewrite E in Hl'; [done|]. by apply map_lookup_filter_Some in Hl' as [? _].
Qed.

Lemma retain_step_inv db0 t pos r pc db y :
  y_retain y = RTick t pos → tick_step t pos (y_db y) = (r, db) →
  (∀ t' pos', pc = RTick t' pos' → r = Ok pc) →
  system_inv db0 y → system_inv db0 (put_retain pc db (y_limits y) y).
Proof.
  intros Hpc Hstep Hr [Hreg Hs Ht Hl Hk Ho]. unfold retain_ok in Ht. rewrite Hpc in Ht.
  destruct Ht as (Hin & Hok & Hpos).
  destruct (tick_step_view t pos (y_db y) r db Hstep (ri_db _ Hreg) Hok Hpos)
    as (Hh & Hcut & Hsrc & Hnext).
  destruct (tick_events db0 t y pc db (y_limits y)) as [Hk' Ho']; [done..|].
  split; [|done| |done|done|done].
  - destruct Hreg as [? Hq Htab Hst]. split; cbn; [done..|]. intros s. rewrite Hsrc. apply Hst.
  - unfold retain_ok. cbn. destruct pc as [|t' pos'|]; [done| |done].
    destruct (Hnext t' pos') as [-> ?]; [by apply (Hr t' pos')|]. done.
Qed.

Lemma begin_tick_healthy now retention_duration db :
  healthy db → begin_tick now retention_duration db =
    (Ok (RTick (mk_tick (tick_limit now retention_duration) (mk_store <$> standard_names)
                 (mk_store "log"))
           (NextSource (source_names (mk_source_store "sources") db))), db).
Proof.
  intros [Hio Hop]. unfold begin_tick, m_bind, m_gets, sources_store.
  rewrite (Hop "sources") by known_cf.
  unfold retain_period_store. rewrite retain_stores_of_opened by done. fold standard_names.
  unfold log_store, raw_event_store. by rewrite (Hop "log") by known_cf.
Qed.

Lemma begin_tick_ok now retention_duration db :
  healthy db → (∀ s, is_Some (cf_view db "sources" !! s) → Byte.x00 ∉ s) →
  ∃ t pos, begin_tick now retention_duration db = (Ok (RTick t pos), db) ∧
    tk_limit t = tick_limit now retention_duration ∧ tick_ok t ∧ pos_ok pos.
Proof.
  intros Hh Hst. eexists _, _. split; [by apply begin_tick_healthy|]. split_and!; [done| |].
  - split; [|done]. intros st. cbn [tk_stores]. rewrite list_elem_of_fmap.
    intros (cf & -> & Hcf). by apply elem_of_standard_names.
  - intros s. unfold source_names. cbn [source_cf]. destruct Hh as [Hio Hop].
    rewrite iterator_io by (done || (apply Hop; known_cf)). rewrite oks_fmap_Ok. cbn [scan].
    intros Hs%elem_of_source_keys. by apply Hst.
Qed.

Lemma tick_limit_i64 now retention_duration : is_i64 (tick_limit now retention_duration).
Proof. unfold tick_limit. apply wrap_i64_range. Qed.

Lemma stored_open source r input y kind src ts raw :
  stored_by (open_stream source r input y) kind src ts raw ↔ stored_by y kind src ts raw.
Proof.
  unfold stored_by, open_stream. cbn [y_streams]. split.
  - intros (o & [Hin|Ho]%elem_of_app & ? & ? & Hst); [by exists o|].
    apply list_elem_of_singleton in Ho as ->. by apply elem_of_nil in Hst.
  - intros (o & Hin & ?). exists o. split; [apply elem_of_app; by left|done].
Qed.

Lemma system_inv_step notify_source retention_duration db0 y y' :
  System.Step notify_source retention_duration y y' → system_inv db0 y → system_inv db0 y'.
Proof.
  destruct 1 as [source header input r y Hr Hns Hin|i o a s y Hi Hown He|ch y|r y Hs Hq
    |now pc db y Hpc Hb|t pos pc db y Hpc Hb|t pos e db y Hpc Hb]; intros Hinv;
    pose proof Hinv as [Hreg Hstr Ht Hl Hk Ho].
  - destruct (events_frame db0 y (open_stream source r input y)) as [? ?]; try done.
    { intros kind src ts raw. apply stored_open. }
    { intros o ?. by apply Hstr. }
    split; try done. intros o [?|Ho']%elem_of_app; [auto|]. apply list_elem_of_singleton in Ho' as ->.
    unfold handle_request in Hr. inv_result. apply route_network_spec in Hr as (Hkind & Hrk & Hcf & _).
    split_and!; cbn; rewrite ?Hrk; [apply ingest_inv_start|done..].
  - by eapply stream_step.
  - by split.
  - destruct (registry_step _ _ _ Hs Hq Hreg) as [Hreg' Hsame].
    destruct (events_frame db0 y (mk_system r (y_channels y) (y_streams y) (y_retain y) (y_limits y)))
      as [? ?]; try done.
    + intros cf Hcf. apply Hsame. intros ->. destruct Hcf as [Hcf _]. revert Hcf. concrete.
    + intros o ?. by apply Hstr.
  - destruct (begin_tick_ok now retention_duration (y_db y) (ri_db _ Hreg) (ri_stored _ Hreg))
      as (t & pos & Hb' & Hlim & Htick & Hpos). rewrite Hb in Hb'.
    apply pair_eq in Hb' as [->%(inj Ok) ->].
    destruct (events_frame db0 y (put_retain (RTick t pos) (y_db y)
      (y_limits y ++ [tick_limit now retention_duration]) y)) as [? ?]; try done.
    { intros limit ?. apply elem_of_app. by left. }
    { intros o ?. by apply Hstr. }
    split; try done; [by destruct Hreg|..].
    + unfold retain_ok. cbn. rewrite Hlim. split; [|done]. apply elem_of_app. right. by left.
    + intros limit [?|E]%elem_of_app; [auto|]. apply list_elem_of_singleton in E as ->.
      apply tick_limit_i64.
  - eapply retain_step_inv; [done..|]. done.
  - eapply retain_step_inv; [done..|]. done.
Qed.

Lemma start_system_inv db0 :
  healthy db0 → (∀ s, is_Some (cf_view db0 "sources" !! s) → Byte.x00 ∉ s) →
  system_inv db0 (start_system db0).
Proof.
  intros Hh Hs. split; try done.
  - split; [done| | |done]; cbn; [by intros i ?%elem_of_nil|by intros name []].
  - by intros o ?%elem_of_nil.
  - by intros limit ?%elem_of_nil.
  - by intros kind source ts raw _ _ _ (o & ?%elem_of_nil & _).
  - intros kind source ts raw _ _ _ _ Hl. by left.
Qed.

Lemma system_inv_reachable notify_source retention_duration db0 y :
  healthy db0 → (∀ s, is_Some (cf_view db0 "sources" !! s) → Byte.x00 ∉ s) →
  rtc (System.Step notify_source retention_duration) (start_system db0) y → system_inv db0 y.
Proof.
  intros Hh Hs Hrun. pose proof (start_system_inv db0 Hh Hs) as Hinv. revert Hinv.
  generalize (start_system db0), Hrun. clear Hrun. induction 1; [done|].
  intros Hinv. by eauto using system_inv_step.
Qed.

(** What a stream has acknowledged, it was sent and has stored; -1 acknowledges a
    channel-close message. *)
Lemma acknowledged_stored db0 y o a :
  system_inv db0 y → o ∈ y_streams y → a ∈ s_acks (os_state o) → 0 ≤ a →
  is_i64 a ∧ ∃ raw, REvent raw a ∈ os_input o ∧
    stored_by y (rt_kind (os_route o)) (os_source o) a raw.
Proof.
  intros Hinv Hin Ha Hpos. pose proof (yi_streams _ _ Hinv o Hin) as Hok.
  pose proof Hok as ((_ & _ & (Hacks & _) & _) & _).
  destruct (Hacks a Ha) as [->|[raw Hraw]]; [done|].
  destruct (stored_data o raw a Hok Hraw) as [? ?]. split; [done|]. exists raw.
  split; [done|]. by exists o.
Qed.

(** Whatever the ingest streams, the registry of sources, the publish service and
    the retention task do in whatever order: an acknowledged event of a kind that
    is keyed by source and time stamp was sent, and has an entry in the database
    unless a retention tick had a limit later than it. *)
Theorem acknowledged_event_kept notify_source retention_duration db0 y o a :
  healthy db0 → (∀ s, is_Some (cf_view db0 "sources" !! s) → Byte.x00 ∉ s) →
  rtc (System.Step notify_source retention_duration) (start_system db0) y →
  o ∈ y_streams y → plain_kind (rt_kind (os_route o)) = true →
  a ∈ s_acks (os_state o) → 0 ≤ a →
  (∃ raw, REvent raw a ∈ os_input o) ∧
  (limits_ok y → is_Some (event_entry (rt_kind (os_route o)) (os_source o) a (y_db y)) ∨ outdated y a).
Proof.
  intros Hh Hs Hrun Hin Hp Ha Hpos.
  pose proof (system_inv_reachable _ _ _ _ Hh Hs Hrun) as Hinv.
  destruct (acknowledged_stored db0 y o a Hinv Hin Ha Hpos) as (Hi & raw & Hraw & Hst).
  split; [by exists raw|]. intros Hlim. apply (yi_kept _ _ Hinv _ _ a raw Hlim Hp); [|done].
  unfold is_i64 in Hi. lia.
Qed.

(** C12: Nothing is made up: an entry of such a kind is one the database had at the
    start, or a stream of this source and kind sent it with this time stamp. *)
Theorem stored_event_was_sent notify_source retention_duration db0 y kind source ts raw :
  healthy db0 → (∀ s, is_Some (cf_view db0 "sources" !! s) → Byte.x00 ∉ s) →
  rtc (System.Step notify_source retention_duration) (start_system db0) y →
  plain_kind kind = true → kind ∈ named_kinds → no_nul source → is_i64 ts →
  event_entry kind source ts (y_db y) = Some raw →
  event_entry kind source ts db0 = Some raw ∨
  ∃ o, o ∈ y_streams y ∧ os_source o = source ∧ rt_kind (os_route o) = kind ∧
    REvent raw ts ∈ os_input o.
Proof.
  intros Hh Hs Hrun Hp Hkind Hns Hts Hl.
  pose proof (system_inv_reachable _ _ _ _ Hh Hs Hrun) as Hinv.
  destruct (yi_origin _ _ Hinv kind source ts raw Hp Hkind Hns Hts Hl) as [?|(o & Hin & ? & ? & Hst)];
    [by left|right].
  exists o. split_and!; [done..|]. eapply stored_data; [|done]. by apply (yi_streams _ _ Hinv).
Qed.
End system.

(** ** Witnesses: one stream of connection events, acknowledged by the interval *)
#[local] Existing Instance undecoded | 100.

(** Steps of one stream, one after the other *)
Fixpoint stream_steps (i : nat) (actions : list Action) (y : System) : option System :=
  match actions with
  | [] => Some y
  | a :: actions =>
      o ← y_streams y !! i;
      s ← stream_exec o a y;
      stream_steps i actions (put_stream i o s y)
  end.

Lemma stream_steps_rtc notify_source retention_duration i actions y y' :
  stream_steps i actions y = Some y' → forallb is_own actions = true →
  rtc (System.Step notify_source retention_duration) y y'.
Proof.
  revert y. induction actions as [|a actions IH]; intros y; cbn; [by intros [= ->]|].
  destruct (y_streams y !! i) as [o|] eqn:Hi; [|done]. cbn.
  destruct (stream_exec o a y) as [s|] eqn:He; [|done]. cbn.
  intros Hrun [Ha Hall]%andb_true_iff. eapply rtc_l; [by eapply YStream|]. by apply IH.
Qed.

Definition demo_route : Route := mk_route RawEventKind.Conn (Some (NetworkKey.new "src1" "conn")) "conn".
Definition demo_opened : System :=
  open_stream "src1" demo_route (events demo_input) (start_system demo_db).

Lemma demo_acked_eq :
  ∃ y o, stream_steps 0 tick_schedule demo_opened = Some y ∧ y_streams y = [o] ∧ os_source o = "src1" ∧
    os_route o = demo_route ∧ os_input o = events demo_input ∧ s_acks (os_state o) = [7] ∧
    y_limits y = [].
Proof.
  assert ((λ y, (length (y_streams y), y_limits y)) <$> stream_steps 0 tick_schedule demo_opened =
    Some (1%nat, [])) as Hlen
    by (vm_compute; reflexivity).
  assert ((λ y, (λ o, (os_source o, os_route o, os_input o, s_acks (os_state o))) <$> y_streams y)
      <$> stream_steps 0 tick_schedule demo_opened = Some [("src1"%string, demo_route, events demo_input, [7])]) as Hst
    by (vm_compute; reflexivity).
  destruct (stream_steps 0 tick_schedule demo_opened) as [y|]; [|discriminate Hlen]. cbn in Hlen, Hst. exists y.
  destruct (y_streams y) as [|o [|o' l]] eqn:E; [discriminate Hlen| |discriminate Hlen].
  injection Hlen as Hlim. injection Hst as H1 H2 H3 H4. by exists o.
Qed.

Lemma demo_handled :
  handle_request "src1" (Ok (u32_to_le_bytes 0)) demo_db = Ok (Some demo_route).
Proof. vm_compute. reflexivity. Qed.

Lemma demo_opens : System.Step true 1 (start_system demo_db) demo_opened.
Proof.
  apply (YOpened true 1 "src1" (Ok (u32_to_le_bytes 0)) (events demo_input) demo_route
    (start_system demo_db)); [exact demo_handled|concrete|].
  repeat constructor; cbn; concrete.
Qed.

Lemma demo_reaches :
  ∃ y o, rtc (System.Step true 1) (start_system demo_db) y ∧ y_streams y = [o] ∧
    os_source o = "src1" ∧ rt_kind (os_route o) = RawEventKind.Conn ∧ rt_cf (os_route o) = "conn" ∧
    os_input o = events demo_input ∧ s_acks (os_state o) = [7] ∧ limits_ok y ∧ ¬ outdated y 7.
Proof.
  destruct demo_acked_eq as (y & o & Hy & Ho & Hs & Hr & Hi & Ha & Hl).
  exists y, o. split_and!; [|done|done|by rewrite Hr|by rewrite Hr|done|done| |].
  - apply (rtc_l _ _ demo_opened); [exact demo_opens|].
    exact (stream_steps_rtc true 1 0 tick_schedule demo_opened y Hy eq_refl).
  - intros limit. rewrite Hl. intros []%elem_of_nil.
  - intros (limit & Hin & _). rewrite Hl in Hin. by apply elem_of_nil in Hin.
Qed.

Lemma demo_sources_nul s : is_Some (cf_view demo_db "sources" !! s) → Byte.x00 ∉ s.
Proof. intros [v Hv]. exact (demo_source_names s v Hv). Qed.

Lemma acknowledged_event_kept_witness :
  ∃ y, rtc (System.Step true 1) (start_system demo_db) y ∧
    is_Some (event_entry RawEventKind.Conn "src1" 7 (y_db y)).
Proof.
  destruct demo_reaches as (y & o & Hrun & Ho & Hs & Hk & Hc & Hi & Ha & Hl & Hn).
  exists y. split; [exact Hrun|]. rewrite <- Hk, <- Hs.
  assert (o ∈ y_streams y) as Hin by (rewrite Ho; left).
  assert (plain_kind (rt_kind (os_route o)) = true) as Hp by (by rewrite Hk).
  assert (7 ∈ s_acks (os_state o)) as Hack by (rewrite Ha; left).
  destruct (acknowledged_event_kept true 1 demo_db y o 7 demo_healthy demo_sources_nul Hrun Hin
    Hp Hack ltac:(discriminate)) as [_ Hkept].
  destruct (Hkept Hl) as [Hs'|Hout]; [exact Hs'|destruct (Hn Hout)].
Defined.

Lemma demo_stored :
  ∃ raw, (λ y, event_entry RawEventKind.Conn "src1" 7 (y_db y))
    <$> stream_steps 0 tick_schedule demo_opened = Some (Some raw).
Proof. eexists. vm_compute. reflexivity. Qed.

Lemma stored_event_was_sent_witness :
  ∃ y raw, event_entry RawEventKind.Conn "src1" 7 (y_db y) = Some raw ∧
    (event_entry RawEventKind.Conn "src1" 7 demo_db = Some raw ∨
     ∃ o, o ∈ y_streams y ∧ os_source o = "src1"%string ∧ rt_kind (os_route o) = RawEventKind.Conn ∧
       REvent raw 7 ∈ os_input o).
Proof.
  destruct demo_stored as [raw Hraw].
  destruct (stream_steps 0 tick_schedule demo_opened) as [y|] eqn:Hy; [|discriminate Hraw].
  apply (inj Some) in Hraw. exists y, raw. split; [exact Hraw|].
  apply (stored_event_was_sent true 1 demo_db y RawEventKind.Conn "src1" 7 raw demo_healthy demo_sources_nul);
    [|reflexivity| | | |exact Hraw].
  - apply (rtc_l _ _ demo_opened); [exact demo_opens|].
    exact (stream_steps_rtc true 1 0 tick_schedule demo_opened y Hy eq_refl).
  - concrete.
  - concrete.
  - concrete.
Defined.
