(* ===== verification/Live.v ===== *)
(** * A subscription beside the ingestion (publish.rs [send_stream], ingest.rs [handle_data])

    [Publish] has [send_stream] in one piece; here it goes step by step beside
    the stream of a source whose events it delivers: the channel is made and its
    keys are registered one at a time, then the stored events are read and
    sent, then the spawned task forwards what the ingestion puts into the
    channel.  Both work on one database and one table of subscriptions. *)

From Stdlib Require Import ZArith Lia.
From S2P Require Import Prelude Bytes Externals StorageKey NetAddr GigantoClient Events.
From S2P Require Import Storage StorageSpec Channels Ingest Publish System.

(** Where the subscription stands: before [open_uni]; with keys still to be
    registered; the task forwards what arrives; [send_stream] has returned an
    error; the task has ended, as a write failed or all senders of its
    channel were replaced or removed. *)
Inductive SubPc :=
| Requested
| Registering (sender : Wire) (channel_keys todo : list string)
| Forwarding (rt : Realtime)
| Failed (e : string)
| Ended.

(** [unbounded_channel()], [insert(c_key, send.clone())] and [recv.recv()] *)
Definition open_channel (c : ChannelId) (s : Channels) : Channels :=
  mk_channels (subscriptions s) (<[c := mk_channel [] true]> (channels s)).
Definition register (k : string) (c : ChannelId) (s : Channels) : Channels :=
  mk_channels (<[k := c]> (subscriptions s)) (channels s).
Definition channel_recv (c : ChannelId) (s : Channels) : option (bytes * Channels) :=
  match channels s !! c with
  | Some (mk_channel (buf :: queue) open) =>
      Some (buf, mk_channels (subscriptions s) (<[c := mk_channel queue open]> (channels s)))
  | _ => None
  end.

(** Nobody holds a sender of the channel any more: [recv()] gives [None]. *)
Definition no_sender (c : ChannelId) (s : Channels) : bool :=
  forallb (λ kc, negb (kc.2 =? c)%nat) (map_to_list (subscriptions s)).

Section live.
Context `{RocksDBSpec} `{Chrono} `{Client} `{HashOrder}.
Context `{Bincode string, Bincode Log, Bincode PeriodicTimeSeries, Bincode OpLog,
  Bincode Packet, Bincode Statistics, Bincode SecuLog}.
Context {T N : Type} `{!Bincode T} `{!EventFilter T} `{!RequestStreamMessage N}.

Record Live := mk_live { lv_stream : Ingest.Stream; lv_sub : SubPc }.

(** The request with the store of its kind, and the channel that is made for it *)
Variables (store : RawEventStore T) (record_type : RequestStreamRecord).
Variables (req : StreamRequest N) (c : ChannelId).

(** One step of [send_stream] and of the task it spawns; [None] when it waits or
    has ended.  The stored events are those of the moment the iterator is made. *)
Definition sub_exec (db : DB) (ch : Channels) (pc : SubPc) : option (Channels * SubPc) :=
  match pc with
  | Requested =>
      Some match (sender ← sr_uni req;
                  channel_keys ← channel_key (sr_msg req) (sr_source req) (record_str record_type);
                  Ok (sender, channel_keys)) with
           | Ok (sender, channel_keys) =>
               (open_channel c ch, Registering sender channel_keys channel_keys)
           | Err e => (ch, Failed e)
           end
  | Registering sender channel_keys (k :: todo) =>
      Some (register k c ch, Registering sender channel_keys todo)
  | Registering sender channel_keys [] =>
      Some match start_stream_task store record_type req db sender with
           | (Ok last_ts, sender) => (ch, Forwarding (mk_realtime sender last_ts channel_keys c))
           | (Err e, _) => (drop_receiver c ch, Failed e)
           end
  | Forwarding rt =>
      match channel_recv c ch with
      | None => if no_sender c ch then Some (drop_receiver c ch, Ended) else None
      | Some (buf, ch) =>
          let '(r, ch) := realtime_step rt buf ch in
          Some (ch, match r with Some rt => Forwarding rt | None => Ended end)
      end
  | Failed _ | Ended => None
  end.

Definition sub_step (x : Live) : option Live :=
  let s := lv_stream x in
  (λ '(ch, pc), mk_live (Ingest.set_channels ch s) pc) <$>
    sub_exec (s_db s) (s_channels s) (lv_sub x).

(** The subscription alone *)
Fixpoint sub_run (n : nat) (x : Live) : option Live :=
  match n with O => Some x | S n => x ← sub_step x; sub_run n x end.

(** The ingest stream: what [handle_request] has made of its header *)
Variables (kind : RawEventKind) (network_key : option NetworkKey) (source : string).

Definition live_exec (a : Action) (x : Live) : option Live :=
  (λ s, mk_live s (lv_sub x)) <$> exec kind network_key source (store_cf store) a (lv_stream x).

(** What the start of a crusher's stream reads *)
Definition stored_window (db : DB) : list (bytes * bytes) :=
  let key_builder := builder |> start_key source |> mid_key (as_bytes <$> sr_kind req) in
  entries_between (cf_view db (store_cf store))
    (lower_key key_builder (Some (timestamp_nanos (start_time (sr_msg req)))))
    (upper_key key_builder None).

(** What the other tasks may do to the shared state meanwhile: everything that
    neither touches the entries of the source from the start time on nor the
    channel of the subscription and its keys. *)
Definition undisturbed (s : Ingest.Stream) (db : DB) (ch : Channels) : Prop :=
  healthy db ∧ stored_window db = stored_window (s_db s) ∧
  channels ch !! c = channels (s_channels s) !! c ∧
  ∀ k, subscriptions ch !! k = Some c ↔ subscriptions (s_channels s) !! k = Some c.

Inductive Step : Live → Live → Prop :=
| LIngest a x y : is_own a = true → live_exec a x = Some y → Step x y
| LSubscription x y : sub_step x = Some y → Step x y
| LOther db ch x :
    undisturbed (lv_stream x) db ch →
    Step x (mk_live (Ingest.set_channels ch (Ingest.set_db db (lv_stream x))) (lv_sub x)).
End live.
