(* ===== verification/LiveSpec.v ===== *)
(** * What a subscription delivers

    A crusher's subscription beside the ingestion of its source ([Live]): in
    every interleaving, and while anything else goes on that leaves both alone,
    the crusher gets every stored event and then every new one, in order and
    none left out; only an event that was stored between the registration of the
    channel and the read, and is the last of those sent from the store, comes
    twice. *)

From Stdlib Require Import ZArith Lia.
From S2P Require Import Prelude Bytes Externals StorageKey NetAddr GigantoClient Events.
From S2P Require Import Storage StorageSpec Demo Channels Ingest IngestSpec Publish PublishSpec.
From S2P Require Import System SystemSpec Live.

(** ** The store *)
Section store.

#[local] Instance key_lt_antisymm : AntiSymm (=) key_lt.
Proof. intros a b Hab Hba. destruct (key_lt_irrefl a). by etrans. Qed.

(** A key behind those of the range adds its entry at the end. *)
Lemma entries_between_snoc m lo hi k v :
  between lo hi k → Forall (λ kv, bytes_lt kv.1 k) (entries_between m lo hi) →
  entries_between (<[k := v]> m) lo hi = entries_between m lo hi ++ [(k, v)].
Proof.
  intros Hk Hlt. rewrite Forall_forall in Hlt.
  assert (StronglySorted key_lt (entries_between m lo hi ++ [(k, v)])) as Hs.
  { apply StronglySorted_app_2; [|apply entries_between_sorted|repeat constructor].
    intros x y Hx ->%list_elem_of_singleton. by apply Hlt. }
  apply (StronglySorted_unique key_lt); [apply entries_between_sorted|exact Hs|].
  assert (∀ l, StronglySorted key_lt l → NoDup l) as Hnd.
  { induction 1 as [|x l _ IH Hx]; constructor; [|done]. intros Hin.
    rewrite Forall_forall in Hx. by destruct (key_lt_irrefl x); apply Hx. }
  apply NoDup_Permutation; [by apply Hnd, entries_between_sorted|by apply Hnd|].
  intros [k' v']. rewrite elem_of_app, list_elem_of_singleton, !elem_of_entries_between.
  destruct (decide (k = k')) as [<-|Hne].
  - rewrite lookup_insert_eq. split; [intros [_ [= <-]]; by right|].
    intros [[Hb Hm]|[= ->]]; [|done]. destruct (bytes_lt_irrefl k).
    apply (Hlt (k, v')). by apply elem_of_entries_between.
  - rewrite lookup_insert_ne by done. split; [by left|]. intros [?|[= ? _]]; [done|congruence].
Qed.
End store.

(** ** What is put into the channel *)
Section direct.
Context `{Client} `{Bincode string}.
Implicit Types (s : Channels) (nk : NetworkKey).

(** A call that succeeds has delivered to every matching subscriber. *)
Lemma send_direct_ok_deliverable nk raw ts source subs s s' :
  send_direct_stream subs nk raw ts source s = (Ok tt, s') → deliverable nk raw ts source subs s.
Proof.
  unfold send_direct_stream. revert s. induction subs as [|[k c] subs IH]; intros s.
  - intros _ k c ?%not_elem_of_nil. done.
  - cbn [m_iter]. unfold m_bind, send_to_subscriber.
    destruct (key_matches nk k) eqn:Hk; cbn.
    + unfold m_bind, m_lift. destruct (direct_frame k raw ts source) as [b|] eqn:Hb; [|done].
      unfold channel_send. destruct (channels s !! c) as [ch|] eqn:Hc; [|done].
      destruct (ch_open ch) eqn:Ho; [|done]. intros Hd%IH k' c' [[= -> ->]|Hin]%elem_of_cons Hk'.
      * split; [by exists ch|]. by rewrite Hb.
      * destruct (Hd k' c' Hin Hk') as [(ch' & Hc' & Ho') ?]. split; [|done]. cbn in Hc'.
        destruct (decide (c = c')) as [->|Hne]; [by exists ch|].
        rewrite lookup_insert_ne in Hc' by done. by exists ch'.
    + intros Hd%IH k' c' [[= -> ->]|Hin]%elem_of_cons Hk'; [congruence|eauto].
Qed.

(** A channel gets one frame for each of its keys. *)
Lemma delivered_none nk raw ts source subs c :
  (∀ k, (k, c) ∉ subs) → delivered nk raw ts source subs c = [].
Proof.
  unfold delivered. induction subs as [|[k c'] subs IH]; intros Hl; [done|]. cbn.
  destruct (Nat.eqb_spec c' c) as [->|_]; [destruct (Hl k); left|]. rewrite andb_false_r.
  apply IH. intros k' ?. apply (Hl k'). by right.
Qed.

Lemma delivered_one nk raw ts source subs c key b :
  NoDup subs.*1 → (∀ k, (k, c) ∈ subs ↔ k = key) → key_matches nk key = true →
  direct_frame key raw ts source = Ok b → delivered nk raw ts source subs c = [b].
Proof.
  intros Hnd Hkey Hm Hf.
  assert ((key, c) ∈ subs) as (l1 & l2 & ->)%list_elem_of_split by (by apply Hkey).
  rewrite fmap_app, fmap_cons, NoDup_app, NoDup_cons in Hnd. destruct Hnd as (_ & H1 & H2 & _).
  unfold delivered. rewrite omap_app. cbn. rewrite Hm, Nat.eqb_refl, Hf. cbn.
  change (delivered nk raw ts source l1 c ++ b :: delivered nk raw ts source l2 c = [b]).
  rewrite !delivered_none; [done| |]; intros k Hk.
  - assert (k = key) as -> by (apply Hkey, elem_of_app; right; by right).
    apply H2. apply list_elem_of_fmap. by exists (key, c).
  - assert (k = key) as -> by (apply Hkey, elem_of_app; by left).
    apply (H1 key); [|left]. apply list_elem_of_fmap. by exists (key, c).
Qed.
End direct.

(** A channel without sender is one that no key leads to. *)
Lemma no_sender_spec c s : no_sender c s = true ↔ ∀ k, subscriptions s !! k ≠ Some c.
Proof.
  unfold no_sender. rewrite forallb_forall. split.
  - intros Hall k Hk. specialize (Hall (k, c)). cbn in Hall. rewrite Nat.eqb_refl in Hall.
    discriminate Hall. by apply list_elem_of_In, elem_of_map_to_list.
  - intros Hno [k c'] Hin%list_elem_of_In%elem_of_map_to_list. cbn.
    destruct (Nat.eqb_spec c' c) as [->|]; [by destruct (Hno k)|done].
Qed.

(** ** What is read from the store *)
Section stored.
Context `{RocksDBSpec} `{Chrono} `{Client}.
Context {T N : Type} `{!Bincode T} `{!EventFilter T} `{!RequestStreamMessage N}.
Implicit Types (msg : N) (kv : bytes * bytes).

(** The time stamp of the last event sent from the store; 0 if there is none *)
Definition last_sent (sent : list (list WireCall * option Z)) : Z :=
  default 0 (last (omap snd sent)).

Lemma send_stored_item_ok msg last_ts kv w t w' :
  whole w → send_stored_item (T := T) msg last_ts (decode kv) w = (Ok t, w') →
  ∃ cs ts, stored_calls (T := T) msg kv cs ts ∧ t = default last_ts ts ∧ w' = wrote w cs.
Proof.
  intros Hw. unfold send_stored_item, send_crusher_data, decode, m_bind, m_lift, m_ret, key_timestamp, stored_calls.
  destruct (bincode_deserialize kv.2) as [x|] eqn:Hx; [|done]. cbn [fmap result_fmap map_err fst snd].
  destruct (orig_addr x) as [oa|] eqn:Hoa; [|done]. destruct (resp_addr x) as [ra|] eqn:Hra; [|done].
  destruct (filter_ip msg oa ra) eqn:Hf.
  - destruct (length kv.1 <? TIMESTAMP_SIZE)%nat eqn:Hl; [done|]. apply Nat.ltb_ge in Hl.
    rewrite emit_whole by done. destruct (bincode_serialize x) as [d|] eqn:Hd; [|done].
    rewrite emit_whole by done. rewrite wrote_app. intros [= <- <-].
    eexists _, (Some (key_nanos kv.1)). split; [|done]. exists x, oa, ra. rewrite Hf.
    split_and!; [done..|]. by exists d.
  - intros [= <- <-]. exists [], None. split; [|by rewrite wrote_nil].
    exists x, oa, ra. by rewrite Hf.
Qed.

Lemma send_stored_ok msg l last_ts w t w' :
  whole w → send_stored (T := T) msg last_ts (decode <$> l) w = (Ok t, w') →
  ∃ sent, stored_stream (T := T) msg l sent ∧ t = default last_ts (last (omap snd sent)) ∧
    w' = wrote w (mjoin sent.*1).
Proof.
  revert last_ts w. induction l as [|kv l IH]; intros last_ts w Hw.
  - intros [= <- <-]. exists []. split_and!; [constructor|done|by rewrite wrote_nil].
  - cbn [fmap list_fmap send_stored]. unfold m_bind.
    destruct (send_stored_item msg last_ts (decode kv) w) as [[t1|] w1] eqn:Hi; [|done].
    destruct (send_stored_item_ok _ _ _ _ _ _ Hw Hi) as (cs & ts & Hcs & -> & ->).
    change (list_fmap _ _ decode l) with (decode (T := T) <$> l).
    intros (sent & Hsent & -> & ->)%IH; [|apply wrote_whole].
    exists ((cs, ts) :: sent). split_and!; [by constructor| |by rewrite wrote_app].
    cbn. destruct ts as [t|]; [|done]. cbn. rewrite last_cons. by destruct (last _).
Qed.

(** The time stamp of the last event sent is that of an entry that was read. *)
Lemma last_sent_entry msg l sent :
  stored_stream (T := T) msg l sent →
  last_sent sent = 0 ∨ ∃ kv, kv ∈ l ∧ last_sent sent = key_nanos kv.1.
Proof.
  unfold last_sent. intros Hl. destruct (last (omap snd sent)) as [t|] eqn:Ht; [right|by left].
  apply last_Some_elem_of in Ht. apply list_elem_of_omap in Ht as ([cs ts] & Hin & Hts). cbn in Hts. subst ts.
  apply list_elem_of_lookup in Hin as [i Hi].
  destruct (Forall2_lookup_r _ _ _ _ _ Hl Hi) as (kv & Hkv & x & oa & ra & _ & _ & _ & Hf).
  exists kv. split; [by eapply list_elem_of_lookup_2|].
  destruct (filter_ip msg oa ra); [|by destruct Hf]. by destruct Hf as (d & _ & _ & _ & [= ->]).
Qed.

(** Without an address filter it is that of the last entry. *)
Lemma last_sent_last msg l kv sent :
  (∀ oa ra, filter_ip msg oa ra = true) →
  stored_stream (T := T) msg (l ++ [kv]) sent → last_sent sent = key_nanos kv.1.
Proof.
  intros Hall (sent1 & sent2 & _ & Hs & ->)%Forall2_app_inv_l.
  apply Forall2_cons_inv_l in Hs as ([cs ts] & sent3 & (x & oa & ra & _ & _ & _ & Hf) & Hnil & ->).
  apply Forall2_nil_inv_l in Hnil as ->. rewrite Hall in Hf. destruct Hf as (d & _ & _ & _ & [= ->]).
  unfold last_sent. rewrite omap_app. cbn. by rewrite last_snoc.
Qed.
End stored.

(** ** One step of the ingestion *)
Section exec.
Context `{RocksDBSpec} `{Chrono} `{Client} `{HashOrder}.
Context `{Bincode string, Bincode Log, Bincode PeriodicTimeSeries, Bincode OpLog,
  Bincode Packet, Bincode Statistics, Bincode SecuLog}.
Variables (kind : RawEventKind) (nk : NetworkKey) (source cf : string).
Implicit Types s : Ingest.Stream.

(** The stored events that have been put into the channels: all but one that
    was only just appended *)
Definition forwarded s : list (bytes * Z) :=
  match s_recv s with
  | PDirect _ _ => take (pred (length (s_stored s))) (s_stored s)
  | _ => s_stored s
  end.

(** The event about to be put into the channels is the one appended last. *)
Definition direct_ok s : Prop :=
  ∀ v ts, s_recv s = PDirect v ts → ∃ l, s_stored s = l ++ [(v, ts)].

Lemma forwarded_direct s v ts l :
  s_recv s = PDirect v ts → s_stored s = l ++ [(v, ts)] → forwarded s = l.
Proof.
  intros Hpc Hst. unfold forwarded. rewrite Hpc, Hst, length_app. cbn.
  replace (pred (length l + 1)) with (length l) by lia. apply take_app_length.
Qed.

Inductive exec_effect s s' : Prop :=
| Dies e : s_recv s' = PDone (Err e) → exec_effect s s'
| Silent :
    s_stored s' = s_stored s → s_channels s' = s_channels s → forwarded s' = forwarded s →
    (∀ v ts, s_recv s' = PDirect v ts → s_recv s = PDirect v ts) → exec_effect s s'
| Appends raw ts k v :
    s_recv s = PAppend raw ts k v → s_recv s' = PDirect v ts →
    s_stored s' = s_stored s ++ [(raw, ts)] → s_channels s' = s_channels s → exec_effect s s'
| Directs v ts :
    s_recv s = PDirect v ts → s_recv s' = PCount ts → s_stored s' = s_stored s →
    send_direct_stream (listed (subscriptions (s_channels s))) nk v ts source (s_channels s) =
      (Ok tt, s_channels s') → exec_effect s s'.

Lemma exec_effects a s s' :
  exec kind (Some nk) source cf a s = Some s' → is_own a = true → exec_effect s s'.
Proof.
  intros He Hown. destruct a as [send_ok shutdown|tick send_ok|]; [| |done]; cbn [exec] in He.
  - unfold recv_step, recv_event, ack_then, flush_then in He.
    destruct (s_recv s) eqn:Hpc;
      repeat match type of He with context [match ?x with _ => _ end] => destruct x eqn:? end;
      try discriminate He; apply (inj Some) in He; subst s';
      repeat match goal with u : unit |- _ => destruct u end; try (by eapply Dies);
      try (by eapply Appends); try (by eapply Directs);
      (apply Silent; [done|done|by unfold forwarded; rewrite Hpc|by intros v ts]).
  - assert (s_stored s' = s_stored s ∧ s_channels s' = s_channels s ∧ s_recv s' = s_recv s) as (Hs & Hc & Hr)
      by (unfold hand_step in He; repeat case_match; by simplify_eq).
    apply Silent; [done|done|unfold forwarded; by rewrite Hr, Hs|by rewrite Hr].
Qed.
End exec.

(** ** A crusher's subscription to a source that sends *)
Section live.
Context `{RocksDBSpec} `{ChronoLaws} `{Client} `{HashOrder}.
Context `{Bincode string, Bincode Log, Bincode PeriodicTimeSeries, Bincode OpLog,
  Bincode Packet, Bincode Statistics, Bincode SecuLog}.
Context {T N : Type} `{!Bincode T} `{!EventFilter T} `{!RequestStreamMessage N}.
Variables (store : RawEventStore T) (record_type : RequestStreamRecord).
Variables (req : StreamRequest N) (c : ChannelId) (sender : Wire) (id key : string).
Variables (kind : RawEventKind) (nk : NetworkKey) (source : string).
Variables (db0 : DB) (input : list Received).
Implicit Types (x y : Live) (e : bytes * Z).

Notation Step := (Live.Step store record_type req c kind (Some nk) source).
Notation window := (stored_window store req source).

(** The entry of an event, and the frame it is forwarded in *)
Definition entry e : bytes * bytes := (event_key source None e.2, e.1).
Definition live_frame e : bytes :=
  i64_to_le_bytes e.2 ++ u32_to_le_bytes (Z.of_nat (length e.1)) ++ e.1.

(** A crusher asks for the events of this source and kind; its key does not
    contain the name of a hog. *)
Record asks : Prop := {
  as_node : sr_node_type req = Crusher;
  as_uni : sr_uni req = Ok sender;
  as_whole : whole sender;
  as_kind : sr_kind req = None;
  as_id : msg_id (sr_msg req) = Ok (Some id);
  as_source : msg_source (sr_msg req) = Ok source;
  as_keys : channel_key (sr_msg req) (sr_source req) (record_str record_type) = Ok [key];
  as_match : key_matches nk key = true;
  as_not_hog : str_contains key (node_str Hog) = false;
  as_start : 0 ≤ start_time (sr_msg req) ≤ i64_max;
}.

Definition earlier e e' : Prop := e.2 < e'.2.

(** The source sends events in the order of their times, none before the start
    time of the request, and all after those that are stored. *)
Record sends : Prop := {
  se_kind : plain_kind kind = true;
  se_cf : store_cf store ∈ RAW_DATA_COLUMN_FAMILY_NAMES;
  se_name : no_nul source;
  se_stored : Forall (λ kv, ∃ t, kv.1 = event_key source None t ∧ 0 ≤ t ≤ i64_max ∧
    Forall (λ e, t < e.2) (data input)) (window db0);
  se_times : Forall (λ e, start_time (sr_msg req) ≤ e.2 ≤ i64_max) (data input);
  se_order : StronglySorted earlier (data input);
}.

Hypotheses (Ha : asks) (Hs : sends).

Lemma window_between ts :
  start_time (sr_msg req) ≤ ts ≤ i64_max →
  between
    (lower_key (builder |> start_key source |> mid_key (as_bytes <$> sr_kind req))
       (Some (timestamp_nanos (start_time (sr_msg req)))))
    (upper_key (builder |> start_key source |> mid_key (as_bytes <$> sr_kind req)) None)
    (event_key source None ts).
Proof.
  intros Hts. pose proof (as_start Ha) as Hst. rewrite (as_kind Ha). cbn [fmap option_fmap option_map].
  assert (lower_nanos (Some (timestamp_nanos (start_time (sr_msg req)))) = start_time (sr_msg req)) as Hl
    by (cbn; apply nanos_or_max_nanos; unfold is_i64, i64_min; lia).
  apply between_event_key; rewrite ?Hl; try apply (se_name Hs); try done; try lia.
Qed.

(** The events stored so far, and the next one *)
Lemma sent_before stored raw ts :
  stored ++ [(raw, ts)] `prefix_of` data input →
  start_time (sr_msg req) ≤ ts ≤ i64_max ∧ Forall (λ e, e.2 < ts) stored.
Proof.
  intros [rest E]. pose proof (se_times Hs) as Ht. pose proof (se_order Hs) as Ho. rewrite E in Ht, Ho.
  rewrite <- app_assoc in Ht, Ho. split.
  - apply Forall_app in Ht as [_ [Ht _]%Forall_cons]. exact Ht.
  - apply Forall_forall. intros e He.
    by apply (StronglySorted_app_1_elem_of earlier _ _ e (raw, ts) Ho); [|left].
Qed.

(** An appended event comes behind what is in the window. *)
Lemma window_append db db' stored raw ts :
  stored ++ [(raw, ts)] `prefix_of` data input →
  window db = window db0 ++ (entry <$> stored) →
  cf_view db' (store_cf store) = <[event_key source None ts := raw]> (cf_view db (store_cf store)) →
  window db' = window db0 ++ (entry <$> (stored ++ [(raw, ts)])).
Proof.
  intros Hpre Hw Hv. destruct (sent_before _ _ _ Hpre) as [Hts Hlt]. pose proof (as_start Ha) as Hst.
  unfold stored_window. rewrite Hv. rewrite entries_between_snoc; [|by apply window_between|].
  - fold (window db). rewrite Hw, fmap_app, app_assoc. done.
  - fold (window db). rewrite Hw. apply Forall_app. split.
    + eapply Forall_impl; [apply (se_stored Hs)|]. intros kv (t & -> & Ht & Hall).
      destruct Hpre as [rest E]. rewrite E in Hall. rewrite <- app_assoc in Hall.
      apply Forall_app in Hall as [_ [Hall _]%Forall_cons]. cbn in Hall. apply event_key_lt; lia.
    + apply Forall_fmap. pose proof (se_times Hs) as Htimes. destruct Hpre as [rest E].
      rewrite E, <- app_assoc in Htimes. apply Forall_app in Htimes as [Htimes _].
      rewrite Forall_forall in Htimes, Hlt |- *. intros e He. specialize (Htimes e He).
      specialize (Hlt e He). cbn. apply event_key_lt; lia.
Qed.
(** *** The invariant *)
Definition stream_inv (s : Ingest.Stream) : Prop :=
  healthy (s_db s) ∧ order_inv input s ∧ append_ok kind source s ∧ direct_ok s ∧
  window (s_db s) = window db0 ++ (entry <$> s_stored s).

Definition keyless (ch : Channels) : Prop := ∀ k, subscriptions ch !! k ≠ Some c.
Definition keyed (ch : Channels) : Prop := ∀ k, subscriptions ch !! k = Some c ↔ k = key.

(** [n]: the events put into the channels before the key was registered; [m]: the
    events stored before the store was read; [popped]: the frames taken from the
    channel. *)
Inductive sub_inv (s : Ingest.Stream) : SubPc → Prop :=
| SubRequested : keyless (s_channels s) → sub_inv s Requested
| SubOpened :
    keyless (s_channels s) → channels (s_channels s) !! c = Some (mk_channel [] true) →
    sub_inv s (Registering sender [key] [key])
| SubKeyed n :
    keyed (s_channels s) → (n ≤ length (forwarded s))%nat →
    channels (s_channels s) !! c = Some (mk_channel (live_frame <$> drop n (forwarded s)) true) →
    sub_inv s (Registering sender [key] [])
| SubForwarding n m popped queue sent :
    keyed (s_channels s) → (n ≤ length (forwarded s))%nat → (n ≤ m ≤ length (s_stored s))%nat →
    channels (s_channels s) !! c = Some (mk_channel queue true) →
    live_frame <$> drop n (forwarded s) = popped ++ queue →
    stored_stream (T := T) (sr_msg req) (window db0 ++ (entry <$> take m (s_stored s))) sent →
    sub_inv s (Forwarding (mk_realtime
      (wrote sender (SendRaw (as_bytes id) :: mjoin sent.*1 ++
         (SendBytes <$> filter (λ b, last_sent sent ≤ frame_ts b) popped)))
      (last_sent sent) [key] c))
| SubFailed msg : sub_inv s (Failed msg).

Definition dead (s : Ingest.Stream) : Prop := ∃ msg, s_recv s = PDone (Err msg).
Definition live_inv x : Prop :=
  dead (lv_stream x) ∨ (stream_inv (lv_stream x) ∧ sub_inv (lv_stream x) (lv_sub x)).

(** The subscription does not notice what leaves its channel and its keys. *)
Lemma sub_inv_frame (s s' : Ingest.Stream) pc :
  (∃ l, s_stored s' = s_stored s ++ l) → forwarded s' = forwarded s →
  channels (s_channels s') !! c = channels (s_channels s) !! c →
  (∀ k, subscriptions (s_channels s') !! k = Some c ↔ subscriptions (s_channels s) !! k = Some c) →
  sub_inv s pc → sub_inv s' pc.
Proof.
  intros [l Hst] Hf Hc Hk.
  assert (keyless (s_channels s) → keyless (s_channels s')) as Hkl
    by (intros Hl k ?; by apply (Hl k), Hk).
  assert (keyed (s_channels s) → keyed (s_channels s')) as Hkd by (intros Hl k; by rewrite Hk).
  destruct 1 as [|? ?|n ? ? ?|n m popped queue sent ? Hn Hm ? ? ?|e].
  - apply SubRequested; auto.
  - apply SubOpened; [auto|by rewrite Hc].
  - apply (SubKeyed _ n); [auto|by rewrite Hf|by rewrite Hc, Hf].
  - apply (SubForwarding _ n m _ queue); [auto|by rewrite Hf|rewrite Hst, length_app; lia
      |by rewrite Hc|by rewrite Hf|]. rewrite Hst, take_app_le by lia. done.
  - apply SubFailed.
Qed.

(** The frame of an event for a key that is not that of a hog *)
Lemma direct_frame_live e b :
  direct_frame key e.1 e.2 source = Ok b → b = live_frame e.
Proof.
  unfold direct_frame, u32_len. case_decide; [|done]. cbn [mbind result_bind].
  rewrite (as_not_hog Ha). cbn. by intros [= <-].
Qed.

(** An event is put into the channels. *)
Lemma sub_inv_direct (s s' : Ingest.Stream) v ts pc :
  direct_ok s → s_recv s = PDirect v ts → s_recv s' = PCount ts → s_stored s' = s_stored s →
  send_direct_stream (listed (subscriptions (s_channels s))) nk v ts source (s_channels s) =
    (Ok tt, s_channels s') →
  sub_inv s pc → sub_inv s' pc.
Proof.
  intros Hok Hpc Hpc' Hst Hsend. destruct (Hok v ts Hpc) as [l Hl].
  pose proof (forwarded_direct s v ts l Hpc Hl) as Hf.
  assert (forwarded s' = l ++ [(v, ts)]) as Hf' by (unfold forwarded; by rewrite Hpc', Hst).
  pose proof (send_direct_ok_deliverable _ _ _ _ _ _ _ Hsend) as Hd.
  destruct (deliver_all _ _ _ _ _ _ Hd) as (s1 & Hs1 & Hsub & Hch). rewrite Hsend in Hs1.
  apply pair_eq in Hs1 as [_ <-].
  assert (∀ k, (k, c) ∈ listed (subscriptions (s_channels s)) ↔
    subscriptions (s_channels s) !! k = Some c) as Hin
    by (intros k; rewrite listed_perm; apply elem_of_map_to_list).
  assert (keyless (s_channels s) → keyless (s_channels s') ∧
    channels (s_channels s') !! c = channels (s_channels s) !! c) as Hless.
  { intros Hl0. split; [intros k; rewrite Hsub; apply Hl0|]. rewrite Hch, delivered_none.
    - destruct (channels (s_channels s) !! c) as [ch|]; [|done]. cbn. by rewrite add_frames_nil.
    - intros k ?%Hin. by apply (Hl0 k). }
  assert (∀ queue, keyed (s_channels s) → channels (s_channels s) !! c = Some (mk_channel queue true) →
    keyed (s_channels s') ∧
    channels (s_channels s') !! c = Some (mk_channel (queue ++ [live_frame (v, ts)]) true)) as Hkeyed.
  { intros queue Hk Hq. split; [intros k; rewrite Hsub; apply Hk|]. rewrite Hch, Hq.
    destruct (Hd key c) as [_ Hb]; [by apply Hin, Hk|apply (as_match Ha)|].
    destruct (direct_frame key v ts source) as [b|] eqn:E; [|done].
    rewrite (delivered_one nk v ts source _ c key b);
      [|rewrite listed_perm; apply NoDup_fst_map_to_list|intros k; rewrite Hin; apply Hk
       |apply (as_match Ha)|done].
    by rewrite (direct_frame_live (v, ts) b E). }
  destruct 1 as [Hk|Hk Hq|n Hk Hn Hq|n m popped queue sent Hk Hn Hm Hq Hp Hsent|e].
  - apply SubRequested. by apply Hless.
  - destruct (Hless Hk) as [? E]. apply SubOpened; [done|by rewrite E].
  - destruct (Hkeyed _ Hk Hq) as [? E]. rewrite Hf in Hn, E.
    apply (SubKeyed _ n); [done|rewrite Hf', length_app; lia|].
    rewrite Hf', E, drop_app_le, fmap_app by done. done.
  - destruct (Hkeyed _ Hk Hq) as [? E]. rewrite Hf in Hn, Hp.
    apply (SubForwarding _ n m _ (queue ++ [live_frame (v, ts)])); [done|rewrite Hf', length_app; lia
      |by rewrite Hst|done| |by rewrite Hst].
    rewrite Hf', drop_app_le, fmap_app, Hp by done. by rewrite app_assoc.
  - apply SubFailed.
Qed.
(** *** A step of the ingestion *)
Lemma append_event (s : Ingest.Stream) raw ts k v :
  append_ok kind source s → s_recv s = PAppend raw ts k v →
  k = event_key source None ts ∧ v = raw.
Proof.
  intros Hok Hpc. pose proof (Hok raw ts k v Hpc) as E.
  rewrite (storage_key_plain _ _ _ _ (se_kind Hs)) in E. by injection E as <- <-.
Qed.

Lemma stream_inv_step a (s s' : Ingest.Stream) :
  exec kind (Some nk) source (store_cf store) a s = Some s' → is_own a = true →
  stream_inv s → dead s' ∨ stream_inv s'.
Proof.
  intros He Hown (Hh & Ho & Happ & Hd & Hw).
  destruct (exec_view _ _ _ _ _ _ _ He Hown Hh (se_cf Hs)) as [Hh' Hv].
  pose proof (order_inv_step _ _ _ _ _ _ _ _ He Ho) as Ho'.
  pose proof (append_ok_step _ _ _ _ _ _ _ He Hown Happ) as Happ'.
  pose proof (exec_effects _ _ _ _ _ _ _ He Hown) as Heff.
  assert (dead s' ∨ direct_ok s') as [?|Hd']; [|by left|right].
  { destruct Heff as [msg ?|Hst _ _ Hpc|raw ts k v Hpc Hpc' Hst _|v ts _ Hpc' _ _].
    - left. by exists msg.
    - right. intros v ts ?%Hpc. rewrite Hst. by apply Hd.
    - right. intros v' ts' E. rewrite Hpc' in E. injection E as <- <-.
      destruct (append_event s raw ts k v Happ Hpc) as [_ ->]. by exists (s_stored s).
    - right. intros v' ts' E. by rewrite Hpc' in E. }
  split_and!; [done..|]. destruct Hv as [[Hst Hv]|(raw & ts & k & v & Hpc & Hst & Hv)].
  - rewrite Hst, <- Hw. unfold stored_window. by rewrite Hv.
  - rewrite Hst. destruct (append_event s raw ts k v Happ Hpc) as [-> ->].
    apply (window_append (s_db s)); [rewrite <- Hst; by apply order_inv_prefix|done|].
    rewrite Hv. unfold put_view. by rewrite decide_True.
Qed.

Lemma ingest_step_inv a x y :
  live_exec store kind (Some nk) source a x = Some y → is_own a = true → live_inv x → live_inv y.
Proof.
  destruct x as [s pc]. unfold live_exec. cbn [lv_stream lv_sub].
  destruct (exec kind (Some nk) source (store_cf store) a s) as [s'|] eqn:He; [|done].
  intros [= <-] Hown [[msg Hdead]|[Hst Hsub]]; cbn [lv_stream lv_sub] in *.
  - left. exists msg. destruct a as [? ?|? ?|]; [| |done]; cbn [exec] in He.
    + unfold recv_step in He. by rewrite Hdead in He.
    + unfold hand_step in He. repeat case_match; by simplify_eq.
  - destruct (stream_inv_step _ _ _ He Hown Hst) as [?|Hst']; [by left|].
    destruct Hst as (_ & _ & _ & Hd & _).
    destruct (exec_effects _ _ _ _ _ _ _ He Hown) as [msg ?|E Hc Hf _|raw ts k v Hpc Hpc' E Hc|v ts Hpc Hpc' E Hsend].
    + left. by exists msg.
    + right. split; [done|]. cbn [lv_stream lv_sub]. apply (sub_inv_frame s); [exists []; by rewrite app_nil_r|done|by rewrite Hc|by rewrite Hc|done].
    + right. split; [done|]. cbn [lv_stream lv_sub]. apply (sub_inv_frame s); [by exists [(raw, ts)]| |by rewrite Hc|by rewrite Hc|done].
      unfold forwarded. rewrite Hpc, Hpc', E, length_app. cbn.
      replace (pred (length (s_stored s) + 1)) with (length (s_stored s)) by lia. apply take_app_length.
    + right. split; [done|]. by apply (sub_inv_direct s s' v ts).
Qed.

(** *** A step of the subscription *)
Lemma start_stream_task_ok (s : Ingest.Stream) t w :
  stream_inv s → start_stream_task store record_type req (s_db s) sender = (Ok t, w) →
  ∃ sent, stored_stream (T := T) (sr_msg req) (window db0 ++ (entry <$> s_stored s)) sent ∧
    t = last_sent sent ∧ w = wrote sender (SendRaw (as_bytes id) :: mjoin sent.*1).
Proof.
  intros ([Hio Hop] & _ & _ & _ & Hw). unfold start_stream_task, send_crusher_stream_start_message.
  rewrite (as_node Ha), (as_id Ha), (as_source Ha). unfold m_bind, m_lift. cbn [context].
  rewrite emit_whole by apply (as_whole Ha).
  rewrite drain_boundary_iter; [|done|apply Hop, elem_of_app; left; apply (se_cf Hs)].
  cbn [scan_between]. fold (window (s_db s)). rewrite Hw.
  intros (sent & Hsent & -> & ->)%send_stored_ok; [|apply wrote_whole].
  exists sent. split_and!; [done..|]. by rewrite wrote_app.
Qed.

Lemma forwarded_prefix (s : Ingest.Stream) : (length (forwarded s) ≤ length (s_stored s))%nat.
Proof. unfold forwarded. destruct (s_recv s); rewrite ?length_take; lia. Qed.

Lemma sub_inv_recv (s : Ingest.Stream) n m popped buf queue sent ch' pc :
  let w := wrote sender (SendRaw (as_bytes id) :: mjoin sent.*1 ++
    (SendBytes <$> filter (λ b, last_sent sent ≤ frame_ts b) popped)) in
  let ch := mk_channels (subscriptions (s_channels s))
    (<[c := mk_channel queue true]> (channels (s_channels s))) in
  keyed (s_channels s) → (n ≤ length (forwarded s))%nat → (n ≤ m ≤ length (s_stored s))%nat →
  live_frame <$> drop n (forwarded s) = popped ++ buf :: queue →
  stored_stream (T := T) (sr_msg req) (window db0 ++ (entry <$> take m (s_stored s))) sent →
  (let '(r, ch) := realtime_step (mk_realtime w (last_sent sent) [key] c) buf ch in
   Some (ch, match r with Some rt => Forwarding rt | None => Ended end)) = Some (ch', pc) →
  sub_inv (Ingest.set_channels ch' s) pc.
Proof.
  intros w ch Hk Hn Hm Hp Hsent Hy. unfold realtime_step in Hy. cbn [rt_last_ts rt_wire] in Hy.
  fold (frame_ts buf) in Hy.
  assert (sub_inv (Ingest.set_channels ch s)
    (Forwarding (mk_realtime (wrote w (if decide (last_sent sent ≤ frame_ts buf)
       then [SendBytes buf] else [])) (last_sent sent) [key] c))) as Hgoal.
  { unfold w. rewrite wrote_app. cbn [app]. rewrite <- app_assoc.
    replace ((SendBytes <$> filter (λ b, last_sent sent ≤ frame_ts b) popped) ++
        (if decide (last_sent sent ≤ frame_ts buf) then [SendBytes buf] else []))
      with (SendBytes <$> filter (λ b, last_sent sent ≤ frame_ts b) (popped ++ [buf]))
      by (rewrite filter_app, filter_cons, filter_nil, fmap_app; f_equal; by case_decide).
    apply (SubForwarding _ n m _ queue); [exact Hk|exact Hn|exact Hm|apply lookup_insert_eq| |exact Hsent].
    rewrite <- app_assoc. exact Hp. }
  destruct (Z.ltb_spec (frame_ts buf) (last_sent sent)) as [Hlt|Hge].
  - rewrite decide_False, wrote_nil in Hgoal by (lia || apply wrote_whole). by injection Hy as <- <-.
  - rewrite decide_True in Hgoal by lia. rewrite emit_whole in Hy by apply wrote_whole.
    by injection Hy as <- <-.
Qed.

Lemma sub_step_inv x y :
  sub_step store record_type req c x = Some y → live_inv x → live_inv y.
Proof.
  destruct x as [s pc]. unfold sub_step. cbn [lv_stream lv_sub].
  destruct (sub_exec _ _ _ _ _ _ pc) as [[ch pc']|] eqn:Hy; [|done]. intros [= <-].
  intros [[msg Hdead]|[Hst Hsub]]; cbn [lv_stream lv_sub] in *; [left; by exists msg|right].
  split; [done|]. unfold sub_exec in Hy. cbn [lv_stream lv_sub].
  destruct Hsub as [Hk|Hk Hq|n Hk Hn Hq|n m popped queue sent Hk Hn Hm Hq Hp Hsent|msg].
  - rewrite (as_uni Ha), (as_keys Ha) in Hy. injection Hy as <- <-. apply SubOpened; [exact Hk|].
    apply lookup_insert_eq.
  - injection Hy as <- <-. apply (SubKeyed _ (length (forwarded s))); [|done|].
    + intros k. cbn. destruct (decide (k = key)) as [->|Hne]; [by rewrite lookup_insert_eq|].
      rewrite lookup_insert_ne by done. split; [by intros ?%Hk|done].
    + cbn. rewrite Hq. unfold forwarded at 1. cbn. fold (forwarded s). by rewrite drop_all.
  - destruct (start_stream_task _ _ _ _ _) as [[t|msg] w] eqn:E; injection Hy as <- <-; [|apply SubFailed].
    destruct (start_stream_task_ok s t w Hst E) as (sent & Hsent & -> & ->).
    pose proof (forwarded_prefix s) as Hle.
    rewrite <- (app_nil_r (mjoin sent.*1)).
    apply (SubForwarding _ n (length (s_stored s)) [] (live_frame <$> drop n (forwarded s)));
      [done|done|cbn; lia|done|done|]. cbn. by rewrite take_ge by lia.
  - unfold channel_recv in Hy. rewrite Hq in Hy. destruct queue as [|buf queue].
    { destruct (no_sender c (s_channels s)) eqn:Hno; [|done].
      destruct (proj1 (no_sender_spec _ _) Hno key). by apply Hk. }
    by apply (sub_inv_recv s n m popped buf queue sent ch pc').
  - done.
Qed.
(** *** What has been delivered *)
Lemma live_inv_step x y : Step x y → live_inv x → live_inv y.
Proof.
  destruct 1 as [a x y Hown He|x y Hy|db ch x (Hh & Hw & Hc & Hk)].
  - by eapply ingest_step_inv.
  - by apply sub_step_inv.
  - destruct x as [s pc]. cbn [lv_stream lv_sub] in *.
    intros [[msg Hdead]|[(_ & Ho & Happ & Hd & Hwin) Hsub]]; [left; by exists msg|right].
    split; [split_and!; [done..|]|]; cbn [lv_stream lv_sub] in *.
    + cbn. by rewrite Hw.
    + apply (sub_inv_frame s); [exists []; by rewrite app_nil_r|done|done|done|done].
Qed.

Lemma live_inv_reachable ch0 x :
  healthy db0 → keyless ch0 → rtc Step (mk_live (start_stream input db0 ch0) Requested) x → live_inv x.
Proof.
  intros Hh Hk Hrun. assert (live_inv (mk_live (start_stream input db0 ch0) Requested)) as Hinv.
  { right. split; [|by apply SubRequested]. split_and!; [done|apply ingest_inv_start|done|done|].
    cbn. by rewrite app_nil_r. }
  revert Hinv. induction Hrun; [done|]. eauto using live_inv_step.
Qed.

Lemma forwarded_stored (s : Ingest.Stream) :
  direct_ok s → ∃ pending, s_stored s = forwarded s ++ pending ∧
    (pending = [] ∨ ∃ v ts, s_recv s = PDirect v ts ∧ pending = [(v, ts)]).
Proof.
  intros Hd. destruct (s_recv s) eqn:Hpc;
    try (exists []; split; [unfold forwarded; by rewrite Hpc, app_nil_r|by left]).
  destruct (Hd _ _ Hpc) as [l Hl]. exists [(value, timestamp)].
  rewrite (forwarded_direct s _ _ l Hpc Hl). split; [done|right]. by eexists _, _.
Qed.

Lemma frame_ts_live e : is_i64 e.2 → frame_ts (live_frame e) = e.2.
Proof.
  intros Hi. unfold frame_ts, live_frame.
  rewrite take_app_length' by (by rewrite length_i64_to_le_bytes). by apply i64_from_to_le_bytes.
Qed.

(** The frames the task lets through are those of the events it does. *)
Lemma filter_frames (P : Z → Prop) `{∀ t, Decision (P t)} l :
  Forall (λ e, is_i64 e.2) l →
  filter (λ b, P (frame_ts b)) (live_frame <$> l) = live_frame <$> filter (λ e, P e.2) l.
Proof.
  induction 1 as [|e l He Hl IH]; [done|]. rewrite fmap_cons, !filter_cons, frame_ts_live by done.
  case_decide; [|done]. by rewrite fmap_cons, IH.
Qed.

(** An event stored after the read is not older than what was read. *)
Lemma last_sent_older l1 l2 sent e :
  l1 ++ l2 `prefix_of` data input → e ∈ l2 →
  stored_stream (T := T) (sr_msg req) (window db0 ++ (entry <$> l1)) sent → last_sent sent ≤ e.2.
Proof.
  intros [rest E] He Hsent. pose proof (se_times Hs) as Ht. pose proof (se_order Hs) as Ho.
  pose proof (as_start Ha) as Hst. pose proof (proj1 (Forall_forall _ _) (se_stored Hs)) as Hw.
  rewrite E in Ht, Ho. rewrite Forall_forall in Ht.
  assert (∀ e', e' ∈ l1 ++ l2 → start_time (sr_msg req) ≤ e'.2 ≤ i64_max) as Hr
    by (intros e' ?; apply Ht, elem_of_app; by left).
  pose proof (Hr e ltac:(apply elem_of_app; by right)) as Hre.
  destruct (last_sent_entry _ _ _ Hsent) as [->|(kv & [Hin|Hin]%elem_of_app & ->)]; [lia| |].
  - destruct (Hw kv Hin) as (t & -> & Hti & Hall). rewrite Forall_forall in Hall.
    specialize (Hall e ltac:(rewrite E, !elem_of_app; auto)). rewrite event_key_eq, key_nanos_app; [lia|].
    unfold is_i64, i64_min. lia.
  - apply list_elem_of_fmap in Hin as (e' & -> & He').
    pose proof (Hr e' ltac:(apply elem_of_app; by left)) as Hre'. cbn.
    rewrite event_key_eq, key_nanos_app by (unfold is_i64, i64_min; lia).
    rewrite <- app_assoc in Ho. apply Z.lt_le_incl.
    apply (StronglySorted_app_1_elem_of earlier _ _ e' e Ho); [done|]. apply elem_of_app. by left.
Qed.

(** Without an address filter only the last event read can come again. *)
Lemma repeated_once l1 n sent :
  l1 `prefix_of` data input → (∀ oa ra, filter_ip (sr_msg req) oa ra = true) →
  stored_stream (T := T) (sr_msg req) (window db0 ++ (entry <$> l1)) sent →
  (length (filter (λ e, (last_sent sent ≤ e.2)%Z) (drop n l1)) ≤ 1)%nat.
Proof.
  intros [rest E] Hall Hsent. pose proof (se_order Hs) as Ho. pose proof (se_times Hs) as Ht.
  pose proof (as_start Ha) as Hst. rewrite E in Ho, Ht.
  apply StronglySorted_app_1_l in Ho. apply Forall_app in Ht as [Ht _].
  destruct l1 as [|e0 l0 _] using rev_ind; [rewrite drop_nil; cbn; lia|].
  rewrite fmap_app, app_assoc in Hsent.
  pose proof (last_sent_last _ _ _ _ Hall Hsent) as Hlast. cbn in Hlast.
  apply Forall_app in Ht as [_ [Ht0 _]%Forall_cons].
  rewrite event_key_eq, key_nanos_app in Hlast by (unfold is_i64, i64_min; lia). rewrite Hlast.
  assert (StronglySorted earlier (filter (λ e, e0.2 ≤ e.2) (drop n (l0 ++ [e0])))) as Hsf.
  { apply sorted_filter. rewrite <- (take_drop n (l0 ++ [e0])) in Ho. by apply StronglySorted_app_1_r in Ho. }
  destruct (filter _ _) as [|a [|b l]] eqn:Hf; cbn; [lia..|]. exfalso.
  assert (a ∈ filter (λ e, e0.2 ≤ e.2) (drop n (l0 ++ [e0])) ∧
    b ∈ filter (λ e, e0.2 ≤ e.2) (drop n (l0 ++ [e0]))) as [Hia Hib]
    by (rewrite Hf; split; [left|right; left]).
  apply list_elem_of_filter in Hia as [Hga _]. apply list_elem_of_filter in Hib as [_ Hib].
  apply StronglySorted_inv in Hsf as [_ [Hab _]%Forall_cons]. unfold earlier in Hab.
  assert (b ∈ l0 ++ [e0]) as [Hb|Hb]%elem_of_app
    by (rewrite <- (take_drop n (l0 ++ [e0])); apply elem_of_app; by right).
  - assert (earlier b e0) as Hbe by (apply (StronglySorted_app_1_elem_of earlier _ _ b e0 Ho); [done|left]).
    unfold earlier in Hbe. lia.
  - apply list_elem_of_singleton in Hb as ->. lia.
Qed.
(** The events read and those forwarded since: [l] has been put into the channels,
    [m] events were read. *)
Lemma handover {A} (l pending : list A) n m :
  (n ≤ length l)%nat → (n ≤ m ≤ length (l ++ pending))%nat → (length pending ≤ 1)%nat →
  ∃ old new pending', take m (l ++ pending) ++ new ++ pending' = l ++ pending ∧
    (pending' = [] ∨ pending' = pending) ∧
    drop n l = drop n old ++ new ∧ (n ≤ length old)%nat ∧ old `prefix_of` take m (l ++ pending) ∧
    old ++ new `prefix_of` l.
Proof.
  rewrite length_app. intros Hn Hm Hp. destruct (decide (m ≤ length l)%nat) as [Hle|Hgt].
  - exists (take m l), (drop m l), pending. rewrite take_app_le by done.
    rewrite app_assoc, take_drop. split_and!; [done|by right| |rewrite length_take; lia|done|done].
    rewrite <- drop_app_le by (rewrite length_take; lia). by rewrite take_drop.
  - exists l, [], []. rewrite take_ge by (rewrite length_app; lia). rewrite !app_nil_r.
    split_and!; [done|by left|done|done|by apply prefix_app_r|done].
Qed.

(** C4: A crusher that subscribes while its source sends events, in the order of
    their times, gets in every interleaving all of them: at any moment the
    stream has, once what waits in the channel is forwarded, the events read from
    the store that its address filter accepts, then the events stored since, in
    order and none left out but one that is stored and not yet put into the
    channel.  In between there may be events that were read already, not older
    than the last one sent from the store: without an address filter, at most
    that one. *)
Theorem crusher_stream_complete ch0 x rt :
  healthy db0 → keyless ch0 → rtc Step (mk_live (start_stream input db0 ch0) Requested) x →
  ¬ dead (lv_stream x) → lv_sub x = Forwarding rt →
  ∃ queue read sent repeated new pending,
    channels (s_channels (lv_stream x)) !! c = Some (mk_channel queue true) ∧
    window (s_db (lv_stream x)) = read ++ (entry <$> new ++ pending) ∧
    (pending = [] ∨ ∃ v ts, s_recv (lv_stream x) = PDirect v ts ∧ pending = [(v, ts)]) ∧
    stored_stream (T := T) (sr_msg req) read sent ∧
    (∀ ch, rt_wire <$> (realtime rt queue ch).1 = Some (wrote sender
       (SendRaw (as_bytes id) :: mjoin sent.*1 ++ (SendBytes ∘ live_frame <$> repeated ++ new)))) ∧
    Forall (λ e, entry e ∈ read ∧ last_sent sent ≤ e.2) repeated ∧
    ((∀ oa ra, filter_ip (sr_msg req) oa ra = true) → (length repeated ≤ 1)%nat).
Proof.
  intros Hh Hk Hrun Halive Hpc. destruct x as [s pc]. cbn [lv_stream lv_sub] in *. subst pc.
  destruct (live_inv_reachable ch0 _ Hh Hk Hrun) as [?|[(_ & Ho & _ & Hd & Hw) Hsub]]; [done|].
  cbn [lv_stream lv_sub] in *. inversion Hsub as [| | |n m popped queue sent Hkd Hn Hm Hq Hp Hsent E|].
  destruct (forwarded_stored s Hd) as (pending & Hst & Hpend).
  pose proof (order_inv_prefix _ _ Ho) as Hpre. rewrite Hst in Hm, Hsent, Hpre.
  destruct (handover (forwarded s) pending n m Hn Hm) as (old & new & pending' & Hall & Hp' & Hdrop & Hno & Hold & Hfw).
  { destruct Hpend as [->|(? & ? & _ & ->)]; cbn; lia. }
  set (read := take m (forwarded s ++ pending)) in *.
  assert (Forall (λ e, is_i64 e.2) (data input)) as Hi.
  { eapply Forall_impl; [apply (se_times Hs)|]. intros e He. pose proof (as_start Ha).
    cbn in He. unfold is_i64, i64_min. lia. }
  assert (Forall (λ e, last_sent sent ≤ e.2) new) as Hnew.
  { apply Forall_forall. intros e He. apply (last_sent_older read new sent e); [|done|done].
    etrans; [|exact Hpre]. rewrite <- Hall, app_assoc. by apply prefix_app_r. }
  exists queue, (window db0 ++ (entry <$> read)), sent,
    (filter (λ e, last_sent sent ≤ e.2) (drop n old)), new, pending'.
  split_and!; [done| | |done| | |].
  - by rewrite Hw, Hst, <- Hall, fmap_app, app_assoc.
  - destruct Hp' as [->| ->]; [by left|done].
  - intros ch. rewrite realtime_whole by apply wrote_whole. cbn [fst rt_wire rt_last_ts fmap option_fmap option_map].
    f_equal. rewrite wrote_app. f_equal. cbn [app]. f_equal. rewrite <- app_assoc. f_equal.
    rewrite <- fmap_app, <- filter_app, <- Hp, list_fmap_compose. f_equal.
    rewrite (filter_frames (λ t, last_sent sent ≤ t)).
    + f_equal. rewrite Hdrop, filter_app. f_equal. by apply filter_true.
    + rewrite Hdrop. destruct Hfw as [rest Hfw]. rewrite Hfw in Hpre. destruct Hpre as [rest' Hpre].
      rewrite Hpre in Hi. rewrite <- !app_assoc in Hi. apply Forall_app in Hi as [Hi1 [Hi2 _]%Forall_app].
      apply Forall_app. split; [by apply Forall_drop|done].
  - apply Forall_forall. intros e [He Hin]%list_elem_of_filter. split; [|done].
    apply elem_of_app. right. apply list_elem_of_fmap_2. destruct Hold as [rest ->].
    apply elem_of_app. left. rewrite <- (take_drop n old). apply elem_of_app. by right.
  - intros Hnf. destruct Hold as [rest Hold].
    assert (read `prefix_of` data input) as Hrp
      by (etrans; [|exact Hpre]; rewrite <- Hall; by apply prefix_app_r).
    pose proof (repeated_once read n sent Hrp Hnf Hsent) as Hle. rewrite Hold in Hle.
    rewrite drop_app_le, filter_app, length_app in Hle by done. lia.
Qed.
End live.

(** ** The subscription alone

    Step by step it does what [send_stream] does in one piece. *)
Section alone.
Context `{RocksDBSpec} `{Chrono} `{Client} `{HashOrder}.
Context `{Bincode string, Bincode Log, Bincode PeriodicTimeSeries, Bincode OpLog,
  Bincode Packet, Bincode Statistics, Bincode SecuLog}.
Context {T N : Type} `{!Bincode T} `{!EventFilter T} `{!RequestStreamMessage N}.
Variables (store : RawEventStore T) (record_type : RequestStreamRecord) (req : StreamRequest N).

Definition register_all (keys : list string) (c : ChannelId) (ch : Channels) : Channels :=
  foldl (λ ch k, register k c ch) ch keys.

Lemma register_all_subscribe keys c ch :
  register_all keys c (open_channel c ch) = subscribe keys c ch.
Proof.
  unfold register_all, open_channel, subscribe.
  generalize (subscriptions ch), (<[c := mk_channel [] true]> (channels ch)). intros subs chs.
  revert subs. induction keys as [|k keys IH]; intros subs; [done|]. apply IH.
Qed.

Lemma sub_run_register c sender keys todo (s : Ingest.Stream) n :
  sub_run store record_type req c (length todo + n) (mk_live s (Registering sender keys todo)) =
    sub_run store record_type req c n
      (mk_live (Ingest.set_channels (register_all todo c (s_channels s)) s) (Registering sender keys [])).
Proof.
  revert s. induction todo as [|k todo IH]; intros s; [by destruct s|]. cbn. by rewrite IH.
Qed.

Theorem subscription_alone (s : Ingest.Stream) p :
  pb_channels p = s_channels s →
  match send_stream store record_type req (s_db s) p with
  | (Ok _, p') => ∃ n rt,
      sub_run store record_type req (pb_next p) n (mk_live s Requested) =
        Some (mk_live (Ingest.set_channels (pb_channels p') s) (Forwarding rt)) ∧
      pb_tasks p' = pb_tasks p ++ [rt]
  | (Err msg, p') => ∃ n,
      sub_run store record_type req (pb_next p) n (mk_live s Requested) =
        Some (mk_live (Ingest.set_channels (pb_channels p') s) (Failed msg))
  end.
Proof.
  intros Hp. unfold send_stream. destruct (sr_uni req) as [sender|msg] eqn:Hu.
  2: { exists 1%nat. cbn. unfold sub_step, sub_exec. cbn. rewrite Hu. cbn. rewrite Hp. by destruct s. }
  destruct (channel_key _ _ _) as [keys|msg] eqn:Hk.
  2: { exists 1%nat. cbn. unfold sub_step, sub_exec. cbn. rewrite Hu. cbn. rewrite Hk. cbn. rewrite Hp. by destruct s. }
  assert (∀ n, sub_run store record_type req (pb_next p) (S (length keys + n)) (mk_live s Requested) =
    sub_run store record_type req (pb_next p) n
      (mk_live (Ingest.set_channels (subscribe keys (pb_next p) (pb_channels p)) s)
         (Registering sender keys []))) as Hrun.
  { intros n. rewrite <- register_all_subscribe, Hp.
    cbn [sub_run]. unfold sub_step at 1, sub_exec at 1. cbn [lv_sub lv_stream]. rewrite Hu. cbn. rewrite Hk. cbn.
    by rewrite sub_run_register. }
  destruct (start_stream_task store record_type req (s_db s) sender) as [[t|msg] w] eqn:Ht.
  - exists (S (length keys + 1)), (mk_realtime w t keys (pb_next p)). rewrite Hrun. cbn.
    by rewrite Ht.
  - exists (S (length keys + 1)). rewrite Hrun. cbn. by rewrite Ht.
Qed.
End alone.

(** ** Witnesses: two events during a subscription, one of them read and forwarded *)
#[local] Existing Instance undecoded | 100.
#[local] Existing Instances hop_bincode hop_filter.

Definition late_events : list (bytes * Z) := [([Byte.x05], 500000000000); ([Byte.x06], 500000000001)].
Definition late_request : StreamRequest RequestCrusherStream := crusher_request 400000000000.
Definition late_start : Live :=
  mk_live (start_stream (events late_events) demo_db no_channels) Requested.

(** A schedule: [None] is a step of the subscription. *)
Fixpoint live_run (schedule : list (option Action)) (x : Live) : option Live :=
  match schedule with
  | [] => Some x
  | o :: schedule =>
      y ← match o with
          | Some a => live_exec hop_store RawEventKind.Conn (Some (NetworkKey.new "src1" "conn")) "src1" a x
          | None => sub_step hop_store RequestStreamRecord.Conn late_request 0 x
          end;
      live_run schedule y
  end.

Lemma live_run_rtc schedule x y :
  live_run schedule x = Some y →
  forallb (λ o, match o with Some a => is_own a | None => true end) schedule = true →
  rtc (Live.Step hop_store RequestStreamRecord.Conn late_request 0 RawEventKind.Conn
    (Some (NetworkKey.new "src1" "conn")) "src1") x y.
Proof.
  revert x. induction schedule as [|o schedule IH]; intros x; cbn; [by intros [= ->]|].
  destruct o as [a|].
  - destruct (live_exec _ _ _ _ a x) as [x1|] eqn:He; [|done]. cbn.
    intros Hrun [Ha Hall]%andb_true_iff. eapply rtc_l; [by eapply LIngest|]. by apply IH.
  - destruct (sub_step _ _ _ _ x) as [x1|] eqn:He; [|done]. cbn.
    intros Hrun Hall. eapply rtc_l; [by eapply LSubscription|]. by apply IH.
Qed.

(** The key is registered, the first event is appended, the store is read, and
    only then is the event put into the channel; then the second one comes, and
    all that waits is forwarded. *)
Definition handover_schedule : list (option Action) :=
  replicate 2 None ++ replicate 2 (Some (ARecv true false)) ++ [None] ++
  replicate 9 (Some (ARecv true false)) ++ replicate 2 None.

Definition late_calls : list WireCall := [
  SendRaw (as_bytes "id1");
  SendBytes (i64_to_le_bytes 400000000000); SendRecord [Byte.x04];
  SendBytes (i64_to_le_bytes 500000000000); SendRecord [Byte.x05];
  SendBytes (live_frame ([Byte.x05], 500000000000));
  SendBytes (live_frame ([Byte.x06], 500000000001))].

(** The event stored in between is sent twice. *)
Example event_sent_twice :
  (λ x, match lv_sub x with Forwarding rt => calls (rt_wire rt) | _ => [] end) <$>
    live_run handover_schedule late_start = Some late_calls.
Proof. vm_compute. reflexivity. Qed.

Lemma late_state :
  ∃ x rt, live_run handover_schedule late_start = Some x ∧ lv_sub x = Forwarding rt ∧
    s_recv (lv_stream x) = PTime 500000000001 ∧
    calls (rt_wire rt) = late_calls.
Proof.
  assert ((λ x, (s_recv (lv_stream x),
      match lv_sub x with Forwarding rt => Some (calls (rt_wire rt)) | _ => None end)) <$>
    live_run handover_schedule late_start = Some (PTime 500000000001, Some late_calls)) as Hrun
    by (vm_compute; reflexivity).
  destruct (live_run handover_schedule late_start) as [x|]; [|discriminate Hrun].
  apply (inj Some), pair_eq in Hrun as [Hpc Hcalls].
  destruct (lv_sub x) as [| |rt| |] eqn:Hsub; try discriminate Hcalls.
  exists x, rt. split_and!; [done..|]. by injection Hcalls.
Qed.

Lemma late_asks :
  asks RequestStreamRecord.Conn late_request demo_wire "id1" (crusher_key "id1" "src1" "conn")
    (NetworkKey.new "src1" "conn") "src1".
Proof. split; concrete. Qed.

Lemma late_sends :
  sends hop_store late_request RawEventKind.Conn "src1" demo_db (events late_events).
Proof.
  assert (stored_window hop_store late_request "src1" demo_db =
    [(event_key "src1" None 400000000000, [Byte.x04])]) as Hw by (vm_compute; reflexivity).
  split; [concrete|concrete|concrete| | |].
  - rewrite Hw. constructor; [|constructor]. exists 400000000000. split_and!; [done|concrete..|].
    repeat constructor.
  - repeat constructor; concrete.
  - repeat constructor.
Qed.

Lemma crusher_stream_complete_witness :
  ∃ x rt, lv_sub x = Forwarding rt ∧ calls (rt_wire rt) = late_calls ∧
  ∃ queue read sent repeated new pending,
    channels (s_channels (lv_stream x)) !! 0%nat = Some (mk_channel queue true) ∧
    stored_window hop_store late_request "src1" (s_db (lv_stream x)) =
      read ++ (entry "src1" <$> new ++ pending) ∧
    stored_stream (T := Hop) (sr_msg late_request) read sent ∧
    (∀ ch, rt_wire <$> (realtime rt queue ch).1 = Some (wrote demo_wire
       (SendRaw (as_bytes "id1") :: mjoin sent.*1 ++ (SendBytes ∘ live_frame <$> repeated ++ new)))).
Proof.
  destruct late_state as (x & rt & Hrun & Hsub & Hpc & Hcalls).
  exists x, rt. split_and!; [done..|].
  destruct (crusher_stream_complete hop_store RequestStreamRecord.Conn late_request 0 demo_wire
    "id1" (crusher_key "id1" "src1" "conn") RawEventKind.Conn (NetworkKey.new "src1" "conn") "src1"
    demo_db (events late_events) late_asks late_sends no_channels x rt demo_healthy)
    as (queue & read & sent & repeated & new & pending & ? & ? & ? & ? & ? & ?).
  - intros k. discriminate.
  - apply (live_run_rtc handover_schedule); [exact Hrun|reflexivity].
  - intros [msg Hdead]. rewrite Hpc in Hdead. discriminate.
  - exact Hsub.
  - exists queue, read, sent, repeated, new, pending. split_and!; assumption.
Defined.

(** A crusher whose id (or source) contains the name of a hog gets the frames of a
    hog, with the source in front of the event. *)
Example crusher_named_hog :
  direct_frame (crusher_key "hog1" "src1" "conn") [Byte.x05] 7 "src1" =
    Ok (i64_to_le_bytes 7 ++ u32_to_le_bytes 4 ++ as_bytes "src1" ++ u32_to_le_bytes 1 ++ [Byte.x05]) ∧
  direct_frame (crusher_key "id1" "src1" "conn") [Byte.x05] 7 "src1" =
    Ok (live_frame ([Byte.x05], 7)).
Proof. vm_compute. done. Qed.
