(* ===== verification/Plane.v ===== *)
(** * The data plane with its subscriptions (ingest.rs, publish.rs, storage.rs)

    [System] lets the publish service change the table of subscriptions at
    will; here every request of a stream is there with its own position in
    [send_stream] ([Live.sub_exec]) and its own channel, beside any number of
    ingest streams, the registry of sources and the retention task. *)

From Stdlib Require Import ZArith Lia.
From S2P Require Import Prelude Bytes Externals StorageKey NetAddr GigantoClient Events.
From S2P Require Import Storage StorageSpec Channels Ingest Sources Publish System Live.

Section plane.
Context `{RocksDB} `{Chrono} `{Client} `{HashOrder}.
Context `{Bincode string, Bincode Log, Bincode PeriodicTimeSeries, Bincode OpLog,
  Bincode Packet, Bincode Statistics, Bincode SecuLog}.

(** A request of a stream with the store of its kind: what [process_stream] calls
    [send_stream] with *)
Record Request := mk_request {
  rq_event : Type;
  rq_message : Type;
  rq_bincode : Bincode rq_event;
  rq_filter : EventFilter rq_event;
  rq_stream : RequestStreamMessage rq_message;
  rq_store : RawEventStore rq_event;
  rq_record : RequestStreamRecord;
  rq_args : StreamRequest rq_message;
}.

(** The requests by their numbers; the number of a request is the name of the
    channel that is made for it. *)
Record Subscription := mk_subscription { sb_request : Request; sb_pc : SubPc }.
Record Plane := mk_plane { pl_system : System; pl_subs : list Subscription }.

Definition put_channels (ch : Channels) (y : System) : System :=
  mk_system (y_registry y) ch (y_streams y) (y_retain y) (y_limits y).

(** A step of [send_stream], or of the task it has spawned *)
Definition request_exec (r : Request) (c : ChannelId) (db : DB) (ch : Channels) (pc : SubPc) :
    option (Channels * SubPc) :=
  @sub_exec _ _ _ _ _ (rq_bincode r) (rq_filter r) (rq_stream r)
    (rq_store r) (rq_record r) (rq_args r) c db ch pc.

Variables (notify_source : bool) (retention_duration : Z).

(** A step of an ingest stream; a source opens one; the registry or the retention
    task does a step; a request comes in; a subscription does a step. *)
Inductive Step : Plane → Plane → Prop :=
| PStream i o a s p :
    y_streams (pl_system p) !! i = Some o → is_own a = true →
    stream_exec o a (pl_system p) = Some s →
    Step p (mk_plane (put_stream i o s (pl_system p)) (pl_subs p))
| POpened source header input r p :
    Ingest.handle_request source header (y_db (pl_system p)) = Ok (Some r) → no_nul source →
    Forall received_ok input →
    Step p (mk_plane (open_stream source r input (pl_system p)) (pl_subs p))
| POther y p :
    System.Step notify_source retention_duration (pl_system p) y →
    y_channels y = y_channels (pl_system p) → y_streams y = y_streams (pl_system p) →
    Step p (mk_plane y (pl_subs p))
| PRequest r p :
    Step p (mk_plane (pl_system p) (pl_subs p ++ [mk_subscription r Requested]))
| PSubscription i r pc ch pc' p :
    pl_subs p !! i = Some (mk_subscription r pc) →
    request_exec r i (y_db (pl_system p)) (y_channels (pl_system p)) pc = Some (ch, pc') →
    Step p (mk_plane (put_channels ch (pl_system p)) (<[i := mk_subscription r pc']> (pl_subs p))).

Definition start_plane (db : DB) : Plane := mk_plane (start_system db) [].

(** A hog's request for the events of a kind *)
Definition hog_request {T} `{!Bincode T} `{!EventFilter T} (store : RawEventStore T)
    (record_type : RequestStreamRecord) (args : StreamRequest RequestHogStream) : Request :=
  mk_request T RequestHogStream _ _ hog_message store record_type args.
End plane.
