(* ===== verification/PlaneSpec.v ===== *)
(** * What a hog's subscription delivers

    The runs of [Plane]: as long as the keys of a hog's subscription stay
    registered, its channel gets from every ingest stream exactly the events
    that are put into the channels, one copy for each of the keys that fits the
    stream, in the order of the stream.  A subscription none of whose keys is
    left gets nothing any more, and its keys can be taken by another one. *)

From Stdlib Require Import ZArith Lia.
From S2P Require Import Prelude Bytes Externals StorageKey NetAddr GigantoClient Events.
From S2P Require Import Storage StorageSpec Demo Channels Ingest IngestSpec Sources Publish PublishSpec.
From S2P Require Import System SystemSpec Live LiveSpec Plane.

(** ** What one call of [send_direct_stream] puts into a channel *)
Section send.
Context `{Client} `{HashOrder} `{Bincode string}.
Implicit Types (s : Channels) (nk : NetworkKey).

(** Whatever it returns: the first of the frames, all of them if it succeeds. *)
Lemma send_direct_prefix nk raw ts source subs s r s' :
  send_direct_stream subs nk raw ts source s = (r, s') →
  subscriptions s' = subscriptions s ∧
  ∀ c, ∃ l rest, delivered nk raw ts source subs c = l ++ rest ∧ (r = Ok tt → rest = []) ∧
    channels s' !! c = (λ ch, add_frames ch l) <$> channels s !! c.
Proof.
  assert (∀ s c, channels s !! c = (λ ch, add_frames ch []) <$> channels s !! c) as Hnil.
  { intros s1 c. destruct (channels s1 !! c) as [ch|]; [|done]. cbn. by rewrite add_frames_nil. }
  unfold send_direct_stream. revert s. induction subs as [|[k c1] subs IH]; intros s; cbn [m_iter].
  { intros [= <- <-]. split; [done|]. intros c. by exists [], []. }
  unfold m_bind. cbn [send_to_subscriber]. unfold delivered. cbn [omap list_omap].
  destruct (key_matches nk k) eqn:Hk; cbn [andb]; [|by apply IH].
  unfold m_bind, m_lift. destruct (direct_frame k raw ts source) as [b|msg] eqn:Hb; cbn [result_ok].
  2: { intros [= <- <-]. split; [done|]. intros c. by eexists [], _. }
  unfold channel_send. destruct (channels s !! c1) as [ch|] eqn:Hc1.
  2: { intros [= <- <-]. split; [done|]. intros c. by eexists [], _. }
  destruct (ch_open ch) eqn:Ho; cbn.
  2: { intros [= <- <-]. split; [done|]. intros c. by eexists [], _. }
  intros Hs%IH. destruct Hs as [Hsub Hch]. split; [done|]. intros c.
  destruct (Hch c) as (l & rest & Hl & Hr & Hq). cbn [channels] in Hq.
  destruct (Nat.eqb_spec c1 c) as [->|Hne].
  - exists (b :: l), rest. split_and!; [cbn; f_equal; exact Hl|done|].
    rewrite Hq, lookup_insert_eq, Hc1. cbn. unfold add_frames. cbn. by rewrite <- app_assoc, Ho.
  - exists l, rest. split_and!; [exact Hl|done|]. by rewrite Hq, lookup_insert_ne.
Qed.

(** The frame of an event for a hog *)
Definition hog_frame (e : bytes * Z) (source : string) : result bytes :=
  direct_frame (node_str Hog) e.1 e.2 source.
Definition hogs (keys : list string) : Prop :=
  Forall (λ k, str_contains k (node_str Hog) = true) keys.

Lemma direct_frame_hog k e source :
  str_contains k (node_str Hog) = true → direct_frame k e.1 e.2 source = hog_frame e source.
Proof.
  intros Hk. assert (str_contains (node_str Hog) (node_str Hog) = true) as Hh
    by apply (str_contains_suffix_of "").
  unfold hog_frame, direct_frame. by rewrite Hk, Hh.
Qed.

(** The keys that fit a stream *)
Definition fitting nk (keys : list string) : list string :=
  filter (λ k, key_matches nk k = true) keys.

Lemma delivered_length nk raw ts source subs c b :
  (∀ k, (k, c) ∈ subs → key_matches nk k = true → direct_frame k raw ts source = Ok b) →
  delivered nk raw ts source subs c =
    replicate (length (filter (λ kc, key_matches nk kc.1 = true ∧ kc.2 = c) subs)) b.
Proof.
  unfold delivered. induction subs as [|[k c'] subs IH]; intros Hf; [done|].
  cbn [omap list_omap]. rewrite filter_cons. cbn [fst snd].
  assert (∀ k, (k, c) ∈ subs → key_matches nk k = true → direct_frame k raw ts source = Ok b) as Hf'
    by (intros k' ?; apply Hf; by right). specialize (IH Hf').
  destruct (key_matches nk k) eqn:Hk; cbn [andb].
  2: { rewrite decide_False by (by intros [? _]). exact IH. }
  destruct (Nat.eqb_spec c' c) as [->|Hne]; cbn.
  - rewrite decide_True by done. rewrite (Hf k) by (done || left). cbn. f_equal. exact IH.
  - rewrite decide_False by (by intros [_ ?]). exact IH.
Qed.

Lemma fitting_subscriptions nk (m : gmap string ChannelId) keys c :
  NoDup keys → (∀ k, m !! k = Some c ↔ k ∈ keys) →
  length (filter (λ kc, key_matches nk kc.1 = true ∧ kc.2 = c) (listed m)) =
    length (fitting nk keys).
Proof.
  intros Hnd Hk. rewrite <- (length_fmap fst). apply Permutation_length, NoDup_Permutation.
  - assert (NoDup (listed m).*1) as Hl by (rewrite listed_perm; apply NoDup_fst_map_to_list).
    revert Hl. generalize (listed m). clear. induction l as [|[k c'] l IH]; [constructor|].
    rewrite fmap_cons, NoDup_cons, filter_cons. intros [Hni Hnd]. case_decide; [|by apply IH].
    rewrite fmap_cons. constructor; [|by apply IH]. contradict Hni.
    apply list_elem_of_fmap in Hni as (x & -> & [_ Hin]%list_elem_of_filter).
    by apply list_elem_of_fmap_2.
  - by apply NoDup_filter.
  - intros k. unfold fitting. rewrite list_elem_of_filter, <- Hk, list_elem_of_fmap. split.
    + intros ([k' c'] & -> & [[Hm Hc] Hin]%list_elem_of_filter). cbn [fst snd] in Hm, Hc |- *. subst c'.
      rewrite listed_perm, elem_of_map_to_list in Hin. done.
    + intros [Hm Hin]. exists (k, c). split; [done|]. apply list_elem_of_filter. split; [done|].
      by rewrite listed_perm, elem_of_map_to_list.
Qed.

(** What a hog's channel gets of one event *)
Lemma send_copies nk e source s r s' c keys q :
  send_direct_stream (listed (subscriptions s)) nk e.1 e.2 source s = (r, s') →
  NoDup keys → hogs keys → (∀ k, subscriptions s !! k = Some c ↔ k ∈ keys) →
  channels s !! c = Some (mk_channel q true) →
  ∃ l, channels s' !! c = Some (mk_channel (q ++ l) true) ∧
    Forall (λ b, hog_frame e source = Ok b) l ∧ (length l ≤ length (fitting nk keys))%nat ∧
    (r = Ok tt → length l = length (fitting nk keys)).
Proof.
  intros Hs Hnd Hh Hk Hq. unfold hogs in Hh. rewrite Forall_forall in Hh.
  destruct (send_direct_prefix _ _ _ _ _ _ _ _ Hs) as [_ Hch].
  destruct (Hch c) as (l & rest & Hl & Hr & Hc). rewrite Hq in Hc. exists l. split; [exact Hc|].
  assert (∀ k, (k, c) ∈ listed (subscriptions s) → k ∈ keys) as Hin
    by (intros k; rewrite listed_perm, elem_of_map_to_list; apply Hk).
  destruct (hog_frame e source) as [b|msg] eqn:Hf.
  - rewrite (delivered_length nk e.1 e.2 source _ c b), (fitting_subscriptions nk _ keys c) in Hl; [|done..|].
    + assert (Forall (eq b) (l ++ rest)) as [Hall _]%Forall_app
        by (rewrite <- Hl; by apply Forall_replicate_eq).
      apply (f_equal length) in Hl. rewrite length_replicate, length_app in Hl. split_and!; [|lia|].
      * eapply Forall_impl; [exact Hall|]. by intros b' <-.
      * intros ->%Hr. cbn in Hl. lia.
    + intros k Hkin%Hin _. rewrite direct_frame_hog by auto. done.
  - assert (∀ subs, (∀ k, (k, c) ∈ subs → k ∈ keys) → delivered nk e.1 e.2 source subs c = []) as Hnone.
    { unfold delivered. induction subs as [|[k c'] subs IH]; intros Hsub; [done|]. cbn.
      destruct (key_matches nk k) eqn:Hm; cbn; [|apply IH; intros k' ?; apply Hsub; by right].
      destruct (Nat.eqb_spec c' c) as [->|_]; [|apply IH; intros k' ?; apply Hsub; by right].
      rewrite direct_frame_hog by (apply Hh, Hsub; left). rewrite Hf. cbn.
      apply IH. intros k' ?. apply Hsub. by right. }
    rewrite Hnone in Hl by done. symmetry in Hl. apply app_eq_nil in Hl as [-> _]. cbn.
    split_and!; [done|lia|]. intros ->. pose proof (send_direct_ok_deliverable _ _ _ _ _ _ _ Hs) as Hd.
    unfold fitting. destruct (filter _ keys) as [|k ks] eqn:E; [done|].
    assert (k ∈ filter (λ k, key_matches nk k = true) keys) as [Hm Hkin]%list_elem_of_filter
      by (rewrite E; left).
    destruct (Hd k c) as [_ Hok]; [by rewrite listed_perm, elem_of_map_to_list, Hk|done|].
    rewrite direct_frame_hog, Hf in Hok by auto. done.
Qed.
End send.

(** ** One step of an ingest stream *)
Section exec.
Context `{RocksDBSpec} `{Chrono} `{Client} `{HashOrder}.
Context `{Bincode string, Bincode Log, Bincode PeriodicTimeSeries, Bincode OpLog,
  Bincode Packet, Bincode Statistics, Bincode SecuLog}.
Variables (kind : RawEventKind) (source cf : string).
Implicit Types s : Ingest.Stream.

(** What a stream that forwards its events puts into the channels is what it
    received. *)
Lemma storage_key_forwarded ts raw k v :
  forwarded_kind kind = true → storage_key kind source ts raw = Ok (k, v) → v = raw.
Proof.
  intros Hf Hk. destruct kind; try discriminate Hf; cbn in Hk; inv_result; by simplify_eq.
Qed.

Lemma exec_forwards nk a s s' :
  exec kind (Some nk) source cf a s = Some s' → is_own a = true → forwarded_kind kind = true →
  append_ok kind source s → direct_ok s →
  direct_ok s' ∧
  ((s_channels s' = s_channels s ∧ forwarded s' = forwarded s ∧ (dead s → dead s')) ∨
   ∃ e r, ¬ dead s ∧ forwarded s' = forwarded s ++ [e] ∧
     send_direct_stream (listed (subscriptions (s_channels s))) nk e.1 e.2 source (s_channels s) =
       (r, s_channels s') ∧ (r = Ok tt ∨ dead s')).
Proof.
  intros He Hown Hkind Happ Hd. destruct a as [send_ok shutdown|tick send_ok|]; [| |done]; cbn [exec] in He.
  2: { assert (s_stored s' = s_stored s ∧ s_channels s' = s_channels s ∧ s_recv s' = s_recv s) as (Hs & Hc & Hr)
         by (unfold hand_step in He; repeat case_match; by simplify_eq).
       split; [intros v ts; rewrite Hr, Hs; apply Hd|left]. unfold forwarded, dead. by rewrite Hr, Hs. }
  unfold recv_step, recv_event, ack_then, flush_then in He.
  destruct (s_recv s) eqn:Hpc.
  all: try (repeat match type of He with context [match ?x with _ => _ end] => destruct x eqn:? end;
      try discriminate He; apply (inj Some) in He; subst s';
      (split; [by intros v ts|left; split_and!; [done|by unfold forwarded; rewrite Hpc|];
         intros [msg Hx]; rewrite Hpc in Hx; discriminate Hx])).
  - destruct (append _ _ _ _) as [[[]|msg] db']; apply (inj Some) in He; subst s';
      (split; [|left; split_and!; [done| |intros [? Hx]; rewrite Hpc in Hx; discriminate Hx]]).
    + intros v ts [= <- <-]. exists (s_stored s). cbn.
      by rewrite (storage_key_forwarded _ _ _ _ Hkind (Happ _ _ _ _ Hpc)).
    + unfold forwarded. cbn. rewrite Hpc, length_app. cbn.
      replace (pred (length (s_stored s) + 1)) with (length (s_stored s)) by lia. apply take_app_length.
    + by intros v ts.
    + unfold forwarded. cbn. by rewrite Hpc.
  - destruct (Hd _ _ Hpc) as [l Hl]. pose proof (forwarded_direct s _ _ l Hpc Hl) as Hf.
    destruct (send_direct_stream _ _ _ _ _ _) as [r ch'] eqn:Hsend.
    assert (¬ dead s) as Hnd by (intros [? Hx]; rewrite Hpc in Hx; discriminate Hx).
    assert (∀ pc, forwarded (Ingest.set_recv pc (Ingest.set_channels ch' s)) = s_stored s ∨
      ∃ v ts, pc = PDirect v ts) as Hst
      by (intros pc; destruct pc; try (by left); right; by eexists _, _).
    destruct r as [[]|msg]; apply (inj Some) in He; subst s'; (split; [by intros v ts|right]);
      exists (value, timestamp).
    + exists (Ok tt). split_and!; [done| |exact Hsend|by left].
      destruct (Hst (PCount timestamp)) as [->|(? & ? & ?)]; [by rewrite Hf|done].
    + exists (Err msg). split_and!; [done| |exact Hsend|right; by exists msg].
      destruct (Hst (PDone (Err msg))) as [->|(? & ? & ?)]; [by rewrite Hf|done].
Qed.

Lemma exec_plain a s s' :
  exec kind None source cf a s = Some s' → is_own a = true → s_channels s' = s_channels s.
Proof.
  intros He Hown. destruct a as [send_ok shutdown|tick send_ok|]; [| |done]; cbn [exec] in He.
  - unfold recv_step, recv_event, ack_then, flush_then in He.
    repeat match type of He with context [match ?x with _ => _ end] => destruct x eqn:? end;
      try discriminate He; apply (inj Some) in He; by subst s'.
  - unfold hand_step in He. repeat case_match; by simplify_eq.
Qed.
End exec.

(** ** The table of subscriptions in a run *)
Section plane.
Context `{RocksDBSpec} `{Chrono} `{Client} `{HashOrder}.
Context `{Bincode string, Bincode Log, Bincode PeriodicTimeSeries, Bincode OpLog,
  Bincode Packet, Bincode Statistics, Bincode SecuLog}.
Variables (notify_source : bool) (retention_duration : Z).
Implicit Types (p : Plane) (y : System) (o : OpenStream) (r : Request) (pc : SubPc).

Notation Step := (Plane.Step notify_source retention_duration).
Notation table p := (y_channels (pl_system p)).

(** A run of the plane is one of the system. *)
Lemma plane_step_system p p' :
  Step p p' → rtc (System.Step notify_source retention_duration) (pl_system p) (pl_system p').
Proof.
  destruct 1 as [i o a s p Hi Hown He|source header input rt p Hr Hn Hin|y p Hy _ _|r p
    |i r pc ch pc' p Hi He]; cbn [pl_system].
  - apply rtc_once. by eapply YStream.
  - apply rtc_once. by eapply YOpened.
  - by apply rtc_once.
  - done.
  - apply rtc_once. apply YSubscriptions.
Qed.

(** *** What a subscription does to the table *)
Definition request_keys r : result (list string) :=
  @channel_key _ (rq_stream r) (sr_msg (rq_args r)) (sr_source (rq_args r)) (record_str (rq_record r)).

(** The channel of a subscription that runs, and the keys that may lead to it *)
Definition sub_fine (c : ChannelId) (ch : Channels) (sb : Subscription) : Prop :=
  match sb_pc sb with
  | Registering sender keys todo =>
      sr_uni (rq_args (sb_request sb)) = Ok sender ∧ request_keys (sb_request sb) = Ok keys ∧
      todo `suffix_of` keys ∧ ∃ q, channels ch !! c = Some (mk_channel q true)
  | Forwarding rt =>
      rt_channel rt = c ∧ request_keys (sb_request sb) = Ok (rt_remove_keys rt) ∧
      ∃ q, channels ch !! c = Some (mk_channel q true)
  | _ => True
  end.
Definition may_lead (k : string) pc : Prop :=
  match pc with
  | Requested => False
  | Registering _ keys _ => k ∈ keys
  | Forwarding rt => k ∈ rt_remove_keys rt
  | Failed _ | Ended => True
  end.

Lemma unsubscribe_lookup keys s k c :
  subscriptions (unsubscribe keys s) !! k = Some c → subscriptions s !! k = Some c ∧ k ∉ keys.
Proof.
  unfold unsubscribe. cbn [subscriptions]. generalize (subscriptions s). clear s.
  induction keys as [|k' keys IH]; intros m; cbn; [by split; [|apply not_elem_of_nil]|].
  intros [Hl Hn]%IH. apply lookup_delete_Some in Hl as [Hne Hl]. split; [done|].
  apply not_elem_of_cons. auto.
Qed.

Lemma realtime_step_cases rt buf s rt' s' :
  realtime_step rt buf s = (rt', s') →
  (∃ w, rt' = Some (mk_realtime w (rt_last_ts rt) (rt_remove_keys rt) (rt_channel rt)) ∧ s' = s) ∨
  (rt' = None ∧ s' = drop_receiver (rt_channel rt) (unsubscribe (rt_remove_keys rt) s)).
Proof.
  unfold realtime_step. destruct (_ <? _).
  - intros [= <- <-]. left. exists (rt_wire rt). by destruct rt.
  - destruct (emit _ _) as [[[]|] w]; intros [= <- <-]; [left; by exists w|by right].
Qed.

(** A step of a subscription touches its own channel only; it adds a key to the
    table only while it registers. *)
Lemma request_exec_table r c db ch pc ch' pc' :
  request_exec r c db ch pc = Some (ch', pc') →
  sub_fine c ch (mk_subscription r pc) →
  sub_fine c ch' (mk_subscription r pc') ∧
  (∀ c', c' ≠ c → channels ch' !! c' = channels ch !! c') ∧
  (∀ k c', subscriptions ch' !! k = Some c' → subscriptions ch !! k = Some c' ∨
     (c' = c ∧ may_lead k pc' ∧ ∃ sender keys todo, pc = Registering sender keys (k :: todo))) ∧
  (∀ k, may_lead k pc → may_lead k pc').
Proof.
  unfold request_exec, sub_exec, sub_fine. cbn [sb_pc sb_request].
  destruct pc as [|sender keys [|k todo]|rt|msg|]; intros Hx Hf; [| | | |done|done].
  - destruct (sr_uni (rq_args r)) as [sender|] eqn:Hu; cbn in Hx.
    2: { injection Hx as <- <-. split_and!; [done..|by left|done]. }
    fold (request_keys r) in Hx. destruct (request_keys r) as [keys|] eqn:Hk; cbn in Hx; injection Hx as <- <-.
    2: { split_and!; [done..|by left|done]. }
    cbn. split_and!; [done..| |by intros c' ?; rewrite lookup_insert_ne|by left|done].
    exists []. apply lookup_insert_eq.
  - destruct Hf as (Hu & Hk & Ht & q & Hq). destruct (start_stream_task _ _ _ _ _) as [[t|msg] w];
      injection Hx as <- <-; cbn.
    + split_and!; [done..|by exists q|done|by left|done].
    + split_and!; [done| |by left|done]. intros c' ?. by rewrite lookup_alter_ne.
  - destruct Hf as (Hu & Hk & [l Ht] & q & Hq). injection Hx as <- <-. cbn.
    split_and!; [done..| |by exists q|done| |done].
    + exists (l ++ [k]). by rewrite <- app_assoc.
    + intros k' c'. destruct (decide (k = k')) as [->|Hne].
      * rewrite lookup_insert_eq. intros [= <-]. right. split_and!; [done| |by eexists _, _, _].
        rewrite Ht. apply elem_of_app. right. left.
      * rewrite lookup_insert_ne by done. by left.
  - destruct Hf as (Hc & Hk & q & Hq). unfold channel_recv in Hx. rewrite Hq in Hx.
    destruct q as [|buf q].
    + destruct (no_sender c ch); [|done]. injection Hx as <- <-. split_and!; [done| |by left|done].
      intros c' ?. cbn. by rewrite lookup_alter_ne.
    + destruct (realtime_step rt buf _) as [rt' ch1] eqn:Hrt.
      destruct (realtime_step_cases _ _ _ _ _ Hrt) as [(w & -> & ->)|[-> ->]]; injection Hx as <- <-; cbn.
      * split_and!; [done..| | |by left|done]; [exists q; apply lookup_insert_eq|].
        intros c' ?. by rewrite lookup_insert_ne.
      * split_and!; [done| | |done].
        -- intros c' ?. rewrite Hc, lookup_alter_ne, lookup_insert_ne by done. done.
        -- intros k c' [Hl _]%(unsubscribe_lookup _ (mk_channels (subscriptions ch) ∅)). by left.
Qed.

(** *** The invariant of all runs *)
Definition stream_fine o : Prop :=
  append_ok (rt_kind (os_route o)) (os_source o) (os_state o) ∧
  (is_Some (rt_network_key (os_route o)) →
     forwarded_kind (rt_kind (os_route o)) = true ∧ direct_ok (os_state o)).

Record plane_inv p : Prop := {
  pi_streams o : o ∈ y_streams (pl_system p) → stream_fine o;
  pi_keys k c : subscriptions (table p) !! k = Some c →
    ∃ sb, pl_subs p !! c = Some sb ∧ may_lead k (sb_pc sb);
  pi_subs c sb : pl_subs p !! c = Some sb → sub_fine c (table p) sb;
}.

Lemma sub_fine_frame c ch ch' sb :
  (∀ q, channels ch !! c = Some (mk_channel q true) → ∃ q', channels ch' !! c = Some (mk_channel q' true)) →
  sub_fine c ch sb → sub_fine c ch' sb.
Proof.
  intros Hc. unfold sub_fine. destruct (sb_pc sb); try done.
  - intros (? & ? & ? & q & Hq). destruct (Hc q Hq) as [q' ?]. eauto 6.
  - intros (? & ? & q & Hq). destruct (Hc q Hq) as [q' ?]. eauto 6.
Qed.

(** A step of a stream leaves the subscriptions, and the channels but for what it
    puts into them. *)
Lemma stream_exec_table o a y (s : Ingest.Stream) :
  stream_fine o → is_own a = true → stream_exec o a y = Some s →
  subscriptions (s_channels s) = subscriptions (y_channels y) ∧
  (∀ c, ∃ l, channels (s_channels s) !! c = (λ ch, add_frames ch l) <$> channels (y_channels y) !! c ∧
     ((∀ k, subscriptions (y_channels y) !! k ≠ Some c) → l = [])) ∧
  stream_fine (mk_open (os_source o) (os_route o) (os_input o) s).
Proof.
  intros [Happ Hf] Hown He. unfold stream_exec in He. set (s0 := Ingest.set_channels _ _) in He.
  assert (∀ c, ∃ l, channels (y_channels y) !! c = (λ ch, add_frames ch l) <$> channels (y_channels y) !! c ∧
    ((∀ k, subscriptions (y_channels y) !! k ≠ Some c) → l = [])) as Hnil.
  { intros c. exists []. split; [|done]. destruct (channels (y_channels y) !! c) as [ch|]; [|done]. cbn.
    by rewrite add_frames_nil. }
  assert (append_ok (rt_kind (os_route o)) (os_source o) s) as Happ'
    by (eapply append_ok_step; [exact He|done|exact Happ]).
  destruct (rt_network_key (os_route o)) as [nk|] eqn:Hnk.
  - destruct Hf as [Hk Hd]; [done|].
    destruct (exec_forwards _ _ _ nk a s0 s He Hown Hk Happ Hd) as [Hd' Hcase].
    assert (stream_fine (mk_open (os_source o) (os_route o) (os_input o) s)) as Hfine by (by split).
    destruct Hcase as [(Hc & _ & _)|(e & r & _ & _ & Hsend & _)]; [by rewrite Hc|].
    destruct (send_direct_prefix _ _ _ _ _ _ _ _ Hsend) as [Hsub Hch]. split_and!; [exact Hsub| |done].
    intros c. destruct (Hch c) as (l & rest & Hl & _ & Hc). exists l. split; [exact Hc|].
    intros Hno. rewrite delivered_none in Hl; [by symmetry in Hl; apply app_eq_nil in Hl as [-> _]|].
    intros k. rewrite listed_perm, elem_of_map_to_list. apply Hno.
  - rewrite (exec_plain _ _ _ _ _ _ He Hown). split_and!; [done|exact Hnil|]. split; [done|].
    cbn. rewrite Hnk. by intros [].
Qed.

Lemma opened_fine source header input rt db ch :
  Ingest.handle_request source header db = Ok (Some rt) →
  stream_fine (mk_open source rt input (start_stream input db ch)).
Proof.
  unfold Ingest.handle_request. intros Hr. inv_result. apply route_network_spec in Hr as (_ & Hk & _ & Hn).
  split; [done|]. cbn. rewrite Hn, Hk. intros ?. by split.
Qed.

Lemma plane_inv_step p p' : Step p p' → plane_inv p → plane_inv p'.
Proof.
  destruct 1 as [i o a s p Hi Hown He|source header input rt p Hr Hn Hin|y p Hy Hch Hstr|r p
    |i r pc ch pc' p Hi He]; intros [Hs Hk Hc].
  - destruct (stream_exec_table o a (pl_system p) s) as (Hsub & Hadd & Hfine);
      [apply Hs; by eapply list_elem_of_lookup_2|done|done|].
    split; cbn; [|by rewrite Hsub|].
    + intros o' [->|?]%elem_of_insert_inv; auto.
    + intros c sb Hsb%Hc. eapply sub_fine_frame; [|done]. intros q Hq.
      destruct (Hadd c) as (l & -> & _). rewrite Hq. cbn. by eexists.
  - split; cbn; [|done|done]. intros o [?| ->%list_elem_of_singleton]%elem_of_app; [auto|].
    by eapply opened_fine.
  - split; cbn; [by rewrite Hstr|by rewrite Hch|by rewrite Hch].
  - split; cbn; [done| |].
    + intros k c (sb & Hsb & ?)%Hk. exists sb. split; [by apply lookup_app_l_Some|done].
    + intros c sb [Hsb|[_ Hsb]]%lookup_app_Some; [by apply Hc|].
      apply list_lookup_singleton_Some in Hsb as [_ <-]. done.
  - destruct (request_exec_table _ _ _ _ _ _ _ He (Hc i _ Hi)) as (Hfine & Hother & Hadd & Hlead).
    assert (i < length (pl_subs p))%nat as Hlt by (by eapply lookup_lt_Some).
    split; cbn; [done| |].
    + intros k c [Hl|(-> & ? & _)]%Hadd; [|rewrite list_lookup_insert_eq by done; by eexists].
      destruct (Hk k c Hl) as (sb & Hsb & Hm). destruct (decide (c = i)) as [->|Hne].
      * rewrite Hi in Hsb. injection Hsb as <-. rewrite list_lookup_insert_eq by done.
        eexists. split; [done|]. by apply Hlead.
      * rewrite list_lookup_insert_ne by done. by exists sb.
    + intros c sb. destruct (decide (c = i)) as [->|Hne].
      * rewrite list_lookup_insert_eq by done. by intros [= <-].
      * rewrite list_lookup_insert_ne by done. intros Hsb%Hc. eapply sub_fine_frame; [|done].
        intros q. rewrite Hother by done. eauto.
Qed.

Lemma plane_inv_reachable db p : rtc Step (start_plane db) p → plane_inv p.
Proof.
  intros Hrun. assert (plane_inv (start_plane db)) as Hinv.
  { split; cbn; [by intros o ?%elem_of_nil|done|done]. }
  revert Hinv. induction Hrun; [done|]. eauto using plane_inv_step.
Qed.

(** ** A hog from the moment its keys are registered *)
Section hog.
Context {T : Type} `{!Bincode T} `{!EventFilter T}.
Variables (store : RawEventStore T) (record_type : RequestStreamRecord).
Variables (args : StreamRequest RequestHogStream).
Variables (p0 : Plane) (i : ChannelId) (sender : Wire) (keys : list string) (q0 : list bytes).

Definition held p : Prop := ∀ k, k ∈ keys → subscriptions (table p) !! k = Some i.

(** How many of the keys fit a stream *)
Definition copies o : nat :=
  match rt_network_key (os_route o) with Some nk => length (fitting nk keys) | None => 0 end.

(** The events a stream has put into the channels since [p0] *)
Definition before (j : nat) : nat :=
  match y_streams (pl_system p0) !! j with Some o => length (forwarded (os_state o)) | None => 0 end.
Definition since (j : nat) o : list (bytes * Z) := drop (before j) (forwarded (os_state o)).

(** What has come, with the number of the stream it came from *)
Notation Journal := (list (nat * (bytes * Z))).
Definition events_of (j : nat) (log : Journal) : list (bytes * Z) :=
  omap (λ je, if decide (je.1 = j) then Some je.2 else None) log.
Definition frame_from p (je : nat * (bytes * Z)) (b : bytes) : Prop :=
  ∃ o, y_streams (pl_system p) !! je.1 = Some o ∧ hog_frame je.2 (os_source o) = Ok b.

(** Nothing is missing, unless the stream died as it sent its last event. *)
Definition told_by p (log : Journal) (j : nat) o : Prop :=
  (is_Some (rt_network_key (os_route o)) → (before j ≤ length (forwarded (os_state o)))%nat) ∧
  ∃ missing, mjoin (replicate (copies o) <$> since j o) = events_of j log ++ missing ∧
    (missing = [] ∨ dead (os_state o)).
Definition told p (log : Journal) : Prop :=
  ∀ j o, y_streams (pl_system p) !! j = Some o → told_by p log j o.

(** The frames that have come into the channel: taken by the task, or waiting *)
Inductive hog_sub (ch : Channels) : SubPc → list bytes → Prop :=
| HogRegistered queue :
    channels ch !! i = Some (mk_channel queue true) → hog_sub ch (Registering sender keys []) queue
| HogForwards popped queue :
    channels ch !! i = Some (mk_channel queue true) →
    hog_sub ch (Forwarding (mk_realtime
      (wrote sender (SendHogStart record_type :: (SendBytes <$> filter (λ b, 0 ≤ frame_ts b) popped)))
      0 keys i)) (popped ++ queue).

Definition over pc : Prop := match pc with Failed _ | Ended => True | _ => False end.
Definition settled pc : Prop :=
  match pc with Requested | Registering _ _ (_ :: _) => False | _ => True end.
Definition collected p pc : Prop :=
  ∃ log frames, Forall2 (frame_from p) log frames ∧ hog_sub (table p) pc (q0 ++ frames) ∧ told p log.

Record hog_inv p : Prop := {
  hi_plane : plane_inv p;
  hi_streams : (length (y_streams (pl_system p0)) ≤ length (y_streams (pl_system p)))%nat;
  hi_sub : ∃ pc, pl_subs p !! i = Some (mk_subscription (hog_request store record_type args) pc) ∧
    settled pc ∧ (over pc ∨ (held p → collected p pc));
}.

Hypotheses (Hnode : sr_node_type args = Hog) (Hwhole : whole sender).
Hypotheses (Hhogs : hogs keys) (Hnodup : NoDup keys).

(** *** Frames and events *)
Lemma events_of_app j (l1 l2 : Journal) : events_of j (l1 ++ l2) = events_of j l1 ++ events_of j l2.
Proof. apply omap_app. Qed.
Lemma events_of_replicate j n e : events_of j (replicate n (j, e)) = replicate n e.
Proof. induction n as [|n IH]; [done|]. cbn. rewrite decide_True by done. f_equal. exact IH. Qed.
Lemma events_of_other j j' n e : j' ≠ j → events_of j (replicate n (j', e)) = [].
Proof. intros Hne. induction n as [|n IH]; [done|]. cbn. rewrite decide_False by done. exact IH. Qed.
Lemma no_copies (l : list (bytes * Z)) : mjoin (replicate 0 <$> l) = [].
Proof. by induction l. Qed.

Lemma hog_sub_frame ch ch' pc frames :
  channels ch' !! i = channels ch !! i → hog_sub ch pc frames → hog_sub ch' pc frames.
Proof. intros Hc. destruct 1; [apply HogRegistered|apply HogForwards]; by rewrite Hc. Qed.

Lemma hog_sub_add ch ch' pc frames l :
  (∀ q, channels ch !! i = Some (mk_channel q true) →
     channels ch' !! i = Some (mk_channel (q ++ l) true)) →
  hog_sub ch pc frames → hog_sub ch' pc (frames ++ l).
Proof.
  intros Hc. destruct 1 as [queue Hq|popped queue Hq]; [apply HogRegistered; auto|].
  rewrite <- app_assoc. apply HogForwards. auto.
Qed.

Lemma hog_sub_keys ch pc frames k : hog_sub ch pc frames → may_lead k pc → k ∈ keys.
Proof. by destruct 1. Qed.

Lemma held_back p p' pc :
  Step p p' → plane_inv p → pl_subs p !! i = Some (mk_subscription (hog_request store record_type args) pc) →
  settled pc → held p' → held p.
Proof.
  intros Hstep Hinv Hi Hpc Hheld k Hk. specialize (Hheld k Hk). revert Hheld.
  destruct Hstep as [j o a s p Hj Hown He|source header input rt p Hr Hn Hin|y p Hy Hch Hstr|r p
    |j r pcj ch pcj' p Hj He]; cbn; [|done|by rewrite Hch|done|].
  - destruct (stream_exec_table o a (pl_system p) s) as [-> _]; [|done..].
    apply (pi_streams _ Hinv). by eapply list_elem_of_lookup_2.
  - destruct (request_exec_table _ _ _ _ _ _ _ He (pi_subs _ Hinv j _ Hj)) as (_ & _ & Hadd & _).
    intros [?|(-> & _ & sender' & keys' & todo & ->)]%Hadd; [done|].
    rewrite Hi in Hj. injection Hj as _ Hj. by rewrite Hj in Hpc.
Qed.

(** *** A step of a stream *)
Lemma frame_from_put p j o (s : Ingest.Stream) je b :
  y_streams (pl_system p) !! j = Some o → frame_from p je b →
  frame_from (mk_plane (put_stream j o s (pl_system p)) (pl_subs p)) je b.
Proof.
  intros Hj (o' & Ho' & Hb). unfold frame_from. cbn. destruct (decide (je.1 = j)) as [E|Hne].
  - rewrite E in Ho' |- *. rewrite list_lookup_insert_eq by (by eapply lookup_lt_Some).
    rewrite Ho' in Hj. injection Hj as ->. by eexists.
  - rewrite list_lookup_insert_ne by done. by exists o'.
Qed.

(** The streams that do not move *)
Lemma told_put p j o (s : Ingest.Stream) log log' :
  told p log → (∀ j', j' ≠ j → events_of j' log' = events_of j' log) →
  (y_streams (pl_system p) !! j = Some o →
     told_by (mk_plane (put_stream j o s (pl_system p)) (pl_subs p)) log' j
       (mk_open (os_source o) (os_route o) (os_input o) s)) →
  y_streams (pl_system p) !! j = Some o →
  told (mk_plane (put_stream j o s (pl_system p)) (pl_subs p)) log'.
Proof.
  intros Ht Hlog Hput Hj j' o'. cbn. destruct (decide (j' = j)) as [->|Hne].
  - rewrite list_lookup_insert_eq by (by eapply lookup_lt_Some). intros [= <-]. by apply Hput.
  - rewrite list_lookup_insert_ne by done. intros [Hb Hm]%Ht. split; [done|]. by rewrite Hlog.
Qed.

Notation moved p j o s :=
  (mk_plane (put_stream j o s (pl_system p)) (pl_subs p)).
Notation with_state o s := (mk_open (os_source o) (os_route o) (os_input o) s).

(** Nothing is put into the channels. *)
Lemma collected_still p j o (s : Ingest.Stream) pc :
  y_streams (pl_system p) !! j = Some o → s_channels s = table p →
  (∀ log, told_by p log j o → told_by (moved p j o s) log j (with_state o s)) →
  collected p pc → collected (moved p j o s) pc.
Proof.
  intros Hj Hch Hlog (log & frames & Hframes & Hsub & Htold). exists log, frames. split_and!.
  - eapply Forall2_impl; [exact Hframes|]. intros je b. by apply frame_from_put.
  - eapply hog_sub_frame; [|exact Hsub]. cbn. by rewrite Hch.
  - apply (told_put p j o s log); [done..| |done]. intros _. apply Hlog. by apply Htold.
Qed.

(** An event is put into the channels. *)
Lemma collected_event p j o nk e res (s : Ingest.Stream) pc :
  plane_inv p → y_streams (pl_system p) !! j = Some o →
  pl_subs p !! i = Some (mk_subscription (hog_request store record_type args) pc) → held p →
  rt_network_key (os_route o) = Some nk → ¬ dead (os_state o) →
  forwarded s = forwarded (os_state o) ++ [e] → (res = Ok tt ∨ dead s) →
  send_direct_stream (listed (subscriptions (table p))) nk e.1 e.2 (os_source o) (table p) = (res,
    s_channels s) →
  collected p pc → collected (moved p j o s) pc.
Proof.
  intros Hinv Hj Hi Hheld Hnk Hnd Hfw Hr Hsend (log & frames & Hframes & Hsub & Htold).
  assert (∀ k, subscriptions (table p) !! k = Some i ↔ k ∈ keys) as Hkeys.
  { intros k. split; [|apply Hheld]. intros (sb & Hsb & Hm)%(pi_keys _ Hinv). rewrite Hi in Hsb.
    injection Hsb as <-. by eapply hog_sub_keys. }
  assert (∃ q, channels (table p) !! i = Some (mk_channel q true)) as [q Hq] by (destruct Hsub; eauto).
  destruct (send_copies _ _ _ _ _ _ _ _ _ Hsend Hnodup Hhogs Hkeys Hq) as (l & Hl & Hfl & Hle & Hok).
  exists (log ++ replicate (length l) (j, e)), (frames ++ l). split_and!.
  - apply Forall2_app.
    + eapply Forall2_impl; [exact Hframes|]. intros je b. by apply frame_from_put.
    + apply Forall2_replicate_l; [done|]. eapply Forall_impl; [exact Hfl|]. intros b Hb.
      exists (with_state o s). cbn. rewrite list_lookup_insert_eq by (by eapply lookup_lt_Some). done.
  - rewrite app_assoc. eapply hog_sub_add; [|exact Hsub]. intros q' Hq'. rewrite Hq' in Hq.
    by injection Hq as ->.
  - apply (told_put p j o s log); [done| | |done].
    { intros j' Hne. rewrite events_of_app, events_of_other by done. apply app_nil_r. }
    intros _. destruct (Htold j o Hj) as [Hbefore (missing & Hall & Hmiss)].
    assert (before j ≤ length (forwarded (os_state o)))%nat as Hb by (apply Hbefore; by rewrite Hnk).
    split; cbn [os_state os_route]; [intros _; rewrite Hfw, length_app; lia|].
    destruct Hmiss as [->|?]; [|done]. rewrite app_nil_r in Hall. unfold copies, since in *.
    cbn [os_state os_route] in *. rewrite Hnk in Hall |- *.
    rewrite Hfw, drop_app_le, fmap_app, join_app, Hall by done.
    rewrite events_of_app, events_of_replicate. cbn. rewrite app_nil_r.
    exists (replicate (length (fitting nk keys) - length l) e). split.
    + rewrite <- app_assoc, <- replicate_add. f_equal. f_equal. lia.
    + destruct Hr as [->|?]; [left|by right]. by rewrite Hok, Nat.sub_diag.
Qed.

Lemma collected_stream p j o a (s : Ingest.Stream) pc :
  plane_inv p → y_streams (pl_system p) !! j = Some o → is_own a = true →
  stream_exec o a (pl_system p) = Some s →
  pl_subs p !! i = Some (mk_subscription (hog_request store record_type args) pc) → held p →
  collected p pc → collected (moved p j o s) pc.
Proof.
  intros Hinv Hj Hown He Hi Hheld Hcol.
  assert (stream_fine o) as [Happ Hf] by (apply (pi_streams _ Hinv); by eapply list_elem_of_lookup_2).
  unfold stream_exec in He. set (s0 := Ingest.set_channels _ _) in He.
  destruct (rt_network_key (os_route o)) as [nk|] eqn:Hnk; cycle 1.
  { apply collected_still; [done|by rewrite (exec_plain _ _ _ _ _ _ He Hown)| |done].
    intros log [_ (missing & Hall & _)]. split; cbn; [by rewrite Hnk; intros []|].
    unfold copies in *. cbn. rewrite Hnk, no_copies in *. exists [].
    symmetry in Hall. apply app_eq_nil in Hall as [-> _]. by split; [|left]. }
  destruct Hf as [Hk Hd]; [done|].
  destruct (exec_forwards _ _ _ nk a s0 s He Hown Hk Happ Hd)
    as [_ [(Hc & Hfw & Hdead)|(e & res & Hnd & Hfw & Hsend & Hr)]].
  - apply collected_still; [done|done| |done]. intros log [Hb (missing & Hall & Hmiss)].
    split; cbn; [by rewrite Hfw|]. unfold since, copies in *. cbn. rewrite Hfw. exists missing.
    split; [exact Hall|]. destruct Hmiss as [?|Hm]; [by left|right]. by apply Hdead.
  - by apply (collected_event p j o nk e res s pc).
Qed.

(** *** A step of the subscription *)
Lemma hog_exec db ch pc ch' pc' :
  request_exec (hog_request store record_type args) i db ch pc = Some (ch', pc') → settled pc →
  settled pc' ∧ (over pc' ∨ ∀ frames, hog_sub ch pc frames → hog_sub ch' pc' frames).
Proof.
  unfold request_exec, sub_exec, hog_request. cbn [rq_args rq_store rq_record rq_message rq_stream].
  destruct pc as [|sender1 keys1 [|k todo]|rt|msg|]; intros Hx Hset; [done| |done| |done|done].
  - unfold start_stream_task, m_bind in Hx. rewrite Hnode in Hx.
    destruct (emit _ sender1) as [[[]|msg] w] eqn:He; injection Hx as <- <-; (split; [done|]); [right|by left].
    intros frames Hsub. inversion Hsub as [queue Hq|]; subst. rewrite emit_whole in He by done.
    injection He as <-. by apply (HogForwards _ [] frames).
  - unfold channel_recv in Hx. destruct (channels ch !! i) as [[[|buf q] open]|] eqn:Hq.
    1,3: destruct (no_sender i ch); [injection Hx as <- <-|done]; (split; [done|by left]).
    destruct (realtime_step rt buf _) as [rt' ch1] eqn:Hrt.
    destruct rt' as [rt'|]; injection Hx as <- <-; (split; [done|]); [right|by left].
    intros frames Hsub. inversion Hsub as [|popped queue Hq' Hrt' Hfr]; subst. rewrite Hq in Hq'.
    injection Hq' as <- ->. unfold realtime_step in Hrt.
    cbn [rt_last_ts rt_wire rt_remove_keys rt_channel] in Hrt.
    fold (frame_ts buf) in Hrt.
    replace (popped ++ buf :: q) with ((popped ++ [buf]) ++ q) by (by rewrite <- app_assoc).
    destruct (Z.ltb_spec (frame_ts buf) 0) as [Hlt|Hge].
    + injection Hrt as <- <-.
      replace (filter (λ b, 0 ≤ frame_ts b) popped) with (filter (λ b, 0 ≤ frame_ts b) (popped ++ [buf])).
      { apply HogForwards. apply lookup_insert_eq. }
      by rewrite filter_app, filter_cons, filter_nil, decide_False, app_nil_r by lia.
    + rewrite emit_whole, wrote_app in Hrt by apply wrote_whole. injection Hrt as <- <-. cbn [app].
      replace ((SendBytes <$> filter (λ b, 0 ≤ frame_ts b) popped) ++ [SendBytes buf])
        with (SendBytes <$> filter (λ b, 0 ≤ frame_ts b) (popped ++ [buf])).
      { apply HogForwards. apply lookup_insert_eq. }
      by rewrite filter_app, filter_cons, filter_nil, decide_True, fmap_app by lia.
Qed.

(** *** The invariant *)
Lemma told_opened p source rt input log frames :
  (length (y_streams (pl_system p0)) ≤ length (y_streams (pl_system p)))%nat →
  Forall2 (frame_from p) log frames → told p log →
  told (mk_plane (open_stream source rt input (pl_system p)) (pl_subs p)) log.
Proof.
  intros Hlen Hframes Htold j o. cbn. intros [Ho|[Hge Ho]]%lookup_app_Some; [by apply Htold|].
  apply list_lookup_singleton_Some in Ho as [Hj <-].
  assert (before j = 0%nat) as Hb by (unfold before; by rewrite lookup_ge_None_2 by lia).
  assert (events_of j log = []) as Hev.
  { clear Htold. induction Hframes as [|je b log frames (o & Ho & _) _ IH]; [done|].
    unfold events_of. cbn. rewrite decide_False; [exact IH|]. intros E. apply lookup_lt_Some in Ho. lia. }
  unfold told_by, since. rewrite Hb, Hev. cbn. split; [lia|]. exists []. by split; [|left].
Qed.

Lemma hog_inv_collected p p' :
  (∀ log frames, Forall2 (frame_from p) log frames → told p log →
     Forall2 (frame_from p') log frames ∧ told p' log) →
  ∀ pc pc', (∀ frames, hog_sub (table p) pc frames → hog_sub (table p') pc' frames) →
  collected p pc → collected p' pc'.
Proof.
  intros Hlog pc pc' Hsub (log & frames & Hf & Hs & Ht). destruct (Hlog log frames Hf Ht) as [? ?].
  exists log, frames. auto.
Qed.

Lemma hog_inv_step p p' : Step p p' → hog_inv p → hog_inv p'.
Proof.
  intros Hstep [Hinv Hlen (pc & Hi & Hset & Hcol)].
  assert (held p' → held p) as Hback by (by eapply held_back).
  pose proof (plane_inv_step _ _ Hstep Hinv) as Hinv'.
  destruct Hstep as [j o a s p Hj Hown He|source header input rt p Hr Hn Hin|y p Hy Hch Hstr|r p
    |j r pcj ch pcj' p Hj He].
  - split; [done|cbn; by rewrite length_insert|]. exists pc. split_and!; [done|done|].
    destruct Hcol as [?|Hcol]; [by left|right]. intros Hh%Hback.
    by eapply collected_stream; [| | | | |done|auto].
  - split; [done|cbn; rewrite length_app; lia|]. exists pc. split_and!; [done|done|].
    destruct Hcol as [?|Hcol]; [by left|right]. intros Hh%Hback.
    eapply (hog_inv_collected p); [|by intros frames|by apply Hcol].
    intros log frames Hf Ht. split; [|by eapply told_opened]. eapply Forall2_impl; [exact Hf|].
    intros je b (o & Ho & Hb). exists o. split; [|done]. cbn. by apply lookup_app_l_Some.
  - split; [done|cbn; by rewrite Hstr|]. exists pc. split_and!; [done|done|].
    destruct Hcol as [?|Hcol]; [by left|right]. intros Hh%Hback.
    eapply (hog_inv_collected p); [|cbn; by rewrite Hch|by apply Hcol].
    unfold frame_from, told, told_by. cbn. by rewrite Hstr.
  - split; [done|done|]. exists pc. split_and!; [by apply lookup_app_l_Some|done|].
    destruct Hcol as [?|Hcol]; [by left|right]. intros Hh%Hback. by apply Hcol.
  - split; [done|done|]. destruct (decide (j = i)) as [->|Hne].
    + rewrite Hi in Hj. injection Hj as <- <-. exists pcj'.
      cbn. rewrite list_lookup_insert_eq by (by eapply lookup_lt_Some).
      destruct (hog_exec _ _ _ _ _ He Hset) as [? [?|Hsub]]; (split_and!; [done|done|]); [by left|].
      destruct Hcol as [Hover|Hcol]; [by destruct pc|]. right. intros Hh%Hback.
      by eapply (hog_inv_collected p); [|exact Hsub|apply Hcol].
    + exists pc. cbn. rewrite list_lookup_insert_ne by done. split_and!; [done|done|].
      destruct Hcol as [?|Hcol]; [by left|right]. intros Hh%Hback.
      destruct (request_exec_table _ _ _ _ _ _ _ He (pi_subs _ Hinv j _ Hj)) as (_ & Hother & _).
      eapply (hog_inv_collected p); [done| |by apply Hcol]. intros frames. apply hog_sub_frame. cbn.
      by apply Hother.
Qed.
End hog.

Lemma hog_keys_hogs source record_type targets keys :
  hog_keys source record_type targets = Ok keys → hogs keys.
Proof.
  revert keys. induction targets as [|t targets IH]; intros keys; cbn; [intros [= <-]; constructor|].
  destruct (hog_key source record_type t) as [k|] eqn:Hk; [|done]. cbn.
  destruct (hog_keys source record_type targets) as [ks|]; [|done]. intros [= <-].
  constructor; [|by apply IH]. destruct source as [src|]; [|done]. injection Hk as <-.
  apply str_contains_spec. by exists "", (nul +:+ src +:+ nul +:+ t +:+ nul +:+ record_type).
Qed.

(** C5: While a hog's keys stay registered, it gets of every ingest stream exactly
    the events that the stream puts into the channels: one copy for each key that
    fits the stream (none for the others), in the order of the stream, each with
    the name of its source; of a stream that died as it sent its last event,
    copies of this one may be missing.  Of all that only the events with a time
    stamp before 1970 are not forwarded. *)
Theorem hog_stream_complete {T} `{!Bincode T} `{!EventFilter T} (store : RawEventStore T)
    record_type args db p0 p i sender keys rt :
  sr_node_type args = Hog → whole sender → NoDup keys →
  rtc Step (start_plane db) p0 →
  pl_subs p0 !! i = Some (mk_subscription (hog_request store record_type args)
    (Registering sender keys [])) →
  rtc Step p0 p →
  pl_subs p !! i = Some (mk_subscription (hog_request store record_type args) (Forwarding rt)) →
  held i keys p →
  ∃ q0 queue log frames,
    channels (table p0) !! i = Some (mk_channel q0 true) ∧
    channels (table p) !! i = Some (mk_channel queue true) ∧
    Forall2 (frame_from p) log frames ∧
    (∀ ch, rt_wire <$> (realtime rt queue ch).1 = Some (wrote sender (SendHogStart record_type ::
       (SendBytes <$> filter (λ b, 0 ≤ frame_ts b) (q0 ++ frames))))) ∧
    ∀ j o, y_streams (pl_system p) !! j = Some o → ∃ missing,
      mjoin (replicate (copies keys o) <$> since p0 j o) = events_of j log ++ missing ∧
      (missing = [] ∨ dead (os_state o)).
Proof.
  intros Hnode Hwhole Hnodup Hrun0 Hi0 Hrun Hi Hheld.
  pose proof (plane_inv_reachable _ _ Hrun0) as Hinv0.
  destruct (pi_subs _ Hinv0 _ _ Hi0) as (_ & Hkeys & _ & q0 & Hq0). cbn in Hkeys.
  assert (hogs keys) as Hhogs.
  { unfold request_keys in Hkeys. cbn in Hkeys. case_match; [|done]. by eapply hog_keys_hogs. }
  assert (hog_inv store record_type args p0 i sender keys q0 p0) as Hstart.
  { split; [done|done|]. eexists. split_and!; [exact Hi0|done|right]. intros _. exists [], [].
    rewrite app_nil_r. split_and!; [constructor|by apply HogRegistered|]. intros j o Ho.
    assert (before p0 j = length (forwarded (os_state o))) as Hb by (unfold before; by rewrite Ho).
    unfold told_by, since. rewrite Hb, drop_all. split; [done|]. exists []. by split; [|left]. }
  assert (hog_inv store record_type args p0 i sender keys q0 p) as [_ _ (pc & Hi' & _ & Hcol)].
  { assert (∀ p1, rtc Step p1 p → hog_inv store record_type args p0 i sender keys q0 p1 →
      hog_inv store record_type args p0 i sender keys q0 p) as Hall by (induction 1; eauto using hog_inv_step).
    by apply (Hall p0). }
  rewrite Hi in Hi'. injection Hi' as <-. destruct Hcol as [?|Hcol]; [done|].
  destruct (Hcol Hheld) as (log & frames & Hframes & Hsub & Htold).
  inversion Hsub as [|popped queue Hq Hrt Hall]; subst rt. exists q0, queue, log, frames.
  split_and!; [done|done|done| |].
  - intros ch. rewrite realtime_whole by apply wrote_whole.
    cbn [fst rt_wire rt_last_ts fmap option_fmap option_map].
    by rewrite wrote_app, <- Hall, filter_app, fmap_app.
  - intros j o Ho. by apply Htold.
Qed.

(** ** A subscription without keys *)
Section cut.
Variables (i : ChannelId) (r : Request) (rt0 : Realtime) (q0 : list bytes).

Definition keyless_now p : Prop := ∀ k, subscriptions (table p) !! k ≠ Some i.
(** It has what was in the channel, and no more. *)
Definition only_old (ch : Channels) pc : Prop :=
  match pc with
  | Forwarding rt => ∃ popped queue, q0 = popped ++ queue ∧
      channels ch !! i = Some (mk_channel queue true) ∧
      ∀ s, (realtime rt0 popped s).1 = Some rt
  | Ended => True
  | _ => False
  end.

Lemma realtime_snoc rt bufs buf rt1 (s : Channels) :
  (∀ s, (realtime rt bufs s).1 = Some rt1) →
  (realtime rt (bufs ++ [buf]) s).1 = (realtime_step rt1 buf s).1.
Proof.
  revert rt. induction bufs as [|b bufs IH]; intros rt Hrt.
  - specialize (Hrt s). injection Hrt as <-. cbn. by destruct (realtime_step rt buf s) as [[rt'|] s'].
  - cbn in *. destruct (realtime_step rt b s) as [[rt'|] s'] eqn:E.
    + destruct (realtime_step_cases _ _ _ _ _ E) as [(w & [= ->] & ->)|[[=] _]]. apply IH.
      intros s1. specialize (Hrt s1). revert Hrt E. unfold realtime_step.
      destruct (_ <? _); [by intros Hrt [= <-]|]. destruct (emit _ _) as [[[]|] w']; [|done].
      by intros Hrt [= <-].
    + specialize (Hrt s). by rewrite E in Hrt.
Qed.

Lemma only_old_exec db ch pc ch' pc' :
  request_exec r i db ch pc = Some (ch', pc') → only_old ch pc → only_old ch' pc'.
Proof.
  destruct pc as [| |rt|msg|]; intros Hx Hold; try done. destruct Hold as (popped & queue & Hq0 & Hq & Hrt).
  unfold request_exec, sub_exec, channel_recv in Hx. rewrite Hq in Hx. destruct queue as [|buf queue].
  - destruct (no_sender i ch); [|done]. by injection Hx as <- <-.
  - destruct (realtime_step rt buf _) as [rt' ch1] eqn:Hs.
    destruct (realtime_step_cases _ _ _ _ _ Hs) as [(w & -> & ->)|[-> ->]]; injection Hx as <- <-; [|done].
    exists (popped ++ [buf]), queue. split_and!; [by rewrite <- app_assoc|apply lookup_insert_eq|].
    intros s. rewrite (realtime_snoc rt0 popped buf rt s) by done. revert Hs. unfold realtime_step.
    destruct (_ <? _); [by intros [= <-]|]. destruct (emit _ _) as [[[]|] w']; [|done]. by intros [= <-].
Qed.

Lemma cut_off_step p p' pc :
  Step p p' → plane_inv p → keyless_now p → pl_subs p !! i = Some (mk_subscription r pc) →
  only_old (table p) pc →
  keyless_now p' ∧ ∃ pc', pl_subs p' !! i = Some (mk_subscription r pc') ∧ only_old (table p') pc'.
Proof.
  destruct 1 as [j o a s p Hj Hown He|source header input rt p Hr Hn Hin|y p Hy Hch Hstr|r' p
    |j r' pcj ch pcj' p Hj He]; intros Hinv Hno Hi Hold.
  - destruct (stream_exec_table o a (pl_system p) s) as (Hsub & Hadd & _);
      [apply (pi_streams _ Hinv); by eapply list_elem_of_lookup_2|done|done|].
    split; [intros k; cbn; rewrite Hsub; apply Hno|]. exists pc. split; [done|].
    destruct (Hadd i) as (l & Hl & Hnil). rewrite Hnil in Hl by done.
    destruct pc as [| |rt|msg|]; try done. destruct Hold as (popped & queue & ? & Hq & ?).
    exists popped, queue. split_and!; [done| |done]. cbn. rewrite Hl, Hq. cbn. by rewrite add_frames_nil.
  - split; [done|]. by exists pc.
  - split; [intros k; cbn; rewrite Hch; apply Hno|]. exists pc. split; [done|]. cbn. by rewrite Hch.
  - split; [done|]. exists pc. split; [by apply lookup_app_l_Some|done].
  - destruct (request_exec_table _ _ _ _ _ _ _ He (pi_subs _ Hinv j _ Hj)) as (_ & Hother & Hadd & _).
    assert (keyless_now (mk_plane (put_channels ch (pl_system p))
      (<[j:=mk_subscription r' pcj']> (pl_subs p)))) as Hno'.
    { intros k [Hl|(-> & _ & sender & keys & todo & ->)]%Hadd; [by apply (Hno k)|].
      rewrite Hi in Hj. injection Hj as _ ->. done. }
    split; [done|]. cbn. destruct (decide (j = i)) as [->|Hne].
    + rewrite Hi in Hj. injection Hj as <- <-. exists pcj'.
      rewrite list_lookup_insert_eq by (by eapply lookup_lt_Some). split; [done|].
      by eapply only_old_exec.
    + exists pc. rewrite list_lookup_insert_ne by done. split; [done|].
      destruct pc as [| |rt|msg|]; try done. destruct Hold as (popped & queue & ? & Hq & ?).
      exists popped, queue. split_and!; [done| |done]. rewrite Hother by done. exact Hq.
Qed.

Lemma cut_off_run p p' pc :
  rtc Step p p' → plane_inv p → keyless_now p → pl_subs p !! i = Some (mk_subscription r pc) →
  only_old (table p) pc →
  ∃ pc', pl_subs p' !! i = Some (mk_subscription r pc') ∧ only_old (table p') pc'.
Proof.
  intros Hrun. revert pc. induction Hrun as [p|p p1 p' Hstep _ IH]; intros pc Hinv Hno Hi Hold; [by exists pc|].
  destruct (cut_off_step _ _ _ Hstep Hinv Hno Hi Hold) as (Hno1 & pc1 & Hi1 & Hold1).
  apply (IH pc1); [by eapply plane_inv_step|done..].
Qed.
End cut.

(** The table once a task has ended as its write failed *)
Lemma failed_task p a r rt buf q :
  plane_inv p → pl_subs p !! a = Some (mk_subscription r (Forwarding rt)) →
  channels (table p) !! a = Some (mk_channel (buf :: q) true) →
  rt_last_ts rt ≤ frame_ts buf → is_ok (emit (SendBytes buf) (rt_wire rt)).1 = false →
  ∃ ch, request_exec r a (y_db (pl_system p)) (table p) (Forwarding rt) = Some (ch, Ended) ∧
    subscriptions ch = subscriptions (unsubscribe (rt_remove_keys rt) (table p)) ∧
    ∀ c, c ≠ a → channels ch !! c = channels (table p) !! c.
Proof.
  intros Hinv Ha Hq Hts Hfail. destruct (pi_subs _ Hinv _ _ Ha) as (Hc & _ & _).
  unfold request_exec, sub_exec, channel_recv. rewrite Hq. unfold realtime_step. fold (frame_ts buf).
  destruct (Z.ltb_spec (frame_ts buf) (rt_last_ts rt)); [lia|].
  destruct (emit _ _) as [[u|msg] w]; [done|]. eexists. split_and!; [done|done|].
  intros c Hne. cbn. by rewrite Hc, lookup_alter_ne, lookup_insert_ne.
Qed.

(** C6: The keys of a subscription are removed by their names: when the stream of a
    client fails that has subscribed again under the same keys, the task of the
    old subscription takes the keys of the new one away.  Whatever the ingest
    streams do then, the new subscription gets nothing but what already waits in
    its channel. *)
Theorem stolen_keys db p a b ra rb rta rtb buf q qb :
  rtc Step (start_plane db) p → a ≠ b →
  pl_subs p !! a = Some (mk_subscription ra (Forwarding rta)) →
  pl_subs p !! b = Some (mk_subscription rb (Forwarding rtb)) →
  (∀ k, k ∈ rt_remove_keys rtb → k ∈ rt_remove_keys rta) →
  channels (table p) !! a = Some (mk_channel (buf :: q) true) →
  channels (table p) !! b = Some (mk_channel qb true) →
  rt_last_ts rta ≤ frame_ts buf → is_ok (emit (SendBytes buf) (rt_wire rta)).1 = false →
  ∃ p1, Step p p1 ∧ pl_subs p1 !! a = Some (mk_subscription ra Ended) ∧
    ∀ p', rtc Step p1 p' →
      ∃ pc, pl_subs p' !! b = Some (mk_subscription rb pc) ∧ only_old b rtb qb (table p') pc.
Proof.
  intros Hrun Hne Ha Hb Hsame Hqa Hqb Hts Hfail. pose proof (plane_inv_reachable _ _ Hrun) as Hinv.
  destruct (failed_task p a ra rta buf q Hinv Ha Hqa Hts Hfail) as (ch & He & Hsub & Hch).
  pose proof (PSubscription notify_source retention_duration a ra _ ch Ended p Ha He) as Hstep.
  eexists. split; [exact Hstep|]. split; [cbn; by rewrite list_lookup_insert_eq by (by eapply lookup_lt_Some)|].
  intros p' Hrun'. apply (cut_off_run b rb rtb qb _ p' (Forwarding rtb) Hrun').
  - by eapply plane_inv_step.
  - intros k. cbn. rewrite Hsub. intros [Hl Hk]%unsubscribe_lookup.
    destruct (pi_keys _ Hinv k b Hl) as (sb & Hsb & Hlead). rewrite Hb in Hsb. injection Hsb as <-.
    apply Hk, Hsame, Hlead.
  - cbn. by rewrite list_lookup_insert_ne.
  - exists [], qb. split_and!; [done| |done]. cbn. by rewrite Hch.
Qed.
End plane.

(** ** Witnesses: two sources and hogs *)
#[local] Existing Instance undecoded | 100.
#[local] Existing Instances hop_bincode hop_filter.

(** A schedule: a step of the receiver of a stream, or of a subscription *)
Inductive Move := MStream (j : nat) | MSub (i : nat).
Definition move (m : Move) (p : Plane) : option Plane :=
  match m with
  | MStream j =>
      o ← y_streams (pl_system p) !! j;
      s ← stream_exec o (ARecv true false) (pl_system p);
      Some (mk_plane (put_stream j o s (pl_system p)) (pl_subs p))
  | MSub i =>
      sb ← pl_subs p !! i;
      '(ch, pc) ← request_exec (sb_request sb) i (y_db (pl_system p)) (y_channels (pl_system p)) (sb_pc sb);
      Some (mk_plane (put_channels ch (pl_system p)) (<[i := mk_subscription (sb_request sb) pc]> (pl_subs p)))
  end.
Fixpoint moves (l : list Move) (p : Plane) : option Plane :=
  match l with [] => Some p | m :: l => p ← move m p; moves l p end.

Lemma moves_rtc l p p' : moves l p = Some p' → rtc (Plane.Step true 1) p p'.
Proof.
  revert p. induction l as [|m l IH]; intros p; cbn; [by intros [= ->]|].
  destruct (move m p) as [p1|] eqn:Hm; [|done]. cbn. intros Hl%IH. eapply rtc_l; [|exact Hl].
  unfold move in Hm. destruct m as [j|i].
  - destruct (y_streams (pl_system p) !! j) as [o|] eqn:Hj; [|done]. cbn [mbind option_bind] in Hm.
    destruct (stream_exec o _ _) as [s|] eqn:He; [|done]. injection Hm as <-.
    by apply (PStream true 1 j o (ARecv true false) s).
  - destruct (pl_subs p !! i) as [[r pc]|] eqn:Hi; [|done]. cbn [mbind option_bind sb_request sb_pc] in Hm.
    destruct (request_exec r i _ _ pc) as [[ch pc']|] eqn:He; [|done]. injection Hm as <-.
    by eapply PSubscription.
Qed.

Definition hog_args (sources : list string) (w : Wire) : StreamRequest RequestHogStream :=
  mk_stream_request (RequestHogStream.mk 0 (Some sources)) (Some "h1") None Hog (Ok w).
Definition hog (sources : list string) (w : Wire) : Request :=
  hog_request hop_store RequestStreamRecord.Conn (hog_args sources w).
Definition conn_route (source : string) : Route :=
  mk_route RawEventKind.Conn (Some (NetworkKey.new source "conn")) "conn".

(** Both sources have opened a stream, and the requests have come. *)
Definition two_sources (rs : list Request) : Plane :=
  mk_plane
    (open_stream "src2" (conn_route "src2") (events [([Byte.x08], 3); ([Byte.x09], -4)])
      (open_stream "src1" (conn_route "src1") (events [([Byte.x07], 5);
        ([Byte.x06], 6)]) (start_system demo_db)))
    ((λ r, mk_subscription r Requested) <$> rs).

Lemma requests_rtc rs p :
  rtc (Plane.Step true 1) p (mk_plane (pl_system p) (pl_subs p ++ ((λ r, mk_subscription r Requested) <$> rs))).
Proof.
  revert p. induction rs as [|r rs IH]; intros p; [cbn; rewrite app_nil_r; by destruct p|].
  eapply rtc_l; [apply (PRequest true 1 r)|].
  specialize (IH (mk_plane (pl_system p) (pl_subs p ++ [mk_subscription r Requested]))).
  cbn in IH. by rewrite <- app_assoc in IH.
Qed.

Lemma two_sources_rtc rs : rtc (Plane.Step true 1) (start_plane demo_db) (two_sources rs).
Proof.
  eapply rtc_l; [apply (POpened true 1 "src1" (Ok (u32_to_le_bytes 0)) (events [([Byte.x07], 5);
    ([Byte.x06], 6)]) (conn_route "src1"))|].
  { vm_compute. reflexivity. }
  { concrete. }
  { repeat constructor; cbn; concrete. }
  eapply rtc_l; [apply (POpened true 1 "src2" (Ok (u32_to_le_bytes 0)) (events [([Byte.x08], 3);
    ([Byte.x09], -4)]) (conn_route "src2"))|].
  { vm_compute. reflexivity. }
  { concrete. }
  { repeat constructor; cbn; concrete. }
  apply (requests_rtc rs (mk_plane _ [])).
Qed.

(** A hog asks for one source and for all: it has two keys. *)
Definition both_keys : list string :=
  ["hog" +:+ nul +:+ "h1" +:+ nul +:+ "src1" +:+ nul +:+ "conn";
   "hog" +:+ nul +:+ "h1" +:+ nul +:+ "all" +:+ nul +:+ "conn"].
Definition registered_moves : list Move := replicate 3 (MSub 0).
Definition event_moves : list Move :=
  replicate 4 (MStream 0) ++ replicate 4 (MStream 1) ++ replicate 4 (MSub 0).
Definition hog_both : Request := hog ["src1"; "all"] demo_wire.
Definition frame (source : string) (e : bytes * Z) : WireCall :=
  SendBytes (default [] (result_ok (hog_frame e source))).

(** The event of [src1] fits both keys and comes twice. *)
Definition both_calls : list WireCall := [
  SendHogStart RequestStreamRecord.Conn;
  frame "src1" ([Byte.x07], 5); frame "src1" ([Byte.x07], 5); frame "src2" ([Byte.x08], 3)].

Lemma hog_both_states :
  ∃ p0 p rt, moves registered_moves (two_sources [hog_both]) = Some p0 ∧ moves event_moves p0 = Some p ∧
    pl_subs p0 !! 0%nat = Some (mk_subscription hog_both (Registering demo_wire both_keys [])) ∧
    pl_subs p !! 0%nat = Some (mk_subscription hog_both (Forwarding rt)) ∧
    held 0 both_keys p ∧ calls (rt_wire rt) = both_calls.
Proof.
  assert ((λ p0, (pl_subs p0 !! 0%nat, p ← moves event_moves p0; Some (
      (sb_request <$> pl_subs p !! 0%nat,
       sb ← pl_subs p !! 0%nat; match sb_pc sb with Forwarding rt => Some (calls (rt_wire rt)) | _ => None end),
      (λ k, subscriptions (y_channels (pl_system p)) !! k) <$> both_keys)))
    <$> moves registered_moves (two_sources [hog_both]) =
    Some (Some (mk_subscription hog_both (Registering demo_wire both_keys [])),
      Some ((Some hog_both, Some both_calls), [Some 0%nat; Some 0%nat]))) as E
    by (vm_compute; reflexivity).
  destruct (moves registered_moves (two_sources [hog_both])) as [p0|]; [|discriminate E].
  apply (inj Some), pair_eq in E as [Hi0 E].
  destruct (moves event_moves p0) as [p|] eqn:Hp; [|discriminate E].
  apply (inj Some), pair_eq in E as [E Hheld]. apply pair_eq in E as [Hr Hc].
  destruct (pl_subs p !! 0%nat) as [[r pc]|] eqn:Hi; [|discriminate Hr]. apply (inj Some) in Hr.
  cbn [sb_request] in Hr. subst r.
  cbn [mbind option_bind sb_pc] in Hc. destruct pc as [| |rt| |]; try discriminate Hc. apply (inj Some) in Hc.
  exists p0, p, rt. split_and!; [done|exact Hp|exact Hi0|exact Hi| |exact Hc].
  injection Hheld as H1 H2. intros k [->|[->|[]%elem_of_nil]%elem_of_cons]%elem_of_cons; assumption.
Qed.

Lemma hog_stream_complete_witness :
  ∃ p0 p rt, rtc (Plane.Step true 1) (start_plane demo_db) p0 ∧ rtc (Plane.Step true 1) p0 p ∧
    calls (rt_wire rt) = both_calls ∧
    ∃ q0 queue log frames,
      channels (y_channels (pl_system p)) !! 0%nat = Some (mk_channel queue true) ∧
      Forall2 (frame_from p) log frames ∧
      (∀ ch, rt_wire <$> (realtime rt queue ch).1 = Some (wrote demo_wire (SendHogStart
        RequestStreamRecord.Conn ::
         (SendBytes <$> filter (λ b, 0 ≤ frame_ts b) (q0 ++ frames))))) ∧
      ∀ j o, y_streams (pl_system p) !! j = Some o → ∃ missing,
        mjoin (replicate (copies both_keys o) <$> since p0 j o) = events_of j log ++ missing ∧
        (missing = [] ∨ dead (os_state o)).
Proof.
  destruct hog_both_states as (p0 & p & rt & Hp0 & Hp & Hi0 & Hi & Hheld & Hcalls).
  assert (rtc (Plane.Step true 1) (start_plane demo_db) p0) as Hrun0.
  { etrans; [apply (two_sources_rtc [hog_both])|]. exact (moves_rtc registered_moves _ _ Hp0). }
  pose proof (moves_rtc event_moves _ _ Hp) as Hrun.
  exists p0, p, rt. split_and!; [exact Hrun0|exact Hrun|exact Hcalls|].
  destruct (hog_stream_complete true 1 hop_store RequestStreamRecord.Conn (hog_args ["src1"; "all"] demo_wire)
    demo_db p0 p 0 demo_wire both_keys rt) as (q0 & queue & log & frames & _ & ? & ? & ? & ?);
    [reflexivity|reflexivity|concrete|exact Hrun0|exact Hi0|exact Hrun|exact Hi|exact Hheld|].
  exists q0, queue, log, frames. split_and!; assumption.
Defined.

(** A client loses its connection, with a frame waiting, and comes back. *)
Definition lost_wire : Wire := mk_wire [] (Some 1%nat).
Definition back_moves : list Move := replicate 3 (MSub 0) ++ replicate 3 (MStream 0) ++ replicate 3 (MSub 1).
Definition back_plane : Plane := two_sources [hog ["src1"] lost_wire; hog ["src1"] demo_wire].

Lemma back_states :
  ∃ p rta rtb buf, moves back_moves back_plane = Some p ∧
    pl_subs p !! 0%nat = Some (mk_subscription (hog ["src1"] lost_wire) (Forwarding rta)) ∧
    pl_subs p !! 1%nat = Some (mk_subscription (hog ["src1"] demo_wire) (Forwarding rtb)) ∧
    rt_remove_keys rta = rt_remove_keys rtb ∧
    channels (y_channels (pl_system p)) !! 0%nat = Some (mk_channel [buf] true) ∧
    channels (y_channels (pl_system p)) !! 1%nat = Some (mk_channel [] true) ∧
    rt_last_ts rta = 0 ∧ frame_ts buf = 5 ∧ writes_left (rt_wire rta) = Some 0%nat.
Proof.
  assert ((λ p, (sb_request <$> pl_subs p, (λ sb, match sb_pc sb with
        Forwarding rt => Some (rt_remove_keys rt, rt_last_ts rt,
          writes_left (rt_wire rt)) | _ => None end) <$> pl_subs p,
      channels (y_channels (pl_system p)) !! 0%nat, channels (y_channels (pl_system p)) !! 1%nat))
    <$> moves back_moves back_plane =
    Some ([hog ["src1"] lost_wire; hog ["src1"] demo_wire],
      [Some (take 1 both_keys, 0, Some 0%nat); Some (take 1 both_keys, 0, None)],
      Some (mk_channel [default [] (result_ok (hog_frame ([Byte.x07], 5) "src1"))] true),
        Some (mk_channel [] true))) as E
    by (vm_compute; reflexivity).
  destruct (moves back_moves back_plane) as [p|]; [|discriminate E].
  apply (inj Some) in E. apply pair_eq in E as [E H1]. apply pair_eq in E as [E H0].
  apply pair_eq in E as [Hr Hf].
  destruct (pl_subs p) as [|[ra pca] [|[rb pcb] l]] eqn:Hsubs; [discriminate Hr|discriminate Hr|].
  injection Hr as Hra Hrb _. injection Hf as Hfa Hfb _. cbn in Hra, Hrb, Hfa, Hfb.
  destruct pca as [| |rta| |]; try discriminate Hfa. destruct pcb as [| |rtb| |]; try discriminate Hfb.
  injection Hfa as Hka Hta Hwa. injection Hfb as Hkb _ _.
  exists p, rta, rtb. eexists.
  split_and!; [done|rewrite Hsubs, <- Hra; done|rewrite Hsubs, <- Hrb; done| |exact H0|exact H1|done| |done].
  - by rewrite Hka, Hkb.
  - vm_compute. reflexivity.
Qed.

Lemma stolen_keys_witness :
  ∃ p p1 rb rtb, rtc (Plane.Step true 1) (start_plane demo_db) p ∧ Plane.Step true 1 p p1 ∧
    pl_subs p !! 1%nat = Some (mk_subscription rb (Forwarding rtb)) ∧
    ∀ p', rtc (Plane.Step true 1) p1 p' → ∃ pc,
      pl_subs p' !! 1%nat = Some (mk_subscription rb pc) ∧ only_old 1 rtb [] (y_channels (pl_system p')) pc.
Proof.
  destruct back_states as (p & rta & rtb & buf & Hp & Ha & Hb & Hk & Hqa & Hqb & Ht & Hts & Hw).
  assert (rtc (Plane.Step true 1) (start_plane demo_db) p) as Hrun.
  { etrans; [apply two_sources_rtc|]. exact (moves_rtc back_moves _ _ Hp). }
  assert (is_ok (emit (SendBytes buf) (rt_wire rta)).1 = false) as Hfail by (unfold emit; by rewrite Hw).
  destruct (stolen_keys true 1 demo_db p 0 1 _ _ rta rtb buf [] [] Hrun ltac:(discriminate) Ha Hb
    ltac:(intros k; by rewrite Hk) Hqa Hqb ltac:(lia) Hfail) as (p1 & Hstep & _ & Hcut).
  exists p, p1, (hog ["src1"] demo_wire), rtb. split_and!; [exact Hrun|exact Hstep|exact Hb|exact Hcut].
Defined.
