(* ===== verification/EndToEnd.v ===== *)
(** * From ingestion to a query

    [Ingest] writes the database that [Pagination] reads, under the keys of
    [StorageKey]: what a source sends is what a search finds, when its stream
    runs alone and also beside everything else in [System]. *)

From Stdlib Require Import ZArith Lia.
From S2P Require Import Prelude Bytes Externals StorageKey NetAddr GigantoClient Events Filters.
From S2P Require Import Storage StorageSpec Demo Pagination PaginationSpec Channels Ingest IngestSpec.
From S2P Require Import Sources System SystemSpec.

Section ingest_to_query.
Context `{RocksDBSpec} `{ChronoLaws} `{Base64Laws} `{Client} `{HashOrder}.
Context `{Bincode string, Bincode Log, Bincode PeriodicTimeSeries, Bincode OpLog,
  Bincode Packet, Bincode Statistics, Bincode SecuLog}.
Context {F : Type} `{!RawEventFilter F} `{!KeyExtractor F}.
Context {T : Type} `{!Bincode T} `{!EventFilter T}.

(** A search over the store an event kind is kept in *)
Definition searches (f : F) (source : string) (st : RawEventStore T) (cf : string) : Prop :=
  get_start_key f = source ∧ get_mid_key f = None ∧ store_cf st = cf ∧
  0 ≤ lower_nanos (get_range_end_key f).1 ≤ i64_max.

(** C2: After a source has sent its events of a kind that is keyed by source and
    time stamp, and the receiver has come to its end, a search of this source
    finds for each time stamp of its window the last event sent with it, if it
    decodes and passes the filter, or, if none was sent, what was stored
    before; and nothing else. *)
Theorem ingested_event_found kind nk source cf evs db ch m' ch' acks' cnt' f (st : RawEventStore T) :
  plain_kind kind = true → no_nul source → Forall (λ e, is_i64 e.2) evs →
  healthy db → cf ∈ RAW_DATA_COLUMN_FAMILY_NAMES →
  Forall (λ e, is_close e.1 e.2 = false) evs →
  ingest_events kind nk source cf evs (cf_view db) ch [] 0 = Some (m', ch', acks', cnt') →
  searches f source st cf →
  ∃ n s', run kind nk source cf (replicate n (ARecv true false))
      (start_stream (events evs ++ [RFinishedEarly]) db ch) = Some s' ∧ s_recv s' = PDone (Ok tt) ∧
    ∀ ts (x : T), 0 ≤ ts ≤ i64_max →
      (event_key source None ts, x) ∈ results st f (s_db s') ↔
        lower_nanos (get_range_end_key f).1 ≤ ts ≤ upper_nanos (get_range_end_key f).2 ∧
        keeps f x = true ∧
        ∃ raw, bincode_deserialize raw = Ok x ∧
          match last (filter (λ e, e.2 = ts) evs) with
          | Some e => raw = e.1
          | None => cf_view db cf !! event_key source None ts = Some raw
          end.
Proof.
  intros Hk Hns Hts Hh Hcf Hcl Hspec (Hs & Hm & Hst & Hlo).
  destruct (receiver_reaches_end kind nk source cf evs db ch m' ch' acks' cnt' Hh Hcf Hcl Hspec)
    as (n & s' & Hrun & Hdone & _ & _ & _ & _ & Hview).
  exists n, s'. split_and!; [done|done|]. intros ts x Hr.
  rewrite (results_spec st f (s_db s') source None source None ts x), Hst, Hview by (done || by left).
  rewrite (ingest_events_lookup kind nk source cf evs (cf_view db) ch [] 0 m' ch' acks' cnt' ts)
    by (done || (unfold is_i64, i64_max, i64_min in *; lia)).
  destruct (last _) as [e|]; naive_solver.
Qed.

(** C3: Beside any other streams, connections, subscribers and retention ticks:
    the time stamp of every acknowledged event (of a kind keyed by source and
    time stamp) that no retention limit has passed has an entry, which a stream
    of this source sent with it or which was there at the start; a search of the
    source over a window with the time stamp finds it if it decodes and passes
    the filter. *)
Theorem acknowledged_event_found notify_source retention_duration db0 y o a f (st : RawEventStore T) :
  healthy db0 → (∀ s, is_Some (cf_view db0 "sources" !! s) → Byte.x00 ∉ s) →
  rtc (System.Step notify_source retention_duration) (start_system db0) y →
  limits_ok y → o ∈ y_streams y → plain_kind (rt_kind (os_route o)) = true →
  a ∈ s_acks (os_state o) → 0 ≤ a → ¬ outdated y a →
  searches f (os_source o) st (rt_cf (os_route o)) →
  lower_nanos (get_range_end_key f).1 ≤ a ≤ upper_nanos (get_range_end_key f).2 →
  ∃ raw,
    (event_entry (rt_kind (os_route o)) (os_source o) a db0 = Some raw ∨
     ∃ o', o' ∈ y_streams y ∧ os_source o' = os_source o ∧
       rt_kind (os_route o') = rt_kind (os_route o) ∧ REvent raw a ∈ os_input o') ∧
    ∀ x : T, bincode_deserialize raw = Ok x → keeps f x = true →
      (event_key (os_source o) None a, x) ∈ results st f (y_db y).
Proof.
  intros Hh Hsrc Hrun Hlim Hin Hp Hack Hpos Hout (Hs & Hm & Hst & Hlo) Hwin.
  pose proof (system_inv_reachable _ _ _ _ Hh Hsrc Hrun) as Hinv.
  destruct (acknowledged_stored db0 y o a Hinv Hin Hack Hpos) as (Hi & sent & _ & Hby).
  assert (0 ≤ a ≤ i64_max) as Ha by (unfold is_i64 in Hi; lia).
  pose proof (yi_streams _ _ Hinv o Hin) as (_ & _ & Hns & _ & Hkind & Hcf).
  destruct (yi_kept _ _ Hinv _ _ a sent Hlim Hp Ha Hby) as [[raw Hraw]|?]; [|done].
  exists raw. split.
  - destruct (yi_origin _ _ Hinv _ _ a raw Hp Hkind Hns Hi Hraw) as [?|(o' & Hin' & ? & ? & Hst')];
      [by left|right; exists o'; split_and!; [done..|]].
    eapply stored_data; [|done]. by apply (yi_streams _ _ Hinv).
  - intros x Hx Hkeep. rewrite results_spec by (done || by left).
    split; [done|]. split; [done|]. split; [done|]. split; [done|].
    exists raw. rewrite Hst, Hcf. done.
Qed.
End ingest_to_query.

(** ** Witness: the connection events of [IngestSpec.demo_input] *)
#[local] Existing Instance undecoded | 100.

Lemma ingested_event_found_witness :
  ∃ n s', run RawEventKind.Conn None "src1" "conn" (replicate n (ARecv true false))
      (start_stream (events demo_input ++ [RFinishedEarly]) demo_db no_channels) = Some s' ∧
    s_recv s' = PDone (Ok tt) ∧
    (event_key "src1" None 8, mk_blob [Byte.x03]) ∈ results demo_store demo_filter (s_db s').
Proof.
  destruct (ingested_event_found RawEventKind.Conn None "src1" "conn" demo_input demo_db no_channels
    demo_view no_channels [] 3 demo_filter demo_store) as (n & s' & Hrun & Hdone & Hfound).
  - reflexivity.
  - concrete.
  - concrete.
  - exact demo_healthy.
  - concrete.
  - concrete.
  - exact demo_loop.
  - split_and!; concrete.
  - exists n, s'. split; [exact Hrun|split; [exact Hdone|]].
    assert (0 ≤ 8 ≤ i64_max) as H8 by (split; concrete).
    apply (proj2 (Hfound 8 (mk_blob [Byte.x03]) H8)).
    split; [split; concrete|split; [reflexivity|]]. exists [Byte.x03]. split; reflexivity.
Defined.

Lemma acknowledged_event_found_witness :
  ∃ y raw, rtc (System.Step true 1) (start_system demo_db) y ∧
    ∀ x, bincode_deserialize raw = Ok x → keeps demo_filter x = true →
      (event_key "src1" None 7, x) ∈ results demo_store demo_filter (y_db y).
Proof.
  destruct demo_reaches as (y & o & Hrun & Ho & Hs & Hk & Hc & Hi & Ha & Hl & Hn).
  exists y. assert (o ∈ y_streams y) as Hin by (rewrite Ho; left).
  assert (plain_kind (rt_kind (os_route o)) = true) as Hp by (by rewrite Hk).
  assert (7 ∈ s_acks (os_state o)) as Hack by (rewrite Ha; left).
  destruct (acknowledged_event_found true 1 demo_db y o 7 demo_filter demo_store demo_healthy
    demo_sources_nul Hrun Hl Hin Hp Hack ltac:(discriminate) Hn) as (raw & _ & Hfound).
  - rewrite Hs, Hc. split_and!; concrete.
  - split; concrete.
  - exists raw. split; [exact Hrun|]. rewrite <- Hs. exact Hfound.
Defined.
